(** * havJSON: a shallow embedding of [havJSON.hpp] and its specification

    The development follows the header top to bottom: the enumerations and
    the token record, the [havJSONData] value class with its container
    methods, and the [havJSONStream] lexer, builder, linearizer, text writer
    and binary codec.

    Conventions.
    - A [char] is its byte value, a [Z] in [0, 255]; a [std::string] is a
      [list Z].  [s[i]] is [at_ s i]; reading the position [size s] yields
      ['\0'], as [std::string::operator[]] does.
    - A function that can throw returns a [result]; the exceptions are the
      ones of the source, with the message of the [std::runtime_error].
    - A [for] or [while] loop is a [Fixpoint] on a fuel argument that runs
      the loop body once per unit; the entry points supply fuel computed
      from the size of the input, and running out is reported as
      [out_of_fuel], which no theorem below accepts as a result. *)

From Stdlib Require Import String Ascii ZArith List Lia Bool SpecFloat Sorted.
Import ListNotations.
Open Scope Z_scope.

(** ** Characters and strings *)

Definition ch (a : ascii) : Z := Z.of_N (N_of_ascii a).
Arguments ch a%_char.

Definition str (s : string) : list Z := map ch (list_ascii_of_string s).

(** The double quote, and the control characters the source names by escape. *)
Definition DQ : Z := 34.
Definition ch_b : Z := 8.   (* '\b' *)
Definition ch_t : Z := 9.   (* '\t' *)
Definition ch_n : Z := 10.  (* '\n' *)
Definition ch_v : Z := 11.  (* '\v' *)
Definition ch_f : Z := 12.  (* '\f' *)
Definition ch_r : Z := 13.  (* '\r' *)

Definition size (s : list Z) : Z := Z.of_nat (length s).
Definition at_ (s : list Z) (i : Z) : Z := nth (Z.to_nat i) s 0.

(** Storing an integer into a [char] keeps its low eight bits. *)
Definition to_char (x : Z) : Z := x mod 256.

(** [std::string(const char* )]: the characters before the first NUL. *)
Fixpoint c_str (value : list Z) : list Z :=
  match value with
  | [] => []
  | c :: rest => if c =? 0 then [] else c :: c_str rest
  end.

(** ** Exceptions and results *)

Inductive exn : Type :=
| runtime_error (what : string)
| invalid_argument
| out_of_range
| bad_variant_access
| bad_optional_access
| undefined_behaviour (what : string)
| out_of_fuel.

Inductive result (A : Type) : Type :=
| Ok (a : A)
| Throw (e : exn).
Arguments Ok {A} a.
Arguments Throw {A} e.

Definition bind {A B : Type} (c : result A) (k : A -> result B) : result B :=
  match c with
  | Ok a => k a
  | Throw e => Throw e
  end.

Notation "x <- c ;; k" := (bind c (fun x => k))
  (at level 61, c at next level, right associativity).
Notation "' p <- c ;; k" := (bind c (fun x => match x with p => k end))
  (at level 61, p pattern, c at next level, right associativity).

(** ** Enumerations and records of the header *)

Inductive havJSONDataType : Type :=
| DT_Null | DT_Boolean | DT_Int | DT_UInt | DT_Long | DT_ULong
| DT_Int64 | DT_UInt64 | DT_Double | DT_String | DT_Array | DT_Object.

Inductive havJSONToken : Type :=
| None_
| LeftSquareBracket | LeftCurlyBracket | RightSquareBracket
| RightCurlyBracket | Colon | Comma
| Null | Boolean | Int | UInt | Long | ULong | Int64 | UInt64 | Double
| String_  (* = Name in Name/Value pair *)
| Value.   (* = String Value *)

Definition havJSONToken_eqb (a b : havJSONToken) : bool :=
  match a, b with
  | None_, None_ | LeftSquareBracket, LeftSquareBracket
  | LeftCurlyBracket, LeftCurlyBracket
  | RightSquareBracket, RightSquareBracket
  | RightCurlyBracket, RightCurlyBracket
  | Colon, Colon | Comma, Comma | Null, Null | Boolean, Boolean
  | Int, Int | UInt, UInt | Long, Long | ULong, ULong | Int64, Int64
  | UInt64, UInt64 | Double, Double | String_, String_ | Value, Value => true
  | _, _ => false
  end.

Record havJSONTokenValue : Type := TokenValue {
  mToken : havJSONToken;
  mValue : option (list Z)
}.

(** ** [havJSONStream]: character classes *)

Definition SkipWhitespaces (currentChar : Z) (ignoreSpace : bool) : bool :=
  if negb ignoreSpace && (currentChar =? ch " ") then true
  else if (currentChar =? ch "\") || (currentChar =? ch "/")
          || (currentChar =? ch_b) || (currentChar =? ch_f)
          || (currentChar =? ch_n) || (currentChar =? ch_r)
          || (currentChar =? ch_t) || (currentChar =? ch_v)
  then true
  else false.

Definition CheckToken (currentChar : Z) : havJSONToken :=
  if currentChar =? ch "[" then LeftSquareBracket
  else if currentChar =? ch "{" then LeftCurlyBracket
  else if currentChar =? ch "]" then RightSquareBracket
  else if currentChar =? ch "}" then RightCurlyBracket
  else if currentChar =? ch ":" then Colon
  else if currentChar =? ch "," then Comma
  else None_.

Definition GetTokenAsCharacter (currentToken : havJSONToken) : Z :=
  match currentToken with
  | LeftSquareBracket => ch "["
  | LeftCurlyBracket => ch "{"
  | RightSquareBracket => ch "]"
  | RightCurlyBracket => ch "}"
  | Colon => ch ":"
  | Comma => ch ","
  | _ => 0
  end.

(** ** [CodePointToString] *)

Definition CodePointToString (codePoint : Z) : list Z :=
  let value :=
    if codePoint <? 0x80 then
      [to_char codePoint; 0; 0; 0; 0]
    else if codePoint <? 0x800 then
      [to_char (Z.lor (Z.shiftr codePoint 6) 0xc0);
       to_char (Z.lor (Z.land codePoint 0x3f) 0x80); 0; 0; 0]
    else if codePoint <? 0x10000 then
      [to_char (Z.lor (Z.shiftr codePoint 12) 0xe0);
       to_char (Z.lor (Z.land (Z.shiftr codePoint 6) 0x3f) 0x80);
       to_char (Z.lor (Z.land codePoint 0x3f) 0x80); 0; 0]
    else if codePoint <? 0x110000 then
      [to_char (Z.lor (Z.shiftr codePoint 18) 0xf0);
       to_char (Z.lor (Z.land (Z.shiftr codePoint 12) 0x3f) 0x80);
       to_char (Z.lor (Z.land (Z.shiftr codePoint 6) 0x3f) 0x80);
       to_char (Z.lor (Z.land codePoint 0x3f) 0x80); 0]
    else [0; 0; 0; 0; 0]
  in c_str value.

(** ** Hexadecimal output and input

    [std::hex << x] writes [x] in lower-case base 16 without leading zeros;
    [std::setw (w) << std::setfill ('0')] pads it on the left to [w]
    characters. *)

Definition hex_char (d : Z) : Z := if d <? 10 then ch "0" + d else ch "a" + (d - 10).

Fixpoint hex_aux (n : nat) (x : Z) (acc : list Z) : list Z :=
  match n with
  | O => acc
  | S n' => if x =? 0 then acc else hex_aux n' (x / 16) (hex_char (x mod 16) :: acc)
  end.

Definition to_hex (x : Z) : list Z :=
  if x =? 0 then [ch "0"] else hex_aux 16 x [].

Definition setw_fill (w : nat) (fill : Z) (s : list Z) : list Z :=
  repeat fill (w - length s) ++ s.

Definition isdigit (c : Z) : bool := (ch "0" <=? c) && (c <=? ch "9").

(** [std::isxdigit] in the classic locale. *)
Definition isxdigit (c : Z) : bool :=
  isdigit c || ((ch "a" <=? c) && (c <=? ch "f")) || ((ch "A" <=? c) && (c <=? ch "F")).

Definition hex_value (c : Z) : Z :=
  if isdigit c then c - ch "0"
  else if (ch "a" <=? c) && (c <=? ch "f") then c - ch "a" + 10
  else c - ch "A" + 10.

(** [std::strtol (hexString, nullptr, 16)] on a string of hexadecimal
    digits (the only strings the lexer passes to it). *)
Definition strtol16 (hexString : list Z) : Z :=
  fold_left (fun acc c => acc * 16 + hex_value c) hexString 0.

(** ** [ConvertToEscapedString]: the outgoing escaper *)

(** [outputStringStream << "\\u" << std::hex << std::setw (4) <<
    std::setfill ('0') << x]. *)
Definition escape_u (x : Z) : list Z :=
  str "\u" ++ setw_fill 4 (ch "0") (to_hex x).

(** The loop over the continuation bytes,
    [for (byteCount = 1; byteCount < numOfBytes; ++byteCount)];
    [n] is [numOfBytes - 1]. *)
Fixpoint read_continuation (n : nat) (value : list Z) (index codePoint : Z)
  : result (Z * Z) :=
  match n with
  | O => Ok (index, codePoint)
  | S n' =>
      let index := index + 1 in
      if negb (Z.land (at_ value index) 0xc0 =? 0x80) then
        Throw (runtime_error "Invalid UTF-8 sequence!")
      else
        read_continuation n' value index
          (Z.lor (Z.shiftl codePoint 6) (Z.land (at_ value index) 0x3f))
  end.

(** One iteration of the [for] loop: the [switch] on [value[index]].  It
    returns the index of the last byte it consumed and the extended
    [resultValue]. *)
Definition ConvertToEscapedString_body (value : list Z) (index : Z)
    (resultValue : list Z) : result (Z * list Z) :=
  let c := at_ value index in
  if c =? DQ then Ok (index, resultValue ++ [ch "\"; DQ])
  else if c =? ch "\" then Ok (index, resultValue ++ str "\\")
  else if c =? ch_b then Ok (index, resultValue ++ str "\b")
  else if c =? ch_f then Ok (index, resultValue ++ str "\f")
  else if c =? ch_n then Ok (index, resultValue ++ str "\n")
  else if c =? ch_r then Ok (index, resultValue ++ str "\r")
  else if c =? ch_t then Ok (index, resultValue ++ str "\t")
  else if c =? ch_v then Ok (index, resultValue ++ str "\v")
  else
    '(numOfBytes, writeAsHex, codePoint) <-
      (if Z.land c 0x80 =? 0x00 then
         if c <? 0x1f then Ok (1%nat, true, Z.land c 0x7f)
         else Ok (1%nat, false, 0)
       else if Z.land c 0xe0 =? 0xc0 then Ok (2%nat, true, Z.land c 0x1f)
       else if Z.land c 0xf0 =? 0xe0 then Ok (3%nat, true, Z.land c 0x0f)
       else if Z.land c 0xf8 =? 0xf0 then Ok (4%nat, true, Z.land c 0x07)
       else Throw (runtime_error "Invalid UTF-8 sequence!")) ;;
    '(index, codePoint) <-
      read_continuation (numOfBytes - 1) value index codePoint ;;
    if writeAsHex then
      (* Code point is UTF-16 surrogate pair *)
      if (0x10000 <=? codePoint) && (codePoint <=? 0x10ffff) then
        let codePoint := codePoint - 0x10000 in
        let highSurrogate := codePoint / 0x400 + 0xd800 in
        let lowSurrogate := codePoint mod 0x400 + 0xdc00 in
        Ok (index, resultValue ++ escape_u highSurrogate ++ escape_u lowSurrogate)
      else
        Ok (index, resultValue ++ escape_u codePoint)
    else
      Ok (index, resultValue ++ [to_char (at_ value index)]).

Fixpoint ConvertToEscapedString_loop (fuel : nat) (value : list Z) (index : Z)
    (resultValue : list Z) : result (list Z) :=
  match fuel with
  | O => Throw out_of_fuel
  | S fuel' =>
      if size value <=? index then Ok resultValue
      else
        '(index, resultValue) <- ConvertToEscapedString_body value index resultValue ;;
        ConvertToEscapedString_loop fuel' value (index + 1) resultValue
  end.

Definition ConvertToEscapedString (value : list Z) : result (list Z) :=
  ConvertToEscapedString_loop (S (length value)) value 0 [].

(** ** [CheckForString]: the string scanner of the lexer *)

(** What one iteration of a scanning loop does: it returns from the
    function, or it goes on at [index + 1] with the text read so far. *)
Inductive iteration (A : Type) : Type :=
| Return (a : A)
| Next (index : Z) (tempValue : list Z).
Arguments Return {A} a.
Arguments Next {A} index tempValue.

(** The loop that reads the four characters after [\u]:
    [for (valueIndex = 0; valueIndex < 4; ++valueIndex)].  It yields the
    flag ([isUnicodeEscapeSequence], [surrogatePair]), [hexString] and
    the index it stopped at. *)
Fixpoint scan_hex (n : nat) (jsonStringStream : list Z) (index : Z)
    (flag : bool) (hexString : list Z) : result (bool * list Z * Z) :=
  match n with
  | O => Ok (flag, hexString, index)
  | S n' =>
      let index := index + 1 in
      if size jsonStringStream <=? index then
        Throw (runtime_error "Read beyond end of file!")
      else
        let currentCharInLoop := at_ jsonStringStream index in
        if negb (isxdigit currentCharInLoop) then Ok (false, hexString, index)
        else scan_hex n' jsonStringStream index true (hexString ++ [currentCharInLoop])
  end.

Definition CheckForString_body (jsonStringStream : list Z) (index : Z)
    (tempValue : list Z) : result (iteration (havJSONTokenValue * Z)) :=
  let currentChar := at_ jsonStringStream index in
  if currentChar =? DQ then
    Ok (Return (TokenValue Value (Some tempValue), index))
  else if currentChar =? ch "\" then
    let index := index + 1 in
    if size jsonStringStream <=? index then
      Throw (runtime_error "Read beyond end of file!")
    else
    let currentChar := at_ jsonStringStream index in
    if (currentChar =? DQ) || (currentChar =? ch "\") || (currentChar =? ch "/") then
      Ok (Next index (tempValue ++ [currentChar]))
    else if currentChar =? ch "b" then Ok (Next index (tempValue ++ [ch_b]))
    else if currentChar =? ch "f" then Ok (Next index (tempValue ++ [ch_f]))
    else if currentChar =? ch "n" then Ok (Next index (tempValue ++ [ch_n]))
    else if currentChar =? ch "r" then Ok (Next index (tempValue ++ [ch_r]))
    else if currentChar =? ch "t" then Ok (Next index (tempValue ++ [ch_t]))
    else if currentChar =? ch "u" then
      '(isUnicodeEscapeSequence, hexString, index) <-
        scan_hex 4 jsonStringStream index false [] ;;
      if isUnicodeEscapeSequence then
        let codePoint := strtol16 hexString in
        let index := index + 1 in
        if size jsonStringStream <=? index then
          Throw (runtime_error "Read beyond end of file!")
        else if at_ jsonStringStream index =? ch "\" then
          let index := index + 1 in
          if size jsonStringStream <=? index then
            Throw (runtime_error "Read beyond end of file!")
          else if at_ jsonStringStream index =? ch "u" then
            '(surrogatePair, hexString, index) <-
              scan_hex 4 jsonStringStream index false [] ;;
            if surrogatePair then
              if (0xd800 <=? codePoint) && (codePoint <=? 0xdbff) then
                let secondCodePoint := strtol16 hexString in
                if (0xdc00 <=? secondCodePoint) && (secondCodePoint <=? 0xdfff) then
                  (* codePoint = high surrogate, secondCodePoint = low surrogate *)
                  let surrogatePairValue :=
                    0x10000 + ((codePoint - 0xd800) * 0x400) + (secondCodePoint - 0xdc00) in
                  Ok (Next index (tempValue ++ CodePointToString surrogatePairValue))
                else
                  Throw (runtime_error "Invalid code point range for UTF-16 low surrogate pair!")
              else
                (* Set the index back by six characters *)
                Ok (Next (index - 6) (tempValue ++ CodePointToString codePoint))
            else
              Throw (runtime_error "Invalid code point for UTF-16 low surrogate pair!")
          else
            (* Set the index back by two characters *)
            Ok (Next (index - 2) (tempValue ++ CodePointToString codePoint))
        else
          (* Set the index back by one character *)
          Ok (Next (index - 1) (tempValue ++ CodePointToString codePoint))
      else
        (* Set the index back by one character; don't eat the u character *)
        Ok (Next (index - 1) (tempValue ++ [currentChar] ++ hexString))
    else if currentChar =? ch "v" then Ok (Next index (tempValue ++ [ch_v]))
    else Throw (runtime_error "Invalid escape character!")
  else
    Ok (Next index (tempValue ++ [currentChar])).

Fixpoint CheckForString_loop (fuel : nat) (jsonStringStream : list Z) (index : Z)
    (tempValue : list Z) : result (havJSONTokenValue * Z) :=
  match fuel with
  | O => Throw out_of_fuel
  | S fuel' =>
      if size jsonStringStream <=? index then
        Throw (runtime_error "Invalid string value!")
      else
        r <- CheckForString_body jsonStringStream index tempValue ;;
        match r with
        | Return x => Ok x
        | Next index tempValue =>
            CheckForString_loop fuel' jsonStringStream (index + 1) tempValue
        end
  end.

(** [index] is passed by reference: the scanner returns its final value
    with the token. *)
Definition CheckForString (index : Z) (jsonStringStream : list Z)
  : result (havJSONTokenValue * Z) :=
  CheckForString_loop (S (length jsonStringStream)) jsonStringStream (index + 1) [].

(** ** The C and C++ library functions the lexer and the builder call

    The width of [long] is the one platform parameter the header depends
    on: 32 bits under LLP64 (the [_WIN32] branch of the header) and under
    ILP32, 64 bits under LP64 (macOS, where [std::int64_t] is
    [long long], so that the alternatives of [havJSONVariant] are
    distinct types). *)

Inductive DataModel : Type :=
| LP64    (* long and unsigned long have 64 bits *)
| LLP64.  (* long and unsigned long have 32 bits *)

Definition long_bits (dm : DataModel) : Z :=
  match dm with
  | LP64 => 64
  | LLP64 => 32
  end.

Definition isspace (c : Z) : bool := (c =? ch " ") || ((ch_t <=? c) && (c <=? ch_r)).

Fixpoint skip_space (s : list Z) : list Z :=
  match s with
  | c :: rest => if isspace c then skip_space rest else s
  | [] => []
  end.

(** The decimal digits at the head of [s]: their value, or [None] when
    [s] does not start with a digit. *)
Fixpoint digits (s : list Z) (acc : Z) (seen : bool) : option Z :=
  match s with
  | c :: rest =>
      if isdigit c then digits rest (acc * 10 + (c - ch "0")) true
      else if seen then Some acc else None
  | [] => if seen then Some acc else None
  end.

(** The subject sequence of [strtol] and [strtoul] in base 10: white
    space, an optional sign, digits.  [None]: no conversion. *)
Definition strto_subject (s : list Z) : option (bool * Z) :=
  let s := skip_space s in
  let '(negative, s) :=
    match s with
    | c :: rest =>
        if c =? ch "-" then (true, rest)
        else if c =? ch "+" then (false, rest)
        else (false, s)
    | [] => (false, [])
    end in
  match digits s 0 false with
  | Some magnitude => Some (negative, magnitude)
  | None => None
  end.

(** [std::stoi], [std::stol], [std::stoll]: [std::invalid_argument] when
    there is no conversion, [std::out_of_range] when the value does not fit
    the [bits]-bit signed type. *)
Definition sto_signed (bits : Z) (s : list Z) : result Z :=
  match strto_subject s with
  | None => Throw invalid_argument
  | Some (negative, magnitude) =>
      let v := if negative then - magnitude else magnitude in
      if (- 2 ^ (bits - 1) <=? v) && (v <=? 2 ^ (bits - 1) - 1) then Ok v
      else Throw out_of_range
  end.

(** [std::stoul], [std::stoull]: a minus sign negates in the unsigned
    type, as [strtoul] does. *)
Definition sto_unsigned (bits : Z) (s : list Z) : result Z :=
  match strto_subject s with
  | None => Throw invalid_argument
  | Some (negative, magnitude) =>
      if magnitude <=? 2 ^ bits - 1 then
        Ok (if negative then (2 ^ bits - magnitude) mod 2 ^ bits else magnitude)
      else Throw out_of_range
  end.

Definition stoi : list Z -> result Z := sto_signed 32.
Definition stol (dm : DataModel) : list Z -> result Z := sto_signed (long_bits dm).
Definition stoll : list Z -> result Z := sto_signed 64.
Definition stoul (dm : DataModel) : list Z -> result Z := sto_unsigned (long_bits dm).
Definition stoull : list Z -> result Z := sto_unsigned 64.

(** [std::to_string] of an integer. *)
Fixpoint dec_aux (n : nat) (x : Z) (acc : list Z) : list Z :=
  match n with
  | O => acc
  | S n' => if x =? 0 then acc else dec_aux n' (x / 10) ((ch "0" + x mod 10) :: acc)
  end.

Definition to_string (x : Z) : list Z :=
  if x =? 0 then [ch "0"]
  else if x <? 0 then ch "-" :: dec_aux 20 (- x) []
  else dec_aux 20 x [].

(** *** [double]

    A [double] is an IEEE-754 binary64 number, [spec_float] with precision
    53.  The conversions below are the decimal ones of the C library,
    computed exactly on integers and rounded to nearest, ties to even.
    Of the subject sequences of [strtod] only the decimal form is read;
    the hexadecimal form and the words for infinity and NaN are not. *)

Definition double : Type := spec_float.

(** The nearest [double] to [num / den] ([num >= 0], [den > 0]). *)
Definition round_ratio (negative : bool) (num den : Z) : double :=
  if num =? 0 then S754_zero negative
  else
    let k := 66 + Z.log2 den - Z.log2 num in
    let '(q, r) :=
      if 0 <=? k then Z.div_eucl (num * 2 ^ k) den
      else Z.div_eucl num (den * 2 ^ (- k)) in
    binary_round_aux 53 1024 negative q (- k)
      (if r =? 0 then loc_Exact else loc_Inexact Lt).

(** The digits at the head of [s], counted, and the rest of [s]. *)
Fixpoint digits_rest (s : list Z) (acc : Z) (n : Z) : Z * Z * list Z :=
  match s with
  | c :: rest =>
      if isdigit c then digits_rest rest (acc * 10 + (c - ch "0")) (n + 1)
      else (acc, n, s)
  | [] => (acc, n, [])
  end.

(** [std::stod]: [std::invalid_argument] when there is no conversion,
    [std::out_of_range] when [strtod] reports [ERANGE] (the value
    overflows, or it is not zero and rounds below the normal range). *)
Definition stod (s : list Z) : result double :=
  let s := skip_space s in
  let '(negative, s) :=
    match s with
    | c :: rest =>
        if c =? ch "-" then (true, rest)
        else if c =? ch "+" then (false, rest)
        else (false, s)
    | [] => (false, [])
    end in
  let '(ipart, ni, s) := digits_rest s 0 0 in
  let '(mant, nf, s) :=
    match s with
    | c :: rest =>
        if c =? ch "." then
          let '(m, n, s') := digits_rest rest ipart 0 in (m, n, s')
        else (ipart, 0, s)
    | [] => (ipart, 0, s)
    end in
  if ni + nf =? 0 then Throw invalid_argument
  else
    let exponent :=
      match s with
      | c :: rest =>
          if (c =? ch "e") || (c =? ch "E") then
            match strto_subject rest with
            | Some (eneg, e) =>
                (* strtod takes no white space after the exponent mark *)
                match rest with
                | c' :: _ => if isspace c' then 0 else if eneg then - e else e
                | [] => 0
                end
            | None => 0
            end
          else 0
      | [] => 0
      end in
    let e10 := exponent - nf in
    let d :=
      if 0 <=? e10 then round_ratio negative (mant * 10 ^ e10) 1
      else round_ratio negative mant (10 ^ (- e10)) in
    match d with
    | S754_infinity _ => Throw out_of_range
    | S754_zero _ => if mant =? 0 then Ok d else Throw out_of_range
    | S754_finite _ m e =>
        if Z.pos (digits2_pos m) + e <? -1021 then Throw out_of_range else Ok d
    | S754_nan => Throw out_of_range
    end.

(** [x] written with [w] decimal digits, zeros on the left. *)
Fixpoint dec_fixed (w : nat) (x : Z) (acc : list Z) : list Z :=
  match w with
  | O => acc
  | S w' => dec_fixed w' (x / 10) ((ch "0" + x mod 10) :: acc)
  end.

(** Rounding [num / den] to the nearest integer, ties to even. *)
Definition round_div_even (num den : Z) : Z :=
  let q := num / den in
  let r := num mod den in
  if 2 * r <? den then q
  else if den <? 2 * r then q + 1
  else if Z.even q then q else q + 1.

(** The fixed notation with [p] digits after the point:
    [stream << std::fixed << std::setprecision (p) << d], and [printf]
    with [%.pf]. *)
Definition fixed (p : nat) (d : double) : list Z :=
  let body (negative : bool) (scaled : Z) :=
    let ipart := scaled / 10 ^ Z.of_nat p in
    (if negative then [ch "-"] else [])
      ++ (if ipart =? 0 then [ch "0"]
          else dec_aux (S (Z.to_nat (Z.log2 ipart))) ipart [])
      ++ [ch "."]
      ++ dec_fixed p (scaled mod 10 ^ Z.of_nat p) [] in
  match d with
  | S754_zero s => body s 0
  | S754_infinity s => (if s then [ch "-"] else []) ++ str "inf"
  | S754_nan => str "nan"
  | S754_finite s m e =>
      body s
        (if 0 <=? e then Z.pos m * 2 ^ e * 10 ^ Z.of_nat p
         else round_div_even (Z.pos m * 10 ^ Z.of_nat p) (2 ^ (- e)))
  end.

(** [std::to_string (double)] is [printf] with [%f]. *)
Definition to_string_double (d : double) : list Z := fixed 6 d.

(** The object representation of a [double], as [std::memcpy] between a
    [double] and a 64-bit integer sees it. *)
Definition double_of_bits (b : Z) : double :=
  let sign := Z.testbit b 63 in
  let exponent := Z.land (Z.shiftr b 52) 0x7ff in
  let fraction := Z.land b (2 ^ 52 - 1) in
  if exponent =? 0 then
    match fraction with
    | Z.pos m => S754_finite sign m (-1074)
    | _ => S754_zero sign
    end
  else if exponent =? 0x7ff then
    if fraction =? 0 then S754_infinity sign else S754_nan
  else
    match fraction + 2 ^ 52 with
    | Z.pos m => S754_finite sign m (exponent - 1075)
    | _ => S754_nan
    end.

Definition bits_of_double (d : double) : Z :=
  let signbit (s : bool) := if s then 2 ^ 63 else 0 in
  match d with
  | S754_zero s => signbit s
  | S754_infinity s => signbit s + 0x7ff * 2 ^ 52
  | S754_nan => 0x7ff8 * 2 ^ 48
  | S754_finite s m e =>
      if Z.pos m <? 2 ^ 52 then signbit s + Z.pos m
      else signbit s + (e + 1075) * 2 ^ 52 + (Z.pos m - 2 ^ 52)
  end.

(** ** [CheckForNumber], [CheckForLiteral]

    A loop that only moves forward over the input is a structural recursion
    on the input from [index] on, [from index s]. *)

Definition from (index : Z) (s : list Z) : list Z := skipn (Z.to_nat index) s.

Definition contains (c : Z) (s : list Z) : bool := existsb (Z.eqb c) s.

(** [for (; index < size; ++index)]: the literal runs to the next [','] or
    white space character. *)
Fixpoint CheckForNumber_loop (rest : list Z) (index : Z) (tempValue : list Z)
  : Z * list Z :=
  match rest with
  | [] => (index, tempValue)
  | currentChar :: rest' =>
      if (currentChar =? ch ",") || SkipWhitespaces currentChar false then
        (index, tempValue)
      else CheckForNumber_loop rest' (index + 1) (tempValue ++ [currentChar])
  end.

Definition UINT_MAX : Z := 2 ^ 32 - 1.

Section Lexer.

Variable dm : DataModel.

Definition CheckForNumber (index : Z) (jsonStringStream : list Z) (value : Z)
  : result (havJSONTokenValue * Z) :=
  let '(index, tempValue) :=
    CheckForNumber_loop (from index jsonStringStream) index [value] in
  let index := index - 1 in
  (* Check if we're dealing with a floating point value *)
  let foundDecimalPoint := contains (ch ".") tempValue in
  (* Check if the value contains an exponent *)
  let foundExponent := contains (ch "e") tempValue || contains (ch "E") tempValue in
  (* We're dealing with a signed value *)
  if at_ tempValue 0 =? ch "-" then
    if foundDecimalPoint || foundExponent then
      result <- stod tempValue ;;
      Ok (TokenValue Double (Some (fixed 15 result)), index)
    else
      match stoi tempValue with
      | Ok result => Ok (TokenValue Int (Some (to_string result)), index)
      | Throw out_of_range =>
          match stol dm tempValue with
          | Ok result => Ok (TokenValue Long (Some (to_string result)), index)
          | Throw out_of_range =>
              result <- stoll tempValue ;;
              Ok (TokenValue Int64 (Some (to_string result)), index)
          | Throw e => Throw e
          end
      | Throw e => Throw e
      end
  (* We're dealing with an unsigned value *)
  else
    if foundDecimalPoint || foundExponent then
      result <- stod tempValue ;;
      Ok (TokenValue Double (Some (fixed 15 result)), index)
    else
      match (testResult <- stoul dm tempValue ;;
             (* Check if value is in unsigned int range *)
             if UINT_MAX <? testResult then Throw out_of_range else Ok testResult) with
      | Ok result => Ok (TokenValue UInt (Some (to_string result)), index)
      | Throw out_of_range =>
          match stoul dm tempValue with
          | Ok result => Ok (TokenValue ULong (Some (to_string result)), index)
          | Throw out_of_range =>
              result <- stoull tempValue ;;
              Ok (TokenValue UInt64 (Some (to_string result)), index)
          | Throw e => Throw e
          end
      | Throw e => Throw e
      end.

Fixpoint list_eqb (a b : list Z) : bool :=
  match a, b with
  | [], [] => true
  | x :: a', y :: b' => (x =? y) && list_eqb a' b'
  | _, _ => false
  end.

Fixpoint CheckForLiteral_loop (literalValue : string) (rest : list Z)
    (index stringIndex : Z) (tempValue : list Z) : result (Z * list Z) :=
  match rest with
  | [] => Ok (index, tempValue)
  | currentChar :: rest' =>
      if negb (currentChar =? at_ (str literalValue) stringIndex) then
        Throw (runtime_error ("Literal value invalid: " ++ literalValue))
      else
        let tempValue := tempValue ++ [currentChar] in
        if list_eqb tempValue (str literalValue) then Ok (index, tempValue)
        else CheckForLiteral_loop literalValue rest' (index + 1) (stringIndex + 1) tempValue
  end.

Definition CheckForLiteral (index : Z) (jsonStringStream : list Z)
    (literalValue : string) : result (list Z * Z) :=
  '(index, tempValue) <-
    CheckForLiteral_loop literalValue (from index jsonStringStream) index 1
      [at_ (str literalValue) 0] ;;
  if negb (size tempValue =? size (str literalValue)) then
    Throw (runtime_error "Invalid literal value!")
  else Ok (tempValue, index).

(** ** [CheckTypeToken] *)

(** The [case] labels shared by the array branch and the last branch. *)
Definition starts_number (c : Z) : bool :=
  (c =? ch "-") || (c =? ch "+") || (c =? ch ".") || (c =? ch ":")
  || isdigit c || (c =? ch "e") || (c =? ch "E").

Definition starts_value (c : Z) : bool :=
  (c =? DQ) || (c =? ch "t") || (c =? ch "f") || (c =? ch "n") || (c =? ch "u")
  || starts_number c.

(** The block under those labels, which the two branches repeat. *)
Definition CheckValueToken (currentChar : Z) (index : Z) (jsonStringStream : list Z)
  : result (havJSONTokenValue * Z) :=
  if currentChar =? DQ then CheckForString index jsonStringStream
  else
    let index := index + 1 in
    '(tempValue, tempToken, index) <-
      (if currentChar =? ch "t" then
         '(v, i) <- CheckForLiteral index jsonStringStream "true" ;; Ok (v, Boolean, i)
       else if currentChar =? ch "f" then
         '(v, i) <- CheckForLiteral index jsonStringStream "false" ;; Ok (v, Boolean, i)
       else if currentChar =? ch "n" then
         '(v, i) <- CheckForLiteral index jsonStringStream "null" ;; Ok (v, Null, i)
       else Ok ([], Value, index)) ;;
    if starts_number currentChar then CheckForNumber index jsonStringStream currentChar
    else
      Ok (TokenValue tempToken (match tempValue with [] => None | _ => Some tempValue end),
          index).

Definition push_back {A : Type} (q : list A) (x : A) : list A := q ++ [x].

Definition structural (token : havJSONToken) : havJSONTokenValue := TokenValue token None.

(** Each branch returns the token, the final [index] and [mTokens]. *)
Fixpoint CheckTypeToken_object (rest : list Z) (index : Z) (jsonStringStream : list Z)
    (mTokens : list havJSONTokenValue)
  : result (havJSONTokenValue * Z * list havJSONTokenValue) :=
  match rest with
  | [] => Ok (structural LeftCurlyBracket, index, mTokens)
  | currentChar :: rest' =>
      if SkipWhitespaces currentChar false then
        CheckTypeToken_object rest' (index + 1) jsonStringStream mTokens
      else
        let token := CheckToken currentChar in
        if negb (havJSONToken_eqb token None_) then
          CheckTypeToken_object rest' (index + 1) jsonStringStream
            (push_back mTokens (structural token))
        else if currentChar =? DQ then
          '(result, index) <- CheckForString index jsonStringStream ;;
          Ok (TokenValue String_ (mValue result), index, mTokens)
        else Ok (structural None_, index, mTokens)
  end.

Fixpoint CheckTypeToken_array (rest : list Z) (index : Z) (jsonStringStream : list Z)
    (mTokens : list havJSONTokenValue)
  : result (havJSONTokenValue * Z * list havJSONTokenValue) :=
  match rest with
  | [] => Ok (structural LeftSquareBracket, index, mTokens)
  | currentChar :: rest' =>
      if SkipWhitespaces currentChar false then
        CheckTypeToken_array rest' (index + 1) jsonStringStream mTokens
      else if starts_value currentChar then
        '(result, index) <- CheckValueToken currentChar index jsonStringStream ;;
        Ok (result, index, mTokens)
      else if currentChar =? ch "{" then
        Ok (structural LeftCurlyBracket, index,
            push_back mTokens (structural LeftCurlyBracket))
      else if currentChar =? ch "[" then
        Ok (structural LeftSquareBracket, index,
            push_back mTokens (structural LeftSquareBracket))
      else Ok (structural None_, index, mTokens)
  end.

Fixpoint CheckTypeToken_other (structuralToken : havJSONToken) (rest : list Z)
    (index : Z) (jsonStringStream : list Z) (mTokens : list havJSONTokenValue)
  : result (havJSONTokenValue * Z * list havJSONTokenValue) :=
  match rest with
  | [] => Ok (structural structuralToken, index, mTokens)
  | currentChar :: rest' =>
      if SkipWhitespaces currentChar false then
        CheckTypeToken_other structuralToken rest' (index + 1) jsonStringStream mTokens
      else
        let token := CheckToken currentChar in
        if havJSONToken_eqb token None_ then
          if starts_value currentChar then
            '(result, index) <- CheckValueToken currentChar index jsonStringStream ;;
            Ok (result, index, mTokens)
          else Ok (structural None_, index, mTokens)
        else Ok (structural token, index, push_back mTokens (structural token))
  end.

Definition CheckTypeToken (structuralToken : havJSONToken) (index : Z)
    (jsonStringStream : list Z) (mTokens : list havJSONTokenValue)
  : result (havJSONTokenValue * Z * list havJSONTokenValue) :=
  match structuralToken with
  | LeftCurlyBracket => (* Object *)
      CheckTypeToken_object (from index jsonStringStream) index jsonStringStream mTokens
  | LeftSquareBracket => (* Array *)
      CheckTypeToken_array (from index jsonStringStream) index jsonStringStream mTokens
  | _ => (* Other types (e.g. Value) *)
      CheckTypeToken_other structuralToken (from index jsonStringStream) index
        jsonStringStream mTokens
  end.

(** ** [Tokenization] of a text *)

Record LexerState : Type := mkLexerState {
  lx_mTokens : list havJSONTokenValue;
  currentTypeToken : havJSONToken;
  typeTokens : list havJSONToken;
  typeTokenDepthLevels : list Z;
  depthLevel : Z
}.

Definition is_left (t : havJSONToken) : bool :=
  havJSONToken_eqb t LeftCurlyBracket || havJSONToken_eqb t LeftSquareBracket.

Definition is_right (t : havJSONToken) : bool :=
  havJSONToken_eqb t RightCurlyBracket || havJSONToken_eqb t RightSquareBracket.

Definition pop_back {A : Type} (q : list A) : list A := removelast q.

(** One iteration of the [for] loop at [index]: the state after it and the
    index it ends at (the loop then steps to the next one). *)
Definition Tokenization_body (jsonStringStream : list Z) (index : Z) (st : LexerState)
  : result (LexerState * Z) :=
  let currentChar := at_ jsonStringStream index in
  if SkipWhitespaces currentChar false then Ok (st, index)
  else
    let token := CheckToken currentChar in
    let st :=
      if negb (havJSONToken_eqb token None_) then
        let st :=
          if is_left token then
            mkLexerState (lx_mTokens st) token (push_back (typeTokens st) token)
              (if 0 <? depthLevel st
               then push_back (typeTokenDepthLevels st) (depthLevel st)
               else typeTokenDepthLevels st)
              (if 0 <? depthLevel st then depthLevel st + 1 else depthLevel st)
          else st in
        mkLexerState (push_back (lx_mTokens st) (structural token))
          (currentTypeToken st) (typeTokens st) (typeTokenDepthLevels st) (depthLevel st)
      else st in
    if is_right token then
      match typeTokens st with
      | [] => Ok (st, index)
      | _ :: _ =>
          let '(depthLevel', levels) :=
            match typeTokenDepthLevels st with
            | [] => (0, [])
            | _ :: _ => (last (typeTokenDepthLevels st) 0, pop_back (typeTokenDepthLevels st))
            end in
          match nth_error (typeTokens st) (Z.to_nat depthLevel') with
          | Some t =>
              Ok (mkLexerState (lx_mTokens st) t (pop_back (typeTokens st)) levels depthLevel',
                  index)
          | None => Throw (undefined_behaviour "typeTokens[depthLevel] is out of range")
          end
      end
    else
      let token := if havJSONToken_eqb token Comma then currentTypeToken st else token in
      let '(token, index) :=
        if havJSONToken_eqb token None_ then (currentTypeToken st, index - 1)
        else (token, index) in
      '(typeToken, index, mTokens) <-
        CheckTypeToken token (index + 1) jsonStringStream (lx_mTokens st) ;;
      let st :=
        mkLexerState mTokens (currentTypeToken st) (typeTokens st)
          (typeTokenDepthLevels st) (depthLevel st) in
      if negb (havJSONToken_eqb (mToken typeToken) None_) then
        if is_left (mToken typeToken) then
          Ok (mkLexerState (lx_mTokens st) (mToken typeToken)
                (push_back (typeTokens st) (mToken typeToken))
                (push_back (typeTokenDepthLevels st) (depthLevel st))
                (depthLevel st + 1),
              index)
        else
          Ok (mkLexerState (push_back (lx_mTokens st) typeToken) (currentTypeToken st)
                (typeTokens st) (typeTokenDepthLevels st) (depthLevel st),
              index)
      else Ok (st, index).

Fixpoint Tokenization_loop (fuel : nat) (jsonStringStream : list Z) (index : Z)
    (st : LexerState) : result LexerState :=
  match fuel with
  | O => Throw out_of_fuel
  | S fuel' =>
      if size jsonStringStream <=? index then Ok st
      else
        '(st, index) <- Tokenization_body jsonStringStream index st ;;
        Tokenization_loop fuel' jsonStringStream (index + 1) st
  end.

(** [Tokenization] fills the member [mTokens]; the [bool] it returns is
    [mTokens.size () > 0]. *)
Definition Tokenization (jsonStringStream : list Z)
  : result (list havJSONTokenValue) :=
  st <- Tokenization_loop (S (length jsonStringStream)) jsonStringStream 0
          (mkLexerState [] None_ [] [] 0) ;;
  Ok (lx_mTokens st).

End Lexer.

(** ** [havJSONData]: the value tree

    A node is its type tag [mType] and its [havJSONVariant] payload
    [mValue]; the two are set independently by the constructor
    [havJSONData (value, valueType)].  The children of a container are
    [std::shared_ptr]s; the builder only ever stores pointers to nodes it
    has just made, so a container owns its children and is modelled as
    holding them.

    [std::map<std::string, ...>] is the list of its entries in iteration
    order, that is by increasing key for [std::string]'s [operator<]. *)

Inductive havJSONData : Type :=
| Data (mType : havJSONDataType) (mValue : havJSONVariant)
with havJSONVariant : Type :=
| V_bool (b : bool)
| V_int (x : Z)
| V_uint (x : Z)
| V_long (x : Z)
| V_ulong (x : Z)
| V_int64 (x : Z)
| V_uint64 (x : Z)
| V_double (d : double)
| V_cstr (s : list Z)
| V_string (s : list Z)
| V_vector (v : list havJSONData)
| V_map (m : list (list Z * havJSONData)).

Definition getType (d : havJSONData) : havJSONDataType :=
  match d with Data t _ => t end.

Definition getValue (d : havJSONData) : havJSONVariant :=
  match d with Data _ v => v end.

Definition havJSONDataType_eqb (a b : havJSONDataType) : bool :=
  match a, b with
  | DT_Null, DT_Null | DT_Boolean, DT_Boolean | DT_Int, DT_Int
  | DT_UInt, DT_UInt | DT_Long, DT_Long | DT_ULong, DT_ULong
  | DT_Int64, DT_Int64 | DT_UInt64, DT_UInt64 | DT_Double, DT_Double
  | DT_String, DT_String | DT_Array, DT_Array | DT_Object, DT_Object => true
  | _, _ => false
  end.

(** *** [std::map] with [std::string] keys *)

(** [std::string::compare]: lexicographic on the bytes as
    [unsigned char]. *)
Fixpoint string_compare (a b : list Z) : comparison :=
  match a, b with
  | [], [] => Eq
  | [], _ :: _ => Lt
  | _ :: _, [] => Gt
  | x :: a', y :: b' =>
      match x ?= y with
      | Eq => string_compare a' b'
      | c => c
      end
  end.

Section Map.

Context {V : Type}.

Definition map_t : Type := list (list Z * V).

Fixpoint map_find (key : list Z) (m : map_t) : option V :=
  match m with
  | [] => None
  | (k, v) :: m' =>
      match string_compare key k with
      | Eq => Some v
      | _ => map_find key m'
      end
  end.

(** [insert ({key, value})]: no effect when the key is present. *)
Fixpoint map_insert (key : list Z) (value : V) (m : map_t) : map_t :=
  match m with
  | [] => [(key, value)]
  | (k, v) :: m' =>
      match string_compare key k with
      | Lt => (key, value) :: m
      | Eq => m
      | Gt => (k, v) :: map_insert key value m'
      end
  end.

Fixpoint map_erase (key : list Z) (m : map_t) : map_t :=
  match m with
  | [] => []
  | (k, v) :: m' =>
      match string_compare key k with
      | Eq => m'
      | _ => (k, v) :: map_erase key m'
      end
  end.

(** The entry [operator[]] or an iterator designates is replaced. *)
Fixpoint map_assign (key : list Z) (value : V) (m : map_t) : map_t :=
  match m with
  | [] => []
  | (k, v) :: m' =>
      match string_compare key k with
      | Eq => (k, value) :: m'
      | _ => (k, v) :: map_assign key value m'
      end
  end.

End Map.

(** *** Constructors *)

(** [havJSONData (havJSONDataType valueType = havJSONDataType::Null)] *)
Definition havJSONData_of_type (valueType : havJSONDataType) : havJSONData :=
  match valueType with
  | DT_Null => Data DT_Null (V_string (str "null"))
  | DT_Boolean => Data DT_Boolean (V_bool false)
  | DT_Int => Data DT_Int (V_int 0)
  | DT_UInt => Data DT_UInt (V_uint 0)
  | DT_Long => Data DT_Long (V_long 0)
  | DT_ULong => Data DT_ULong (V_ulong 0)
  | DT_Int64 => Data DT_Int64 (V_int64 0)
  | DT_UInt64 => Data DT_UInt64 (V_uint64 0)
  | DT_Double => Data DT_Double (V_double (S754_zero false))
  | DT_String => Data DT_String (V_string [])
  | DT_Array => Data DT_Array (V_vector [])
  | DT_Object => Data DT_Object (V_map [])
  end.

(** *** Container methods

    A method returns its result and the object after the call: an
    exception leaves whatever the method changed before it threw. *)

(** [void clear ()] *)
Definition clear (self : havJSONData) : result unit * havJSONData :=
  let after_array :=
    match getType self with
    | DT_Array =>
        match getValue self with
        | V_vector _ => Ok (Data (getType self) (V_vector []))
        | _ => Throw bad_variant_access
        end
    | _ => Ok self
    end in
  match after_array with
  | Throw e => (Throw e, self)
  | Ok self1 =>
      let after_object :=
        match getType self1 with
        | DT_Object =>
            match getValue self1 with
            | V_map _ => Ok (Data (getType self1) (V_map []))
            | _ => Throw bad_variant_access
            end
        | _ => Ok self1
        end in
      match after_object with
      | Throw e => (Throw e, self1)
      | Ok self2 => (Throw (runtime_error "Value is not an array or object!"), self2)
      end
  end.

(** [bool empty ()] *)
Definition empty (self : havJSONData) : result bool :=
  match getType self with
  | DT_Array =>
      match getValue self with
      | V_vector v => Ok (match v with [] => true | _ => false end)
      | _ => Throw bad_variant_access
      end
  | DT_Object =>
      match getValue self with
      | V_map m => Ok (match m with [] => true | _ => false end)
      | _ => Throw bad_variant_access
      end
  | _ => Throw (runtime_error "Value is not an array or object!")
  end.

(** [void push_back (std::shared_ptr<havJSONData> newValue)] *)
Definition array_push_back (newValue : havJSONData) (self : havJSONData)
  : result unit * havJSONData :=
  match getType self with
  | DT_Array =>
      match getValue self with
      | V_vector v => (Ok tt, Data (getType self) (V_vector (v ++ [newValue])))
      | _ => (Throw bad_variant_access, self)
      end
  | _ => (Throw (runtime_error "Value is not an array!"), self)
  end.

(** [void insert (std::string key, std::shared_ptr<havJSONData> newValue)] *)
Definition insert (key : list Z) (newValue : havJSONData) (self : havJSONData)
  : result unit * havJSONData :=
  match getType self with
  | DT_Object =>
      match getValue self with
      | V_map m => (Ok tt, Data (getType self) (V_map (map_insert key newValue m)))
      | _ => (Throw bad_variant_access, self)
      end
  | _ => (Throw (runtime_error "Value is not an object!"), self)
  end.

(** [void erase (std::map<...>::iterator itr)], for the iterator at [key]. *)
Definition erase (key : list Z) (self : havJSONData) : result unit * havJSONData :=
  match getType self with
  | DT_Object =>
      match getValue self with
      | V_map m => (Ok tt, Data (getType self) (V_map (map_erase key m)))
      | _ => (Throw bad_variant_access, self)
      end
  | _ => (Throw (runtime_error "Value is not an object!"), self)
  end.

(** [void remove (const std::string& key)].  [auto value = std::get<...>
    (mValue)] declares a map of its own, a copy of the one in [mValue];
    [find] and [erase] work on it and it dies at the [return]. *)
Definition remove (key : list Z) (self : havJSONData) : result unit * havJSONData :=
  match getType self with
  | DT_Object =>
      match getValue self with
      | V_map m =>
          let value := m in
          let value :=
            match map_find key value with
            | Some _ => map_erase key value
            | None => value
            end in
          (Ok tt, self)
      | _ => (Throw bad_variant_access, self)
      end
  | _ => (Throw (runtime_error "Value is not an object!"), self)
  end.

(** [bool contains (const std::string& key)] *)
Definition contains_key (key : list Z) (self : havJSONData) : result bool :=
  match getType self with
  | DT_Object =>
      match getValue self with
      | V_map m => Ok (match map_find key m with Some _ => true | None => false end)
      | _ => Throw bad_variant_access
      end
  | _ => Throw (runtime_error "Value is not an object!")
  end.

(** [size_type objectSize ()] *)
Definition objectSize (self : havJSONData) : result Z :=
  match getType self with
  | DT_Object =>
      match getValue self with
      | V_map m => Ok (Z.of_nat (length m))
      | _ => Throw bad_variant_access
      end
  | _ => Throw (runtime_error "Value is not an object!")
  end.

(** ** [ParseJSONContents]: the builder

    [tokenTypeReferences] holds raw pointers to the containers that are
    open, into the tree under [rootNode].  A pointer is modelled by the
    path from the root to the node it points to; the nodes the builder has
    made never move and are never removed while it runs. *)

Inductive step : Type :=
| Idx (i : nat)      (* the element [i] of a vector *)
| Key (k : list Z).  (* the entry with key [k] of a map *)

Fixpoint get_node (p : list step) (node : havJSONData) : option havJSONData :=
  match p with
  | [] => Some node
  | Idx i :: p' =>
      match getValue node with
      | V_vector v =>
          match nth_error v i with
          | Some child => get_node p' child
          | None => None
          end
      | _ => None
      end
  | Key k :: p' =>
      match getValue node with
      | V_map m =>
          match map_find k m with
          | Some child => get_node p' child
          | None => None
          end
      | _ => None
      end
  end.

Fixpoint list_assign {A : Type} (i : nat) (x : A) (l : list A) : list A :=
  match l, i with
  | [], _ => []
  | _ :: l', O => x :: l'
  | y :: l', S i' => y :: list_assign i' x l'
  end.

(** The tree with the node at [p] replaced by [f] of it. *)
Fixpoint update_node (p : list step) (f : havJSONData -> havJSONData)
    (node : havJSONData) : havJSONData :=
  match p with
  | [] => f node
  | Idx i :: p' =>
      match node with
      | Data t (V_vector v) =>
          match nth_error v i with
          | Some child => Data t (V_vector (list_assign i (update_node p' f child) v))
          | None => node
          end
      | _ => node
      end
  | Key k :: p' =>
      match node with
      | Data t (V_map m) =>
          match map_find k m with
          | Some child => Data t (V_map (map_assign k (update_node p' f child) m))
          | None => node
          end
      | _ => node
      end
  end.

Definition front {A : Type} (q : list A) : result A :=
  match q with
  | x :: _ => Ok x
  | [] => Throw (undefined_behaviour "front() of an empty deque")
  end.

Definition pop_front {A : Type} (q : list A) : list A := tl q.

Definition back {A : Type} (q : list A) : result A :=
  match q with
  | [] => Throw (undefined_behaviour "back() of an empty deque")
  | x :: q' => Ok (last q' x)
  end.

(** [token.mValue.value ()] *)
Definition value_ (o : option (list Z)) : result (list Z) :=
  match o with
  | Some v => Ok v
  | None => Throw bad_optional_access
  end.

(** The tokens that carry a value: [Value], [Null], [Boolean], [Int],
    [UInt], [Long], [ULong], [Int64], [UInt64], [Double]. *)
Definition is_value_token (t : havJSONToken) : bool :=
  match t with
  | Value | Null | Boolean | Int | UInt | Long | ULong | Int64 | UInt64 | Double => true
  | _ => false
  end.

(** Conversion of an integer to the [bits]-bit signed or unsigned type
    ([static_cast]). *)
Definition to_unsigned (bits : Z) (x : Z) : Z := x mod 2 ^ bits.

Definition to_signed (bits : Z) (x : Z) : Z :=
  let u := x mod 2 ^ bits in
  if u <? 2 ^ (bits - 1) then u else u - 2 ^ bits.

Section Builder.

Variable dm : DataModel.

(** The [switch (token.mToken)] that makes the node of a value token. *)
Definition make_value (token : havJSONTokenValue) : result havJSONData :=
  text <- value_ (mValue token) ;;
  match mToken token with
  | Null => Ok (Data DT_Null (V_string text))
  | Boolean => Ok (Data DT_Boolean (V_bool (list_eqb text (str "true"))))
  | Int => x <- stol dm text ;; Ok (Data DT_Int (V_int (to_signed 32 x)))
  | UInt => x <- stoul dm text ;; Ok (Data DT_UInt (V_uint (to_unsigned 32 x)))
  | Long => x <- stol dm text ;; Ok (Data DT_Long (V_long x))
  | ULong => x <- stoul dm text ;; Ok (Data DT_ULong (V_ulong x))
  | Int64 => x <- stoll text ;; Ok (Data DT_Int64 (V_int64 x))
  | UInt64 => x <- stoull text ;; Ok (Data DT_UInt64 (V_uint64 x))
  | Double => d <- stod text ;; Ok (Data DT_Double (V_double d))
  | _ => Ok (Data DT_String (V_string text))
  end.

Record BuilderState : Type := mkBuilderState {
  b_mTokens : list havJSONTokenValue;
  tokenTypeReferences : list (list step);
  rootNode : option havJSONData
}.

(** [tokenTypeReferences.back ()], and the node it points to. *)
Definition back_node (st : BuilderState) : result (list step * havJSONData) :=
  p <- back (tokenTypeReferences st) ;;
  match rootNode st with
  | None => Throw (undefined_behaviour "dangling pointer")
  | Some root =>
      match get_node p root with
      | Some node => Ok (p, node)
      | None => Throw (undefined_behaviour "dangling pointer")
      end
  end.

Definition set_root (st : BuilderState) (root : havJSONData) : BuilderState :=
  mkBuilderState (b_mTokens st) (tokenTypeReferences st) (Some root).

Definition set_tokens (st : BuilderState) (q : list havJSONTokenValue) : BuilderState :=
  mkBuilderState q (tokenTypeReferences st) (rootNode st).

Definition push_reference (st : BuilderState) (p : list step) : BuilderState :=
  mkBuilderState (b_mTokens st) (push_back (tokenTypeReferences st) p) (rootNode st).

(** [item->push_back (std::make_shared<havJSONData> (...))] on the vector
    of the node at [p], then
    [tokenTypeReferences.push_back (item->back ().get ())]. *)
Definition open_in_array (st : BuilderState) (p : list step) (node child : havJSONData)
  : result BuilderState :=
  match getValue node, rootNode st with
  | V_vector v, Some root =>
      let root :=
        update_node p (fun n => Data (getType n) (V_vector (push_back v child))) root in
      Ok (push_reference (set_root st root) (p ++ [Idx (length v)]))
  | _, _ => Throw (undefined_behaviour "null pointer from std::get_if")
  end.

(** [item->insert ({key, std::make_shared<havJSONData> (...)})] on the map
    of the node at [p]. *)
Definition insert_in_object (st : BuilderState) (p : list step) (node : havJSONData)
    (key : list Z) (child : havJSONData) : result BuilderState :=
  match getValue node, rootNode st with
  | V_map m, Some root =>
      Ok (set_root st
            (update_node p (fun n => Data (getType n) (V_map (map_insert key child m))) root))
  | _, _ => Throw (undefined_behaviour "null pointer from std::get_if")
  end.

(** The part of an iteration that opens a container for a [{] or a [[]:
    [kind] is [DT_Object] or [DT_Array], [valid] the check of the token
    that follows.  [Return None] is [return false]; [Next_ st true] is
    [continue]. *)
Inductive builder_step : Type :=
| ReturnFalse
| Continue (st : BuilderState)
| Proceed (st : BuilderState) (token : havJSONTokenValue).

Definition open_container (st : BuilderState) (kind : havJSONDataType)
    (valid : havJSONToken -> bool) : result builder_step :=
  st <-
    match rootNode st with
    | Some _ =>
        '(p, node) <- back_node st ;;
        if havJSONDataType_eqb (getType node) DT_Array then
          open_in_array st p node (havJSONData_of_type kind)
        else Ok st
    | None =>
        Ok (mkBuilderState (b_mTokens st) (push_back (tokenTypeReferences st) [])
              (Some (havJSONData_of_type kind)))
    end ;;
  let st := set_tokens st (pop_front (b_mTokens st)) in
  token <- front (b_mTokens st) ;;
  (* Check if the next token is valid *)
  if negb (valid (mToken token)) then Ok ReturnFalse
  else if is_left (mToken token) then Ok (Continue st)
  else Ok (Proceed st token).

Definition valid_after_left_curly (t : havJSONToken) : bool :=
  match t with
  | String_ | Value | Null | Boolean | Int | UInt | Long | ULong | Int64 | UInt64
  | Double | Colon | Comma | RightCurlyBracket | LeftCurlyBracket
  | LeftSquareBracket => true
  | _ => false
  end.

Definition valid_after_left_square (t : havJSONToken) : bool :=
  match t with
  | Value | Null | Boolean | Int | UInt | Long | ULong | Int64 | UInt64 | Double
  | Comma | RightSquareBracket | LeftSquareBracket | LeftCurlyBracket => true
  | _ => false
  end.

(** The rest of the iteration, from the test for a closing bracket to the
    final [mTokens.pop_front ()]. *)
Definition ParseJSONContents_rest (st : BuilderState) (token : havJSONTokenValue)
  : result BuilderState :=
  st <-
    (if is_right (mToken token) then
       match tokenTypeReferences st with
       | [] => Throw (undefined_behaviour "pop_back() of an empty deque")
       | _ :: _ =>
           Ok (mkBuilderState (b_mTokens st) (pop_back (tokenTypeReferences st))
                 (rootNode st))
       end
     else Ok st) ;;
  (* Read contents of string token *)
  '(st, token, processed) <-
    (if havJSONToken_eqb (mToken token) String_ then
       key <- value_ (mValue token) ;;
       let st := set_tokens st (pop_front (b_mTokens st)) in
       token <- front (b_mTokens st) ;;
       if havJSONToken_eqb (mToken token) Colon then
         let st := set_tokens st (pop_front (b_mTokens st)) in
         token <- front (b_mTokens st) ;;
         if is_value_token (mToken token) then
           value <- make_value token ;;
           '(p, node) <- back_node st ;;
           if havJSONDataType_eqb (getType node) DT_Object then
             st <- insert_in_object st p node key value ;;
             Ok (st, token, true)
           else Throw (runtime_error "Invalid token! Expected object!")
         else if havJSONToken_eqb (mToken token) LeftSquareBracket then
           '(p, node) <- back_node st ;;
           if havJSONDataType_eqb (getType node) DT_Object then
             st <- insert_in_object st p node key (havJSONData_of_type DT_Array) ;;
             Ok (push_reference st (p ++ [Key key]), token, true)
           else Throw (runtime_error "Invalid token! Expected object!")
         else if havJSONToken_eqb (mToken token) LeftCurlyBracket then
           '(p, node) <- back_node st ;;
           if havJSONDataType_eqb (getType node) DT_Object then
             st <- insert_in_object st p node key (havJSONData_of_type DT_Object) ;;
             Ok (push_reference st (p ++ [Key key]), token, true)
           else Throw (runtime_error "Invalid token! Expected object!")
         else Ok (st, token, false)
       else Ok (st, token, false)
     else Ok (st, token, false)) ;;
  st <-
    (if negb processed && is_value_token (mToken token) then
       value <- make_value token ;;
       '(p, node) <- back_node st ;;
       if havJSONDataType_eqb (getType node) DT_Array then
         match getValue node, rootNode st with
         | V_vector v, Some root =>
             Ok (set_root st
                   (update_node p
                      (fun n => Data (getType n) (V_vector (push_back v value))) root))
         | _, _ => Throw (undefined_behaviour "null pointer from std::get_if")
         end
       else Throw (runtime_error "Invalid token! Expected array!")
     else Ok st) ;;
  Ok (set_tokens st (pop_front (b_mTokens st))).

(** One iteration of [while (mTokens.empty () == false)]; [None] is
    [return false]. *)
Definition ParseJSONContents_body (st : BuilderState) : result (option BuilderState) :=
  token <- front (b_mTokens st) ;;
  if havJSONToken_eqb (mToken token) Comma then
    Ok (Some (set_tokens st (pop_front (b_mTokens st))))
  else
    (* Check if we're dealing with an object *)
    r <-
      (if havJSONToken_eqb (mToken token) LeftCurlyBracket then
         open_container st DT_Object valid_after_left_curly
       else Ok (Proceed st token)) ;;
    match r with
    | ReturnFalse => Ok None
    | Continue st => Ok (Some st)
    | Proceed st token =>
        (* Check if we're dealing with an array *)
        r <-
          (if havJSONToken_eqb (mToken token) LeftSquareBracket then
             open_container st DT_Array valid_after_left_square
           else Ok (Proceed st token)) ;;
        match r with
        | ReturnFalse => Ok None
        | Continue st => Ok (Some st)
        | Proceed st token =>
            st <- ParseJSONContents_rest st token ;;
            Ok (Some st)
        end
    end.

Fixpoint ParseJSONContents_loop (fuel : nat) (st : BuilderState)
  : result (option BuilderState) :=
  match fuel with
  | O => Throw out_of_fuel
  | S fuel' =>
      match b_mTokens st with
      | [] => Ok (Some st)
      | _ :: _ =>
          r <- ParseJSONContents_body st ;;
          match r with
          | None => Ok None
          | Some st => ParseJSONContents_loop fuel' st
          end
      end
  end.

(** [ParseJSONContents (valueNode)] on the member [mTokens]: [Ok None]
    is [return false], which leaves [valueNode] alone; [Ok (Some v)] is
    [return true] with [valueNode] set to [v]. *)
Definition ParseJSONContents (mTokens : list havJSONTokenValue)
  : result (option havJSONData) :=
  match mTokens with
  | [] => Ok None
  | first :: _ =>
      (* Check if the root node is an object or array *)
      if negb (is_left (mToken first)) then Ok None
      else
        r <- ParseJSONContents_loop (S (length mTokens)) (mkBuilderState mTokens [] None) ;;
        match r with
        | None => Ok None
        | Some st =>
            match rootNode st with
            | None => Throw (runtime_error "No root node found!")
            | Some root => Ok (Some (Data (getType root) (getValue root)))
            end
        end
  end.

(** [ParseContent (fileContents, valueNode)]: the [bool] it returns and
    [valueNode] after the call. *)
Definition ParseContent (fileContents : list Z) : result (bool * havJSONData) :=
  mTokens <- Tokenization dm fileContents ;;
  r <- (match mTokens with
        | [] => Ok None
        | _ :: _ => ParseJSONContents mTokens
        end) ;;
  match r with
  | Some valueNode => Ok (true, valueNode)
  | None => Ok (false, havJSONData_of_type DT_Null)
  end.

End Builder.

(** ** [TokenizeArray], [TokenizeObject], [Tokenization] of a value

    The two functions are mutually recursive and each has its own copy of
    the same [switch] on the type of the item.  [Tokenize_item] is that
    [switch]; the loops of the two functions are its local recursions on
    the vector and on the map of the item. *)

Definition scalar_token (t : havJSONDataType) (v : havJSONVariant)
  : result havJSONTokenValue :=
  match t, v with
  | DT_Null, V_string s => Ok (TokenValue Null (Some s))
  | DT_Boolean, V_bool b => Ok (TokenValue Boolean (Some (str (if b then "true" else "false"))))
  | DT_Int, V_int x => Ok (TokenValue Int (Some (to_string x)))
  | DT_UInt, V_uint x => Ok (TokenValue UInt (Some (to_string x)))
  | DT_Long, V_long x => Ok (TokenValue Long (Some (to_string x)))
  | DT_ULong, V_ulong x => Ok (TokenValue ULong (Some (to_string x)))
  | DT_Int64, V_int64 x => Ok (TokenValue Int64 (Some (to_string x)))
  | DT_UInt64, V_uint64 x => Ok (TokenValue UInt64 (Some (to_string x)))
  | DT_Double, V_double d => Ok (TokenValue Double (Some (to_string_double d)))
  | DT_String, V_string s => Ok (TokenValue Value (Some s))
  | _, _ => Throw bad_variant_access
  end.

Fixpoint Tokenize_item (item : havJSONData) (tokens : list havJSONTokenValue)
  : result (list havJSONTokenValue) :=
  match item with
  | Data DT_Array v =>
      match v with
      | V_vector newArray =>
          (fix TokenizeArray_loop (rootArray : list havJSONData) (index : nat)
               (tokens : list havJSONTokenValue) : result (list havJSONTokenValue) :=
             match rootArray with
             | [] => Ok (push_back tokens (structural RightSquareBracket))
             | currentValue :: rest =>
                 let tokens :=
                   match index with
                   | O => tokens
                   | S _ => push_back tokens (structural Comma)
                   end in
                 tokens <- Tokenize_item currentValue tokens ;;
                 TokenizeArray_loop rest (S index) tokens
             end) newArray O (push_back tokens (structural LeftSquareBracket))
      | _ => Throw bad_variant_access
      end
  | Data DT_Object v =>
      match v with
      | V_map newObject =>
          (fix TokenizeObject_loop (rootObject : list (list Z * havJSONData))
               (first : bool) (tokens : list havJSONTokenValue)
             : result (list havJSONTokenValue) :=
             match rootObject with
             | [] => Ok (push_back tokens (structural RightCurlyBracket))
             | (key, item) :: rest =>
                 let tokens :=
                   if first then tokens else push_back tokens (structural Comma) in
                 let tokens := push_back tokens (TokenValue String_ (Some key)) in
                 let tokens := push_back tokens (structural Colon) in
                 tokens <- Tokenize_item item tokens ;;
                 TokenizeObject_loop rest false tokens
             end) newObject true (push_back tokens (structural LeftCurlyBracket))
      | _ => Throw bad_variant_access
      end
  | Data t v =>
      token <- scalar_token t v ;;
      Ok (push_back tokens token)
  end.

(** The loop of [TokenizeArray], from the element [index] on. *)
Fixpoint TokenizeArray_from (rootArray : list havJSONData) (index : nat)
    (tokens : list havJSONTokenValue) : result (list havJSONTokenValue) :=
  match rootArray with
  | [] => Ok (push_back tokens (structural RightSquareBracket))
  | currentValue :: rest =>
      let tokens :=
        match index with
        | O => tokens
        | S _ => push_back tokens (structural Comma)
        end in
      tokens <- Tokenize_item currentValue tokens ;;
      TokenizeArray_from rest (S index) tokens
  end.

Definition TokenizeArray (rootArray : list havJSONData)
    (tokens : list havJSONTokenValue) : result (list havJSONTokenValue) :=
  TokenizeArray_from rootArray O tokens.

(** The loop of [TokenizeObject]; [first] is [itr == rootObject.begin ()]. *)
Fixpoint TokenizeObject_from (rootObject : list (list Z * havJSONData)) (first : bool)
    (tokens : list havJSONTokenValue) : result (list havJSONTokenValue) :=
  match rootObject with
  | [] => Ok (push_back tokens (structural RightCurlyBracket))
  | (key, item) :: rest =>
      let tokens := if first then tokens else push_back tokens (structural Comma) in
      let tokens := push_back tokens (TokenValue String_ (Some key)) in
      let tokens := push_back tokens (structural Colon) in
      tokens <- Tokenize_item item tokens ;;
      TokenizeObject_from rest false tokens
  end.

Definition TokenizeObject (rootObject : list (list Z * havJSONData))
    (tokens : list havJSONTokenValue) : result (list havJSONTokenValue) :=
  TokenizeObject_from rootObject true tokens.

(** [Tokenization (rootNode, tokens)], called with [tokens] empty. *)
Definition Tokenization_value (rootNode : havJSONData)
  : result (list havJSONTokenValue) :=
  match getType rootNode with
  | DT_Array =>
      match getValue rootNode with
      | V_vector rootArray => TokenizeArray rootArray [structural LeftSquareBracket]
      | _ => Throw bad_variant_access
      end
  | DT_Object =>
      match getValue rootNode with
      | V_map rootObject => TokenizeObject rootObject [structural LeftCurlyBracket]
      | _ => Throw bad_variant_access
      end
  | _ => Throw (runtime_error "Invalid token: Expected array or object as root node!")
  end.

(** ** [ConvertJSONToString]

    The text writer with [formatted == false], its default: the block under
    [if (formatted == true)] is not entered, and what is left of an
    iteration is the bookkeeping of [tokenTypes] and the output of the
    token. *)

Definition token_text (token : havJSONTokenValue) : result (list Z) :=
  if negb (is_value_token (mToken token))
     && negb (havJSONToken_eqb (mToken token) String_) then
    Ok [GetTokenAsCharacter (mToken token)]
  else if havJSONToken_eqb (mToken token) String_
          || havJSONToken_eqb (mToken token) Value then
    text <- value_ (mValue token) ;;
    escaped <- ConvertToEscapedString text ;;
    Ok ([DQ] ++ escaped ++ [DQ])
  else value_ (mValue token).

Fixpoint ConvertJSONToString_loop (tokens : list havJSONTokenValue)
    (tokenTypes : list havJSONDataType) (jsonContentsAsString : list Z)
  : result (list Z) :=
  match tokens with
  | [] => Ok jsonContentsAsString
  | itr :: rest =>
      tokenTypes <-
        (if is_right (mToken itr) then
           match tokenTypes with
           | [] => Throw (undefined_behaviour "back() of an empty deque")
           | _ :: _ => Ok (pop_back tokenTypes)
           end
         else Ok tokenTypes) ;;
      text <- token_text itr ;;
      let tokenTypes :=
        match mToken itr with
        | LeftCurlyBracket => push_back tokenTypes DT_Object
        | LeftSquareBracket => push_back tokenTypes DT_Array
        | _ => tokenTypes
        end in
      ConvertJSONToString_loop rest tokenTypes (jsonContentsAsString ++ text)
  end.

(** The text appended to [jsonContentsAsString], here empty at the call.
    [Ok None] is [return false]. *)
Definition ConvertJSONToString (valueNode : havJSONData) : result (option (list Z)) :=
  tokens <- Tokenization_value valueNode ;;
  match tokens with
  | [] => Ok None
  | first :: _ =>
      if negb (is_left (mToken first)) then Ok None
      else
        text <- ConvertJSONToString_loop tokens [] [] ;;
        Ok (Some text)
  end.

(** ** [ConvertBSONToJSON]: the binary decoder

    [char] is signed, as it is on the x86 targets of the header, and
    [int] is stored little-endian.  A read of [jsonStringStream] past its
    size is undefined in the source and is reported as such. *)

Definition byte_at (s : list Z) (i : Z) : result Z :=
  if (0 <=? i) && (i <=? size s) then Ok (at_ s i)
  else Throw (undefined_behaviour "read past the end of the string").

(** The [n] bytes from [index] on, as a little-endian number. *)
Fixpoint little_endian (n : nat) (s : list Z) (index : Z) : result Z :=
  match n with
  | O => Ok 0
  | S n' =>
      b <- byte_at s index ;;
      rest <- little_endian n' s (index + 1) ;;
      Ok (b + 256 * rest)
  end.

(** [static_cast<unsigned int>] of a [char]. *)
Definition char_to_uint (c : Z) : Z := if c <? 128 then c else c + (2 ^ 32 - 256).

Fixpoint GetBSONKey_loop (rest : list Z) (index : Z) (stringValue : list Z)
  : Z * list Z :=
  match rest with
  | [] => (index, stringValue)
  | newChar :: rest' =>
      if newChar =? 0 then (index, stringValue)
      else GetBSONKey_loop rest' (index + 1) (stringValue ++ [newChar])
  end.

Definition GetBSONKey (jsonStringStream : list Z) (index : Z) : result (list Z * Z) :=
  if size jsonStringStream <? index + 1 then
    Throw (undefined_behaviour "read past the end of the string")
  else
    let '(index, stringValue) :=
      GetBSONKey_loop (from (index + 1) jsonStringStream) (index + 1) [] in
    (* Skip null terminator *)
    let index := index + 1 in
    (* Convert to escaped string *)
    stringValue <- ConvertToEscapedString stringValue ;;
    Ok ([DQ] ++ stringValue ++ [DQ] ++ str ": ", index).

Definition GetBSONValueSize (jsonStringStream : list Z) (index : Z) : result (Z * Z) :=
  v <- little_endian 4 jsonStringStream index ;;
  let valueSize := to_signed 32 v in
  if valueSize <? 0 then Throw (runtime_error "Value size can't be negative!")
  else Ok (valueSize, index + 4).

Record havJSONBSONTypeValue : Type := BSONTypeValue {
  bt_mType : Z;
  mCurrentIndex : Z;
  mTotalLength : Z
}.

Definition BSON_Double : Z := 0x01.
Definition BSON_String : Z := 0x02.
Definition BSON_Array : Z := 0x04.
Definition BSON_BinaryData : Z := 0x05.
Definition BSON_Boolean : Z := 0x08.
Definition BSON_UTCDateTime : Z := 0x09.
Definition BSON_NullValue : Z := 0x0A.
Definition BSON_JSCode : Z := 0x0D.
Definition BSON_Int : Z := 0x10.
Definition BSON_Timestamp : Z := 0x11.
Definition BSON_Int64 : Z := 0x12.

Record DecoderState : Type := mkDecoderState {
  d_index : Z;
  typeMemory : list havJSONBSONTypeValue;
  jsonContent : list Z
}.

(** [typeMemory.back ()] with [mCurrentIndex] advanced by [n]. *)
Definition advance_back (n : Z) (typeMemory : list havJSONBSONTypeValue)
  : list havJSONBSONTypeValue :=
  match typeMemory with
  | [] => []
  | x :: q =>
      let typeValue := last q x in
      pop_back typeMemory
        ++ [BSONTypeValue (bt_mType typeValue) (mCurrentIndex typeValue + n)
              (mTotalLength typeValue)]
  end.

(** The block under the comment [// Key], the same in every [case]. *)
Definition decode_key (jsonStringStream : list Z) (st : DecoderState)
  : result DecoderState :=
  match typeMemory st with
  | [] =>
      (* String key *)
      '(key, index) <- GetBSONKey jsonStringStream (d_index st) ;;
      Ok (mkDecoderState index (typeMemory st) (jsonContent st ++ key))
  | x :: q =>
      (* Integer key *)
      if bt_mType (last q x) =? BSON_Array then
        Ok (mkDecoderState (d_index st + 1 + 2) (advance_back 3 (typeMemory st))
              (jsonContent st))
      else Throw (runtime_error "Other types are not supported!")
  end.

(** The block that closes a [case]: inside an array the running count
    grows by [n] and a separator follows unless the array is at its end. *)
Definition decode_count (n : Z) (st : DecoderState) : DecoderState :=
  match typeMemory st with
  | [] => st
  | x :: q =>
      if bt_mType (last q x) =? BSON_Array then
        let typeMemory := advance_back n (typeMemory st) in
        let typeValue := last typeMemory x in
        mkDecoderState (d_index st) typeMemory
          (if mCurrentIndex typeValue + 1 <? mTotalLength typeValue
           then jsonContent st ++ str ", " else jsonContent st)
      else st
  end.

Definition append_content (st : DecoderState) (index : Z) (text : list Z)
  : DecoderState :=
  mkDecoderState index (typeMemory st) (jsonContent st ++ text).

Fixpoint decode_string_loop (rest : list Z) (index : Z) (valueSize : Z)
    (stringValue : list Z) : Z * list Z :=
  match rest with
  | [] => (index, stringValue)
  | newChar :: rest' =>
      if negb (newChar =? 0) && (size stringValue <? valueSize) then
        decode_string_loop rest' (index + 1) valueSize (stringValue ++ [newChar])
      else (index, stringValue)
  end.

Fixpoint decode_binary_loop (n : nat) (jsonStringStream : list Z)
    (binaryDataIndex binaryDataEnd : Z) (jsonContent : list Z) : result (list Z) :=
  match n with
  | O => Ok jsonContent
  | S n' =>
      if binaryDataEnd <=? binaryDataIndex then Ok jsonContent
      else
        b <- byte_at jsonStringStream binaryDataIndex ;;
        let jsonContent := jsonContent ++ CodePointToString (char_to_uint b) in
        let jsonContent :=
          if binaryDataIndex + 1 <? binaryDataEnd then jsonContent ++ str ", "
          else jsonContent in
        decode_binary_loop n' jsonStringStream (binaryDataIndex + 1) binaryDataEnd
          jsonContent
  end.

(** The [switch] on the type byte at [index]. *)
Definition decode_element (jsonStringStream : list Z) (currentChar : Z)
    (st : DecoderState) : result DecoderState :=
  if currentChar =? BSON_NullValue then
    st <- decode_key jsonStringStream st ;;
    Ok (decode_count 0 (append_content st (d_index st) (str "null")))
  else if currentChar =? BSON_Boolean then
    st <- decode_key jsonStringStream st ;;
    value <- byte_at jsonStringStream (d_index st) ;;
    Ok (decode_count 1
          (append_content st (d_index st)
             (str (if negb (value =? 0) then "true" else "false"))))
  else if currentChar =? BSON_Int then
    st <- decode_key jsonStringStream st ;;
    v <- little_endian 4 jsonStringStream (d_index st) ;;
    Ok (decode_count 4
          (append_content st (d_index st + 3) (to_string (to_signed 32 v))))
  else if currentChar =? BSON_Timestamp then
    st <- decode_key jsonStringStream st ;;
    v <- little_endian 8 jsonStringStream (d_index st) ;;
    Ok (decode_count 8 (append_content st (d_index st + 7) (to_string v)))
  else if (currentChar =? BSON_UTCDateTime) || (currentChar =? BSON_Int64) then
    st <- decode_key jsonStringStream st ;;
    v <- little_endian 8 jsonStringStream (d_index st) ;;
    Ok (decode_count 8
          (append_content st (d_index st + 7) (to_string (to_signed 64 v))))
  else if currentChar =? BSON_Double then
    st <- decode_key jsonStringStream st ;;
    v <- little_endian 8 jsonStringStream (d_index st) ;;
    Ok (decode_count 8
          (append_content st (d_index st + 7) (fixed 15 (double_of_bits v))))
  else if (currentChar =? BSON_JSCode) || (currentChar =? BSON_String) then
    st <- decode_key jsonStringStream st ;;
    '(valueSize, index) <- GetBSONValueSize jsonStringStream (d_index st) ;;
    if size jsonStringStream <? index then
      Throw (undefined_behaviour "read past the end of the string")
    else
      let '(index, stringValue) :=
        decode_string_loop (from index jsonStringStream) index valueSize [] in
      (* Convert to escaped string *)
      stringValue <- ConvertToEscapedString stringValue ;;
      Ok (decode_count (4 + (size stringValue + 1))
            (append_content st index ([DQ] ++ stringValue ++ [DQ])))
  else if currentChar =? BSON_Array then
    st <- decode_key jsonStringStream st ;;
    '(valueSize, index) <- GetBSONValueSize jsonStringStream (d_index st) ;;
    (* Prevent off-by-one error *)
    let index := index - 1 in
    Ok (mkDecoderState index
          (push_back (typeMemory st) (BSONTypeValue BSON_Array 4 valueSize))
          (jsonContent st ++ str "["))
  else if currentChar =? BSON_BinaryData then
    st <- decode_key jsonStringStream st ;;
    '(valueSize, index) <- GetBSONValueSize jsonStringStream (d_index st) ;;
    subtypeValue <- byte_at jsonStringStream index ;;
    let index := index + 1 in
    let binaryDataEnd := index + valueSize in
    if (subtypeValue =? 0x00) || (subtypeValue =? 0x02) then
      content <-
        decode_binary_loop (Z.to_nat valueSize) jsonStringStream index binaryDataEnd
          (jsonContent st ++ str "[") ;;
      Ok (decode_count (4 + valueSize)
            (mkDecoderState index (typeMemory st) (content ++ str "]")))
    else if 0x80 <=? subtypeValue then
      Throw (runtime_error "User defined subtypes are unsupported!")
    else Throw (runtime_error "Unsupported subtype!")
  else Throw (runtime_error "Unsupported type!").

(** The block after the [switch]: an array whose count has reached its
    length is closed. *)
Definition decode_close (st : DecoderState) : result DecoderState :=
  match typeMemory st with
  | [] => Ok (append_content st (d_index st) (str ", "))
  | x :: q =>
      let typeValue := last q x in
      if mCurrentIndex typeValue + 1 =? mTotalLength typeValue then
        if bt_mType typeValue =? BSON_Array then
          let st :=
            mkDecoderState (d_index st + 2) (pop_back (typeMemory st))
              (jsonContent st ++ str "]") in
          Ok (decode_count 1 st)
        else Throw (runtime_error "Unsupported type!")
      else Ok st
  end.

Fixpoint ConvertBSONToJSON_loop (fuel : nat) (jsonStringStream : list Z)
    (totalDocumentSize : Z) (st : DecoderState) : result DecoderState :=
  match fuel with
  | O => Throw out_of_fuel
  | S fuel' =>
      if totalDocumentSize <=? d_index st then Ok st
      (* Check if we reached the end of the BSON document *)
      else if d_index st + 1 =? totalDocumentSize then
        Ok (mkDecoderState (d_index st + 1) (typeMemory st) (jsonContent st))
      else
        _ <- (match back (typeMemory st) with
              | Ok typeValue =>
                  if mTotalLength typeValue <? mCurrentIndex typeValue then
                    Throw (runtime_error
                             "BSON type value index is greater than total length!")
                  else Ok tt
              | Throw _ => Ok tt
              end) ;;
        currentChar <- byte_at jsonStringStream (d_index st) ;;
        st <- decode_element jsonStringStream currentChar st ;;
        st <- decode_close st ;;
        ConvertBSONToJSON_loop fuel' jsonStringStream totalDocumentSize
          (mkDecoderState (d_index st + 1) (typeMemory st) (jsonContent st))
  end.

Definition ends_with_separator (jsonContent : list Z) : bool :=
  (2 <=? size jsonContent)
  && list_eqb (from (size jsonContent - 2) jsonContent) (str ", ").

Definition ConvertBSONToJSON (jsonStringStream : list Z) : result (list Z) :=
  '(totalDocumentSize, index) <- GetBSONValueSize jsonStringStream 0 ;;
  (* Note: We assume that BSON documents are always objects *)
  st <- ConvertBSONToJSON_loop (S (Z.to_nat totalDocumentSize)) jsonStringStream
          totalDocumentSize (mkDecoderState index [] (str "{")) ;;
  eoo <- byte_at jsonStringStream (d_index st) ;;
  if negb (eoo =? 0x00) then Throw (runtime_error "EOO not found!")
  else
    let jsonContent :=
      if ends_with_separator (jsonContent st)
      then firstn (length (jsonContent st) - 2) (jsonContent st)
      else jsonContent st in
    Ok (jsonContent ++ str "}").

(** [ParseFile (fileName, valueNode, havJSONType::BSON)] once the bytes of
    the file are read: no byte-order mark is looked for in a BSON file. *)
Definition ParseFile_BSON (dm : DataModel) (fileContents : list Z)
  : result (bool * havJSONData) :=
  match fileContents with
  | [] => Ok (false, havJSONData_of_type DT_Null) (* BSON file is empty! *)
  | _ :: _ =>
      (* 2.5 Convert BSON to JSON *)
      fileContents <- ConvertBSONToJSON fileContents ;;
      match fileContents with
      | [] => Ok (false, havJSONData_of_type DT_Null)
      | _ :: _ => ParseContent dm fileContents
      end
  end.

(** ** [ConvertJSONToBSON] and [WriteBSONFile]: the binary encoder *)

Record havJSONBSONDataType : Type := BSONDataType {
  mDataType : havJSONDataType;
  mIndexToWriteTotalSizeTo : Z;
  mArrayTotalSize : Z;
  mCurrentArrayItemIndex : Z
}.

(** Remove unnecessary tokens and change unsupported data types where
    possible. *)
Fixpoint narrow_tokens (tokens : list havJSONTokenValue) : list havJSONTokenValue :=
  match tokens with
  | [] => []
  | itr :: rest =>
      match mToken itr with
      | Colon | Comma => narrow_tokens rest
      | UInt => TokenValue Int (mValue itr) :: narrow_tokens rest
      | Long => TokenValue Int64 (mValue itr) :: narrow_tokens rest
      | ULong => TokenValue UInt64 (mValue itr) :: narrow_tokens rest
      | _ => itr :: narrow_tokens rest
      end
  end.

(** The bytes a string of hexadecimal digits stands for, taken two digits
    at a time from its end:
    [for (sindex = stringOutput.size () - 2; sindex >= 0; sindex -= 2)].
    The argument of the recursion is the string reversed. *)
Fixpoint hex_pairs (reversed : list Z) : list Z :=
  match reversed with
  | low :: high :: rest => to_char (strtol16 [high; low]) :: hex_pairs rest
  | _ => []
  end.

Definition hex_bytes (stringOutput : list Z) : list Z := hex_pairs (rev stringOutput).

(** [sindex < stringOutput.size () ? stringOutput[sindex] : 0x00], for
    [sindex] below [n]. *)
Fixpoint padded (n : nat) (stringOutput : list Z) : list Z :=
  match n with
  | O => []
  | S n' =>
      match stringOutput with
      | [] => 0 :: padded n' []
      | c :: rest => c :: padded n' rest
      end
  end.

Fixpoint insert_all (pos : Z) (bytes : list Z) (stream : list Z) : result (list Z) :=
  match bytes with
  | [] => Ok stream
  | byte :: rest =>
      if (0 <=? pos) && (pos <=? size stream) then
        insert_all (pos + 1) rest
          (firstn (Z.to_nat pos) stream ++ byte :: skipn (Z.to_nat pos) stream)
      else Throw (undefined_behaviour "insert past the end of the vector")
  end.

Record EncoderState : Type := mkEncoderState {
  tokenTypes : list havJSONBSONDataType;
  fileIndex : Z;
  jsonContentsAsBinaryStream : list Z
}.

(** [currentType], the reference to [tokenTypes.back ()], assigned. *)
Definition set_back (tokenTypes : list havJSONBSONDataType) (t : havJSONBSONDataType)
  : list havJSONBSONDataType :=
  pop_back tokenTypes ++ [t].

Definition in_array (t : havJSONBSONDataType) : bool :=
  havJSONDataType_eqb (mDataType t) DT_Array.

(** [n] more bytes counted for the file and, inside an array, for the
    array: [t] is [currentType]. *)
Definition count_bytes (n : Z) (fileIndex : Z) (t : havJSONBSONDataType)
  : Z * havJSONBSONDataType :=
  (fileIndex + n,
   if in_array t then
     BSONDataType (mDataType t) (mIndexToWriteTotalSizeTo t) (mArrayTotalSize t + n)
       (mCurrentArrayItemIndex t)
   else t).

(** The first [switch] of the branch for values: the type byte, chosen by
    [nextToken]. *)
Definition type_byte (nextToken : havJSONToken) : result (list Z) :=
  match nextToken with
  | Value => Ok [0x02]
  | Null => Ok [0x0a]
  | Boolean => Ok [0x08]
  | Int => Ok [0x10]
  | UInt64 => Ok [0x11]
  | Int64 => Ok [0x12]
  | Double => Ok [0x01]
  | LeftSquareBracket => Ok [0x04]
  | String_ | LeftCurlyBracket | RightCurlyBracket | RightSquareBracket => Ok []
  | _ => Throw (runtime_error "Unsupported token!")
  end.

(** The second [switch]: the bytes of the token itself and their count. *)
Definition payload (itr : havJSONTokenValue) : result (list Z * Z) :=
  match mToken itr with
  | Value =>
      text <- value_ (mValue itr) ;;
      (* String size *)
      let stringOutput := CodePointToString (to_unsigned 32 (size text + 1)) in
      stringValue <- ConvertToEscapedString text ;;
      Ok (padded 4 stringOutput ++ stringValue ++ [0x00], 4 + size stringValue + 1)
  | Boolean =>
      text <- value_ (mValue itr) ;;
      Ok ([if list_eqb text (str "true") then 0x01 else 0x00], 1)
  | Int =>
      text <- value_ (mValue itr) ;;
      x <- stoi text ;;
      Ok (hex_bytes (setw_fill 8 (ch "0") (to_hex (to_unsigned 32 x))), 4)
  | UInt64 =>
      text <- value_ (mValue itr) ;;
      x <- stoull text ;;
      Ok (hex_bytes (setw_fill 16 (ch "0") (to_hex x)), 8)
  | Int64 =>
      text <- value_ (mValue itr) ;;
      x <- stoll text ;;
      Ok (hex_bytes (setw_fill 16 (ch "0") (to_hex (to_unsigned 64 x))), 8)
  | Double =>
      text <- value_ (mValue itr) ;;
      doubleValue <- stod text ;;
      Ok (hex_bytes (to_hex (bits_of_double doubleValue)), 8)
  | String_ =>
      text <- value_ (mValue itr) ;;
      stringValue <- ConvertToEscapedString text ;;
      Ok (stringValue ++ [0x00], size stringValue + 1)
  | RightCurlyBracket | RightSquareBracket => Ok ([0x00], 1)
  | Null | LeftCurlyBracket | LeftSquareBracket => Ok ([], 0)
  | _ => Throw (runtime_error "Unsupported token!")
  end.

(** The tokens the branch for values accepts. *)
Definition encodable (t : havJSONToken) : bool :=
  match t with
  | Value | Null | Boolean | Int | UInt64 | Int64 | Double | String_
  | LeftCurlyBracket | LeftSquareBracket | RightCurlyBracket
  | RightSquareBracket => true
  | _ => false
  end.

(** The loop [while (itr != tokens.end ())]; [tokens] is the list from
    [itr] on. *)
Fixpoint ConvertJSONToBSON_loop (tokens : list havJSONTokenValue) (st : EncoderState)
  : result EncoderState :=
  match tokens with
  | [] => Ok st
  | itr :: rest =>
      currentType <- back (tokenTypes st) ;;
      match mToken itr with
      | LeftCurlyBracket =>
          ConvertJSONToBSON_loop rest
            (mkEncoderState
               (push_back (tokenTypes st) (BSONDataType DT_Object (fileIndex st) 0 0))
               (fileIndex st) (jsonContentsAsBinaryStream st))
      | LeftSquareBracket =>
          ConvertJSONToBSON_loop rest
            (mkEncoderState
               (push_back (tokenTypes st) (BSONDataType DT_Array (fileIndex st) 4 0))
               (fileIndex st) (jsonContentsAsBinaryStream st))
      | RightSquareBracket =>
          let stringOutput :=
            setw_fill 8 (ch "0")
              (to_hex (to_unsigned 32 (mArrayTotalSize currentType + 1))) in
          stream <-
            insert_all (mIndexToWriteTotalSizeTo currentType) (hex_bytes stringOutput)
              (jsonContentsAsBinaryStream st) ;;
          ConvertJSONToBSON_loop rest
            (mkEncoderState (pop_back (tokenTypes st)) (fileIndex st + 4 + 1)
               (push_back stream 0x00))
      | RightCurlyBracket =>
          ConvertJSONToBSON_loop rest
            (mkEncoderState (pop_back (tokenTypes st)) (fileIndex st + 1)
               (push_back (jsonContentsAsBinaryStream st) 0x00))
      | _ =>
          if encodable (mToken itr) then
            (* The data type must be known beforehand, so peek at the next token *)
            nextToken <-
              (if in_array currentType then Ok itr
               else
                 match rest with
                 | next :: _ => Ok next
                 | [] => Throw (undefined_behaviour "dereference of tokens.end()")
                 end) ;;
            tag <- type_byte (mToken nextToken) ;;
            let stream := jsonContentsAsBinaryStream st ++ tag in
            let '(fileIndex, currentType) :=
              if negb (is_right (mToken nextToken)) then
                count_bytes 1 (fileIndex st) currentType
              else (fileIndex st, currentType) in
            let '(stream, fileIndex, currentType) :=
              if in_array currentType then
                (* Integer to HEX string conversion *)
                let stringOutput := to_hex (mCurrentArrayItemIndex currentType) in
                let '(fileIndex, currentType) := count_bytes 2 fileIndex currentType in
                (stream ++ padded 2 stringOutput, fileIndex, currentType)
              else (stream, fileIndex, currentType) in
            '(bytes, n) <- payload itr ;;
            let '(fileIndex, currentType) := count_bytes n fileIndex currentType in
            let currentType :=
              if in_array currentType then
                BSONDataType (mDataType currentType) (mIndexToWriteTotalSizeTo currentType)
                  (mArrayTotalSize currentType)
                  (to_unsigned 16 (mCurrentArrayItemIndex currentType + 1))
              else currentType in
            ConvertJSONToBSON_loop rest
              (mkEncoderState (set_back (tokenTypes st) currentType) fileIndex
                 (stream ++ bytes))
          else Throw (runtime_error "Unsupported token!")
      end
  end.

(** The bytes appended to [jsonContentsAsBinaryStream], here empty at the
    call.  [Ok None] is [return false]. *)
Definition ConvertJSONToBSON (valueNode : havJSONData) : result (option (list Z)) :=
  tokens <- Tokenization_value valueNode ;;
  match tokens with
  | [] => Ok None
  | first :: _ =>
      if negb (havJSONToken_eqb (mToken first) LeftCurlyBracket) then
        Throw (runtime_error "BSON document must be an object!")
      else
        match narrow_tokens tokens with
        | [] => Throw (undefined_behaviour "dereference of tokens.end()")
        | first :: rest =>
            st <- ConvertJSONToBSON_loop rest
                    (mkEncoderState [BSONDataType DT_Object 0 0 0] 0 []) ;;
            Ok (Some (jsonContentsAsBinaryStream st))
        end
  end.

(** The four bytes [std::fwrite (&fileSize, sizeof (std::int32_t), 1, ...)]
    writes on a little-endian machine. *)
Definition int32_bytes (x : Z) : list Z :=
  let u := to_unsigned 32 x in
  [u mod 256; (u / 256) mod 256; (u / 65536) mod 256; (u / 16777216) mod 256].

(** [WriteBSONFile]: the bytes written to the file, once it is open.
    [Ok None] is [return false]. *)
Definition WriteBSONFile (valueNode : havJSONData) : result (option (list Z)) :=
  r <- ConvertJSONToBSON valueNode ;;
  match r with
  | Some stream =>
      (* Write file size to binary file (+ 4 = file size itself) *)
      let fileSize := size stream + 4 in
      Ok (Some (int32_bytes fileSize ++ stream))
  | None => Ok None
  end.

(** * More of the header

    ** [havJSONData]: the other container methods

    An index is the [int] the method takes; where the source adds it to
    [begin ()] or passes it to [operator[]] of the vector without a check,
    an index outside the vector is undefined in the source and is
    reported as such. *)

Definition insert_at {A : Type} (index : Z) (x : A) (v : list A) : list A :=
  firstn (Z.to_nat index) v ++ x :: skipn (Z.to_nat index) v.

Definition erase_at {A : Type} (index : Z) (v : list A) : list A :=
  firstn (Z.to_nat index) v ++ skipn (S (Z.to_nat index)) v.

(** The part the array methods share: the check of [mType], then
    [std::get<std::vector<...>> (mValue)]. *)
Definition with_array {A : Type} (self : havJSONData)
    (k : list havJSONData -> result A) : result A :=
  match getType self with
  | DT_Array =>
      match getValue self with
      | V_vector v => k v
      | _ => Throw bad_variant_access
      end
  | _ => Throw (runtime_error "Value is not an array!")
  end.

(** The same for a method that changes the vector: the result and the
    object after the call. *)
Definition update_array (self : havJSONData)
    (k : list havJSONData -> result (list havJSONData))
  : result unit * havJSONData :=
  match getType self with
  | DT_Array =>
      match getValue self with
      | V_vector v =>
          match k v with
          | Ok v' => (Ok tt, Data (getType self) (V_vector v'))
          | Throw e => (Throw e, self)
          end
      | _ => (Throw bad_variant_access, self)
      end
  | _ => (Throw (runtime_error "Value is not an array!"), self)
  end.

(** [havJSONData& operator[] (int index)]: [value[index]], unchecked. *)
Definition array_index (index : Z) (self : havJSONData) : result havJSONData :=
  with_array self (fun value =>
    match nth_error value (Z.to_nat index) with
    | Some item => if 0 <=? index then Ok item
                   else Throw (undefined_behaviour "vector index out of range")
    | None => Throw (undefined_behaviour "vector index out of range")
    end).

(** [havJSONData& at (int index)]: [std::vector::at] checks the index,
    which is converted to [size_type], so that a negative one is out of
    range as well; the [catch] prints and throws the exception again. *)
Definition at_index (index : Z) (self : havJSONData) : result havJSONData :=
  with_array self (fun value =>
    if (0 <=? index) && (index <? Z.of_nat (length value)) then
      match nth_error value (Z.to_nat index) with
      | Some item => Ok item
      | None => Throw out_of_range
      end
    else Throw out_of_range).

(** [havJSONData& front ()] and [havJSONData& back ()] *)
Definition array_front (self : havJSONData) : result havJSONData :=
  with_array self (fun value =>
    match value with
    | item :: _ => Ok item
    | [] => Throw (undefined_behaviour "front() of an empty vector")
    end).

Definition array_back (self : havJSONData) : result havJSONData :=
  with_array self (fun value =>
    match value with
    | item :: rest => Ok (last rest item)
    | [] => Throw (undefined_behaviour "back() of an empty vector")
    end).

(** [void insert (int index, std::shared_ptr<havJSONData> newValue)] *)
Definition array_insert (index : Z) (newValue : havJSONData) (self : havJSONData)
  : result unit * havJSONData :=
  update_array self (fun value =>
    if (0 <=? index) && (index <=? Z.of_nat (length value)) then
      Ok (insert_at index newValue value)
    else Throw (undefined_behaviour "iterator past the end of the vector")).

(** [void push_front (std::shared_ptr<havJSONData> newValue)] *)
Definition array_push_front (newValue : havJSONData) (self : havJSONData)
  : result unit * havJSONData :=
  update_array self (fun value => Ok (newValue :: value)).

(** [void pop_back ()] *)
Definition array_pop_back (self : havJSONData) : result unit * havJSONData :=
  update_array self (fun value =>
    match value with
    | [] => Throw (undefined_behaviour "pop_back() of an empty vector")
    | _ :: _ => Ok (removelast value)
    end).

(** [void pop_front ()]: [erase (begin ())] *)
Definition array_pop_front (self : havJSONData) : result unit * havJSONData :=
  update_array self (fun value =>
    match value with
    | [] => Throw (undefined_behaviour "erase(end()) of a vector")
    | _ :: rest => Ok rest
    end).

(** [void remove (int index)]: [erase (begin () + index)] *)
Definition array_remove (index : Z) (self : havJSONData)
  : result unit * havJSONData :=
  update_array self (fun value =>
    if (0 <=? index) && (index <? Z.of_nat (length value)) then
      Ok (erase_at index value)
    else Throw (undefined_behaviour "iterator past the end of the vector")).

(** [size_type arraySize ()] *)
Definition arraySize (self : havJSONData) : result Z :=
  with_array self (fun value => Ok (Z.of_nat (length value))).

(** [havJSONData& operator[] (const std::string& key)] and the overload
    for [const char*], which has the same body. *)
Definition object_index (key : list Z) (self : havJSONData) : result havJSONData :=
  match getType self with
  | DT_Object =>
      match getValue self with
      | V_map value =>
          match map_find key value with
          | None => Throw (runtime_error "Key was not found in object!")
          | Some item => Ok item
          end
      | _ => Throw bad_variant_access
      end
  | _ => Throw (runtime_error "Value is not an object!")
  end.

(** [havJSONData& find (const std::string& key)]: the iterator [find]
    returns is dereferenced without a test against [end ()]. *)
Definition object_find (key : list Z) (self : havJSONData) : result havJSONData :=
  match getType self with
  | DT_Object =>
      match getValue self with
      | V_map value =>
          match map_find key value with
          | None => Throw (undefined_behaviour "dereference of end()")
          | Some item => Ok item
          end
      | _ => Throw bad_variant_access
      end
  | _ => Throw (runtime_error "Value is not an object!")
  end.

(** ** [havJSONData]: conversions

    [dataToString] writes the payload to a [std::ostringstream].  For the
    integers that is their decimal text, the one [std::to_string] gives;
    for a [double] it is the default floating-point format of the stream,
    which is a parameter here: no property below depends on it.
    [toBoolean], which reads the text back with [std::boolalpha], is not
    modelled. *)

Section Conversions.

Variable dm : DataModel.
Variable ostream_double : double -> list Z.

(** [std::string toString ()] *)
Definition toString (self : havJSONData) : result (list Z) :=
  match getType self with
  | DT_Null | DT_String =>
      match getValue self with
      | V_string s => Ok s
      | _ => Throw bad_variant_access
      end
  | DT_Boolean =>
      match getValue self with
      | V_bool b => Ok (str (if b then "true" else "false"))
      | _ => Throw bad_variant_access
      end
  | DT_Int =>
      match getValue self with
      | V_int x => Ok (to_string x)
      | _ => Throw bad_variant_access
      end
  | DT_UInt =>
      match getValue self with
      | V_uint x => Ok (to_string x)
      | _ => Throw bad_variant_access
      end
  | DT_Long =>
      match getValue self with
      | V_long x => Ok (to_string x)
      | _ => Throw bad_variant_access
      end
  | DT_ULong =>
      match getValue self with
      | V_ulong x => Ok (to_string x)
      | _ => Throw bad_variant_access
      end
  | DT_Int64 =>
      match getValue self with
      | V_int64 x => Ok (to_string x)
      | _ => Throw bad_variant_access
      end
  | DT_UInt64 =>
      match getValue self with
      | V_uint64 x => Ok (to_string x)
      | _ => Throw bad_variant_access
      end
  | DT_Double =>
      match getValue self with
      | V_double d => Ok (ostream_double d)
      | _ => Throw bad_variant_access
      end
  | DT_Array | DT_Object => Throw (runtime_error "Unsupported type!")
  end.

(** [convertTo<T> (explicitCast, defaultValue)] for the numeric [T]:
    with [explicitCast == false] the text of the value is converted;
    otherwise the payload is returned when the variant holds a [T], and
    [defaultValue] when it does not. *)
Definition toInt (explicitCast : bool) (defaultValue : Z) (self : havJSONData)
  : result Z :=
  if negb explicitCast then value <- toString self ;; stoi value
  else match getValue self with V_int x => Ok x | _ => Ok defaultValue end.

Definition toUInt (explicitCast : bool) (defaultValue : Z) (self : havJSONData)
  : result Z :=
  if negb explicitCast then
    value <- toString self ;;
    x <- stoul dm value ;;
    (* unsigned long to unsigned int *)
    Ok (to_unsigned 32 x)
  else match getValue self with V_uint x => Ok x | _ => Ok defaultValue end.

Definition toLong (explicitCast : bool) (defaultValue : Z) (self : havJSONData)
  : result Z :=
  if negb explicitCast then value <- toString self ;; stol dm value
  else match getValue self with V_long x => Ok x | _ => Ok defaultValue end.

Definition toULong (explicitCast : bool) (defaultValue : Z) (self : havJSONData)
  : result Z :=
  if negb explicitCast then value <- toString self ;; stoul dm value
  else match getValue self with V_ulong x => Ok x | _ => Ok defaultValue end.

Definition toInt64 (explicitCast : bool) (defaultValue : Z) (self : havJSONData)
  : result Z :=
  if negb explicitCast then value <- toString self ;; stoll value
  else match getValue self with V_int64 x => Ok x | _ => Ok defaultValue end.

Definition toUInt64 (explicitCast : bool) (defaultValue : Z) (self : havJSONData)
  : result Z :=
  if negb explicitCast then value <- toString self ;; stoull value
  else match getValue self with V_uint64 x => Ok x | _ => Ok defaultValue end.

Definition toDouble (explicitCast : bool) (defaultValue : double) (self : havJSONData)
  : result double :=
  if negb explicitCast then value <- toString self ;; stod value
  else match getValue self with V_double d => Ok d | _ => Ok defaultValue end.

End Conversions.

(** ** [ConvertJSONToString] with its [formatted] parameter

    The whole loop of the text writer: the bookkeeping of [tokenTypes],
    [tokenTypesSize], [currentType] and [previousToken], the block under
    [if (formatted == true)] and the output of the token.  The block is
    a sequence of [if] statements, each of which appends a line feed, a
    space or an indentation of [tokenTypesSize * 4] spaces; they are
    listed here in the order of the source. *)

(** [if (c) { jsonContentsAsString += ...; }] *)
Definition when (c : bool) (text : list Z) : list Z := if c then text else [].

(** [for (int index = 0; index < tokenTypesSize * 4; ++index)]: the
    spaces of an indentation. *)
Definition indentation (tokenTypesSize : Z) : list Z :=
  repeat (ch " ") (Z.to_nat (tokenTypesSize * 4)).

Definition line_feed_indentation (tokenTypesSize : Z) : list Z :=
  ch_n :: indentation tokenTypesSize.

Definition tok_eqb : havJSONToken -> havJSONToken -> bool := havJSONToken_eqb.

(** The block under [if (currentType == havJSONDataType::Array)]. *)
Definition format_in_array (previousToken token : havJSONToken) (tokenTypesSize : Z)
  : list Z :=
  when (tok_eqb previousToken LeftSquareBracket) (line_feed_indentation tokenTypesSize)
  ++ when (tok_eqb previousToken RightSquareBracket && tok_eqb token RightCurlyBracket)
       (line_feed_indentation tokenTypesSize)
  ++ when ((tok_eqb previousToken Colon && tok_eqb token LeftCurlyBracket)
           || (tok_eqb previousToken Comma && tok_eqb token LeftCurlyBracket))
       [ch " "]
  ++ when (tok_eqb previousToken LeftCurlyBracket) (line_feed_indentation tokenTypesSize)
  ++ when (tok_eqb previousToken RightCurlyBracket && tok_eqb token RightSquareBracket)
       (line_feed_indentation tokenTypesSize)
  ++ when ((tok_eqb previousToken Colon && tok_eqb token LeftSquareBracket)
           || (tok_eqb previousToken Comma && tok_eqb token LeftSquareBracket))
       [ch " "]
  ++ when (tok_eqb token String_ && tok_eqb previousToken Comma)
       (line_feed_indentation tokenTypesSize)
  ++ when (tok_eqb previousToken Colon && is_value_token token) [ch " "]
  ++ when (tok_eqb previousToken Comma && is_value_token token)
       (line_feed_indentation tokenTypesSize)
  ++ when (is_value_token token
           && (tok_eqb previousToken RightSquareBracket
               || tok_eqb previousToken RightCurlyBracket))
       (indentation tokenTypesSize)
  ++ when (is_value_token previousToken
           && (tok_eqb token RightSquareBracket || tok_eqb token RightCurlyBracket))
       (line_feed_indentation tokenTypesSize).

(** The block under [if (currentType == havJSONDataType::Object)]. *)
Definition format_in_object (previousToken token : havJSONToken) (tokenTypesSize : Z)
  : list Z :=
  when (tok_eqb previousToken LeftSquareBracket && tok_eqb token LeftCurlyBracket) [ch_n]
  ++ when (tok_eqb previousToken RightSquareBracket && tok_eqb token RightSquareBracket)
       (line_feed_indentation tokenTypesSize)
  ++ when (tok_eqb previousToken RightCurlyBracket && tok_eqb token RightSquareBracket)
       (line_feed_indentation tokenTypesSize)
  ++ when (tok_eqb previousToken Comma || tok_eqb previousToken LeftCurlyBracket) [ch_n]
  ++ when (tok_eqb previousToken RightSquareBracket && tok_eqb token RightCurlyBracket)
       [ch_n]
  ++ when (tok_eqb previousToken LeftSquareBracket
           && (is_value_token token || tok_eqb token String_))
       (line_feed_indentation tokenTypesSize)
  ++ when (tok_eqb previousToken Comma && is_value_token token) [ch_n]
  ++ when (tok_eqb previousToken Colon && tok_eqb token LeftCurlyBracket) [ch " "]
  ++ when (tok_eqb previousToken RightCurlyBracket && tok_eqb token RightCurlyBracket)
       [ch_n]
  ++ when (is_value_token previousToken
           && (tok_eqb token RightSquareBracket || tok_eqb token RightCurlyBracket))
       (line_feed_indentation tokenTypesSize)
  ++ when (tok_eqb previousToken Colon && tok_eqb token LeftSquareBracket) [ch " "]
  ++ when (negb (tok_eqb previousToken Colon) && negb (is_value_token token)
           && (negb (tok_eqb token Colon) && negb (tok_eqb token Comma))
           && (negb (is_value_token previousToken)
               && negb (tok_eqb token RightSquareBracket)))
       (indentation tokenTypesSize)
  ++ when ((tok_eqb previousToken Comma || tok_eqb previousToken Colon)
           && is_value_token token)
       [ch " "].

Definition format_token (currentType : havJSONDataType)
    (previousToken token : havJSONToken) (tokenTypesSize : Z) : list Z :=
  when (havJSONDataType_eqb currentType DT_Array)
    (format_in_array previousToken token tokenTypesSize)
  ++ when (havJSONDataType_eqb currentType DT_Object)
       (format_in_object previousToken token tokenTypesSize).

Record WriterState : Type := mkWriterState {
  w_tokenTypes : list havJSONDataType;
  w_tokenTypesSize : Z;
  w_previousToken : havJSONToken;
  w_currentType : havJSONDataType;
  w_jsonContentsAsString : list Z
}.

(** One iteration of [while (itr != tokens.end ())]. *)
Definition ConvertJSONToString_step (formatted : bool) (itr : havJSONTokenValue)
    (st : WriterState) : result WriterState :=
  st <-
    (if is_right (mToken itr) then
       currentType <- back (w_tokenTypes st) ;;
       let tokenTypes := pop_back (w_tokenTypes st) in
       (* tokenTypesSize = tokenTypes.size () *)
       Ok (mkWriterState tokenTypes (Z.of_nat (length tokenTypes)) (w_previousToken st)
             currentType (w_jsonContentsAsString st))
     else Ok st) ;;
  let text :=
    if formatted then
      w_jsonContentsAsString st
        ++ format_token (w_currentType st) (w_previousToken st) (mToken itr)
             (w_tokenTypesSize st)
    else w_jsonContentsAsString st in
  value <- token_text itr ;;
  let text := text ++ value in
  let '(tokenTypes, tokenTypesSize, currentType) :=
    match mToken itr with
    | LeftCurlyBracket =>
        let tokenTypes := push_back (w_tokenTypes st) DT_Object in
        (tokenTypes, Z.of_nat (length tokenTypes), DT_Object)
    | LeftSquareBracket =>
        let tokenTypes := push_back (w_tokenTypes st) DT_Array in
        (tokenTypes, Z.of_nat (length tokenTypes), DT_Array)
    | _ => (w_tokenTypes st, w_tokenTypesSize st, w_currentType st)
    end in
  Ok (mkWriterState tokenTypes tokenTypesSize (mToken itr) currentType text).

Fixpoint ConvertJSONToString_steps (formatted : bool) (tokens : list havJSONTokenValue)
    (st : WriterState) : result WriterState :=
  match tokens with
  | [] => Ok st
  | itr :: rest =>
      st <- ConvertJSONToString_step formatted itr st ;;
      ConvertJSONToString_steps formatted rest st
  end.

(** [ConvertJSONToString (valueNode, jsonContentsAsString, formatted)],
    with [jsonContentsAsString] empty at the call: [Ok None] is
    [return false]. *)
Definition ConvertJSONToString_formatted (valueNode : havJSONData) (formatted : bool)
  : result (option (list Z)) :=
  tokens <- Tokenization_value valueNode ;;
  match tokens with
  | [] => Ok None
  | first :: _ =>
      if negb (tok_eqb (mToken first) LeftCurlyBracket)
         && negb (tok_eqb (mToken first) LeftSquareBracket) then Ok None
      else
        let currentType :=
          if tok_eqb (mToken first) LeftSquareBracket then DT_Array
          else if tok_eqb (mToken first) LeftCurlyBracket then DT_Object
          else DT_Null in
        st <- ConvertJSONToString_steps formatted tokens
                (mkWriterState [] 0 None_ currentType []) ;;
        Ok (Some (w_jsonContentsAsString st))
  end.

(** [WriteJSONFile]: the bytes written to the file, once it is open. *)
Definition WriteJSONFile (valueNode : havJSONData) (formatted : bool)
  : result (option (list Z)) :=
  ConvertJSONToString_formatted valueNode formatted.

(** ** [ParseFile] of a JSON file

    [fileContents] is the sequence of the bytes of the file, which the
    function reads with [std::fread] once the file is open.  The two
    conversions of [std::wstring_convert] to UTF-8 are parameters: they
    are library code, and they may throw. *)

Inductive havJSONBOMType : Type :=
| BOM_None | BOM_UTF8 | BOM_UTF16LE | BOM_UTF16BE | BOM_UTF32LE | BOM_UTF32BE.

(** The [if] chain on [bomArray]: the type and [bytesToSkip]. *)
Definition find_bom (b0 b1 b2 b3 : Z) : havJSONBOMType * Z :=
  if (b0 =? 0xff) && (b1 =? 0xfe) && (b2 =? 0x00) && (b3 =? 0x00) then (BOM_UTF32LE, 4)
  else if (b0 =? 0x00) && (b1 =? 0x00) && (b2 =? 0xfe) && (b3 =? 0xff) then
    (BOM_UTF32BE, 4)
  else if (b0 =? 0xff) && (b1 =? 0xfe) then (BOM_UTF16LE, 2)
  else if (b0 =? 0xfe) && (b1 =? 0xff) then (BOM_UTF16BE, 2)
  else if (b0 =? 0xef) && (b1 =? 0xbb) && (b2 =? 0xbf) then (BOM_UTF8, 3)
  else (BOM_None, 0).

(** If no BOM has been found, we still need to check for the file
    encoding. *)
Definition guess_encoding (b0 b1 b2 b3 : Z) : havJSONBOMType :=
  if negb (b0 =? 0x00) && (b1 =? 0x00) && (b2 =? 0x00) && (b3 =? 0x00) then BOM_UTF32LE
  else if (b0 =? 0x00) && (b1 =? 0x00) && (b2 =? 0x00) && negb (b3 =? 0x00) then
    BOM_UTF32BE
  else if negb (b0 =? 0x00) && (b1 =? 0x00) && negb (b2 =? 0x00) && (b3 =? 0x00) then
    BOM_UTF16LE
  else if (b0 =? 0x00) && negb (b1 =? 0x00) && (b2 =? 0x00) && negb (b3 =? 0x00) then
    BOM_UTF16BE
  else BOM_None.

(** What [std::fread (&c, width, 1, ...)] yields call after call on a
    little-endian machine: the units of [width] bytes of the file; bytes
    at the end that do not fill a unit are not read. *)
Fixpoint file_units (fuel : nat) (width : nat) (bytes : list Z) : list Z :=
  match fuel with
  | O => []
  | S fuel' =>
      if (length bytes <? width)%nat then []
      else
        fold_right (fun b acc => b + 256 * acc) 0 (firstn width bytes)
          :: file_units fuel' width (skipn width bytes)
  end.

(** The three reading loops: [width] is [sizeof] of the unit read. *)
Fixpoint read_units (width : Z) (units : list Z) (bytesToSkip skippedBytes : Z)
    (contents : list Z) : list Z :=
  match units with
  | [] => contents
  | currentChar :: rest =>
      if (0 <? bytesToSkip) && (skippedBytes <? bytesToSkip) then
        read_units width rest bytesToSkip (skippedBytes + width) contents
      else read_units width rest bytesToSkip skippedBytes (contents ++ [currentChar])
  end.

Definition swap_u16 (currentChar : Z) : Z :=
  to_unsigned 16
    (Z.lor (Z.shiftl (Z.land currentChar 0x00ff) 8)
       (Z.shiftr (Z.land currentChar 0xff00) 8)).

Definition swap_u32 (currentChar : Z) : Z :=
  to_unsigned 32
    (Z.lor
       (Z.lor
          (Z.lor (Z.shiftl (Z.land currentChar 0x000000ff) 24)
             (Z.shiftl (Z.land currentChar 0x0000ff00) 8))
          (Z.shiftr (Z.land currentChar 0x00ff0000) 8))
       (Z.shiftr (Z.land currentChar 0xff000000) 24)).

Section ParseFile.

Variable dm : DataModel.

(** [std::wstring_convert<...>{}.to_bytes] for [char16_t] and for
    [char32_t]. *)
Variable to_bytes_u16 : list Z -> result (list Z).
Variable to_bytes_u32 : list Z -> result (list Z).

Definition ParseFile_JSON (file : list Z) : result (bool * havJSONData) :=
  let fileSize := size file in
  if fileSize =? 0 then Ok (false, havJSONData_of_type DT_Null) (* JSON file is empty! *)
  else
    let '(bomType, bytesToSkip) :=
      if 4 <=? fileSize then
        let b0 := at_ file 0 in
        let b1 := at_ file 1 in
        let b2 := at_ file 2 in
        let b3 := at_ file 3 in
        let '(bomType, bytesToSkip) := find_bom b0 b1 b2 b3 in
        match bomType with
        | BOM_None => (guess_encoding b0 b1 b2 b3, bytesToSkip)
        | _ => (bomType, bytesToSkip)
        end
      else (BOM_None, 0) in
    fileContents <-
      match bomType with
      | BOM_None | BOM_UTF8 => Ok (read_units 1 file bytesToSkip 0 [])
      | BOM_UTF16LE =>
          to_bytes_u16
            (read_units 2 (file_units (length file) 2 file) bytesToSkip 0 [])
      | BOM_UTF16BE =>
          to_bytes_u16
            (map swap_u16
               (read_units 2 (file_units (length file) 2 file) bytesToSkip 0 []))
      | BOM_UTF32LE =>
          to_bytes_u32
            (read_units 4 (file_units (length file) 4 file) bytesToSkip 0 [])
      | BOM_UTF32BE =>
          to_bytes_u32
            (map swap_u32
               (read_units 4 (file_units (length file) 4 file) bytesToSkip 0 []))
      end ;;
    ParseContent dm fileContents.

End ParseFile.

(** * Properties

    The statements below are about the definitions above.  Inputs the
    specification gives literally are written out as byte lists. *)

(** ** Scenarios of the specification *)

(** The document [16 00 00 00 02 68 65 6C 6C 6F 00 06 00 00 00 77 6F 72 6C
    64 00 00]. *)
Definition hello_world_bin : list Z :=
  [0x16; 0x00; 0x00; 0x00; 0x02; 0x68; 0x65; 0x6C; 0x6C; 0x6F; 0x00;
   0x06; 0x00; 0x00; 0x00; 0x77; 0x6F; 0x72; 0x6C; 0x64; 0x00; 0x00].

(** Object{hello -> String(world)} *)
Definition hello_world : havJSONData :=
  Data DT_Object (V_map [(str "hello", Data DT_String (V_string (str "world")))]).

(** The text [{"n":-9223372036854775808}]. *)
Definition min_int64_text : list Z :=
  str "{" ++ [DQ] ++ str "n" ++ [DQ] ++ str ":-9223372036854775808}".

Definition min_int64 : Z := -9223372036854775808.


(** ** Reading the input at an index *)

Lemma skipn_cons_inv :
  forall (A : Type) (n : nat) (s : list A) (c : A) (rest : list A) (d : A),
    skipn n s = c :: rest ->
    nth n s d = c /\ (n < length s)%nat /\ skipn (S n) s = rest.
Proof.
  intros A n. induction n as [| n IH]; intros s c rest d H.
  - destruct s as [| x s]; simpl in H; [ discriminate | ].
    inversion H; subst. simpl. repeat split. apply Nat.lt_0_succ.
  - destruct s as [| x s]; simpl in H; [ discriminate | ].
    destruct (IH s c rest d H) as (H1 & H2 & H3).
    simpl. repeat split; auto. apply -> Nat.succ_lt_mono. exact H2.
Qed.

(** The character at [index] and what follows it. *)
Lemma from_cons :
  forall (s : list Z) (i c : Z) (rest : list Z),
    from i s = c :: rest ->
    0 <= i ->
    at_ s i = c /\ (size s <=? i) = false /\ from (i + 1) s = rest.
Proof.
  intros s i c rest H Hi. unfold from in *.
  destruct (skipn_cons_inv _ _ _ _ _ 0 H) as (H1 & H2 & H3).
  unfold at_, size. split; [ exact H1 | ]. split.
  - apply Z.leb_gt. lia.
  - replace (Z.to_nat (i + 1)) with (S (Z.to_nat i)) by lia. exact H3.
Qed.

(** [read H as c] takes the next character off a hypothesis
    [H : from i s = c :: rest]. *)
Ltac read_char H Hat Hsz :=
  match type of H with
  | from ?i ?s = _ :: _ =>
      let H' := fresh H in
      destruct (from_cons _ _ _ _ H) as (Hat & Hsz & H'); [ lia | ];
      clear H; rename H' into H
  end.

(** ** UTF-8

    [utf8_encode] is the encoding as the standard defines it, written
    with division and remainder. *)

Definition utf8_encode (cp : Z) : list Z :=
  if cp <? 0x80 then [cp]
  else if cp <? 0x800 then [0xC0 + cp / 64; 0x80 + cp mod 64]
  else if cp <? 0x10000 then
    [0xE0 + cp / 4096; 0x80 + (cp / 64) mod 64; 0x80 + cp mod 64]
  else
    [0xF0 + cp / 262144; 0x80 + (cp / 4096) mod 64; 0x80 + (cp / 64) mod 64;
     0x80 + cp mod 64].

(** A property checked on every number below [n] holds below [n]. *)
Fixpoint all_from (P : Z -> bool) (count : nat) (x : Z) : bool :=
  match count with
  | O => true
  | S count' => P x && all_from P count' (x + 1)
  end.

Lemma all_from_spec :
  forall (P : Z -> bool) (count : nat) (x0 : Z),
    all_from P count x0 = true ->
    forall x : Z, x0 <= x < x0 + Z.of_nat count -> P x = true.
Proof.
  intros P count. induction count as [| count IH]; intros x0 H x Hx.
  - simpl in Hx. lia.
  - cbn [all_from] in H. apply andb_prop in H. destruct H as [H0 H].
    destruct (Z.eq_dec x x0) as [-> | Hne]; [ exact H0 | ].
    apply (IH (x0 + 1) H). lia.
Qed.

Lemma forall_below :
  forall (P : Z -> bool) (n : Z),
    all_from P (Z.to_nat n) 0 = true ->
    forall x : Z, 0 <= x < n -> P x = true.
Proof.
  intros P n H x Hx. apply (all_from_spec P (Z.to_nat n) 0 H). lia.
Qed.

Lemma lor_0x80 : forall a : Z, 0 <= a < 64 -> Z.lor a 0x80 = 0x80 + a.
Proof.
  intros a Ha.
  apply Z.eqb_eq.
  apply (forall_below (fun a => Z.lor a 0x80 =? 0x80 + a) 64); [ vm_compute; reflexivity | lia ].
Qed.

Lemma lor_lead :
  forall a : Z, 0 <= a < 32 ->
    Z.lor a 0xc0 = 0xc0 + a
    /\ (a < 16 -> Z.lor a 0xe0 = 0xe0 + a)
    /\ (a < 8 -> Z.lor a 0xf0 = 0xf0 + a).
Proof.
  intros a Ha.
  assert (H : ((Z.lor a 0xc0 =? 0xc0 + a)
               && ((16 <=? a) || (Z.lor a 0xe0 =? 0xe0 + a))
               && ((8 <=? a) || (Z.lor a 0xf0 =? 0xf0 + a))) = true).
  { apply (forall_below
             (fun a => (Z.lor a 0xc0 =? 0xc0 + a)
                       && ((16 <=? a) || (Z.lor a 0xe0 =? 0xe0 + a))
                       && ((8 <=? a) || (Z.lor a 0xf0 =? 0xf0 + a))) 32);
      [ vm_compute; reflexivity | lia ]. }
  apply andb_prop in H. destruct H as [H H3].
  apply andb_prop in H. destruct H as [H1 H2].
  apply Z.eqb_eq in H1.
  apply orb_prop in H2. apply orb_prop in H3.
  repeat split; auto.
  - intros. destruct H2 as [H2 | H2]; [ apply Z.leb_le in H2; lia | apply Z.eqb_eq in H2; exact H2 ].
  - intros. destruct H3 as [H3 | H3]; [ apply Z.leb_le in H3; lia | apply Z.eqb_eq in H3; exact H3 ].
Qed.

Lemma land_0x3f : forall a : Z, Z.land a 0x3f = a mod 64.
Proof. intros a. change 0x3f with (Z.ones 6). rewrite Z.land_ones by lia. reflexivity. Qed.

Lemma shiftr_div : forall a n : Z, 0 <= n -> Z.shiftr a n = a / 2 ^ n.
Proof. intros. apply Z.shiftr_div_pow2. assumption. Qed.

Lemma to_char_small : forall x : Z, 0 <= x < 256 -> to_char x = x.
Proof. intros. unfold to_char. apply Z.mod_small. assumption. Qed.

Lemma c_str_cons :
  forall (c : Z) (rest : list Z), c <> 0 -> c_str (c :: rest) = c :: c_str rest.
Proof.
  intros c rest Hc. cbn [c_str]. destruct (Z.eqb_spec c 0); [ contradiction | reflexivity ].
Qed.

Lemma c_str_nul : forall rest : list Z, c_str (0 :: rest) = [].
Proof. reflexivity. Qed.

(** [CodePointToString] is the UTF-8 encoding, except at 0, where the
    terminated character array reads as the empty string. *)
Lemma CodePointToString_utf8 :
  forall cp : Z, 0 < cp < 0x110000 -> CodePointToString cp = utf8_encode cp.
Proof.
  intros cp Hcp. unfold CodePointToString, utf8_encode.
  rewrite !land_0x3f, !shiftr_div by lia.
  change (2 ^ 6) with 64. change (2 ^ 12) with 4096. change (2 ^ 18) with 262144.
  assert (0 <= cp mod 64 < 64) by (apply Z.mod_pos_bound; lia).
  assert (0 <= (cp / 64) mod 64 < 64) by (apply Z.mod_pos_bound; lia).
  assert (0 <= (cp / 4096) mod 64 < 64) by (apply Z.mod_pos_bound; lia).
  destruct (Z.ltb_spec cp 0x80).
  { rewrite to_char_small by lia. rewrite c_str_cons by lia. reflexivity. }
  destruct (Z.ltb_spec cp 0x800).
  { assert (0 <= cp / 64 < 32)
      by (split; [ apply Z.div_pos | apply Z.div_lt_upper_bound ]; lia).
    pose proof (lor_lead (cp / 64) ltac:(lia)) as (Hl & _ & _). rewrite Hl.
    rewrite lor_0x80 by lia.
    rewrite !to_char_small by lia. rewrite !c_str_cons by lia. reflexivity. }
  destruct (Z.ltb_spec cp 0x10000).
  { assert (0 <= cp / 4096 < 16)
      by (split; [ apply Z.div_pos | apply Z.div_lt_upper_bound ]; lia).
    pose proof (lor_lead (cp / 4096) ltac:(lia)) as (_ & Hl & _). rewrite Hl by lia.
    rewrite !lor_0x80 by lia.
    rewrite !to_char_small by lia. rewrite !c_str_cons by lia. reflexivity. }
  destruct (Z.ltb_spec cp 0x110000); [ | lia ].
  assert (0 <= cp / 262144 < 8)
    by (split; [ apply Z.div_pos | apply Z.div_lt_upper_bound ]; lia).
  pose proof (lor_lead (cp / 262144) ltac:(lia)) as (_ & _ & Hl). rewrite Hl by lia.
  rewrite !lor_0x80 by lia.
  rewrite !to_char_small by lia. rewrite !c_str_cons by lia. reflexivity.
Qed.

Lemma from_nil :
  forall (s : list Z) (i : Z), 0 <= i -> from i s = [] -> (size s <=? i) = true.
Proof.
  intros s i Hi H. unfold from in H. unfold size. apply Z.leb_le.
  assert (Hlen : length (skipn (Z.to_nat i) s) = 0%nat) by (rewrite H; reflexivity).
  rewrite length_skipn in Hlen. lia.
Qed.

Lemma from_app :
  forall (a : list Z) (s : list Z) (i : Z) (b : list Z),
    0 <= i -> from i s = a ++ b -> from (i + size a) s = b.
Proof.
  induction a as [| c a IH]; intros s i b Hi H.
  - unfold size. simpl. rewrite Z.add_0_r. exact H.
  - cbn [app] in H.
    destruct (from_cons _ _ _ _ H Hi) as (_ & _ & H').
    replace (i + size (c :: a)) with (i + 1 + size a)
      by (unfold size; cbn [length]; lia).
    apply IH; [ lia | exact H' ].
Qed.

Lemma from_0 : forall s : list Z, from 0 s = s.
Proof. reflexivity. Qed.

(** ** Scenarios, proved *)

(** C2: decoding the 22 bytes yields Object{hello -> String(world)}, and
    writing that value as BIN (the four-byte total length, then the
    encoder's bytes) yields the same 22 bytes, under either data model. *)
Theorem bin_hello_world_round_trip :
  forall dm : DataModel,
    ParseFile_BSON dm hello_world_bin = Ok (true, hello_world)
    /\ WriteBSONFile hello_world = Ok (Some hello_world_bin)
    /\ length hello_world_bin = 22%nat.
Proof.
  intros dm.
  split; [ destruct dm; vm_compute; reflexivity | ].
  split; vm_compute; reflexivity.
Qed.

(** C4, as the code has it: the text parses without an error under both
    data models, to an object whose key n holds -9223372036854775808; the
    kind of that value is Int64 where [long] has 32 bits and Long (the
    wide signed kind) where [long] has 64 bits, since [std::stol] then
    succeeds before [std::stoll] is tried. *)
Theorem parse_min_int64 :
  forall dm : DataModel,
    ParseContent dm min_int64_text
    = Ok (true,
          Data DT_Object
            (V_map [(str "n",
                     match dm with
                     | LLP64 => Data DT_Int64 (V_int64 min_int64)
                     | LP64 => Data DT_Long (V_long min_int64)
                     end)])).
Proof.
  intros dm; destruct dm; vm_compute; reflexivity.
Qed.

(** C4 as stated fails where [long] has 64 bits: the value is of the Long
    kind, not of the Int64 kind. *)
Lemma parse_min_int64_LP64_is_Long :
  ParseContent LP64 min_int64_text
  = Ok (true, Data DT_Object (V_map [(str "n", Data DT_Long (V_long min_int64))]))
  /\ havJSONDataType_eqb DT_Long DT_Int64 = false.
Proof.
  split; vm_compute; reflexivity.
Qed.


(** ** Container methods *)

(** C9: [remove (key)] on an object returns normally and leaves the
    object as it was, whether or not the key is present. *)
Theorem remove_key_leaves_object_unchanged :
  forall (m : list (list Z * havJSONData)) (key : list Z),
    remove key (Data DT_Object (V_map m)) = (Ok tt, Data DT_Object (V_map m))
    /\ contains_key key (snd (remove key (Data DT_Object (V_map m))))
       = contains_key key (Data DT_Object (V_map m)).
Proof.
  intros m key.
  assert (H : remove key (Data DT_Object (V_map m)) = (Ok tt, Data DT_Object (V_map m))).
  { unfold remove; simpl. destruct (map_find key m); reflexivity. }
  split; [ exact H | rewrite H; reflexivity ].
Qed.

(** The sibling [erase] does remove an entry: the first key of an object
    is gone after [erase], and still there after [remove]. *)
Lemma erase_removes_where_remove_does_not :
  forall (k : list Z) (v : havJSONData) (m : list (list Z * havJSONData)),
    string_compare k k = Eq ->
    snd (erase k (Data DT_Object (V_map ((k, v) :: m)))) = Data DT_Object (V_map m)
    /\ snd (remove k (Data DT_Object (V_map ((k, v) :: m))))
       = Data DT_Object (V_map ((k, v) :: m)).
Proof.
  intros k v m Hk. unfold erase, remove; simpl. rewrite Hk. split; reflexivity.
Qed.

(** C10: [clear ()] throws on every value; on an array and on an object
    the elements are erased first, so the exception is raised after the
    change has taken effect; any other value is left as it was. *)
Theorem clear_throws_after_erasing :
  forall self : havJSONData,
    (exists e : exn, fst (clear self) = Throw e)
    /\ (forall v : list havJSONData,
           self = Data DT_Array (V_vector v) ->
           clear self
           = (Throw (runtime_error "Value is not an array or object!"),
              Data DT_Array (V_vector [])))
    /\ (forall m : list (list Z * havJSONData),
           self = Data DT_Object (V_map m) ->
           clear self
           = (Throw (runtime_error "Value is not an array or object!"),
              Data DT_Object (V_map [])))
    /\ (havJSONDataType_eqb (getType self) DT_Array = false ->
        havJSONDataType_eqb (getType self) DT_Object = false ->
        clear self = (Throw (runtime_error "Value is not an array or object!"), self)).
Proof.
  intros self. repeat split.
  - destruct self as [t v]. unfold clear.
    destruct t; simpl; eauto; destruct v; simpl; eauto.
  - intros v ->. reflexivity.
  - intros m ->. reflexivity.
  - destruct self as [t v]. destruct t; simpl; intros Ha Ho;
      try discriminate; reflexivity.
Qed.


(** ** The string scanner *)

Definition backslash : Z := ch "\".

Lemma scan_hex_stops :
  forall (hexs : list Z) (n : nat) (s : list Z) (i : Z) (c : Z) (rest : list Z)
         (flag : bool) (hexString : list Z),
    0 <= i ->
    from (i + 1) s = hexs ++ c :: rest ->
    (length hexs < n)%nat ->
    forallb isxdigit hexs = true ->
    isxdigit c = false ->
    scan_hex n s i flag hexString = Ok (false, hexString ++ hexs, i + 1 + size hexs).
Proof.
  induction hexs as [| h hexs IH]; intros n s i c rest flag hexString Hi H Hn Hx Hc.
  - destruct n as [| n]; [ inversion Hn | ].
    simpl in H. read_char H A0 S0.
    cbn [scan_hex]. rewrite S0, A0, Hc. simpl.
    rewrite app_nil_r. f_equal. f_equal. unfold size. simpl. lia.
  - destruct n as [| n]; [ inversion Hn | ].
    simpl in H. read_char H A0 S0.
    simpl in Hx. apply andb_prop in Hx. destruct Hx as [Hh Hx].
    cbn [scan_hex]. rewrite S0, A0, Hh. cbn [negb].
    rewrite (IH n s (i + 1) c rest true (hexString ++ [h])); auto; try lia.
    + rewrite <- app_assoc. simpl. f_equal. f_equal.
      unfold size. cbn [length]. lia.
    + simpl in Hn. lia.
Qed.

Lemma scan_hex_full :
  forall (hexs : list Z) (s : list Z) (i : Z) (rest : list Z)
         (flag : bool) (hexString : list Z),
    0 <= i ->
    from (i + 1) s = hexs ++ rest ->
    forallb isxdigit hexs = true ->
    hexs <> [] ->
    scan_hex (length hexs) s i flag hexString
    = Ok (true, hexString ++ hexs, i + size hexs).
Proof.
  induction hexs as [| h hexs IH]; intros s i rest flag hexString Hi H Hx Hne.
  - contradiction.
  - simpl in H. read_char H A0 S0.
    simpl in Hx. apply andb_prop in Hx. destruct Hx as [Hh Hx].
    cbn [scan_hex length]. rewrite S0, A0, Hh. cbn [negb].
    destruct hexs as [| h' hexs'].
    + simpl. f_equal.
    + rewrite (IH s (i + 1) rest true (hexString ++ [h])); auto; try lia.
      * rewrite <- app_assoc. simpl. f_equal. f_equal.
        unfold size. cbn [length]. lia.
      * discriminate.
Qed.



(** The whole literal of the third scenario of the specification. *)
Example scan_grinning_face :
  CheckForString 0 ([DQ] ++ str "\uD83D\uDE00" ++ [DQ])
  = Ok (TokenValue Value (Some [0xF0; 0x9F; 0x98; 0x80]), 13).
Proof. vm_compute. reflexivity. Qed.

(** *** Escapes that are not four hexadecimal digits *)

(** C6 as stated fails: the literal [\uZZZZ] between quotes is scanned
    without an error and yields the five characters [uZZZZ]. *)
Lemma non_hex_escape_is_scanned :
  CheckForString 0 ([DQ] ++ str "\uZZZZ" ++ [DQ])
  = Ok (TokenValue Value (Some (str "uZZZZ")), 7).
Proof. vm_compute. reflexivity. Qed.

(** C6, as the code has it.  Where the scanning loop meets a backslash,
    [u], fewer than four hexadecimal digits and then another character,
    the iteration does not fail: it appends [u] and the digits it has
    read to the decoded string, and the loop goes on at that other
    character.  The error of the low surrogate is raised only where such
    an escape directly follows a complete [\uXXXX]. *)
Theorem non_hex_escape_is_literal :
  forall (s : list Z) (i : Z) (tempValue hexs : list Z) (c : Z) (rest : list Z),
    0 <= i ->
    (length hexs < 4)%nat ->
    forallb isxdigit hexs = true ->
    isxdigit c = false ->
    (from i s = backslash :: ch "u" :: hexs ++ c :: rest ->
     CheckForString_body s i tempValue
     = Ok (Next (i + 1 + size hexs) (tempValue ++ ch "u" :: hexs)))
    /\ (forall g1 g2 g3 g4 : Z,
           forallb isxdigit [g1; g2; g3; g4] = true ->
           from i s
           = backslash :: ch "u" :: g1 :: g2 :: g3 :: g4
               :: backslash :: ch "u" :: hexs ++ c :: rest ->
           CheckForString_body s i tempValue
           = Throw (runtime_error "Invalid code point for UTF-16 low surrogate pair!")).
Proof.
  intros s i tempValue hexs c rest Hi Hn Hx Hc. split.
  - intros H.
    read_char H A0 S0. read_char H A1 S1.
    unfold CheckForString_body.
    rewrite A0. change (backslash =? DQ) with false.
    change (backslash =? ch "\") with true. cbv iota.
    rewrite S1, A1. change (ch "u" =? DQ) with false.
    change (ch "u" =? ch "\") with false. change (ch "u" =? ch "/") with false.
    change (ch "u" =? ch "b") with false. change (ch "u" =? ch "f") with false.
    change (ch "u" =? ch "n") with false. change (ch "u" =? ch "r") with false.
    change (ch "u" =? ch "t") with false. change (ch "u" =? ch "u") with true.
    cbv iota. simpl orb. cbv iota.
    rewrite (scan_hex_stops hexs 4 s (i + 1) c rest false []); auto; try lia.
    unfold bind. cbv iota beta. simpl app.
    f_equal. f_equal. lia.
  - intros g1 g2 g3 g4 Hg H.
    read_char H A0 S0. read_char H A1 S1.
    pose proof (scan_hex_full [g1; g2; g3; g4] s (i + 1) _ false [] ltac:(lia) H Hg
                  ltac:(discriminate)) as Hfull.
    read_char H A2 S2. read_char H A3 S3. read_char H A4 S4. read_char H A5 S5.
    read_char H A6 S6. read_char H A7 S7.
    unfold CheckForString_body.
    rewrite A0. change (backslash =? DQ) with false.
    change (backslash =? ch "\") with true. cbv iota.
    rewrite S1, A1. change (ch "u" =? DQ) with false.
    change (ch "u" =? ch "\") with false. change (ch "u" =? ch "/") with false.
    change (ch "u" =? ch "b") with false. change (ch "u" =? ch "f") with false.
    change (ch "u" =? ch "n") with false. change (ch "u" =? ch "r") with false.
    change (ch "u" =? ch "t") with false. change (ch "u" =? ch "u") with true.
    cbv iota. simpl orb. cbv iota.
    change 4%nat with (length [g1; g2; g3; g4]) at 1.
    rewrite Hfull. unfold bind at 1. cbv iota beta.
    change (size [g1; g2; g3; g4]) with 4.
    replace (i + 1 + 4 + 1) with (i + 1 + 1 + 1 + 1 + 1 + 1) by lia.
    rewrite S6, A6. change (backslash =? ch "\") with true. cbv iota.
    rewrite S7, A7. change (ch "u" =? ch "u") with true. cbv iota.
    rewrite (scan_hex_stops hexs 4 s (i + 1 + 1 + 1 + 1 + 1 + 1 + 1) c rest false []);
      auto; try lia.
Qed.

Lemma non_hex_escape_is_literal_witness :
  CheckForString_body ([DQ] ++ str "\u12Z" ++ [DQ]) 1 []
  = Ok (Next 4 (str "u12"))
  /\ CheckForString_body ([DQ] ++ str "\u0041\u12Z" ++ [DQ]) 1 []
     = Throw (runtime_error "Invalid code point for UTF-16 low surrogate pair!").
Proof.
  split.
  - apply (proj1 (non_hex_escape_is_literal ([DQ] ++ str "\u12Z" ++ [DQ]) 1 []
                    [ch "1"; ch "2"] (ch "Z") [DQ] ltac:(discriminate)
                    (proj1 (Nat.ltb_lt 2 4) eq_refl) eq_refl eq_refl)).
    reflexivity.
  - apply (proj2 (non_hex_escape_is_literal ([DQ] ++ str "\u0041\u12Z" ++ [DQ]) 1 []
                    [ch "1"; ch "2"] (ch "Z") [DQ] ltac:(discriminate)
                    (proj1 (Nat.ltb_lt 2 4) eq_refl) eq_refl eq_refl)
             (ch "0") (ch "0") (ch "4") (ch "1"));
      reflexivity.
Defined.

(** ** The number scanner *)

(** The literal [CheckForNumber] reads when it is called at [index] after
    the character [value], and the index of its last character. *)
Definition number_literal (index : Z) (s : list Z) (value : Z) : list Z :=
  snd (CheckForNumber_loop (from index s) index [value]).

Definition number_last (index : Z) (s : list Z) (value : Z) : Z :=
  fst (CheckForNumber_loop (from index s) index [value]) - 1.

Definition is_floating (literal : list Z) : bool :=
  contains (ch ".") literal || contains (ch "e") literal || contains (ch "E") literal.

(** The integer a literal denotes: its sign and leading decimal digits. *)
Definition integer_value (literal : list Z) : option Z :=
  match strto_subject literal with
  | Some (negative, magnitude) => Some (if negative then - magnitude else magnitude)
  | None => None
  end.

Definition fits_signed (bits v : Z) : bool :=
  (- 2 ^ (bits - 1) <=? v) && (v <=? 2 ^ (bits - 1) - 1).

Definition fits_unsigned (bits v : Z) : bool := v <=? 2 ^ bits - 1.

(** The narrowest kind that fits, as the specification words it: Int32,
    wide-int, Int64 for a literal with a minus sign and UInt32, wide-uint,
    UInt64 for any other. *)
Definition narrowest_signed (dm : DataModel) (v : Z) : option havJSONToken :=
  if fits_signed 32 v then Some Int
  else if fits_signed (long_bits dm) v then Some Long
  else if fits_signed 64 v then Some Int64
  else None.

Definition narrowest_unsigned (dm : DataModel) (v : Z) : option havJSONToken :=
  if fits_unsigned 32 v then Some UInt
  else if fits_unsigned (long_bits dm) v then Some ULong
  else if fits_unsigned 64 v then Some UInt64
  else None.

Definition number_token_spec (dm : DataModel) (literal : list Z)
  : result havJSONTokenValue :=
  if is_floating literal then
    d <- stod literal ;;
    Ok (TokenValue Double (Some (fixed 15 d)))
  else
    match integer_value literal with
    | None => Throw invalid_argument
    | Some v =>
        match (if at_ literal 0 =? ch "-" then narrowest_signed dm v
               else narrowest_unsigned dm v) with
        | Some kind => Ok (TokenValue kind (Some (to_string v)))
        | None => Throw out_of_range
        end
    end.

Ltac compute_powers :=
  repeat match goal with
         | |- context [2 ^ ?n] =>
             let v := eval vm_compute in (2 ^ n) in change (2 ^ n) with v
         end.

Lemma CheckForNumber_loop_head :
  forall (rest : list Z) (index : Z) (tempValue : list Z),
    exists tail : list Z,
      snd (CheckForNumber_loop rest index tempValue) = tempValue ++ tail.
Proof.
  induction rest as [| c rest IH]; intros index tempValue; simpl.
  - exists []. rewrite app_nil_r. reflexivity.
  - destruct ((c =? ch ",") || SkipWhitespaces c false).
    + exists []. rewrite app_nil_r. reflexivity.
    + destruct (IH (index + 1) (tempValue ++ [c])) as [tail Ht].
      exists (c :: tail). rewrite Ht, <- app_assoc. reflexivity.
Qed.

(** The literal starts with the character the lexer dispatched on. *)
Lemma number_literal_head :
  forall (index : Z) (s : list Z) (value : Z),
    exists tail : list Z, number_literal index s value = value :: tail.
Proof.
  intros. unfold number_literal.
  destruct (CheckForNumber_loop_head (from index s) index [value]) as [tail Ht].
  exists tail. exact Ht.
Qed.

(** A literal whose first character starts a number and is not a minus
    sign has no minus sign for [strtoul] to apply. *)
Lemma strto_subject_unsigned :
  forall (value : Z) (tail : list Z) (negative : bool) (magnitude : Z),
    starts_number value = true ->
    (value =? ch "-") = false ->
    strto_subject (value :: tail) = Some (negative, magnitude) ->
    negative = false.
Proof.
  intros value tail negative magnitude Hs Hm H.
  unfold strto_subject in H. cbn [skip_space] in H.
  assert (Hsp : isspace value = false).
  { unfold starts_number, isdigit in Hs. unfold isspace.
    repeat match goal with
           | H : (_ || _) = true |- _ => apply orb_prop in H; destruct H as [H | H]
           | H : (_ && _) = true |- _ => apply andb_prop in H; destruct H as [? H]
           | H : (_ =? _) = true |- _ => apply Z.eqb_eq in H; subst
           | H : (_ <=? _) = true |- _ => apply Z.leb_le in H
           end; try reflexivity.
    change (ch "0") with 48 in *. change (ch "9") with 57 in *.
    change (ch " ") with 32. change ch_t with 9. change ch_r with 13.
    apply orb_false_intro; [ apply Z.eqb_neq; lia | ].
    apply andb_false_intro2. apply Z.leb_gt. lia. }
  rewrite Hsp in H. rewrite Hm in H.
  destruct (value =? ch "+"); destruct (digits _ 0 false); inversion H; reflexivity.
Qed.

(** C3: the token [CheckForNumber] returns for the literal it reads is
    the one the specification describes: a Double written with fifteen
    digits after the point when the literal contains a point or an
    exponent mark; otherwise the narrowest signed kind that holds its
    value when it starts with a minus sign and the narrowest unsigned kind
    when it does not, with the value in decimal.  A literal that does not
    convert raises the exception of the conversion. *)
Theorem number_token_is_narrowest :
  forall (dm : DataModel) (index : Z) (s : list Z) (value : Z),
    starts_number value = true ->
    CheckForNumber dm index s value
    = (token <- number_token_spec dm (number_literal index s value) ;;
       Ok (token, number_last index s value)).
Proof.
  intros dm index s value Hs.
  destruct (number_literal_head index s value) as [tail Hlit].
  unfold CheckForNumber, number_token_spec, number_literal, number_last, is_floating in *.
  destruct (CheckForNumber_loop (from index s) index [value]) as [last literal].
  cbn [fst snd] in *. subst literal.
  set (literal := value :: tail).
  change (at_ literal 0) with value.
  destruct (Z.eqb_spec value (ch "-")) as [Hminus | Hminus].
  - (* a signed value *)
    rewrite <- orb_assoc.
    destruct (contains (ch ".") literal || (contains (ch "e") literal
                                            || contains (ch "E") literal)).
    + destruct (stod literal); reflexivity.
    + unfold stoi, stol, stoll, sto_signed, integer_value, narrowest_signed, fits_signed.
      destruct (strto_subject literal) as [[negative magnitude] |]; [ | reflexivity ].
      set (v := if negative then - magnitude else magnitude).
      destruct dm; cbn [long_bits]; compute_powers;
        repeat match goal with
               | |- context [?a <=? ?b] => destruct (Z.leb_spec a b)
               end; cbn [andb bind]; try reflexivity; try lia.
  - (* an unsigned value *)
    rewrite <- orb_assoc.
    destruct (contains (ch ".") literal || (contains (ch "e") literal
                                            || contains (ch "E") literal)).
    + destruct (stod literal); reflexivity.
    + unfold stoul, stoull, sto_unsigned, integer_value, narrowest_unsigned,
        fits_unsigned, UINT_MAX.
      pose proof (strto_subject_unsigned value tail) as Hpos.
      fold literal in Hpos.
      destruct (strto_subject literal) as [[negative magnitude] |]; [ | reflexivity ].
      rewrite (Hpos negative magnitude Hs) by
          (try reflexivity; apply Z.eqb_neq; exact Hminus).
      destruct dm; cbn [long_bits]; compute_powers;
        repeat (cbn [andb bind];
                match goal with
                | |- context [?a <=? ?b] => destruct (Z.leb_spec a b)
                | |- context [?a <? ?b] => destruct (Z.ltb_spec a b)
                end); cbn [andb bind]; try reflexivity; try lia.
Qed.

Lemma number_token_is_narrowest_witness :
  CheckForNumber LLP64 2 (str "[-2147483649,7]") (ch "-")
  = Ok (TokenValue Int64 (Some (str "-2147483649")), 11)
  /\ CheckForNumber LP64 2 (str "[-2147483649,7]") (ch "-")
     = Ok (TokenValue Long (Some (str "-2147483649")), 11).
Proof.
  split.
  - exact (eq_trans
             (number_token_is_narrowest LLP64 2 (str "[-2147483649,7]") (ch "-") eq_refl)
             eq_refl).
  - exact (eq_trans
             (number_token_is_narrowest LP64 2 (str "[-2147483649,7]") (ch "-") eq_refl)
             eq_refl).
Defined.

(** The kinds on a few literals, under both data models. *)
Example number_kinds :
  map (fun s => CheckForNumber LLP64 1 s (at_ s 0))
      [str "0"; str "4294967295"; str "4294967296"; str "-1"; str "-2147483649";
       str "18446744073709551616"]
  = [Ok (TokenValue UInt (Some (str "0")), 0);
     Ok (TokenValue UInt (Some (str "4294967295")), 9);
     Ok (TokenValue UInt64 (Some (str "4294967296")), 9);
     Ok (TokenValue Int (Some (str "-1")), 1);
     Ok (TokenValue Int64 (Some (str "-2147483649")), 10);
     Throw out_of_range]
  /\ map (fun s => CheckForNumber LP64 1 s (at_ s 0))
         [str "4294967296"; str "-2147483649"; str "1.5"; str "2e3]"; str "-.e"]
     = [Ok (TokenValue ULong (Some (str "4294967296")), 9);
        Ok (TokenValue Long (Some (str "-2147483649")), 10);
        Ok (TokenValue Double (Some (str "1.500000000000000")), 2);
        Ok (TokenValue Double (Some (str "2000.000000000000000")), 3);
        Throw invalid_argument].
Proof. split; vm_compute; reflexivity. Qed.

(** ** The outgoing escaper *)

(** Four hexadecimal digits, lower case. *)
Definition hex4 (x : Z) : list Z :=
  [hex_char (x / 4096); hex_char ((x / 256) mod 16); hex_char ((x / 16) mod 16);
   hex_char (x mod 16)].

(** What the escaper writes for one code point, as the specification
    words it, with the range of the single bytes as the code has it: the
    two-character escapes; a single byte from 0x20 to 0x7F; four
    hexadecimal digits after [\u] otherwise, twice for a code point above
    0xFFFF, which is split into a surrogate pair. *)
Definition escape_code_point (cp : Z) : list Z :=
  if cp =? DQ then [backslash; DQ]
  else if cp =? backslash then [backslash; backslash]
  else if cp =? ch_b then [backslash; ch "b"]
  else if cp =? ch_f then [backslash; ch "f"]
  else if cp =? ch_n then [backslash; ch "n"]
  else if cp =? ch_r then [backslash; ch "r"]
  else if cp =? ch_t then [backslash; ch "t"]
  else if cp =? ch_v then [backslash; ch "v"]
  else if (0x20 <=? cp) && (cp <=? 0x7F) then [cp]
  else if cp <? 0x10000 then [backslash; ch "u"] ++ hex4 cp
  else
    [backslash; ch "u"] ++ hex4 (0xD800 + (cp - 0x10000) / 0x400)
      ++ [backslash; ch "u"] ++ hex4 (0xDC00 + (cp - 0x10000) mod 0x400).

Lemma escape_u_hex4 :
  forall x : Z, 0 <= x < 65536 -> escape_u x = [backslash; ch "u"] ++ hex4 x.
Proof.
  intros x Hx.
  assert (H : list_eqb (escape_u x) ([backslash; ch "u"] ++ hex4 x) = true).
  { apply (forall_below
             (fun x => list_eqb (escape_u x) ([backslash; ch "u"] ++ hex4 x)) 65536);
      [ vm_compute; reflexivity | lia ]. }
  revert H. generalize (escape_u x) ([backslash; ch "u"] ++ hex4 x).
  induction l as [| a l IH]; intros [| b l'] H; simpl in H; try discriminate.
  - reflexivity.
  - apply andb_prop in H. destruct H as [H1 H2].
    apply Z.eqb_eq in H1. subst. f_equal. apply IH. exact H2.
Qed.

Lemma lor_shiftl_small :
  forall a m k : Z, 0 <= k -> 0 <= m < 2 ^ k ->
    Z.lor (Z.shiftl a k) m = a * 2 ^ k + m.
Proof.
  intros a m k Hk Hm.
  assert (Hland : Z.land (Z.shiftl a k) m = 0).
  { apply Z.bits_inj'. intros n Hn.
    rewrite Z.land_spec, Z.bits_0.
    destruct (Z.lt_ge_cases n k) as [Hlt | Hge].
    - rewrite Z.shiftl_spec_low by assumption. reflexivity.
    - rewrite <- (Z.mod_small m (2 ^ k)) by assumption.
      rewrite Z.mod_pow2_bits_high by lia. apply andb_false_r. }
  rewrite <- Z.lxor_lor by assumption.
  rewrite <- Z.add_nocarry_lxor by assumption.
  rewrite Z.shiftl_mul_pow2 by assumption. reflexivity.
Qed.

(** Characters and strings of the source written out as numbers. *)
Ltac norm_chars :=
  unfold DQ, backslash, ch_b, ch_f, ch_n, ch_r, ch_t, ch_v in *;
  repeat match goal with
         | |- context [ch ?a] =>
             let v := eval vm_compute in (ch a) in change (ch a) with v
         | |- context [str ?a] =>
             let v := eval vm_compute in (str a) in change (str a) with v
         end.

Ltac split_bool H :=
  repeat match type of H with
         | (_ && _) = true =>
             let H1 := fresh H in
             apply andb_prop in H; destruct H as [H1 H]; try split_bool H1
         end.

Lemma ascii_bits :
  forall c : Z, 0 <= c < 128 -> Z.land c 0x80 = 0 /\ Z.land c 0x7f = c.
Proof.
  intros c Hc.
  pose proof (forall_below (fun c => (Z.land c 0x80 =? 0) && (Z.land c 0x7f =? c)) 128
                ltac:(vm_compute; reflexivity) c Hc) as H.
  cbv beta in H. split_bool H. split; apply Z.eqb_eq; assumption.
Qed.

Lemma continuation_bits :
  forall m : Z, 0 <= m < 64 ->
    (Z.land (0x80 + m) 0xc0 =? 0x80) = true /\ Z.land (0x80 + m) 0x3f = m.
Proof.
  intros m Hm.
  pose proof (forall_below
                (fun m => (Z.land (0x80 + m) 0xc0 =? 0x80) && (Z.land (0x80 + m) 0x3f =? m))
                64 ltac:(vm_compute; reflexivity) m Hm) as H.
  cbv beta in H. split_bool H. split; [ | apply Z.eqb_eq ]; assumption.
Qed.

Lemma lead2_bits :
  forall a : Z, 0 <= a < 32 ->
    (Z.land (0xC0 + a) 0x80 =? 0) = false
    /\ (Z.land (0xC0 + a) 0xe0 =? 0xc0) = true
    /\ Z.land (0xC0 + a) 0x1f = a.
Proof.
  intros a Ha.
  pose proof (forall_below
                (fun a => negb (Z.land (0xC0 + a) 0x80 =? 0)
                          && (Z.land (0xC0 + a) 0xe0 =? 0xc0)
                          && (Z.land (0xC0 + a) 0x1f =? a))
                32 ltac:(vm_compute; reflexivity) a Ha) as H.
  cbv beta in H. split_bool H.
  repeat split; [ apply negb_true_iff | | apply Z.eqb_eq ]; assumption.
Qed.

Lemma lead3_bits :
  forall a : Z, 0 <= a < 16 ->
    (Z.land (0xE0 + a) 0x80 =? 0) = false
    /\ (Z.land (0xE0 + a) 0xe0 =? 0xc0) = false
    /\ (Z.land (0xE0 + a) 0xf0 =? 0xe0) = true
    /\ Z.land (0xE0 + a) 0x0f = a.
Proof.
  intros a Ha.
  pose proof (forall_below
                (fun a => negb (Z.land (0xE0 + a) 0x80 =? 0)
                          && negb (Z.land (0xE0 + a) 0xe0 =? 0xc0)
                          && (Z.land (0xE0 + a) 0xf0 =? 0xe0)
                          && (Z.land (0xE0 + a) 0x0f =? a))
                16 ltac:(vm_compute; reflexivity) a Ha) as H.
  cbv beta in H. split_bool H.
  repeat split; try (apply negb_true_iff; assumption); [ | apply Z.eqb_eq ]; assumption.
Qed.

Lemma lead4_bits :
  forall a : Z, 0 <= a < 8 ->
    (Z.land (0xF0 + a) 0x80 =? 0) = false
    /\ (Z.land (0xF0 + a) 0xe0 =? 0xc0) = false
    /\ (Z.land (0xF0 + a) 0xf0 =? 0xe0) = false
    /\ (Z.land (0xF0 + a) 0xf8 =? 0xf0) = true
    /\ Z.land (0xF0 + a) 0x07 = a.
Proof.
  intros a Ha.
  pose proof (forall_below
                (fun a => negb (Z.land (0xF0 + a) 0x80 =? 0)
                          && negb (Z.land (0xF0 + a) 0xe0 =? 0xc0)
                          && negb (Z.land (0xF0 + a) 0xf0 =? 0xe0)
                          && (Z.land (0xF0 + a) 0xf8 =? 0xf0)
                          && (Z.land (0xF0 + a) 0x07 =? a))
                8 ltac:(vm_compute; reflexivity) a Ha) as H.
  cbv beta in H. split_bool H.
  repeat split; try (apply negb_true_iff; assumption); [ | apply Z.eqb_eq ]; assumption.
Qed.

(** A byte above 0x7F is none of the characters with an escape of
    their own. *)
Lemma not_named :
  forall c : Z, 0x80 <= c ->
    (c =? DQ) = false /\ (c =? ch "\") = false /\ (c =? ch_b) = false
    /\ (c =? ch_f) = false /\ (c =? ch_n) = false /\ (c =? ch_r) = false
    /\ (c =? ch_t) = false /\ (c =? ch_v) = false.
Proof.
  intros c Hc. norm_chars. repeat split; apply Z.eqb_neq; lia.
Qed.

(** One continuation byte read by [read_continuation]. *)
Lemma read_continuation_step :
  forall (n : nat) (value : list Z) (index codePoint m : Z),
    0 <= m < 64 ->
    at_ value (index + 1) = 0x80 + m ->
    read_continuation (S n) value index codePoint
    = read_continuation n value (index + 1) (codePoint * 64 + m).
Proof.
  intros n value index codePoint m Hm Hat.
  cbn [read_continuation]. rewrite Hat.
  destruct (continuation_bits m Hm) as [-> ->]. cbn [negb].
  rewrite lor_shiftl_small by (try (change (2 ^ 6) with 64); lia).
  reflexivity.
Qed.

Lemma utf8_digits :
  forall cp : Z, 0 <= cp ->
    0 <= cp mod 64 < 64 /\ 0 <= (cp / 64) mod 64 < 64 /\ 0 <= (cp / 4096) mod 64 < 64
    /\ cp / 64 * 64 + cp mod 64 = cp
    /\ cp / 4096 * 64 + (cp / 64) mod 64 = cp / 64
    /\ cp / 262144 * 64 + (cp / 4096) mod 64 = cp / 4096.
Proof.
  intros cp Hcp.
  replace (cp / 4096) with (cp / 64 / 64) by (rewrite Z.div_div by lia; reflexivity).
  replace (cp / 262144) with (cp / 64 / 64 / 64)
    by (rewrite !Z.div_div by lia; reflexivity).
  repeat split; try (apply Z.mod_pos_bound; lia).
  - pose proof (Z.div_mod cp 64 ltac:(lia)). lia.
  - pose proof (Z.div_mod (cp / 64) 64 ltac:(lia)). lia.
  - pose proof (Z.div_mod (cp / 64 / 64) 64 ltac:(lia)). lia.
Qed.

Lemma escape_code_point_high :
  forall cp : Z, 0x80 <= cp ->
    escape_code_point cp
    = if cp <? 0x10000 then [backslash; ch "u"] ++ hex4 cp
      else
        [backslash; ch "u"] ++ hex4 (0xD800 + (cp - 0x10000) / 0x400)
          ++ [backslash; ch "u"] ++ hex4 (0xDC00 + (cp - 0x10000) mod 0x400).
Proof.
  intros cp Hcp. unfold escape_code_point.
  destruct (not_named cp Hcp) as (-> & N1 & -> & -> & -> & -> & -> & ->).
  change (ch "\") with backslash in N1. rewrite N1.
  replace ((32 <=? cp) && (cp <=? 127)) with false
    by (symmetry; apply andb_false_intro2; apply Z.leb_gt; lia).
  reflexivity.
Qed.

(** The iteration on a byte above 0x7F: the tests for the characters
    with an escape of their own fail. *)
Lemma body_high :
  forall (s : list Z) (i : Z) (acc : list Z),
    0x80 <= at_ s i ->
    ConvertToEscapedString_body s i acc
    = ('(numOfBytes, writeAsHex, codePoint) <-
         (if Z.land (at_ s i) 0x80 =? 0x00 then
            if at_ s i <? 0x1f then Ok (1%nat, true, Z.land (at_ s i) 0x7f)
            else Ok (1%nat, false, 0)
          else if Z.land (at_ s i) 0xe0 =? 0xc0 then Ok (2%nat, true, Z.land (at_ s i) 0x1f)
          else if Z.land (at_ s i) 0xf0 =? 0xe0 then Ok (3%nat, true, Z.land (at_ s i) 0x0f)
          else if Z.land (at_ s i) 0xf8 =? 0xf0 then Ok (4%nat, true, Z.land (at_ s i) 0x07)
          else Throw (runtime_error "Invalid UTF-8 sequence!")) ;;
       '(index, codePoint) <- read_continuation (numOfBytes - 1) s i codePoint ;;
       if writeAsHex then
         if (0x10000 <=? codePoint) && (codePoint <=? 0x10ffff) then
           Ok (index,
               acc ++ escape_u ((codePoint - 0x10000) / 0x400 + 0xd800)
                   ++ escape_u ((codePoint - 0x10000) mod 0x400 + 0xdc00))
         else Ok (index, acc ++ escape_u codePoint)
       else Ok (index, acc ++ [to_char (at_ s index)])).
Proof.
  intros s i acc Hc. unfold ConvertToEscapedString_body.
  destruct (not_named (at_ s i) Hc) as (-> & -> & -> & -> & -> & -> & -> & ->).
  reflexivity.
Qed.

Lemma escape_one_code_point :
  forall (s : list Z) (i : Z) (acc : list Z) (cp : Z) (post : list Z),
    0 <= i -> 0 <= cp <= 0x10FFFF -> cp <> 0x1F ->
    from i s = utf8_encode cp ++ post ->
    ConvertToEscapedString_body s i acc
    = Ok (i + size (utf8_encode cp) - 1, acc ++ escape_code_point cp).
Proof.
  intros s i acc cp post Hi Hcp H1f H.
  destruct (utf8_digits cp ltac:(lia)) as (D0 & D1 & D2 & E0 & E1 & E2).
  unfold utf8_encode in *.
  destruct (Z.ltb_spec cp 0x80) as [Hlt1 | Hge1].
  { (* one byte *)
    simpl in H. read_char H A0 S0.
    destruct (ascii_bits cp ltac:(lia)) as [B0 B1].
    unfold ConvertToEscapedString_body, escape_code_point.
    rewrite A0. norm_chars.
    change (size [cp]) with 1. replace (i + 1 - 1) with i by lia.
    repeat match goal with
           | |- context [cp =? ?k] => destruct (Z.eqb_spec cp k); [ reflexivity | ]
           end.
    rewrite B0, B1. cbn [Z.eqb].
    destruct (Z.ltb_spec cp 31).
    - cbn [bind Nat.sub read_continuation].
      replace ((65536 <=? cp) && (cp <=? 1114111)) with false
        by (symmetry; apply andb_false_intro1; apply Z.leb_gt; lia).
      replace ((32 <=? cp) && (cp <=? 127)) with false
        by (symmetry; apply andb_false_intro1; apply Z.leb_gt; lia).
      replace (cp <? 65536) with true by (symmetry; apply Z.ltb_lt; lia).
      rewrite escape_u_hex4 by lia. norm_chars. reflexivity.
    - cbn [bind Nat.sub read_continuation].
      replace ((32 <=? cp) && (cp <=? 127)) with true
        by (symmetry; apply andb_true_intro; split; apply Z.leb_le; lia).
      rewrite A0. rewrite to_char_small by lia. reflexivity. }
  rewrite escape_code_point_high by lia.
  destruct (Z.ltb_spec cp 0x800) as [Hlt2 | Hge2].
  { (* two bytes *)
    assert (Ha : 0 <= cp / 64 < 32)
      by (split; [ apply Z.div_pos | apply Z.div_lt_upper_bound ]; lia).
    cbn [app] in H. read_char H A0 S0. read_char H A1 S1.
    rewrite body_high by (rewrite A0; lia).
    rewrite A0.
    destruct (lead2_bits (cp / 64) Ha) as (-> & -> & ->).
    cbn [bind Nat.sub].
    rewrite (read_continuation_step 0 s i (cp / 64) (cp mod 64)) by assumption.
    rewrite E0. cbn [read_continuation bind].
    replace ((0x10000 <=? cp) && (cp <=? 0x10ffff)) with false
      by (symmetry; apply andb_false_intro1; apply Z.leb_gt; lia).
    replace (cp <? 0x10000) with true by (symmetry; apply Z.ltb_lt; lia).
    rewrite escape_u_hex4 by lia.
    f_equal. f_equal. unfold size. simpl. lia. }
  destruct (Z.ltb_spec cp 0x10000) as [Hlt3 | Hge3].
  { (* three bytes *)
    assert (Ha : 0 <= cp / 4096 < 16)
      by (split; [ apply Z.div_pos | apply Z.div_lt_upper_bound ]; lia).
    cbn [app] in H. read_char H A0 S0. read_char H A1 S1. read_char H A2 S2.
    rewrite body_high by (rewrite A0; lia).
    rewrite A0.
    destruct (lead3_bits (cp / 4096) Ha) as (-> & -> & -> & ->).
    cbn [bind Nat.sub].
    rewrite (read_continuation_step 1 s i (cp / 4096) ((cp / 64) mod 64)) by assumption.
    rewrite E1.
    rewrite (read_continuation_step 0 s (i + 1) (cp / 64) (cp mod 64)) by assumption.
    rewrite E0. cbn [read_continuation bind].
    replace ((0x10000 <=? cp) && (cp <=? 0x10ffff)) with false
      by (symmetry; apply andb_false_intro1; apply Z.leb_gt; lia).
    rewrite escape_u_hex4 by lia.
    f_equal. f_equal. unfold size. simpl. lia. }
  (* four bytes *)
  assert (Ha : 0 <= cp / 262144 < 8)
    by (split; [ apply Z.div_pos | apply Z.div_lt_upper_bound ]; lia).
  cbn [app] in H. read_char H A0 S0. read_char H A1 S1. read_char H A2 S2. read_char H A3 S3.
  rewrite body_high by (rewrite A0; lia).
  rewrite A0.
  destruct (lead4_bits (cp / 262144) Ha) as (-> & -> & -> & -> & ->).
  cbn [bind Nat.sub].
  rewrite (read_continuation_step 2 s i (cp / 262144) ((cp / 4096) mod 64)) by assumption.
  rewrite E2.
  rewrite (read_continuation_step 1 s (i + 1) (cp / 4096) ((cp / 64) mod 64)) by assumption.
  rewrite E1.
  rewrite (read_continuation_step 0 s (i + 1 + 1) (cp / 64) (cp mod 64)) by assumption.
  rewrite E0. cbn [read_continuation bind].
  replace ((0x10000 <=? cp) && (cp <=? 0x10ffff)) with true
    by (symmetry; apply andb_true_intro; split; apply Z.leb_le; lia).
  assert (0 <= (cp - 0x10000) / 0x400 < 0x400)
    by (split; [ apply Z.div_pos | apply Z.div_lt_upper_bound ]; lia).
  assert (0 <= (cp - 0x10000) mod 0x400 < 0x400) by (apply Z.mod_pos_bound; lia).
  rewrite !escape_u_hex4 by lia.
  replace ((cp - 0x10000) / 0x400 + 0xd800) with (0xD800 + (cp - 0x10000) / 0x400) by lia.
  replace ((cp - 0x10000) mod 0x400 + 0xdc00) with (0xDC00 + (cp - 0x10000) mod 0x400)
    by lia.
  f_equal. f_equal. unfold size. simpl. lia.
Qed.

Lemma utf8_encode_nonempty :
  forall cp : Z, exists (c : Z) (tail : list Z), utf8_encode cp = c :: tail.
Proof.
  intros cp. unfold utf8_encode.
  destruct (cp <? 0x80); [ eauto | ].
  destruct (cp <? 0x800); [ eauto | ].
  destruct (cp <? 0x10000); eauto.
Qed.

Definition escapable (cp : Z) : Prop := 0 <= cp <= 0x10FFFF /\ cp <> 0x1F.

Lemma escape_loop :
  forall (cps : list Z) (fuel : nat) (s : list Z) (i : Z) (acc : list Z),
    0 <= i ->
    Forall escapable cps ->
    from i s = concat (map utf8_encode cps) ->
    (length cps < fuel)%nat ->
    ConvertToEscapedString_loop fuel s i acc
    = Ok (acc ++ concat (map escape_code_point cps)).
Proof.
  induction cps as [| cp cps IH]; intros fuel s i acc Hi Hall H Hfuel.
  - destruct fuel as [| fuel]; [ inversion Hfuel | ].
    cbn [ConvertToEscapedString_loop]. rewrite (from_nil s i Hi H).
    simpl. rewrite app_nil_r. reflexivity.
  - destruct fuel as [| fuel]; [ inversion Hfuel | ].
    inversion Hall as [| ? ? [Hcp H1f] Hall']; subst.
    cbn [map concat] in H.
    cbn [ConvertToEscapedString_loop].
    destruct (utf8_encode_nonempty cp) as (c & tail & Hc).
    assert (Hsz : (size s <=? i) = false).
    { rewrite Hc in H. cbn [app] in H.
      destruct (from_cons _ _ _ _ H Hi) as (_ & Hs & _). exact Hs. }
    rewrite Hsz.
    rewrite (escape_one_code_point s i acc cp _ Hi Hcp H1f H).
    cbn [bind].
    rewrite (IH fuel s (i + size (utf8_encode cp) - 1 + 1) (acc ++ escape_code_point cp)).
    + cbn [map concat]. rewrite app_assoc. reflexivity.
    + unfold size. lia.
    + exact Hall'.
    + replace (i + size (utf8_encode cp) - 1 + 1) with (i + size (utf8_encode cp)) by lia.
      apply from_app; assumption.
    + simpl in Hfuel. lia.
Qed.

Lemma utf8_length :
  forall cps : list Z, (length cps <= length (concat (map utf8_encode cps)))%nat.
Proof.
  induction cps as [| cp cps IH]; [ apply Nat.le_refl | ].
  cbn [map concat length]. rewrite length_app.
  destruct (utf8_encode_nonempty cp) as (c & tail & ->). simpl. lia.
Qed.

(** C7 as stated fails: DEL, the code point 0x7F, is a 7-bit character
    that is not printable, and it is written as the single byte 0x7F, not
    as [\u007f]. *)
Lemma del_is_written_raw :
  ConvertToEscapedString (utf8_encode 0x7F) = Ok [0x7F]
  /\ escape_u 0x7F = str "\u007f".
Proof. split; vm_compute; reflexivity. Qed.

(** C7, as the code has it: on the UTF-8 encoding of any sequence of code
    points up to 0x10FFFF other than 0x1F, the escaper writes, code point
    by code point, what [escape_code_point] describes: the two-character
    escape of the eight characters that have one; the byte itself for 0x20
    to 0x7F, DEL included; [\u] and four hexadecimal digits for the other
    code points up to 0xFFFF; and for a code point from 0x10000 on the two
    [\u] sequences of its surrogate pair. *)
Theorem escaper_by_code_point :
  forall cps : list Z,
    Forall escapable cps ->
    ConvertToEscapedString (concat (map utf8_encode cps))
    = Ok (concat (map escape_code_point cps)).
Proof.
  intros cps Hall. unfold ConvertToEscapedString.
  rewrite (escape_loop cps _ _ 0 [] ltac:(lia) Hall (from_0 _)).
  - reflexivity.
  - pose proof (utf8_length cps). lia.
Qed.

Lemma escaper_by_code_point_witness :
  ConvertToEscapedString (concat (map utf8_encode [0x41; 0x7F; 0x0A; 0x01; 0xE9; 0x20AC; 0x1F600]))
  = Ok (str "A" ++ [0x7F] ++ str "\n\u0001\u00e9\u20ac\ud83d\ude00").
Proof.
  refine (eq_trans
            (escaper_by_code_point [0x41; 0x7F; 0x0A; 0x01; 0xE9; 0x20AC; 0x1F600] _)
            eq_refl).
  repeat constructor; try discriminate.
Defined.

(** The code point 0x1F, which the theorem leaves out: the test
    [value[index] < 0x1f] of the source lets it through as a single
    byte, while 0x1E is written as [\u001e]. *)
Example unit_separator_is_written_raw :
  ConvertToEscapedString [0x1F] = Ok [0x1F]
  /\ ConvertToEscapedString [0x1E] = Ok (str "\u001e").
Proof. split; vm_compute; reflexivity. Qed.

(** ** Object keys: unique and in lexicographic order *)

Lemma string_compare_refl : forall a : list Z, string_compare a a = Eq.
Proof.
  induction a as [| x a IH]; [ reflexivity | ].
  cbn [string_compare]. rewrite Z.compare_refl. exact IH.
Qed.

Lemma string_compare_eq : forall a b : list Z, string_compare a b = Eq -> a = b.
Proof.
  induction a as [| x a IH]; intros [| y b] H; cbn [string_compare] in H;
    try discriminate; [ reflexivity | ].
  destruct (x ?= y) eqn:E; try discriminate.
  apply Z.compare_eq in E. subst. f_equal. apply IH. exact H.
Qed.

Lemma string_compare_antisym :
  forall a b : list Z, string_compare a b = CompOpp (string_compare b a).
Proof.
  induction a as [| x a IH]; intros [| y b]; cbn [string_compare]; try reflexivity.
  rewrite (Z.compare_antisym y x).
  destruct (y ?= x); cbn [CompOpp]; [ apply IH | reflexivity | reflexivity ].
Qed.

Lemma string_compare_gt_lt :
  forall a b : list Z, string_compare a b = Gt -> string_compare b a = Lt.
Proof.
  intros a b H. rewrite string_compare_antisym, H. reflexivity.
Qed.

Lemma string_compare_trans :
  forall a b c : list Z,
    string_compare a b = Lt -> string_compare b c = Lt -> string_compare a c = Lt.
Proof.
  induction a as [| x a IH]; intros [| y b] [| z c] Hab Hbc;
    cbn [string_compare] in *; try discriminate; try reflexivity.
  destruct (x ?= y) eqn:Exy; try discriminate;
    destruct (y ?= z) eqn:Eyz; try discriminate.
  - apply Z.compare_eq in Exy, Eyz. subst. rewrite Z.compare_refl.
    apply (IH b c); assumption.
  - apply Z.compare_eq in Exy. subst. rewrite Eyz. reflexivity.
  - apply Z.compare_eq in Eyz. subst. rewrite Exy. reflexivity.
  - assert (E : (x ?= z) = Lt).
    { change (x < y) in Exy. change (y < z) in Eyz. change (x < z). lia. }
    rewrite E. reflexivity.
Qed.

(** The keys increase strictly from each entry to every later one. *)
Definition key_lt (a b : list Z) : Prop := string_compare a b = Lt.

Definition sorted_keys {V : Type} (m : list (list Z * V)) : Prop :=
  StronglySorted key_lt (map fst m).


Lemma map_insert_keys :
  forall (V : Type) (key : list Z) (value : V) (m : list (list Z * V)) (k : list Z),
    In k (map fst (map_insert key value m)) -> k = key \/ In k (map fst m).
Proof.
  intros V key value. induction m as [| [k0 v0] m IH]; intros k Hin.
  - simpl in Hin. destruct Hin as [<- | []]. left; reflexivity.
  - cbn [map_insert] in Hin. destruct (string_compare key k0).
    + right. exact Hin.
    + cbn [map fst In] in Hin. destruct Hin as [<- | Hin]; [ left; reflexivity | ].
      right. exact Hin.
    + cbn [map fst In] in Hin. destruct Hin as [<- | Hin].
      * right. left. reflexivity.
      * destruct (IH k Hin) as [-> | H]; [ left; reflexivity | right; right; exact H ].
Qed.

Lemma map_insert_sorted :
  forall (V : Type) (key : list Z) (value : V) (m : list (list Z * V)),
    sorted_keys m -> sorted_keys (map_insert key value m).
Proof.
  intros V key value. unfold sorted_keys.
  induction m as [| [k0 v0] m IH]; intros H.
  - simpl. repeat constructor.
  - cbn [map_insert]. destruct (string_compare key k0) eqn:E.
    + exact H.
    + cbn [map fst] in *. constructor; [ exact H | ].
      inversion H as [| ? ? Hs Hall]; subst.
      constructor; [ exact E | ].
      rewrite Forall_forall in *. intros k Hk.
      apply (string_compare_trans key k0 k E). apply Hall. exact Hk.
    + cbn [map fst] in *. inversion H as [| ? ? Hs Hall]; subst.
      constructor; [ apply IH; exact Hs | ].
      rewrite Forall_forall in *. intros k Hk.
      destruct (map_insert_keys _ _ _ _ _ Hk) as [-> | Hin].
      * apply string_compare_gt_lt. exact E.
      * apply Hall. exact Hin.
Qed.




(** A well-formed value: in every object of the tree the keys increase
    strictly. *)
Fixpoint wf_value (d : havJSONData) : Prop :=
  match d with
  | Data _ (V_vector v) =>
      (fix all (l : list havJSONData) : Prop :=
         match l with
         | [] => True
         | x :: l' => wf_value x /\ all l'
         end) v
  | Data _ (V_map m) =>
      sorted_keys m
      /\ (fix all (l : list (list Z * havJSONData)) : Prop :=
            match l with
            | [] => True
            | (_, x) :: l' => wf_value x /\ all l'
            end) m
  | _ => True
  end.



Lemma wf_scalar :
  forall (t : havJSONDataType) (v : havJSONVariant),
    match v with
    | V_vector _ | V_map _ => False
    | _ => True
    end ->
    wf_value (Data t v).
Proof. intros t v H. destruct v; try exact I; contradiction. Qed.









(** *** The builder keeps the tree well formed *)


(** [inv_bind H as x eqn E] opens [H : (x <- c ;; k) = Ok _]: [c] has
    returned some [x], which [E] records. *)
Tactic Notation "inv_bind" hyp(H) "as" simple_intropattern(x) "eqn" ident(E) :=
  match type of H with
  | bind ?c _ = Ok _ =>
      destruct c as [x |] eqn:E; cbn [bind] in H; [ | discriminate H ]
  end.













(** *** The methods keep a value well formed *)






(** *** The order of the keys in a serialization *)

(** Induction on a value, with the property assumed on the elements of
    a vector and on the values of a map. *)
Section nested_induction.

Variable P : havJSONData -> Prop.

Hypothesis P_scalar :
  forall (t : havJSONDataType) (v : havJSONVariant),
    match v with
    | V_vector _ | V_map _ => False
    | _ => True
    end ->
    P (Data t v).

Hypothesis P_vector :
  forall (t : havJSONDataType) (l : list havJSONData),
    Forall P l -> P (Data t (V_vector l)).

Hypothesis P_map :
  forall (t : havJSONDataType) (m : list (list Z * havJSONData)),
    Forall (fun e => P (snd e)) m -> P (Data t (V_map m)).

Fixpoint havJSONData_nested_ind (d : havJSONData) : P d :=
  match d with
  | Data t v =>
      match v as v0 return P (Data t v0) with
      | V_vector l =>
          P_vector t l
            ((fix go (l : list havJSONData) : Forall P l :=
                match l with
                | [] => Forall_nil P
                | x :: l' => Forall_cons x (havJSONData_nested_ind x) (go l')
                end) l)
      | V_map m =>
          P_map t m
            ((fix go (m : list (list Z * havJSONData))
                : Forall (fun e => P (snd e)) m :=
                match m with
                | [] => Forall_nil _
                | e :: m' =>
                    Forall_cons e
                      (match e as e0 return P (snd e0) with
                       | (_, x) => havJSONData_nested_ind x
                       end) (go m')
                end) m)
      | V_bool b => P_scalar t (V_bool b) I
      | V_int x => P_scalar t (V_int x) I
      | V_uint x => P_scalar t (V_uint x) I
      | V_long x => P_scalar t (V_long x) I
      | V_ulong x => P_scalar t (V_ulong x) I
      | V_int64 x => P_scalar t (V_int64 x) I
      | V_uint64 x => P_scalar t (V_uint64 x) I
      | V_double x => P_scalar t (V_double x) I
      | V_cstr s => P_scalar t (V_cstr s) I
      | V_string s => P_scalar t (V_string s) I
      end
  end.

End nested_induction.

(** The keys of an object in a token stream: the name tokens at depth
    one, the depth being the number of containers open. *)
Fixpoint top_keys_at (depth : nat) (tokens : list havJSONTokenValue)
  : list (list Z) :=
  match tokens with
  | [] => []
  | t :: rest =>
      match mToken t with
      | LeftCurlyBracket | LeftSquareBracket => top_keys_at (S depth) rest
      | RightCurlyBracket | RightSquareBracket => top_keys_at (pred depth) rest
      | String_ =>
          match depth, mValue t with
          | 1%nat, Some key => key :: top_keys_at depth rest
          | _, _ => top_keys_at depth rest
          end
      | _ => top_keys_at depth rest
      end
  end.

Lemma Tokenize_item_array :
  forall (t : havJSONDataType) (l : list havJSONData) (tokens : list havJSONTokenValue),
    Tokenize_item (Data DT_Array (V_vector l)) tokens
    = TokenizeArray_from l O (push_back tokens (structural LeftSquareBracket)).
Proof.
  intros t l tokens. cbn [Tokenize_item].
  generalize (push_back tokens (structural LeftSquareBracket)) as q.
  generalize O as index.
  induction l as [| x l IH]; intros index q; [ reflexivity | ].
  cbn [TokenizeArray_from].
  destruct (Tokenize_item x _) as [q' |]; cbn [bind]; [ apply IH | reflexivity ].
Qed.

Lemma Tokenize_item_object :
  forall (m : list (list Z * havJSONData)) (tokens : list havJSONTokenValue),
    Tokenize_item (Data DT_Object (V_map m)) tokens
    = TokenizeObject_from m true (push_back tokens (structural LeftCurlyBracket)).
Proof.
  intros m tokens. cbn [Tokenize_item].
  generalize (push_back tokens (structural LeftCurlyBracket)) as q.
  generalize true as first.
  induction m as [| [k x] m IH]; intros first q; [ reflexivity | ].
  cbn [TokenizeObject_from].
  destruct (Tokenize_item x _) as [q' |]; cbn [bind]; [ apply IH | reflexivity ].
Qed.

(** What an item appends holds no key of the object it is in. *)
Definition no_top_keys (item : havJSONData) : Prop :=
  forall tokens tokens' : list havJSONTokenValue,
    Tokenize_item item tokens = Ok tokens' ->
    exists out : list havJSONTokenValue,
      tokens' = tokens ++ out
      /\ forall (depth : nat) (rest : list havJSONTokenValue),
           top_keys_at (S depth) (out ++ rest) = top_keys_at (S depth) rest.

Lemma scalar_token_kind :
  forall (t : havJSONDataType) (v : havJSONVariant) (token : havJSONTokenValue),
    scalar_token t v = Ok token -> is_value_token (mToken token) = true.
Proof.
  intros t v token H.
  destruct t, v; cbn in H; try discriminate; inversion H; reflexivity.
Qed.

Lemma top_keys_value_token :
  forall (token : havJSONTokenValue) (depth : nat) (rest : list havJSONTokenValue),
    is_value_token (mToken token) = true ->
    top_keys_at depth (token :: rest) = top_keys_at depth rest.
Proof.
  intros token depth rest H. cbn [top_keys_at].
  destruct (mToken token); try discriminate; reflexivity.
Qed.

Lemma TokenizeArray_from_keys :
  forall l : list havJSONData,
    Forall no_top_keys l ->
    forall (index : nat) (tokens tokens' : list havJSONTokenValue),
      TokenizeArray_from l index tokens = Ok tokens' ->
      exists out : list havJSONTokenValue,
        tokens' = tokens ++ out
        /\ forall (depth : nat) (rest : list havJSONTokenValue),
             top_keys_at (S depth) (out ++ rest) = top_keys_at depth rest.
Proof.
  induction l as [| x l IH]; intros Hall index tokens tokens' H.
  - cbn [TokenizeArray_from] in H. inversion H; subst.
    exists [structural RightSquareBracket]. split; [ reflexivity | ].
    intros depth rest. reflexivity.
  - inversion Hall as [| ? ? Hx Hl]; subst.
    cbn [TokenizeArray_from] in H.
    inv_bind H as q eqn Eq.
    destruct (Hx _ _ Eq) as (out1 & -> & K1).
    destruct (IH Hl _ _ _ H) as (out2 & -> & K2).
    destruct index as [| index].
    + exists (out1 ++ out2). split; [ rewrite app_assoc; reflexivity | ].
      intros depth rest. rewrite <- app_assoc. rewrite K1. apply K2.
    + exists (structural Comma :: out1 ++ out2). split.
      * unfold push_back. rewrite <- !app_assoc. reflexivity.
      * intros depth rest. cbn [app]. cbn [top_keys_at structural mToken].
        rewrite <- app_assoc. rewrite K1. apply K2.
Qed.

(** The loop of [TokenizeObject] appends the keys of the map, in the
    order of the map, at the depth it runs at. *)
Lemma TokenizeObject_from_keys :
  forall m : list (list Z * havJSONData),
    Forall (fun e => no_top_keys (snd e)) m ->
    forall (first : bool) (tokens tokens' : list havJSONTokenValue),
      TokenizeObject_from m first tokens = Ok tokens' ->
      exists out : list havJSONTokenValue,
        tokens' = tokens ++ out
        /\ (forall rest : list havJSONTokenValue,
               top_keys_at 1 (out ++ rest) = map fst m ++ top_keys_at 0 rest)
        /\ (forall (depth : nat) (rest : list havJSONTokenValue),
               top_keys_at (S (S depth)) (out ++ rest) = top_keys_at (S depth) rest).
Proof.
  induction m as [| [k x] m IH]; intros Hall first tokens tokens' H.
  - cbn [TokenizeObject_from] in H. inversion H; subst.
    exists [structural RightCurlyBracket]. split; [ reflexivity | ].
    split; intros; reflexivity.
  - inversion Hall as [| ? ? Hx Hl]; subst. cbn [snd] in Hx.
    cbn [TokenizeObject_from] in H.
    inv_bind H as q eqn Eq.
    destruct (Hx _ _ Eq) as (out1 & -> & K1).
    destruct (IH Hl _ _ _ H) as (out2 & -> & K2 & K3).
    exists ((if first then [] else [structural Comma])
              ++ TokenValue String_ (Some k) :: structural Colon :: out1 ++ out2).
    split.
    { unfold push_back. destruct first; cbn [app]; rewrite <- !app_assoc; reflexivity. }
    split.
    + intros rest.
      assert (E : top_keys_at 1
                    ((TokenValue String_ (Some k) :: structural Colon :: out1 ++ out2) ++ rest)
                  = k :: map fst m ++ top_keys_at 0 rest).
      { cbn [app top_keys_at structural mToken mValue].
        rewrite <- app_assoc. rewrite K1. rewrite K2. reflexivity. }
      destruct first; cbn [app map fst]; [ exact E | ].
      cbn [top_keys_at structural mToken]. exact E.
    + intros depth rest.
      assert (E : top_keys_at (S (S depth))
                    ((TokenValue String_ (Some k) :: structural Colon :: out1 ++ out2) ++ rest)
                  = top_keys_at (S depth) rest).
      { cbn [app top_keys_at structural mToken mValue].
        rewrite <- app_assoc. rewrite K1. apply K3. }
      destruct first; cbn [app]; [ exact E | ].
      cbn [top_keys_at structural mToken]. exact E.
Qed.

Lemma Tokenize_item_keys : forall item : havJSONData, no_top_keys item.
Proof.
  apply havJSONData_nested_ind.
  - (* a scalar, or a tag that does not agree with the payload *)
    intros t v Hv tokens tokens' H.
    assert (Hs : Tokenize_item (Data t v) tokens
                 = (token <- scalar_token t v ;; Ok (push_back tokens token))).
    { destruct t; try reflexivity; destruct v; try contradiction; reflexivity. }
    rewrite Hs in H. inv_bind H as token eqn Et. inversion H; subst.
    exists [token]. split; [ reflexivity | ].
    intros depth rest. cbn [app].
    apply top_keys_value_token. apply (scalar_token_kind _ _ _ Et).
  - intros t l Hall tokens tokens' H.
    destruct t; try (cbn in H; discriminate H).
    rewrite (Tokenize_item_array DT_Array) in H.
    destruct (TokenizeArray_from_keys l Hall _ _ _ H) as (out & -> & K).
    exists (structural LeftSquareBracket :: out). split.
    + unfold push_back. rewrite <- app_assoc. reflexivity.
    + intros depth rest. cbn [app top_keys_at structural mToken]. apply K.
  - intros t m Hall tokens tokens' H.
    destruct t; try (cbn in H; discriminate H).
    rewrite Tokenize_item_object in H.
    destruct (TokenizeObject_from_keys m Hall _ _ _ H) as (out & -> & _ & K).
    exists (structural LeftCurlyBracket :: out). split.
    + unfold push_back. rewrite <- app_assoc. reflexivity.
    + intros depth rest. cbn [app top_keys_at structural mToken]. apply K.
Qed.


(** The keys of the object a value holds, in the order they are stored. *)
Definition object_keys (v : havJSONData) : list (list Z) :=
  match getValue v with
  | V_map m => map fst m
  | _ => []
  end.


Lemma all_no_top_keys :
  forall l : list havJSONData, Forall no_top_keys l.
Proof.
  intros l. apply Forall_forall. intros x _. apply Tokenize_item_keys.
Qed.

Lemma all_values_no_top_keys :
  forall m : list (list Z * havJSONData), Forall (fun e => no_top_keys (snd e)) m.
Proof.
  intros m. apply Forall_forall. intros x _. apply Tokenize_item_keys.
Qed.







(** Keys given out of order are stored, and written, in order. *)
Example keys_are_written_in_order :
  forall dm : DataModel,
    exists v : havJSONData,
      ParseContent dm ([ch "{"; DQ; ch "b"; DQ; ch ":"; ch "1"; ch " "; ch ",";
                        DQ; ch "a"; DQ; ch ":"; ch "2"; ch " "; ch "}"])
      = Ok (true, v)
      /\ object_keys v = [str "a"; str "b"]
      /\ ConvertJSONToString v
         = Ok (Some [ch "{"; DQ; ch "a"; DQ; ch ":"; ch "2"; ch ",";
                     DQ; ch "b"; DQ; ch ":"; ch "1"; ch "}"]).
Proof.
  intros dm. eexists. split; [ destruct dm; vm_compute; reflexivity | ].
  split; vm_compute; reflexivity.
Qed.

(** The same for the binary encoder: the element [a] is written before
    the element [b]. *)
Example keys_are_encoded_in_order :
  forall dm : DataModel,
    exists v : havJSONData,
      ParseContent dm ([ch "{"; DQ; ch "b"; DQ; ch ":"; DQ; ch "x"; DQ; ch ",";
                        DQ; ch "a"; DQ; ch ":"; DQ; ch "y"; DQ; ch "}"])
      = Ok (true, v)
      /\ object_keys v = [str "a"; str "b"]
      /\ WriteBSONFile v
         = Ok (Some [23; 0; 0; 0;
                     0x02; ch "a"; 0; 2; 0; 0; 0; ch "y"; 0;
                     0x02; ch "b"; 0; 2; 0; 0; 0; ch "x"; 0;
                     0]).
Proof.
  intros dm. eexists. split; [ destruct dm; vm_compute; reflexivity | ].
  split; vm_compute; reflexivity.
Qed.

(** ** The round trip through the text *)


(** The object with the one entry [a], a signed zero: what the parser
    makes of a zero written with a minus sign. *)
Definition signed_zero : havJSONData :=
  Data DT_Object (V_map [(str "a", Data DT_Int (V_int 0))]).

Definition unsigned_zero : havJSONData :=
  Data DT_Object (V_map [(str "a", Data DT_UInt (V_uint 0))]).


(** *** Integers: [std::to_string] read back by [strtol] and [strtoul] *)

Lemma isdigit_decimal :
  forall x : Z, isdigit (ch "0" + x mod 10) = true.
Proof.
  intros x. unfold isdigit. change (ch "0") with 48. change (ch "9") with 57.
  pose proof (Z.mod_pos_bound x 10 ltac:(lia)) as Hd.
  apply andb_true_intro. split; apply Z.leb_le; lia.
Qed.

(** The digits [dec_aux] writes in front of [acc] are read back as the
    number they were written for. *)
Lemma digits_dec_aux :
  forall (n : nat) (x : Z) (acc rest : list Z) (a : Z) (seen : bool),
    0 <= x < 10 ^ Z.of_nat n ->
    exists k : Z,
      0 <= k
      /\ digits (dec_aux n x acc ++ rest) a seen
         = digits (acc ++ rest) (a * 10 ^ k + x) (seen || (0 <? x)).
Proof.
  induction n as [| n IH]; intros x acc rest a seen Hx.
  - change (10 ^ Z.of_nat 0) with 1 in Hx. assert (x = 0) by lia. subst x.
    exists 0. split; [ lia | ]. cbn [dec_aux]. rewrite orb_false_r.
    f_equal. lia.
  - cbn [dec_aux]. destruct (Z.eqb_spec x 0) as [-> | Hnz].
    + exists 0. split; [ lia | ]. rewrite orb_false_r. f_equal. lia.
    + assert (Hq : 0 <= x / 10 < 10 ^ Z.of_nat n).
      { rewrite Nat2Z.inj_succ, Z.pow_succ_r in Hx by lia.
        split; [ apply Z.div_pos; lia | ].
        apply Z.div_lt_upper_bound; lia. }
      destruct (IH (x / 10) ((ch "0" + x mod 10) :: acc) rest a seen Hq)
        as (k & Hk & E).
      exists (k + 1). split; [ lia | ]. rewrite E.
      cbn [app digits]. rewrite isdigit_decimal.
      assert (Hpos : (0 <? x) = true) by (apply Z.ltb_lt; lia).
      rewrite Hpos, orb_true_r. f_equal.
      rewrite Z.pow_add_r by lia. change (10 ^ 1) with 10.
      pose proof (Z.div_mod x 10 ltac:(lia)). lia.
Qed.

Lemma dec_aux_digits :
  forall (n : nat) (x : Z) (acc : list Z),
    Forall (fun c => isdigit c = true) acc ->
    Forall (fun c => isdigit c = true) (dec_aux n x acc).
Proof.
  induction n as [| n IH]; intros x acc Hacc; cbn [dec_aux]; [ exact Hacc | ].
  destruct (x =? 0); [ exact Hacc | ].
  apply IH. constructor; [ apply isdigit_decimal | exact Hacc ].
Qed.

Lemma dec_aux_app :
  forall (n : nat) (x : Z) (acc : list Z),
    dec_aux n x acc = dec_aux n x [] ++ acc.
Proof.
  induction n as [| n IH]; intros x acc; cbn [dec_aux]; [ reflexivity | ].
  destruct (x =? 0); [ reflexivity | ].
  rewrite IH. rewrite (IH _ [_]). rewrite <- app_assoc. reflexivity.
Qed.

Lemma dec_aux_nonempty :
  forall (n : nat) (x : Z), 0 < x -> dec_aux (S n) x [] <> [].
Proof.
  intros n x Hx. cbn [dec_aux].
  destruct (Z.eqb_spec x 0) as [-> | _]; [ lia | ].
  rewrite dec_aux_app. intros E. apply app_eq_nil in E. destruct E; discriminate.
Qed.

(** A character after which the digits of a number end. *)
Definition ends_digits (rest : list Z) : Prop :=
  match rest with
  | [] => True
  | c :: _ => isdigit c = false
  end.

Lemma digits_end :
  forall (rest : list Z) (a : Z), ends_digits rest -> digits rest a true = Some a.
Proof.
  intros [| c rest] a H; cbn [digits]; [ reflexivity | ].
  cbn [ends_digits] in H. rewrite H. reflexivity.
Qed.

Lemma isdigit_not_sign :
  forall c : Z,
    isdigit c = true ->
    isspace c = false /\ (c =? ch "-") = false /\ (c =? ch "+") = false.
Proof.
  intros c H. unfold isdigit in H. apply andb_prop in H. destruct H as [H1 H2].
  apply Z.leb_le in H1. apply Z.leb_le in H2.
  change (ch "0") with 48 in H1. change (ch "9") with 57 in H2.
  unfold isspace. change (ch " ") with 32. change ch_t with 9. change ch_r with 13.
  change (ch "-") with 45. change (ch "+") with 43.
  repeat split.
  - apply orb_false_intro; [ apply Z.eqb_neq; lia | ].
    apply andb_false_intro2. apply Z.leb_gt. lia.
  - apply Z.eqb_neq. lia.
  - apply Z.eqb_neq. lia.
Qed.

(** [std::to_string (x)], with anything that is not a digit after it, is
    for [strtol] and [strtoul] the sign and the magnitude of [x]. *)
Lemma strto_subject_to_string :
  forall (x : Z) (rest : list Z),
    - 10 ^ 20 < x < 10 ^ 20 ->
    ends_digits rest ->
    strto_subject (to_string x ++ rest) = Some (x <? 0, Z.abs x).
Proof.
  intros x rest Hx Hrest. unfold to_string.
  destruct (Z.eqb_spec x 0) as [-> | Hnz].
  - unfold strto_subject. cbn [app skip_space].
    change (isspace (ch "0")) with false. cbv iota.
    change (ch "0" =? ch "-") with false. change (ch "0" =? ch "+") with false.
    cbv iota. cbn [digits]. change (isdigit (ch "0")) with true. cbv iota.
    change (0 * 10 + (ch "0" - ch "0")) with 0.
    rewrite (digits_end rest 0 Hrest). reflexivity.
  - destruct (Z.ltb_spec x 0) as [Hneg | Hpos].
    + unfold strto_subject. cbn [app skip_space].
      change (isspace (ch "-")) with false. cbv iota.
      rewrite Z.eqb_refl.
      destruct (digits_dec_aux 20 (- x) [] rest 0 false) as (k & _ & E).
      { change (Z.of_nat 20) with 20. lia. }
      rewrite E. cbn [app orb].
      assert (Hp : (0 <? - x) = true) by (apply Z.ltb_lt; lia).
      rewrite Hp. rewrite (digits_end rest _ Hrest).
      replace (0 * 10 ^ k + - x) with (Z.abs x) by lia. reflexivity.
    + assert (Hx' : 0 < x) by lia.
      pose proof (dec_aux_digits 20 x [] (Forall_nil _)) as Hd.
      pose proof (dec_aux_nonempty 19 x Hx') as Hne.
      destruct (digits_dec_aux 20 x [] rest 0 false) as (k & _ & E).
      { change (Z.of_nat 20) with 20. lia. }
      destruct (dec_aux 20 x []) as [| d tl] eqn:Ed; [ contradiction | ].
      inversion Hd as [| ? ? Hd1 _]; subst.
      destruct (isdigit_not_sign d Hd1) as (Hs & Hm & Hplus).
      unfold strto_subject. cbn [app skip_space]. rewrite Hs, Hm, Hplus.
      cbn [app] in E. rewrite E. cbn [orb].
      assert (Hp : (0 <? x) = true) by (apply Z.ltb_lt; lia).
      rewrite Hp. rewrite (digits_end rest _ Hrest).
      replace (0 * 10 ^ k + x) with (Z.abs x) by lia. reflexivity.
Qed.

(** *** The number scanner on the text of an integer *)

(** The kind the lexer gives an integer: the narrowest signed kind for a
    negative one, the narrowest unsigned kind for any other. *)
Definition number_kind (dm : DataModel) (x : Z) : havJSONToken :=
  if x <? 0 then
    if - 2 ^ 31 <=? x then Int
    else if - 2 ^ (long_bits dm - 1) <=? x then Long
    else Int64
  else
    if x <=? UINT_MAX then UInt
    else if x <=? 2 ^ long_bits dm - 1 then ULong
    else UInt64.

(** A character the number scanner takes into the literal. *)
Definition number_char (c : Z) : Prop :=
  ((c =? ch ",") || SkipWhitespaces c false) = false.

(** A character of the decimal text of an integer. *)
Definition decimal_char (c : Z) : Prop := isdigit c = true \/ c = ch "-".

Lemma decimal_number_char : forall c : Z, decimal_char c -> number_char c.
Proof.
  intros c [H | ->]; [ | reflexivity ].
  unfold isdigit in H. apply andb_prop in H. destruct H as [H1 H2].
  apply Z.leb_le in H1. apply Z.leb_le in H2.
  change (ch "0") with 48 in H1. change (ch "9") with 57 in H2.
  unfold number_char, SkipWhitespaces. cbn [negb andb].
  change (ch ",") with 44. change (ch " ") with 32. change (ch "\") with 92.
  change (ch "/") with 47. change ch_b with 8. change ch_f with 12.
  change ch_n with 10. change ch_r with 13. change ch_t with 9. change ch_v with 11.
  repeat match goal with
         | |- context [c =? ?k] =>
             let E := fresh in
             destruct (Z.eqb_spec c k) as [E | E]; [ exfalso; lia | clear E ]
         end.
  reflexivity.
Qed.

Lemma to_string_chars : forall x : Z, Forall decimal_char (to_string x).
Proof.
  intros x. unfold to_string.
  destruct (x =? 0); [ constructor; [ left; reflexivity | constructor ] | ].
  assert (H : forall y, Forall decimal_char (dec_aux 20 y [])).
  { intros y. eapply Forall_impl; [ | apply dec_aux_digits; constructor ].
    intros c Hc. left. exact Hc. }
  destruct (x <? 0); [ constructor; [ right; reflexivity | apply H ] | apply H ].
Qed.

(** The first character of the text is a minus sign for a negative
    number, and a digit for any other. *)
Lemma to_string_head :
  forall x : Z,
    - 10 ^ 20 < x < 10 ^ 20 ->
    exists (c0 : Z) (tl : list Z),
      to_string x = c0 :: tl
      /\ (c0 =? ch "-") = (x <? 0)
      /\ ((x <? 0) = false -> isdigit c0 = true).
Proof.
  intros x Hx. unfold to_string.
  destruct (Z.eqb_spec x 0) as [-> | Hnz].
  - exists (ch "0"), []. repeat split.
  - destruct (Z.ltb_spec x 0) as [Hneg | Hpos].
    + exists (ch "-"), (dec_aux 20 (- x) []). repeat split. discriminate.
    + pose proof (dec_aux_digits 20 x [] (Forall_nil _)) as Hd.
      pose proof (dec_aux_nonempty 19 x ltac:(lia)) as Hne.
      destruct (dec_aux 20 x []) as [| d tl]; [ contradiction | ].
      inversion Hd as [| ? ? Hd1 _]; subst.
      exists d, tl. repeat split.
      * apply (isdigit_not_sign d Hd1).
      * intros _. exact Hd1.
Qed.

Lemma CheckForNumber_loop_app :
  forall (body rest : list Z) (index : Z) (tempValue : list Z),
    Forall number_char body ->
    CheckForNumber_loop (body ++ rest) index tempValue
    = CheckForNumber_loop rest (index + size body) (tempValue ++ body).
Proof.
  induction body as [| c body IH]; intros rest index tempValue H.
  - cbn [app]. unfold size. cbn [length]. rewrite Z.add_0_r, app_nil_r. reflexivity.
  - inversion H as [| ? ? Hc Hb]; subst. cbn [app CheckForNumber_loop].
    unfold number_char in Hc. rewrite Hc. rewrite (IH _ _ _ Hb).
    unfold size. cbn [length]. rewrite <- app_assoc. cbn [app].
    f_equal. lia.
Qed.

(** What follows the text of a number in a compact text: a comma, or the
    bracket that closes the root. *)
Inductive number_end : list Z -> Prop :=
| end_comma : forall rest : list Z, number_end (ch "," :: rest)
| end_square : number_end [ch "]"]
| end_curly : number_end [ch "}"].

(** The characters after the number that go into the literal. *)
Definition swallowed (rest : list Z) : list Z :=
  match rest with
  | c :: _ => if c =? ch "," then [] else [c]
  | [] => []
  end.

Lemma contains_app :
  forall (c : Z) (a b : list Z), contains c (a ++ b) = contains c a || contains c b.
Proof. intros c a b. unfold contains. apply existsb_app. Qed.

Lemma contains_decimal :
  forall (c : Z) (s : list Z),
    Forall decimal_char s -> isdigit c = false -> c <> ch "-" -> contains c s = false.
Proof.
  intros c s H Hc Hm. induction H as [| d s Hd _ IH]; [ reflexivity | ].
  cbn [contains existsb]. fold (contains c s). rewrite IH, orb_false_r.
  apply Z.eqb_neq. intros ->. destruct Hd as [Hd | Hd]; congruence.
Qed.

Ltac decide_comparisons :=
  repeat (cbn [andb orb negb bind];
          match goal with
          | |- context [?a <=? ?b] =>
              destruct (Z.leb_spec a b); try (exfalso; lia)
          | |- context [?a <? ?b] =>
              destruct (Z.ltb_spec a b); try (exfalso; lia)
          end).

(** The conversions of the text of [x], whatever closes the literal. *)
Lemma sto_signed_to_string :
  forall (bits x : Z) (rest : list Z),
    - 10 ^ 20 < x < 10 ^ 20 ->
    ends_digits rest ->
    sto_signed bits (to_string x ++ rest)
    = if (- 2 ^ (bits - 1) <=? x) && (x <=? 2 ^ (bits - 1) - 1) then Ok x
      else Throw out_of_range.
Proof.
  intros bits x rest Hx Hrest. unfold sto_signed.
  rewrite (strto_subject_to_string x rest Hx Hrest).
  replace (if x <? 0 then - Z.abs x else Z.abs x) with x; [ reflexivity | ].
  destruct (Z.ltb_spec x 0); lia.
Qed.

Lemma sto_unsigned_to_string :
  forall (bits x : Z) (rest : list Z),
    0 <= x < 10 ^ 20 ->
    ends_digits rest ->
    sto_unsigned bits (to_string x ++ rest)
    = if x <=? 2 ^ bits - 1 then Ok x else Throw out_of_range.
Proof.
  intros bits x rest Hx Hrest. unfold sto_unsigned.
  rewrite (strto_subject_to_string x rest) by (try assumption; lia).
  rewrite Z.abs_eq by lia.
  destruct (Z.ltb_spec x 0); [ lia | reflexivity ].
Qed.

Lemma swallowed_ends_digits :
  forall rest : list Z, number_end rest -> ends_digits (swallowed rest).
Proof. intros rest H. destruct H; cbn; reflexivity. Qed.

Lemma swallowed_loop :
  forall (rest : list Z) (index : Z) (tempValue : list Z),
    number_end rest ->
    CheckForNumber_loop rest index tempValue
    = (index + size (swallowed rest), tempValue ++ swallowed rest).
Proof.
  intros rest index tempValue H. destruct H; cbn.
  - rewrite app_nil_r, Z.add_0_r. reflexivity.
  - reflexivity.
  - reflexivity.
Qed.

(** [CheckForNumber], called after the first character of the text of
    [x]: the token has the narrowest kind for [x] and its text, and the
    index is that of the last character taken. *)
Lemma CheckForNumber_integer :
  forall (dm : DataModel) (x index : Z) (s : list Z) (c0 : Z) (tl rest : list Z),
    - 2 ^ 63 <= x <= 2 ^ 64 - 1 ->
    to_string x = c0 :: tl ->
    0 <= index ->
    from index s = tl ++ rest ->
    number_end rest ->
    CheckForNumber dm index s c0
    = Ok (TokenValue (number_kind dm x) (Some (to_string x)),
          index + size tl + size (swallowed rest) - 1).
Proof.
  intros dm x index s c0 tl rest Hx Hs Hi Hfrom Hend.
  assert (Hx' : - 10 ^ 20 < x < 10 ^ 20) by lia.
  pose proof (to_string_chars x) as Hchars. rewrite Hs in Hchars.
  inversion Hchars as [| ? ? Hc0 Htl]; subst.
  destruct (to_string_head x Hx') as (c0' & tl' & Hs' & Hminus & _).
  rewrite Hs in Hs'. inversion Hs'; subst c0' tl'. clear Hs'.
  unfold CheckForNumber. rewrite Hfrom.
  rewrite CheckForNumber_loop_app
    by (eapply Forall_impl; [ apply decimal_number_char | exact Htl ]).
  rewrite (swallowed_loop _ _ _ Hend).
  replace ([c0] ++ tl) with (to_string x) by (rewrite Hs; reflexivity).
  assert (Hat : at_ (to_string x ++ swallowed rest) 0 = c0).
  { rewrite Hs. reflexivity. }
  rewrite Hat, Hminus.
  assert (Hfloat : forall c, isdigit c = false -> c <> ch "-" ->
                             contains c (swallowed rest) = false ->
                             contains c (to_string x ++ swallowed rest) = false).
  { intros c Hd Hm Hsw. rewrite contains_app, Hsw, orb_false_r.
    apply contains_decimal; [ rewrite Hs; exact Hchars | exact Hd | exact Hm ]. }
  rewrite (Hfloat (ch ".")), (Hfloat (ch "e")), (Hfloat (ch "E"));
    try reflexivity; try discriminate; try (destruct Hend; reflexivity).
  cbn [orb].
  pose proof (swallowed_ends_digits _ Hend) as He.
  unfold stoi, stol, stoll, stoul, stoull.
  rewrite !(sto_signed_to_string _ x _ Hx' He).
  unfold number_kind, UINT_MAX.
  destruct (Z.ltb_spec x 0) as [Hneg | Hpos].
  - destruct dm; cbn [long_bits]; compute_powers; decide_comparisons; reflexivity.
  - rewrite !(sto_unsigned_to_string _ x _ ltac:(lia) He).
    destruct dm; cbn [long_bits]; compute_powers; decide_comparisons; reflexivity.
Qed.

(** *** Plain strings *)

(** A character the escaper writes as it is and the string scanner reads
    as it is: an ASCII character from 0x1F on, the double quote and the
    backslash left out. *)
Definition plain_char (c : Z) : bool :=
  (0x1f <=? c) && (c <? 0x80) && negb (c =? DQ) && negb (c =? ch "\").

Definition plain_string (s : list Z) : bool := forallb plain_char s.

Lemma plain_char_spec :
  forall c : Z,
    plain_char c = true -> 0x1f <= c < 0x80 /\ c <> 34 /\ c <> 92.
Proof.
  intros c H. unfold plain_char in H. rewrite !andb_true_iff in H.
  destruct H as (((H1 & H2) & H3) & H4).
  apply Z.leb_le in H1. apply Z.ltb_lt in H2.
  apply negb_true_iff in H3, H4. apply Z.eqb_neq in H3, H4.
  repeat split; assumption.
Qed.

Lemma from_length :
  forall (s : list Z) (index : Z) (t : list Z),
    from index s = t -> (length t <= length s)%nat.
Proof.
  intros s index t H. subst t. unfold from. rewrite length_skipn. lia.
Qed.

Lemma ConvertToEscapedString_body_plain :
  forall (value : list Z) (index : Z) (resultValue : list Z),
    plain_char (at_ value index) = true ->
    ConvertToEscapedString_body value index resultValue
    = Ok (index, resultValue ++ [at_ value index]).
Proof.
  intros value index resultValue H.
  apply plain_char_spec in H. destruct H as (Hc & Hq & Hb).
  unfold ConvertToEscapedString_body.
  set (c := at_ value index) in *.
  norm_chars.
  repeat match goal with
         | |- context [c =? ?k] =>
             let E := fresh in
             destruct (Z.eqb_spec c k) as [E | E]; [ exfalso; lia | clear E ]
         end.
  destruct (ascii_bits c ltac:(lia)) as [Hhigh _]. rewrite Hhigh.
  cbn [Z.eqb].
  destruct (Z.ltb_spec c 31); [ lia | ].
  cbn [bind Nat.sub read_continuation]. rewrite to_char_small by lia. reflexivity.
Qed.

Lemma ConvertToEscapedString_loop_plain :
  forall (p : list Z) (fuel : nat) (value : list Z) (index : Z) (resultValue : list Z),
    plain_string p = true ->
    0 <= index ->
    from index value = p ->
    (length p < fuel)%nat ->
    ConvertToEscapedString_loop fuel value index resultValue = Ok (resultValue ++ p).
Proof.
  induction p as [| c p IH]; intros fuel value index resultValue Hp Hi Hfrom Hfuel.
  - destruct fuel as [| fuel]; [ cbn in Hfuel; lia | ].
    cbn [ConvertToEscapedString_loop]. rewrite (from_nil _ _ Hi Hfrom).
    rewrite app_nil_r. reflexivity.
  - destruct fuel as [| fuel]; [ cbn in Hfuel; lia | ].
    cbn [plain_string forallb] in Hp. apply andb_prop in Hp. destruct Hp as [Hc Hp].
    cbn [ConvertToEscapedString_loop].
    read_char Hfrom Hat Hsz. rewrite Hsz.
    rewrite ConvertToEscapedString_body_plain by (rewrite Hat; exact Hc).
    cbn [bind]. rewrite Hat.
    rewrite (IH fuel value (index + 1) (resultValue ++ [c]) Hp ltac:(lia) Hfrom)
      by (cbn [length] in Hfuel; lia).
    rewrite <- app_assoc. reflexivity.
Qed.

(** The escaper leaves a plain string as it is. *)
Lemma ConvertToEscapedString_plain :
  forall p : list Z, plain_string p = true -> ConvertToEscapedString p = Ok p.
Proof.
  intros p Hp. unfold ConvertToEscapedString.
  apply (ConvertToEscapedString_loop_plain p _ p 0 [] Hp ltac:(lia) (from_0 p)).
  lia.
Qed.

Lemma CheckForString_loop_plain :
  forall (p : list Z) (fuel : nat) (s : list Z) (index : Z) (tempValue rest : list Z),
    plain_string p = true ->
    0 <= index ->
    from index s = p ++ DQ :: rest ->
    (length p < fuel)%nat ->
    CheckForString_loop fuel s index tempValue
    = Ok (TokenValue Value (Some (tempValue ++ p)), index + size p).
Proof.
  induction p as [| c p IH]; intros fuel s index tempValue rest Hp Hi Hfrom Hfuel.
  - destruct fuel as [| fuel]; [ cbn in Hfuel; lia | ].
    cbn [app] in Hfrom. cbn [CheckForString_loop].
    read_char Hfrom Hat Hsz. rewrite Hsz.
    unfold CheckForString_body. rewrite Hat, Z.eqb_refl. cbn [bind].
    rewrite app_nil_r. unfold size. cbn [length]. rewrite Z.add_0_r. reflexivity.
  - destruct fuel as [| fuel]; [ cbn in Hfuel; lia | ].
    cbn [plain_string forallb] in Hp. apply andb_prop in Hp. destruct Hp as [Hc Hp].
    cbn [app] in Hfrom. cbn [CheckForString_loop].
    read_char Hfrom Hat Hsz. rewrite Hsz.
    unfold CheckForString_body. rewrite Hat.
    destruct (plain_char_spec c Hc) as (_ & Hq & Hb).
    destruct (Z.eqb_spec c DQ) as [E | _]; [ exfalso; apply Hq; exact E | ].
    destruct (Z.eqb_spec c (ch "\")) as [E | _]; [ exfalso; apply Hb; exact E | ].
    cbn [bind].
    rewrite (IH fuel s (index + 1) (tempValue ++ [c]) rest Hp ltac:(lia) Hfrom)
      by (cbn [length] in Hfuel; lia).
    rewrite <- app_assoc. unfold size. cbn [length app].
    do 2 f_equal. lia.
Qed.

(** The string scanner, called at the opening quote of a plain string,
    returns the string and the index of the closing quote. *)
Lemma CheckForString_plain :
  forall (p : list Z) (s : list Z) (index : Z) (rest : list Z),
    plain_string p = true ->
    0 <= index ->
    from index s = DQ :: p ++ DQ :: rest ->
    CheckForString index s = Ok (TokenValue Value (Some p), index + size p + 1).
Proof.
  intros p s index rest Hp Hi Hfrom. unfold CheckForString.
  pose proof (from_length _ _ _ Hfrom) as Hlen.
  cbn [length] in Hlen. rewrite length_app in Hlen. cbn [length] in Hlen.
  read_char Hfrom Hat Hsz.
  rewrite (CheckForString_loop_plain p _ s (index + 1) [] rest Hp ltac:(lia) Hfrom)
    by lia.
  cbn [app]. do 2 f_equal. lia.
Qed.

(** *** Literals *)

Lemma list_eqb_refl : forall a : list Z, list_eqb a a = true.
Proof.
  induction a as [| x a IH]; [ reflexivity | ].
  cbn [list_eqb]. rewrite Z.eqb_refl, IH. reflexivity.
Qed.

Lemma list_eqb_eq : forall a b : list Z, list_eqb a b = true -> a = b.
Proof.
  induction a as [| x a IH]; intros [| y b] H; try discriminate; [ reflexivity | ].
  cbn [list_eqb] in H. apply andb_prop in H. destruct H as [Hx Hab].
  apply Z.eqb_eq in Hx. subst y. f_equal. apply IH. exact Hab.
Qed.

Lemma list_eqb_prefix :
  forall (a : list Z) (c : Z) (b : list Z), list_eqb a (a ++ c :: b) = false.
Proof.
  induction a as [| x a IH]; intros c b; [ reflexivity | ].
  cbn [app list_eqb]. rewrite IH. apply andb_false_r.
Qed.

Lemma at_app_size :
  forall (a : list Z) (c : Z) (b : list Z), at_ (a ++ c :: b) (size a) = c.
Proof.
  intros a c b. unfold at_, size. rewrite Nat2Z.id.
  rewrite app_nth2 by lia. rewrite Nat.sub_diag. reflexivity.
Qed.

(** The loop of [CheckForLiteral] on the characters of the literal that
    are still to come. *)
Lemma CheckForLiteral_loop_match :
  forall (literalValue : string) (todo done rest : list Z) (index : Z),
    str literalValue = done ++ todo ->
    todo <> [] ->
    CheckForLiteral_loop literalValue (todo ++ rest) index (size done) done
    = Ok (index + size todo - 1, str literalValue).
Proof.
  intros literalValue todo.
  induction todo as [| c todo IH]; intros done rest index Hlit Hne; [ contradiction | ].
  cbn [app CheckForLiteral_loop].
  assert (Hat : at_ (str literalValue) (size done) = c)
    by (rewrite Hlit; apply at_app_size).
  rewrite Hat, Z.eqb_refl. cbn [negb].
  destruct todo as [| c' todo].
  - assert (Heq : list_eqb (done ++ [c]) (str literalValue) = true)
      by (rewrite Hlit; apply list_eqb_refl).
    rewrite Heq, Hlit. unfold size. cbn [length]. do 2 f_equal. lia.
  - assert (Heq : list_eqb (done ++ [c]) (str literalValue) = false).
    { rewrite Hlit.
      replace (done ++ c :: c' :: todo) with ((done ++ [c]) ++ c' :: todo)
        by (rewrite <- app_assoc; reflexivity).
      apply list_eqb_prefix. }
    rewrite Heq.
    replace (size done + 1) with (size (done ++ [c]))
      by (unfold size; rewrite length_app; cbn [length]; lia).
    rewrite (IH (done ++ [c]) rest (index + 1)).
    + unfold size. cbn [length]. do 2 f_equal. lia.
    + rewrite Hlit, <- app_assoc. reflexivity.
    + discriminate.
Qed.

(** [CheckForLiteral], called after the first character of a literal of
    two characters or more. *)
Lemma CheckForLiteral_match :
  forall (literalValue : string) (c : Z) (todo rest : list Z) (s : list Z) (index : Z),
    str literalValue = c :: todo ->
    todo <> [] ->
    from index s = todo ++ rest ->
    CheckForLiteral index s literalValue
    = Ok (str literalValue, index + size todo - 1).
Proof.
  intros literalValue c todo rest s index Hlit Hne Hfrom.
  unfold CheckForLiteral. rewrite Hfrom.
  replace (at_ (str literalValue) 0) with c by (rewrite Hlit; reflexivity).
  pose proof (CheckForLiteral_loop_match literalValue todo [c] rest index Hlit Hne) as E.
  change (size [c]) with 1 in E. rewrite E.
  cbn [bind]. rewrite Z.eqb_refl. reflexivity.
Qed.

(** *** Scalars *)

(** The scalars of the round trip: null, the booleans, the integers from
    [INT64_MIN] to [UINT64_MAX] and the plain strings. *)
Inductive scalar : Type :=
| Sc_null
| Sc_boolean (b : bool)
| Sc_integer (x : Z)
| Sc_string (s : list Z).

Definition valid_scalar (sc : scalar) : Prop :=
  match sc with
  | Sc_integer x => - 2 ^ 63 <= x <= 2 ^ 64 - 1
  | Sc_string s => plain_string s = true
  | Sc_null | Sc_boolean _ => True
  end.

(** The node of an integer, of the kind the lexer gives it. *)
Definition integer_node (dm : DataModel) (x : Z) : havJSONData :=
  match number_kind dm x with
  | Int => Data DT_Int (V_int x)
  | UInt => Data DT_UInt (V_uint x)
  | Long => Data DT_Long (V_long x)
  | ULong => Data DT_ULong (V_ulong x)
  | Int64 => Data DT_Int64 (V_int64 x)
  | _ => Data DT_UInt64 (V_uint64 x)
  end.

Definition node_of (dm : DataModel) (sc : scalar) : havJSONData :=
  match sc with
  | Sc_null => Data DT_Null (V_string (str "null"))
  | Sc_boolean b => Data DT_Boolean (V_bool b)
  | Sc_integer x => integer_node dm x
  | Sc_string s => Data DT_String (V_string s)
  end.

Definition token_of (dm : DataModel) (sc : scalar) : havJSONTokenValue :=
  match sc with
  | Sc_null => TokenValue Null (Some (str "null"))
  | Sc_boolean b => TokenValue Boolean (Some (str (if b then "true" else "false")))
  | Sc_integer x => TokenValue (number_kind dm x) (Some (to_string x))
  | Sc_string s => TokenValue Value (Some s)
  end.

Definition text_of (sc : scalar) : list Z :=
  match sc with
  | Sc_null => str "null"
  | Sc_boolean b => str (if b then "true" else "false")
  | Sc_integer x => to_string x
  | Sc_string s => DQ :: s ++ [DQ]
  end.

Definition is_integer (sc : scalar) : bool :=
  match sc with
  | Sc_integer _ => true
  | _ => false
  end.

(** The characters after a scalar that the lexer takes with it. *)
Definition taken (sc : scalar) (rest : list Z) : list Z :=
  if is_integer sc then swallowed rest else [].

Lemma number_kind_cases :
  forall (dm : DataModel) (x : Z),
    number_kind dm x = Int \/ number_kind dm x = UInt \/ number_kind dm x = Long
    \/ number_kind dm x = ULong \/ number_kind dm x = Int64
    \/ number_kind dm x = UInt64.
Proof.
  intros dm x. unfold number_kind.
  repeat match goal with
         | |- context [if ?b then _ else _] => destruct b
         end; auto 10.
Qed.

(** The scalar a value stands for, the kind of an integer left out: the
    text of the value does not tell it. *)
Definition scalar_of (v : havJSONData) : option scalar :=
  match getType v, getValue v with
  | DT_Null, V_string s => if list_eqb s (str "null") then Some Sc_null else None
  | DT_Boolean, V_bool b => Some (Sc_boolean b)
  | DT_Int, V_int x | DT_UInt, V_uint x | DT_Long, V_long x
  | DT_ULong, V_ulong x | DT_Int64, V_int64 x | DT_UInt64, V_uint64 x =>
      Some (Sc_integer x)
  | DT_String, V_string s => Some (Sc_string s)
  | _, _ => None
  end.

(** The token the linearizer makes of a scalar value. *)
Definition written_token (v : havJSONData) : havJSONTokenValue :=
  match scalar_token (getType v) (getValue v) with
  | Ok token => token
  | Throw _ => structural None_
  end.

(** The linearizer gives a scalar value its token, and the text writer
    writes that token as the text of the scalar, whatever the kind of an
    integer. *)
Lemma written_token_spec :
  forall (v : havJSONData) (sc : scalar),
    scalar_of v = Some sc ->
    (forall tokens : list havJSONTokenValue,
        Tokenize_item v tokens = Ok (push_back tokens (written_token v)))
    /\ is_value_token (mToken (written_token v)) = true
    /\ (valid_scalar sc -> token_text (written_token v) = Ok (text_of sc)).
Proof.
  intros [t p] sc H. unfold scalar_of in H. cbn [getType getValue] in H.
  destruct t; destruct p; try discriminate H;
    try (inversion H; subst; repeat split; reflexivity).
  - destruct (list_eqb s (str "null")) eqn:E; [ | discriminate H ].
    apply list_eqb_eq in E. inversion H; subst. repeat split; reflexivity.
  - inversion H; subst. repeat split; try reflexivity.
    intros Hv. cbn [valid_scalar] in Hv.
    unfold written_token, token_text.
    cbn [getType getValue scalar_token mToken mValue is_value_token havJSONToken_eqb
         negb andb orb value_ bind].
    rewrite (ConvertToEscapedString_plain s Hv). reflexivity.
Qed.

Lemma to_signed_small :
  forall x : Z, - 2 ^ 31 <= x <= 2 ^ 31 - 1 -> to_signed 32 x = x.
Proof.
  intros x. unfold to_signed. change (32 - 1) with 31. compute_powers. intros Hx.
  destruct (Z.ltb_spec (x mod 4294967296) 2147483648);
    Z.div_mod_to_equations; lia.
Qed.

(** The builder makes of the token of a scalar the node of the scalar. *)
Lemma make_value_scalar :
  forall (dm : DataModel) (sc : scalar),
    valid_scalar sc -> make_value dm (token_of dm sc) = Ok (node_of dm sc).
Proof.
  intros dm sc Hv. destruct sc as [| b | x | s]; try reflexivity.
  - destruct b; reflexivity.
  - cbn [valid_scalar] in Hv. cbn [token_of node_of].
    unfold make_value, integer_node. cbn [mToken mValue value_ bind].
    assert (Hx : - 10 ^ 20 < x < 10 ^ 20) by lia.
    unfold stol, stoul, stoll, stoull.
    rewrite <- (app_nil_r (to_string x)).
    pose proof (sto_signed_to_string 64 x [] Hx I) as S64.
    pose proof (sto_signed_to_string (long_bits dm) x [] Hx I) as Sl.
    unfold number_kind, UINT_MAX.
    destruct (Z.ltb_spec x 0) as [Hneg | Hpos].
    + revert Hv S64 Sl.
      destruct dm; cbn [long_bits]; compute_powers; intros Hv S64 Sl;
        decide_comparisons; rewrite ?S64, ?Sl; decide_comparisons;
        cbn [bind andb]; rewrite ?to_signed_small by lia; reflexivity.
    + pose proof (sto_unsigned_to_string 64 x [] ltac:(lia) I) as U64.
      pose proof (sto_unsigned_to_string (long_bits dm) x [] ltac:(lia) I) as Ul.
      revert Hv U64 Ul.
      destruct dm; cbn [long_bits]; compute_powers; intros Hv U64 Ul;
        decide_comparisons; rewrite ?U64, ?Ul; decide_comparisons;
        cbn [bind andb]; unfold to_unsigned; compute_powers;
        rewrite ?Z.mod_small by lia; reflexivity.
Qed.

(** *** A scalar under the lexer *)

(** What the lexer needs of the first character of a value. *)
Definition value_head (c : Z) : Prop :=
  SkipWhitespaces c false = false
  /\ CheckToken c = None_
  /\ starts_value c = true.

Lemma decimal_value_head : forall c : Z, decimal_char c -> value_head c.
Proof.
  intros c H. pose proof (decimal_number_char c H) as Hn.
  unfold number_char in Hn. apply orb_false_elim in Hn. destruct Hn as [Hcomma Hws].
  assert (Hs : starts_number c = true).
  { unfold starts_number. destruct H as [H | ->]; [ rewrite H | reflexivity ].
    rewrite !orb_true_r. reflexivity. }
  repeat split.
  - exact Hws.
  - unfold CheckToken. rewrite Hcomma.
    assert (Hc : c = 45 \/ 48 <= c <= 57).
    { destruct H as [H | ->]; [ right | left; reflexivity ].
      unfold isdigit in H. apply andb_prop in H. destruct H as [H1 H2].
      apply Z.leb_le in H1. apply Z.leb_le in H2. exact (conj H1 H2). }
    norm_chars.
    repeat match goal with
           | |- context [c =? ?k] =>
               let E := fresh in
               destruct (Z.eqb_spec c k) as [E | E]; [ exfalso; lia | clear E ]
           end.
    reflexivity.
  - unfold starts_value. rewrite Hs. rewrite !orb_true_r. reflexivity.
Qed.

Lemma decimal_not_letter :
  forall c : Z,
    decimal_char c ->
    (c =? DQ) = false /\ (c =? ch "t") = false /\ (c =? ch "f") = false
    /\ (c =? ch "n") = false.
Proof.
  intros c H.
  assert (Hc : c = 45 \/ 48 <= c <= 57).
  { destruct H as [H | ->]; [ right | left; reflexivity ].
    unfold isdigit in H. apply andb_prop in H. destruct H as [H1 H2].
    apply Z.leb_le in H1. apply Z.leb_le in H2. exact (conj H1 H2). }
  norm_chars. repeat split; apply Z.eqb_neq; lia.
Qed.

Lemma text_of_head :
  forall sc : scalar,
    valid_scalar sc ->
    exists (c : Z) (tl : list Z), text_of sc = c :: tl /\ value_head c.
Proof.
  intros sc Hv. destruct sc as [| b | x | s].
  - exists (ch "n"), (str "ull"). repeat split.
  - destruct b; [ exists (ch "t"), (str "rue") | exists (ch "f"), (str "alse") ];
      repeat split.
  - cbn [valid_scalar] in Hv. cbn [text_of].
    pose proof (to_string_chars x) as Hc.
    destruct (to_string_head x ltac:(lia)) as (c0 & tl & Hs & _).
    rewrite Hs in Hc. inversion Hc as [| ? ? Hc0 _]; subst.
    exists c0, tl. split; [ exact Hs | apply decimal_value_head; exact Hc0 ].
  - exists DQ, (s ++ [DQ]). repeat split.
Qed.

(** [CheckValueToken] at the first character of a scalar returns the
    token of the scalar and the index of the last character it takes. *)
Lemma CheckValueToken_scalar :
  forall (dm : DataModel) (sc : scalar) (s : list Z) (index c : Z) (tl rest : list Z),
    valid_scalar sc ->
    text_of sc = c :: tl ->
    0 <= index ->
    from index s = text_of sc ++ rest ->
    (is_integer sc = true -> number_end rest) ->
    CheckValueToken dm c index s
    = Ok (token_of dm sc, index + size (text_of sc) + size (taken sc rest) - 1).
Proof.
  intros dm sc s index c tl rest Hv Hs Hi Hfrom Hend.
  destruct sc as [| b | x | p]; unfold taken; cbn [is_integer] in *.
  - cbn [text_of] in *. inversion Hs; subst c tl. clear Hs.
    change (str "null") with (ch "n" :: str "ull") in Hfrom. cbn [app] in Hfrom.
    read_char Hfrom Hat Hsz.
    unfold CheckValueToken. change (ch "n" =? DQ) with false.
    change (ch "n" =? ch "t") with false. change (ch "n" =? ch "f") with false.
    change (ch "n" =? ch "n") with true. cbv iota.
    rewrite (CheckForLiteral_match "null" (ch "n") (str "ull") rest s (index + 1)
               eq_refl ltac:(discriminate) Hfrom).
    cbn [bind]. change (starts_number (ch "n")) with false. cbv iota.
    cbn [token_of]. change (str "null") with [110; 117; 108; 108].
    cbv iota. change (str "ull") with [117; 108; 108].
    unfold size. cbn [length]. do 2 f_equal. lia.
  - cbn [text_of] in *. destruct b.
    + inversion Hs; subst c tl. clear Hs.
      change (str "true") with (ch "t" :: str "rue") in Hfrom. cbn [app] in Hfrom.
      read_char Hfrom Hat Hsz.
      unfold CheckValueToken. change (ch "t" =? DQ) with false.
      change (ch "t" =? ch "t") with true. cbv iota.
      rewrite (CheckForLiteral_match "true" (ch "t") (str "rue") rest s (index + 1)
                 eq_refl ltac:(discriminate) Hfrom).
      cbn [bind]. change (starts_number (ch "t")) with false. cbv iota.
      cbn [token_of]. change (str "true") with [116; 114; 117; 101].
      cbv iota. change (str "rue") with [114; 117; 101].
      unfold size. cbn [length]. do 2 f_equal. lia.
    + inversion Hs; subst c tl. clear Hs.
      change (str "false") with (ch "f" :: str "alse") in Hfrom. cbn [app] in Hfrom.
      read_char Hfrom Hat Hsz.
      unfold CheckValueToken. change (ch "f" =? DQ) with false.
      change (ch "f" =? ch "t") with false. change (ch "f" =? ch "f") with true.
      cbv iota.
      rewrite (CheckForLiteral_match "false" (ch "f") (str "alse") rest s (index + 1)
                 eq_refl ltac:(discriminate) Hfrom).
      cbn [bind]. change (starts_number (ch "f")) with false. cbv iota.
      cbn [token_of]. change (str "false") with [102; 97; 108; 115; 101].
      cbv iota. change (str "alse") with [97; 108; 115; 101].
      unfold size. cbn [length]. do 2 f_equal. lia.
  - cbn [text_of valid_scalar token_of] in *.
    pose proof (to_string_chars x) as Hc. rewrite Hs in Hc.
    inversion Hc as [| ? ? Hc0 _]; subst.
    destruct (decimal_not_letter c Hc0) as (Hq & Ht & Hf & Hn).
    destruct (decimal_value_head c Hc0) as (_ & _ & Hsv).
    assert (Hsn : starts_number c = true).
    { unfold starts_number. destruct Hc0 as [H | ->]; [ rewrite H | reflexivity ].
      rewrite !orb_true_r. reflexivity. }
    unfold CheckValueToken. rewrite Hq, Ht, Hf, Hn. cbn [bind]. rewrite Hsn.
    rewrite Hs in Hfrom. cbn [app] in Hfrom. read_char Hfrom Hat Hsz.
    rewrite (CheckForNumber_integer dm x (index + 1) s c tl rest Hv Hs ltac:(lia)
               Hfrom (Hend eq_refl)).
    rewrite Hs. unfold size. cbn [length]. do 2 f_equal. lia.
  - cbn [text_of valid_scalar token_of] in *. inversion Hs; subst c tl. clear Hs.
    unfold CheckValueToken. rewrite Z.eqb_refl.
    cbn [app] in Hfrom. rewrite <- app_assoc in Hfrom. cbn [app] in Hfrom.
    rewrite (CheckForString_plain p s index rest Hv Hi Hfrom).
    unfold size. cbn [length]. rewrite length_app. cbn [length].
    do 2 f_equal. lia.
Qed.

(** *** The lexer on a flat array *)

Lemma token_of_value :
  forall (dm : DataModel) (sc : scalar),
    is_value_token (mToken (token_of dm sc)) = true.
Proof.
  intros dm sc. destruct sc as [| b | x | s]; try reflexivity.
  cbn [token_of mToken].
  destruct (number_kind_cases dm x) as [E | [E | [E | [E | [E | E]]]]];
    rewrite E; reflexivity.
Qed.

Lemma value_token_plain :
  forall t : havJSONToken,
    is_value_token t = true ->
    havJSONToken_eqb t None_ = false /\ is_left t = false /\ is_right t = false
    /\ havJSONToken_eqb t Comma = false /\ havJSONToken_eqb t String_ = false
    /\ havJSONToken_eqb t LeftCurlyBracket = false
    /\ havJSONToken_eqb t LeftSquareBracket = false.
Proof. intros t H. destruct t; try discriminate; repeat split. Qed.

(** The array branch of [CheckTypeToken] at the first character of a
    scalar. *)
Lemma CheckTypeToken_array_scalar :
  forall (dm : DataModel) (sc : scalar) (s : list Z) (index : Z) (rest : list Z)
         (mTokens : list havJSONTokenValue),
    valid_scalar sc ->
    0 <= index ->
    from index s = text_of sc ++ rest ->
    (is_integer sc = true -> number_end rest) ->
    CheckTypeToken dm LeftSquareBracket index s mTokens
    = Ok (token_of dm sc, index + size (text_of sc) + size (taken sc rest) - 1, mTokens).
Proof.
  intros dm sc s index rest mTokens Hv Hi Hfrom Hend.
  destruct (text_of_head sc Hv) as (c & tl & Hs & Hws & _ & Hsv).
  unfold CheckTypeToken. pose proof Hfrom as Hfrom'. rewrite Hs in Hfrom'.
  cbn [app] in Hfrom'. rewrite Hfrom'. cbn [CheckTypeToken_array].
  rewrite Hws, Hsv.
  rewrite (CheckValueToken_scalar dm sc s index c tl rest Hv Hs Hi Hfrom Hend).
  reflexivity.
Qed.

(** The state of the lexer inside the root container, an array or an
    object. *)
Definition in_root (kind : havJSONToken) (mTokens : list havJSONTokenValue)
  : LexerState :=
  mkLexerState mTokens kind [kind] [] 0.

Ltac value_token_facts dm sc :=
  let H := fresh "Hval" in
  pose proof (value_token_plain _ (token_of_value dm sc))
    as (?Hnone & ?Hleft & ?Hright & ?Hcomma & ?Hname & ?Hcurly & ?Hsquare).

(** The iteration of the lexer at the bracket that opens the root array,
    followed by a scalar. *)
Lemma Tokenization_body_array_open :
  forall (dm : DataModel) (sc : scalar) (s : list Z) (index : Z) (rest : list Z),
    valid_scalar sc ->
    0 <= index ->
    from index s = ch "[" :: text_of sc ++ rest ->
    (is_integer sc = true -> number_end rest) ->
    Tokenization_body dm s index (mkLexerState [] None_ [] [] 0)
    = Ok (in_root LeftSquareBracket [structural LeftSquareBracket; token_of dm sc],
          index + size (text_of sc) + size (taken sc rest)).
Proof.
  intros dm sc s index rest Hv Hi Hfrom Hend.
  read_char Hfrom Hat Hsz.
  unfold Tokenization_body. rewrite Hat.
  cbn -[Z.add Z.sub from at_ size CheckTypeToken text_of token_of taken].
  rewrite (CheckTypeToken_array_scalar dm sc s (index + 1) rest _ Hv ltac:(lia)
             Hfrom Hend).
  cbn [bind]. value_token_facts dm sc. rewrite Hnone, Hleft. cbn [negb].
  unfold in_root. do 2 f_equal. lia.
Qed.

(** The iteration at a comma of the root array, followed by a scalar. *)
Lemma Tokenization_body_array_comma :
  forall (dm : DataModel) (sc : scalar) (s : list Z) (index : Z) (rest : list Z)
         (mTokens : list havJSONTokenValue),
    valid_scalar sc ->
    0 <= index ->
    from index s = ch "," :: text_of sc ++ rest ->
    (is_integer sc = true -> number_end rest) ->
    Tokenization_body dm s index (in_root LeftSquareBracket mTokens)
    = Ok (in_root LeftSquareBracket
            (mTokens ++ [structural Comma; token_of dm sc]),
          index + size (text_of sc) + size (taken sc rest)).
Proof.
  intros dm sc s index rest mTokens Hv Hi Hfrom Hend.
  read_char Hfrom Hat Hsz.
  unfold Tokenization_body. rewrite Hat.
  cbn -[Z.add Z.sub from at_ size CheckTypeToken text_of token_of taken].
  rewrite (CheckTypeToken_array_scalar dm sc s (index + 1) rest _ Hv ltac:(lia)
             Hfrom Hend).
  cbn [bind]. value_token_facts dm sc. rewrite Hnone, Hleft. cbn [negb].
  unfold in_root, push_back. rewrite <- app_assoc. cbn [app].
  do 2 f_equal. lia.
Qed.

(** The iteration at the bracket that closes the root. *)
Lemma Tokenization_body_close :
  forall (dm : DataModel) (kind : havJSONToken) (c : Z) (s : list Z) (index : Z)
         (rest : list Z) (mTokens : list havJSONTokenValue),
    (kind = LeftSquareBracket /\ c = ch "]") \/ (kind = LeftCurlyBracket /\ c = ch "}") ->
    0 <= index ->
    from index s = c :: rest ->
    exists st : LexerState,
      Tokenization_body dm s index (in_root kind mTokens) = Ok (st, index)
      /\ lx_mTokens st = mTokens ++ [structural (CheckToken c)].
Proof.
  intros dm kind c s index rest mTokens Hc Hi Hfrom.
  read_char Hfrom Hat Hsz.
  unfold Tokenization_body. rewrite Hat.
  destruct Hc as [[-> ->] | [-> ->]];
    cbn -[Z.add Z.sub from at_ size CheckTypeToken];
    eexists; split; reflexivity.
Qed.

(** The text of a flat array after its first element: the other elements,
    each after a comma, and the closing bracket. *)
Fixpoint array_tail (l : list scalar) : list Z :=
  match l with
  | [] => [ch "]"]
  | sc :: l' => ch "," :: text_of sc ++ array_tail l'
  end.

(** What is left of that text once the lexer has read the element
    [prev]: an integer at the end takes the closing bracket with it. *)
Definition after (close : list Z) (prev : scalar) (tail : list Z) : list Z :=
  if is_integer prev then
    if list_eqb tail close then [] else tail
  else tail.

(** The tokens the lexer makes of it. *)
Fixpoint lexed_tail (dm : DataModel) (close : havJSONToken) (prev : scalar)
    (l : list scalar) : list havJSONTokenValue :=
  match l with
  | [] => if is_integer prev then [] else [structural close]
  | sc :: l' => structural Comma :: token_of dm sc :: lexed_tail dm close sc l'
  end.

Lemma lexed_tail_length :
  forall (dm : DataModel) (close : havJSONToken) (prev : scalar) (l : list scalar),
    (2 * length l <= length (lexed_tail dm close prev l))%nat.
Proof.
  intros dm close prev l. revert prev.
  induction l as [| sc l IH]; intros prev; cbn [lexed_tail length]; [ lia | ].
  specialize (IH sc). lia.
Qed.

Lemma array_tail_end : forall l : list scalar, number_end (array_tail l).
Proof. intros [| sc l]; constructor. Qed.

Lemma after_array_tail :
  forall (prev : scalar) (l : list scalar) (s : list Z) (index : Z),
    0 <= index ->
    from index s = array_tail l ->
    from (index + size (taken prev (array_tail l))) s
    = after [ch "]"] prev (array_tail l).
Proof.
  intros prev l s index Hi Hfrom. unfold taken, after.
  destruct (is_integer prev).
  - destruct l as [| sc l].
    + cbn. apply (from_app [ch "]"] s index [] Hi Hfrom).
    + cbn [array_tail swallowed]. change (ch "," =? ch ",") with true. cbv iota.
      cbn [list_eqb]. change (ch "," =? ch "]") with false. cbn [andb].
      unfold size. cbn [length]. rewrite Z.add_0_r. exact Hfrom.
  - unfold size. cbn [length]. rewrite Z.add_0_r. exact Hfrom.
Qed.

Section array_lexer.

Variable dm : DataModel.
Variable s : list Z.

(** The loop of the lexer, from the end of an element of the root array
    to the end of the text. *)
Lemma Tokenization_loop_array :
  forall (l : list scalar) (prev : scalar) (fuel : nat) (index : Z)
         (mTokens : list havJSONTokenValue),
    Forall valid_scalar l ->
    0 <= index ->
    from index s = after [ch "]"] prev (array_tail l) ->
    (length (array_tail l) < fuel)%nat ->
    exists st : LexerState,
      Tokenization_loop dm fuel s index (in_root LeftSquareBracket mTokens) = Ok st
      /\ lx_mTokens st = mTokens ++ lexed_tail dm RightSquareBracket prev l.
Proof.
  induction l as [| sc l IH]; intros prev fuel index mTokens Hl Hi Hfrom Hfuel.
  - cbn [array_tail] in *. unfold after in Hfrom. cbn [lexed_tail].
    destruct fuel as [| fuel]; [ cbn in Hfuel; lia | ].
    destruct (is_integer prev).
    + cbn [list_eqb] in Hfrom. rewrite Z.eqb_refl in Hfrom. cbn [andb] in Hfrom.
      cbn [Tokenization_loop]. rewrite (from_nil _ _ Hi Hfrom).
      eexists. split; [ reflexivity | ]. cbn [lx_mTokens in_root].
      symmetry. apply app_nil_r.
    + destruct fuel as [| fuel]; [ cbn in Hfuel; lia | ].
      cbn [Tokenization_loop].
      destruct (Tokenization_body_close dm LeftSquareBracket (ch "]") s index []
                  mTokens (or_introl (conj eq_refl eq_refl)) Hi Hfrom)
        as (st & Hbody & Htok).
      read_char Hfrom Hat Hsz. rewrite Hsz, Hbody. cbn [bind].
      rewrite (from_nil s (index + 1) ltac:(lia) Hfrom).
      exists st. split; [ reflexivity | exact Htok ].
  - inversion Hl as [| ? ? Hsc Hl']; subst.
    assert (Hafter : after [ch "]"] prev (array_tail (sc :: l))
                     = ch "," :: text_of sc ++ array_tail l).
    { unfold after. cbn [array_tail list_eqb].
      change (ch "," =? ch "]") with false. cbn [andb].
      destruct (is_integer prev); reflexivity. }
    rewrite Hafter in Hfrom.
    destruct fuel as [| fuel]; [ cbn in Hfuel; lia | ].
    cbn [Tokenization_loop].
    rewrite (Tokenization_body_array_comma dm sc s index (array_tail l) mTokens
               Hsc Hi Hfrom (fun _ => array_tail_end l)).
    read_char Hfrom Hat Hsz. rewrite Hsz. cbn [bind].
    pose proof (from_app (text_of sc) s (index + 1) (array_tail l) ltac:(lia) Hfrom)
      as Hnext.
    pose proof (after_array_tail sc l s (index + 1 + size (text_of sc))
                  ltac:(unfold size; lia) Hnext) as Hnext'.
    destruct (IH sc fuel
                (index + size (text_of sc) + size (taken sc (array_tail l)) + 1)
                (mTokens ++ [structural Comma; token_of dm sc]) Hl')
      as (st & Hloop & Htok).
    + unfold size. lia.
    + rewrite <- Hnext'. f_equal. lia.
    + cbn [array_tail length] in Hfuel. rewrite length_app in Hfuel. lia.
    + exists st. split; [ exact Hloop | ].
      rewrite Htok. cbn [lexed_tail]. rewrite <- app_assoc. reflexivity.
Qed.

End array_lexer.

(** The text of a flat array, and the tokens the lexer makes of it. *)
Definition array_text (sc : scalar) (l : list scalar) : list Z :=
  ch "[" :: text_of sc ++ array_tail l.

Definition array_lexed (dm : DataModel) (sc : scalar) (l : list scalar)
  : list havJSONTokenValue :=
  structural LeftSquareBracket :: token_of dm sc
    :: lexed_tail dm RightSquareBracket sc l.

Lemma Tokenization_array :
  forall (dm : DataModel) (sc : scalar) (l : list scalar),
    valid_scalar sc ->
    Forall valid_scalar l ->
    Tokenization dm (array_text sc l) = Ok (array_lexed dm sc l).
Proof.
  intros dm sc l Hsc Hl. unfold Tokenization.
  set (s := array_text sc l).
  assert (Hfrom : from 0 s = ch "[" :: text_of sc ++ array_tail l) by reflexivity.
  cbn [Tokenization_loop].
  rewrite (Tokenization_body_array_open dm sc s 0 (array_tail l) Hsc ltac:(lia)
             Hfrom (fun _ => array_tail_end l)).
  read_char Hfrom Hat Hsz. rewrite Hsz. cbn [bind].
  pose proof (from_app (text_of sc) s (0 + 1) (array_tail l) ltac:(lia) Hfrom)
    as Hnext.
  pose proof (after_array_tail sc l s (0 + 1 + size (text_of sc))
                ltac:(unfold size; lia) Hnext) as Hnext'.
  destruct (Tokenization_loop_array dm s l sc (length s)
              (0 + size (text_of sc) + size (taken sc (array_tail l)) + 1)
              [structural LeftSquareBracket; token_of dm sc] Hl)
    as (st & Hloop & Htok).
  - unfold size. lia.
  - rewrite <- Hnext'. f_equal. lia.
  - unfold s, array_text. cbn [length]. rewrite length_app. lia.
  - rewrite Hloop. cbn [bind]. rewrite Htok. reflexivity.
Qed.

(** *** The builder on the tokens of a flat array *)

Section array_builder.

Variable dm : DataModel.

Lemma ParseJSONContents_body_comma :
  forall (rest : list havJSONTokenValue) (refs : list (list step))
         (root : option havJSONData),
    ParseJSONContents_body dm (mkBuilderState (structural Comma :: rest) refs root)
    = Ok (Some (mkBuilderState rest refs root)).
Proof. reflexivity. Qed.

Lemma ParseJSONContents_body_array_value :
  forall (token : havJSONTokenValue) (value : havJSONData)
         (rest : list havJSONTokenValue) (acc : list havJSONData),
    is_value_token (mToken token) = true ->
    make_value dm token = Ok value ->
    ParseJSONContents_body dm
      (mkBuilderState (token :: rest) [[]] (Some (Data DT_Array (V_vector acc))))
    = Ok (Some (mkBuilderState rest [[]]
                  (Some (Data DT_Array (V_vector (acc ++ [value])))))).
Proof.
  intros [t v] value rest acc Ht Hm.
  destruct t; try discriminate Ht; cbn -[make_value]; rewrite Hm; reflexivity.
Qed.

Lemma ParseJSONContents_body_array_open :
  forall (token : havJSONTokenValue) (value : havJSONData)
         (rest : list havJSONTokenValue),
    is_value_token (mToken token) = true ->
    make_value dm token = Ok value ->
    ParseJSONContents_body dm
      (mkBuilderState (structural LeftSquareBracket :: token :: rest) [] None)
    = Ok (Some (mkBuilderState rest [[]]
                  (Some (Data DT_Array (V_vector [value]))))).
Proof.
  intros [t v] value rest Ht Hm.
  destruct t; try discriminate Ht; cbn -[make_value]; rewrite Hm; reflexivity.
Qed.

(** The loop of the builder, after an element of the root array. *)
Lemma ParseJSONContents_loop_array :
  forall (l : list scalar) (prev : scalar) (fuel : nat) (acc : list havJSONData),
    Forall valid_scalar l ->
    (2 * length l + 1 < fuel)%nat ->
    exists st : BuilderState,
      ParseJSONContents_loop dm fuel
        (mkBuilderState (lexed_tail dm RightSquareBracket prev l) [[]]
           (Some (Data DT_Array (V_vector acc))))
      = Ok (Some st)
      /\ rootNode st = Some (Data DT_Array (V_vector (acc ++ map (node_of dm) l))).
Proof.
  induction l as [| sc l IH]; intros prev fuel acc Hl Hfuel.
  - cbn [lexed_tail map]. rewrite app_nil_r.
    destruct fuel as [| [| fuel]]; try (cbn in Hfuel; lia).
    destruct (is_integer prev).
    + eexists. split; reflexivity.
    + eexists. split; reflexivity.
  - inversion Hl as [| ? ? Hsc Hl']; subst.
    destruct fuel as [| [| fuel]]; try (cbn in Hfuel; lia).
    cbn [lexed_tail].
    cbn [ParseJSONContents_loop b_mTokens].
    rewrite ParseJSONContents_body_comma. cbn [bind b_mTokens].
    rewrite (ParseJSONContents_body_array_value (token_of dm sc) (node_of dm sc)
               _ acc (token_of_value dm sc) (make_value_scalar dm sc Hsc)).
    cbn [bind].
    destruct (IH sc fuel (acc ++ [node_of dm sc]) Hl') as (st & Hloop & Hroot).
    { cbn [length] in Hfuel. lia. }
    exists st. split; [ exact Hloop | ].
    rewrite Hroot. cbn [map]. rewrite <- app_assoc. reflexivity.
Qed.

(** The builder makes of the tokens of a flat array the array of its
    elements. *)
Lemma ParseJSONContents_array :
  forall (sc : scalar) (l : list scalar),
    valid_scalar sc ->
    Forall valid_scalar l ->
    ParseJSONContents dm (array_lexed dm sc l)
    = Ok (Some (Data DT_Array (V_vector (map (node_of dm) (sc :: l))))).
Proof.
  intros sc l Hsc Hl. unfold ParseJSONContents, array_lexed.
  cbn [mToken structural is_left havJSONToken_eqb orb negb].
  cbn [ParseJSONContents_loop b_mTokens].
  rewrite (ParseJSONContents_body_array_open (token_of dm sc) (node_of dm sc) _
             (token_of_value dm sc) (make_value_scalar dm sc Hsc)).
  cbn [bind].
  destruct (ParseJSONContents_loop_array l sc
              (length (structural LeftSquareBracket :: token_of dm sc
                         :: lexed_tail dm RightSquareBracket sc l))
              [node_of dm sc] Hl)
    as (st & Hloop & Hroot).
  - cbn [length].
    pose proof (lexed_tail_length dm RightSquareBracket sc l). lia.
  - rewrite Hloop. cbn [bind]. rewrite Hroot. reflexivity.
Qed.

End array_builder.

(** *** The writer on a flat array *)

(** The tokens of the elements after the first, as the linearizer emits
    them. *)
Fixpoint written_tail (close : havJSONToken) (vs : list havJSONData)
  : list havJSONTokenValue :=
  match vs with
  | [] => [structural close]
  | v :: vs' => structural Comma :: written_token v :: written_tail close vs'
  end.

(** The values [vs] stand for the scalars [l], one by one. *)
Definition stand_for (vs : list havJSONData) (l : list scalar) : Prop :=
  map scalar_of vs = map Some l.

Lemma stand_for_cons :
  forall (v : havJSONData) (vs : list havJSONData) (sc : scalar) (l : list scalar),
    stand_for (v :: vs) (sc :: l) -> scalar_of v = Some sc /\ stand_for vs l.
Proof.
  intros v vs sc l H. unfold stand_for in *. cbn [map] in H.
  injection H as H1 H2. split; assumption.
Qed.

Lemma TokenizeArray_from_values :
  forall (vs : list havJSONData) (l : list scalar) (index : nat)
         (tokens : list havJSONTokenValue),
    stand_for vs l ->
    TokenizeArray_from vs (S index) tokens
    = Ok (tokens ++ written_tail RightSquareBracket vs).
Proof.
  induction vs as [| v vs IH]; intros l index tokens H; [ reflexivity | ].
  destruct l as [| sc l]; [ discriminate H | ].
  apply stand_for_cons in H. destruct H as [Hv Hvs].
  destruct (written_token_spec v sc Hv) as (Htok & _ & _).
  cbn [TokenizeArray_from]. rewrite Htok. cbn [bind].
  rewrite (IH l _ _ Hvs). unfold push_back. rewrite <- !app_assoc. reflexivity.
Qed.

(** The text writer at the token of a scalar value. *)
Lemma ConvertJSONToString_loop_scalar :
  forall (v : havJSONData) (sc : scalar) (rest : list havJSONTokenValue)
         (types : list havJSONDataType) (acc : list Z),
    scalar_of v = Some sc ->
    valid_scalar sc ->
    ConvertJSONToString_loop (written_token v :: rest) types acc
    = ConvertJSONToString_loop rest types (acc ++ text_of sc).
Proof.
  intros v sc rest types acc Hv Hsc.
  destruct (written_token_spec v sc Hv) as (_ & Hval & Htext).
  cbn [ConvertJSONToString_loop].
  pose proof (value_token_plain _ Hval) as (_ & _ & Hright & _).
  rewrite Hright. rewrite (Htext Hsc). cbn [bind].
  destruct (mToken (written_token v)); try discriminate Hval; reflexivity.
Qed.

Lemma ConvertJSONToString_loop_comma :
  forall (rest : list havJSONTokenValue) (types : list havJSONDataType) (acc : list Z),
    ConvertJSONToString_loop (structural Comma :: rest) types acc
    = ConvertJSONToString_loop rest types (acc ++ [ch ","]).
Proof. reflexivity. Qed.

Lemma ConvertJSONToString_loop_square :
  forall (rest : list havJSONTokenValue) (acc : list Z),
    ConvertJSONToString_loop (structural LeftSquareBracket :: rest) [] acc
    = ConvertJSONToString_loop rest [DT_Array] (acc ++ [ch "["]).
Proof. reflexivity. Qed.

Lemma ConvertJSONToString_loop_curly :
  forall (rest : list havJSONTokenValue) (acc : list Z),
    ConvertJSONToString_loop (structural LeftCurlyBracket :: rest) [] acc
    = ConvertJSONToString_loop rest [DT_Object] (acc ++ [ch "{"]).
Proof. reflexivity. Qed.

Lemma ConvertJSONToString_loop_array_tail :
  forall (vs : list havJSONData) (l : list scalar) (kind : havJSONDataType)
         (acc : list Z),
    stand_for vs l ->
    Forall valid_scalar l ->
    ConvertJSONToString_loop (written_tail RightSquareBracket vs) [kind] acc
    = Ok (acc ++ array_tail l).
Proof.
  induction vs as [| v vs IH]; intros l kind acc H Hl.
  - destruct l; [ reflexivity | discriminate H ].
  - destruct l as [| sc l]; [ discriminate H | ].
    apply stand_for_cons in H. destruct H as [Hv Hvs].
    inversion Hl as [| ? ? Hsc Hl']; subst.
    cbn [written_tail]. rewrite ConvertJSONToString_loop_comma.
    rewrite (ConvertJSONToString_loop_scalar v sc _ _ _ Hv Hsc).
    rewrite (IH l kind _ Hvs Hl').
    cbn [array_tail]. rewrite <- !app_assoc. reflexivity.
Qed.

(** The compact text of a flat array. *)
Lemma ConvertJSONToString_array :
  forall (v : havJSONData) (vs : list havJSONData) (sc : scalar) (l : list scalar),
    stand_for (v :: vs) (sc :: l) ->
    valid_scalar sc ->
    Forall valid_scalar l ->
    ConvertJSONToString (Data DT_Array (V_vector (v :: vs)))
    = Ok (Some (array_text sc l)).
Proof.
  intros v vs sc l H Hsc Hl.
  apply stand_for_cons in H. destruct H as [Hv Hvs].
  destruct (written_token_spec v sc Hv) as (Htok & _ & _).
  unfold ConvertJSONToString, Tokenization_value.
  cbn [getType getValue]. unfold TokenizeArray.
  cbn [TokenizeArray_from]. rewrite Htok. cbn [bind].
  rewrite (TokenizeArray_from_values vs l _ _ Hvs). cbn [bind]. unfold push_back.
  cbn [app structural mToken is_left havJSONToken_eqb orb negb].
  fold (structural LeftSquareBracket).
  rewrite ConvertJSONToString_loop_square.
  rewrite (ConvertJSONToString_loop_scalar v sc _ _ _ Hv Hsc).
  rewrite (ConvertJSONToString_loop_array_tail vs l _ _ Hvs Hl).
  cbn [bind]. reflexivity.
Qed.

(** A flat array goes through the text and comes back with its integers
    in the kinds the lexer gives them. *)
Lemma array_round_trip :
  forall (dm : DataModel) (v : havJSONData) (vs : list havJSONData)
         (sc : scalar) (l : list scalar),
    stand_for (v :: vs) (sc :: l) ->
    valid_scalar sc ->
    Forall valid_scalar l ->
    ConvertJSONToString (Data DT_Array (V_vector (v :: vs)))
    = Ok (Some (array_text sc l))
    /\ ParseContent dm (array_text sc l)
       = Ok (true, Data DT_Array (V_vector (map (node_of dm) (sc :: l)))).
Proof.
  intros dm v vs sc l H Hsc Hl.
  split; [ apply ConvertJSONToString_array; assumption | ].
  unfold ParseContent. rewrite (Tokenization_array dm sc l Hsc Hl). cbn [bind].
  unfold array_lexed at 1.
  rewrite (ParseJSONContents_array dm sc l Hsc Hl). reflexivity.
Qed.

(** *** The lexer on a flat object *)

Definition key_text (k : list Z) : list Z := DQ :: k ++ [DQ].

Definition name_token (k : list Z) : havJSONTokenValue := TokenValue String_ (Some k).

(** The object branch of [CheckTypeToken] at the opening quote of a
    key. *)
Lemma CheckTypeToken_object_key :
  forall (dm : DataModel) (k : list Z) (s : list Z) (index : Z) (rest : list Z)
         (mTokens : list havJSONTokenValue),
    plain_string k = true ->
    0 <= index ->
    from index s = key_text k ++ rest ->
    CheckTypeToken dm LeftCurlyBracket index s mTokens
    = Ok (name_token k, index + size (key_text k) - 1, mTokens).
Proof.
  intros dm k s index rest mTokens Hk Hi Hfrom.
  unfold key_text in *. cbn [app] in Hfrom. rewrite <- app_assoc in Hfrom.
  cbn [app] in Hfrom.
  unfold CheckTypeToken. rewrite Hfrom. cbn [CheckTypeToken_object].
  change (SkipWhitespaces DQ false) with false. cbv iota.
  change (CheckToken DQ) with None_. cbn [havJSONToken_eqb negb].
  rewrite Z.eqb_refl.
  rewrite (CheckForString_plain k s index rest Hk Hi Hfrom). cbn [bind mValue].
  unfold name_token, size. cbn [length]. rewrite length_app. cbn [length].
  do 3 f_equal. lia.
Qed.

(** The last branch of [CheckTypeToken], after a colon, at the first
    character of a scalar. *)
Lemma CheckTypeToken_colon_scalar :
  forall (dm : DataModel) (sc : scalar) (s : list Z) (index : Z) (rest : list Z)
         (mTokens : list havJSONTokenValue),
    valid_scalar sc ->
    0 <= index ->
    from index s = text_of sc ++ rest ->
    (is_integer sc = true -> number_end rest) ->
    CheckTypeToken dm Colon index s mTokens
    = Ok (token_of dm sc, index + size (text_of sc) + size (taken sc rest) - 1, mTokens).
Proof.
  intros dm sc s index rest mTokens Hv Hi Hfrom Hend.
  destruct (text_of_head sc Hv) as (c & tl & Hs & Hws & Htok & Hsv).
  unfold CheckTypeToken. pose proof Hfrom as Hfrom'. rewrite Hs in Hfrom'.
  cbn [app] in Hfrom'. rewrite Hfrom'. cbn [CheckTypeToken_other].
  rewrite Hws, Htok, Hsv. cbn [havJSONToken_eqb].
  rewrite (CheckValueToken_scalar dm sc s index c tl rest Hv Hs Hi Hfrom Hend).
  reflexivity.
Qed.

(** The iteration at the bracket that opens the root object, followed by
    a key. *)
Lemma Tokenization_body_object_open :
  forall (dm : DataModel) (k : list Z) (s : list Z) (index : Z) (rest : list Z),
    plain_string k = true ->
    0 <= index ->
    from index s = ch "{" :: key_text k ++ rest ->
    Tokenization_body dm s index (mkLexerState [] None_ [] [] 0)
    = Ok (in_root LeftCurlyBracket [structural LeftCurlyBracket; name_token k],
          index + size (key_text k)).
Proof.
  intros dm k s index rest Hk Hi Hfrom.
  read_char Hfrom Hat Hsz.
  unfold Tokenization_body. rewrite Hat.
  cbn -[Z.add Z.sub from at_ size CheckTypeToken key_text name_token].
  rewrite (CheckTypeToken_object_key dm k s (index + 1) rest _ Hk ltac:(lia) Hfrom).
  cbn [bind name_token mToken havJSONToken_eqb negb is_left orb].
  unfold in_root. do 2 f_equal. lia.
Qed.

(** The iteration at a comma of the root object, followed by a key. *)
Lemma Tokenization_body_object_comma :
  forall (dm : DataModel) (k : list Z) (s : list Z) (index : Z) (rest : list Z)
         (mTokens : list havJSONTokenValue),
    plain_string k = true ->
    0 <= index ->
    from index s = ch "," :: key_text k ++ rest ->
    Tokenization_body dm s index (in_root LeftCurlyBracket mTokens)
    = Ok (in_root LeftCurlyBracket (mTokens ++ [structural Comma; name_token k]),
          index + size (key_text k)).
Proof.
  intros dm k s index rest mTokens Hk Hi Hfrom.
  read_char Hfrom Hat Hsz.
  unfold Tokenization_body. rewrite Hat.
  cbn -[Z.add Z.sub from at_ size CheckTypeToken key_text name_token].
  rewrite (CheckTypeToken_object_key dm k s (index + 1) rest _ Hk ltac:(lia) Hfrom).
  cbn [bind name_token mToken havJSONToken_eqb negb is_left orb].
  unfold in_root, push_back. rewrite <- app_assoc. cbn [app].
  do 2 f_equal. lia.
Qed.

(** The iteration at the colon after a key, followed by a scalar. *)
Lemma Tokenization_body_object_colon :
  forall (dm : DataModel) (sc : scalar) (s : list Z) (index : Z) (rest : list Z)
         (mTokens : list havJSONTokenValue),
    valid_scalar sc ->
    0 <= index ->
    from index s = ch ":" :: text_of sc ++ rest ->
    (is_integer sc = true -> number_end rest) ->
    Tokenization_body dm s index (in_root LeftCurlyBracket mTokens)
    = Ok (in_root LeftCurlyBracket (mTokens ++ [structural Colon; token_of dm sc]),
          index + size (text_of sc) + size (taken sc rest)).
Proof.
  intros dm sc s index rest mTokens Hv Hi Hfrom Hend.
  read_char Hfrom Hat Hsz.
  unfold Tokenization_body. rewrite Hat.
  cbn -[Z.add Z.sub from at_ size CheckTypeToken text_of token_of taken].
  rewrite (CheckTypeToken_colon_scalar dm sc s (index + 1) rest _ Hv ltac:(lia)
             Hfrom Hend).
  cbn [bind]. value_token_facts dm sc. rewrite Hnone, Hleft. cbn [negb].
  unfold in_root, push_back. rewrite <- app_assoc. cbn [app].
  do 2 f_equal. lia.
Qed.

Definition valid_entry (e : list Z * scalar) : Prop :=
  plain_string (fst e) = true /\ valid_scalar (snd e).

(** The text of a flat object after its first entry. *)
Fixpoint object_tail (m : list (list Z * scalar)) : list Z :=
  match m with
  | [] => [ch "}"]
  | e :: m' =>
      ch "," :: key_text (fst e) ++ ch ":" :: text_of (snd e) ++ object_tail m'
  end.

(** The tokens the lexer makes of it. *)
Fixpoint lexed_object_tail (dm : DataModel) (prev : scalar)
    (m : list (list Z * scalar)) : list havJSONTokenValue :=
  match m with
  | [] => if is_integer prev then [] else [structural RightCurlyBracket]
  | e :: m' =>
      structural Comma :: name_token (fst e) :: structural Colon
        :: token_of dm (snd e) :: lexed_object_tail dm (snd e) m'
  end.

Lemma object_tail_end : forall m : list (list Z * scalar), number_end (object_tail m).
Proof. intros [| e m]; constructor. Qed.

Lemma after_object_tail :
  forall (prev : scalar) (m : list (list Z * scalar)) (s : list Z) (index : Z),
    0 <= index ->
    from index s = object_tail m ->
    from (index + size (taken prev (object_tail m))) s
    = after [ch "}"] prev (object_tail m).
Proof.
  intros prev m s index Hi Hfrom. unfold taken, after.
  destruct (is_integer prev).
  - destruct m as [| e m].
    + cbn. apply (from_app [ch "}"] s index [] Hi Hfrom).
    + cbn [object_tail swallowed]. change (ch "," =? ch ",") with true. cbv iota.
      cbn [list_eqb]. change (ch "," =? ch "}") with false. cbn [andb].
      unfold size. cbn [length]. rewrite Z.add_0_r. exact Hfrom.
  - unfold size. cbn [length]. rewrite Z.add_0_r. exact Hfrom.
Qed.

Section object_lexer.

Variable dm : DataModel.
Variable s : list Z.

(** The two iterations that read a colon, a scalar and what the scalar
    takes with it. *)
Lemma Tokenization_loop_value :
  forall (sc : scalar) (m : list (list Z * scalar)) (fuel : nat) (index : Z)
         (mTokens : list havJSONTokenValue),
    valid_scalar sc ->
    0 <= index ->
    from index s = ch ":" :: text_of sc ++ object_tail m ->
    Tokenization_loop dm (S fuel) s index (in_root LeftCurlyBracket mTokens)
    = Tokenization_loop dm fuel s
        (index + size (text_of sc) + size (taken sc (object_tail m)) + 1)
        (in_root LeftCurlyBracket (mTokens ++ [structural Colon; token_of dm sc]))
    /\ from (index + size (text_of sc) + size (taken sc (object_tail m)) + 1) s
       = after [ch "}"] sc (object_tail m).
Proof.
  intros sc m fuel index mTokens Hsc Hi Hfrom.
  cbn [Tokenization_loop].
  rewrite (Tokenization_body_object_colon dm sc s index (object_tail m) mTokens
             Hsc Hi Hfrom (fun _ => object_tail_end m)).
  read_char Hfrom Hat Hsz. rewrite Hsz. cbn [bind].
  split; [ reflexivity | ].
  pose proof (from_app (text_of sc) s (index + 1) (object_tail m) ltac:(lia) Hfrom)
    as Hnext.
  pose proof (after_object_tail sc m s (index + 1 + size (text_of sc))
                ltac:(unfold size; lia) Hnext) as Hnext'.
  rewrite <- Hnext'. f_equal. lia.
Qed.

(** The loop of the lexer, from the end of a value of the root object to
    the end of the text. *)
Lemma Tokenization_loop_object :
  forall (m : list (list Z * scalar)) (prev : scalar) (fuel : nat) (index : Z)
         (mTokens : list havJSONTokenValue),
    Forall valid_entry m ->
    0 <= index ->
    from index s = after [ch "}"] prev (object_tail m) ->
    (length (object_tail m) < fuel)%nat ->
    exists st : LexerState,
      Tokenization_loop dm fuel s index (in_root LeftCurlyBracket mTokens) = Ok st
      /\ lx_mTokens st = mTokens ++ lexed_object_tail dm prev m.
Proof.
  induction m as [| [k sc] m IH]; intros prev fuel index mTokens Hm Hi Hfrom Hfuel.
  - cbn [object_tail] in *. unfold after in Hfrom. cbn [lexed_object_tail].
    destruct fuel as [| fuel]; [ cbn in Hfuel; lia | ].
    destruct (is_integer prev).
    + cbn [list_eqb] in Hfrom. rewrite Z.eqb_refl in Hfrom. cbn [andb] in Hfrom.
      cbn [Tokenization_loop]. rewrite (from_nil _ _ Hi Hfrom).
      eexists. split; [ reflexivity | ]. cbn [lx_mTokens in_root].
      symmetry. apply app_nil_r.
    + destruct fuel as [| fuel]; [ cbn in Hfuel; lia | ].
      cbn [Tokenization_loop].
      destruct (Tokenization_body_close dm LeftCurlyBracket (ch "}") s index []
                  mTokens (or_intror (conj eq_refl eq_refl)) Hi Hfrom)
        as (st & Hbody & Htok).
      read_char Hfrom Hat Hsz. rewrite Hsz, Hbody. cbn [bind].
      rewrite (from_nil s (index + 1) ltac:(lia) Hfrom).
      exists st. split; [ reflexivity | exact Htok ].
  - inversion Hm as [| ? ? [Hk Hsc] Hm']; subst. cbn [fst snd] in Hk, Hsc.
    assert (Hafter : after [ch "}"] prev (object_tail ((k, sc) :: m))
                     = ch "," :: key_text k
                         ++ ch ":" :: text_of sc ++ object_tail m).
    { unfold after. cbn [object_tail list_eqb fst snd].
      change (ch "," =? ch "}") with false. cbn [andb].
      destruct (is_integer prev); reflexivity. }
    rewrite Hafter in Hfrom.
    cbn [object_tail length fst snd] in Hfuel.
    rewrite !length_app in Hfuel. cbn [length] in Hfuel. rewrite length_app in Hfuel.
    destruct fuel as [| [| fuel]]; try lia.
    cbn [Tokenization_loop].
    rewrite (Tokenization_body_object_comma dm k s index _ mTokens Hk Hi Hfrom).
    read_char Hfrom Hat Hsz. rewrite Hsz. cbn [bind].
    pose proof (from_app (key_text k) s (index + 1) _ ltac:(lia) Hfrom) as Hcolon.
    replace (index + 1 + size (key_text k)) with (index + size (key_text k) + 1)
      in Hcolon by lia.
    pose proof (from_cons _ _ _ _ Hcolon ltac:(unfold size; lia)) as (_ & Hsz' & _).
    rewrite Hsz'.
    destruct (Tokenization_loop_value sc m fuel (index + size (key_text k) + 1)
                (mTokens ++ [structural Comma; name_token k]) Hsc
                ltac:(unfold size; lia) Hcolon) as [Hstep Hnext].
    cbn [Tokenization_loop] in Hstep. rewrite Hsz' in Hstep. rewrite Hstep.
    destruct (IH sc fuel
                (index + size (key_text k) + 1 + size (text_of sc)
                 + size (taken sc (object_tail m)) + 1)
                (((mTokens ++ [structural Comma; name_token k])
                    ++ [structural Colon; token_of dm sc])) Hm')
      as (st & Hloop & Htok); [ unfold size; lia | exact Hnext | lia | ].
    exists st. split; [ exact Hloop | ].
    rewrite Htok. cbn [lexed_object_tail fst snd]. rewrite <- !app_assoc. reflexivity.
Qed.

End object_lexer.

(** The text of a flat object with a first entry, and the tokens the
    lexer makes of it. *)
Definition object_text (k : list Z) (sc : scalar) (m : list (list Z * scalar))
  : list Z :=
  ch "{" :: key_text k ++ ch ":" :: text_of sc ++ object_tail m.

Definition object_lexed (dm : DataModel) (k : list Z) (sc : scalar)
    (m : list (list Z * scalar)) : list havJSONTokenValue :=
  structural LeftCurlyBracket :: name_token k :: structural Colon
    :: token_of dm sc :: lexed_object_tail dm sc m.

Lemma Tokenization_object :
  forall (dm : DataModel) (k : list Z) (sc : scalar) (m : list (list Z * scalar)),
    plain_string k = true ->
    valid_scalar sc ->
    Forall valid_entry m ->
    Tokenization dm (object_text k sc m) = Ok (object_lexed dm k sc m).
Proof.
  intros dm k sc m Hk Hsc Hm. unfold Tokenization.
  set (s := object_text k sc m).
  assert (Hfrom : from 0 s
                  = ch "{" :: key_text k ++ ch ":" :: text_of sc ++ object_tail m)
    by reflexivity.
  assert (Hlen : length s
                 = S (length (key_text k)
                      + S (length (text_of sc) + length (object_tail m)))).
  { unfold s, object_text. cbn [length]. rewrite length_app. cbn [length].
    rewrite length_app. reflexivity. }
  destruct (length s) as [| fuel] eqn:Efuel; [ discriminate | ].
  cbn [Tokenization_loop].
  rewrite (Tokenization_body_object_open dm k s 0 _ Hk ltac:(lia) Hfrom).
  read_char Hfrom Hat Hsz. rewrite Hsz. cbn [bind].
  pose proof (from_app (key_text k) s (0 + 1) _ ltac:(lia) Hfrom) as Hcolon.
  replace (0 + 1 + size (key_text k)) with (0 + size (key_text k) + 1)
    in Hcolon by lia.
  pose proof (from_cons _ _ _ _ Hcolon ltac:(unfold size; lia)) as (_ & Hsz' & _).
  rewrite Hsz'.
  destruct (Tokenization_loop_value dm s sc m fuel (0 + size (key_text k) + 1)
              [structural LeftCurlyBracket; name_token k] Hsc
              ltac:(unfold size; lia) Hcolon) as [Hstep Hnext].
  cbn [Tokenization_loop] in Hstep. rewrite Hsz' in Hstep. rewrite Hstep.
  destruct (Tokenization_loop_object dm s m sc fuel
              (0 + size (key_text k) + 1 + size (text_of sc)
               + size (taken sc (object_tail m)) + 1)
              ([structural LeftCurlyBracket; name_token k]
                 ++ [structural Colon; token_of dm sc]) Hm)
    as (st & Hloop & Htok); [ unfold size; lia | exact Hnext | lia | ].
  rewrite Hloop. cbn [bind]. rewrite Htok. reflexivity.
Qed.

(** *** The builder on the tokens of a flat object *)

Lemma sorted_before :
  forall (A : Type) (R : A -> A -> Prop) (a : list A) (x : A) (b : list A),
    StronglySorted R (a ++ x :: b) -> Forall (fun y => R y x) a.
Proof.
  intros A R a x b. induction a as [| y a IH]; intros H; [ constructor | ].
  cbn [app] in H. inversion H as [| ? ? Hs Hall]; subst.
  constructor; [ | apply IH; exact Hs ].
  apply Forall_app in Hall. destruct Hall as [_ Hall].
  inversion Hall; assumption.
Qed.

(** An entry whose key comes after all the keys of the map is inserted
    at its end. *)
Lemma map_insert_last :
  forall (V : Type) (k : list Z) (v : V) (acc : list (list Z * V)),
    Forall (fun e => key_lt (fst e) k) acc ->
    map_insert k v acc = acc ++ [(k, v)].
Proof.
  intros V k v acc H. induction H as [| [k0 v0] acc Hk _ IH]; [ reflexivity | ].
  cbn [map_insert app]. cbn [fst] in Hk. unfold key_lt in Hk.
  rewrite string_compare_antisym, Hk. cbn [CompOpp]. rewrite IH. reflexivity.
Qed.

(** The entries of the object: the keys with the nodes of the scalars. *)
Definition entries_of (dm : DataModel) (m : list (list Z * scalar))
  : list (list Z * havJSONData) :=
  map (fun e => (fst e, node_of dm (snd e))) m.

Section object_builder.

Variable dm : DataModel.

Lemma ParseJSONContents_body_object_pair :
  forall (k : list Z) (token : havJSONTokenValue) (value : havJSONData)
         (rest : list havJSONTokenValue) (acc : list (list Z * havJSONData)),
    is_value_token (mToken token) = true ->
    make_value dm token = Ok value ->
    ParseJSONContents_body dm
      (mkBuilderState (name_token k :: structural Colon :: token :: rest) [[]]
         (Some (Data DT_Object (V_map acc))))
    = Ok (Some (mkBuilderState rest [[]]
                  (Some (Data DT_Object (V_map (map_insert k value acc)))))).
Proof.
  intros k [t v] value rest acc Ht Hm.
  destruct t; try discriminate Ht;
    cbn -[make_value map_insert]; rewrite Hm; reflexivity.
Qed.

Lemma ParseJSONContents_body_object_open :
  forall (k : list Z) (token : havJSONTokenValue) (value : havJSONData)
         (rest : list havJSONTokenValue),
    is_value_token (mToken token) = true ->
    make_value dm token = Ok value ->
    ParseJSONContents_body dm
      (mkBuilderState
         (structural LeftCurlyBracket :: name_token k :: structural Colon
            :: token :: rest) [] None)
    = Ok (Some (mkBuilderState rest [[]]
                  (Some (Data DT_Object (V_map [(k, value)]))))).
Proof.
  intros k [t v] value rest Ht Hm.
  destruct t; try discriminate Ht;
    cbn -[make_value map_insert]; rewrite Hm; reflexivity.
Qed.

(** The loop of the builder, after an entry of the root object. *)
Lemma ParseJSONContents_loop_object :
  forall (m : list (list Z * scalar)) (prev : scalar) (fuel : nat)
         (acc : list (list Z * havJSONData)),
    Forall valid_entry m ->
    sorted_keys (acc ++ entries_of dm m) ->
    (2 * length m + 1 < fuel)%nat ->
    exists st : BuilderState,
      ParseJSONContents_loop dm fuel
        (mkBuilderState (lexed_object_tail dm prev m) [[]]
           (Some (Data DT_Object (V_map acc))))
      = Ok (Some st)
      /\ rootNode st = Some (Data DT_Object (V_map (acc ++ entries_of dm m))).
Proof.
  induction m as [| [k sc] m IH]; intros prev fuel acc Hm Hsorted Hfuel.
  - cbn [lexed_object_tail entries_of map]. rewrite app_nil_r.
    destruct fuel as [| [| fuel]]; try (cbn in Hfuel; lia).
    destruct (is_integer prev).
    + eexists. split; reflexivity.
    + eexists. split; reflexivity.
  - inversion Hm as [| ? ? [Hk Hsc] Hm']; subst. cbn [fst snd] in Hk, Hsc.
    destruct fuel as [| [| fuel]]; try (cbn in Hfuel; lia).
    cbn [lexed_object_tail fst snd].
    cbn [ParseJSONContents_loop b_mTokens].
    rewrite ParseJSONContents_body_comma. cbn [bind b_mTokens].
    unfold name_token at 1.
    rewrite (ParseJSONContents_body_object_pair k (token_of dm sc) (node_of dm sc)
               _ acc (token_of_value dm sc) (make_value_scalar dm sc Hsc)).
    cbn [bind].
    assert (Hlast : map_insert k (node_of dm sc) acc = acc ++ [(k, node_of dm sc)]).
    { apply map_insert_last. unfold sorted_keys in Hsorted.
      cbn [entries_of map fst snd] in Hsorted. rewrite map_app in Hsorted.
      cbn [map fst] in Hsorted. apply sorted_before in Hsorted.
      apply Forall_map in Hsorted. exact Hsorted. }
    rewrite Hlast.
    destruct (IH sc fuel (acc ++ [(k, node_of dm sc)]) Hm') as (st & Hloop & Hroot).
    { rewrite <- app_assoc. exact Hsorted. }
    { cbn [length] in Hfuel. lia. }
    exists st. split; [ exact Hloop | ].
    rewrite Hroot. rewrite <- app_assoc. reflexivity.
Qed.

Lemma lexed_object_tail_length :
  forall (prev : scalar) (m : list (list Z * scalar)),
    (2 * length m <= length (lexed_object_tail dm prev m))%nat.
Proof.
  intros prev m. revert prev.
  induction m as [| e m IH]; intros prev; cbn [lexed_object_tail length]; [ lia | ].
  specialize (IH (snd e)). lia.
Qed.

(** The builder makes of the tokens of a flat object the object of its
    entries. *)
Lemma ParseJSONContents_object :
  forall (k : list Z) (sc : scalar) (m : list (list Z * scalar)),
    valid_scalar sc ->
    Forall valid_entry m ->
    sorted_keys (entries_of dm ((k, sc) :: m)) ->
    ParseJSONContents dm (object_lexed dm k sc m)
    = Ok (Some (Data DT_Object (V_map (entries_of dm ((k, sc) :: m))))).
Proof.
  intros k sc m Hsc Hm Hsorted. unfold ParseJSONContents, object_lexed.
  cbn [mToken structural is_left havJSONToken_eqb orb negb].
  cbn [ParseJSONContents_loop b_mTokens].
  rewrite (ParseJSONContents_body_object_open k (token_of dm sc) (node_of dm sc) _
             (token_of_value dm sc) (make_value_scalar dm sc Hsc)).
  cbn [bind].
  destruct (ParseJSONContents_loop_object m sc
              (length (structural LeftCurlyBracket :: name_token k
                         :: structural Colon :: token_of dm sc
                         :: lexed_object_tail dm sc m))
              [(k, node_of dm sc)] Hm Hsorted)
    as (st & Hloop & Hroot).
  - cbn [length]. pose proof (lexed_object_tail_length sc m). lia.
  - rewrite Hloop. cbn [bind]. rewrite Hroot. reflexivity.
Qed.

End object_builder.

(** *** The writer on a flat object *)

Fixpoint written_object_tail (m : list (list Z * havJSONData))
  : list havJSONTokenValue :=
  match m with
  | [] => [structural RightCurlyBracket]
  | e :: m' =>
      structural Comma :: name_token (fst e) :: structural Colon
        :: written_token (snd e) :: written_object_tail m'
  end.

(** The entries [m] have the keys of [ms], and their values stand for
    the scalars of [ms]. *)
Definition entries_stand_for (m : list (list Z * havJSONData))
    (ms : list (list Z * scalar)) : Prop :=
  map (fun e => (fst e, scalar_of (snd e))) m
  = map (fun e => (fst e, Some (snd e))) ms.

Lemma entries_stand_for_cons :
  forall (k k' : list Z) (v : havJSONData) (sc : scalar)
         (m : list (list Z * havJSONData)) (ms : list (list Z * scalar)),
    entries_stand_for ((k, v) :: m) ((k', sc) :: ms) ->
    k = k' /\ scalar_of v = Some sc /\ entries_stand_for m ms.
Proof.
  intros k k' v sc m ms H. unfold entries_stand_for in *. cbn [map fst snd] in H.
  injection H as H1 H2 H3. repeat split; assumption.
Qed.

Lemma entries_stand_for_keys :
  forall (m : list (list Z * havJSONData)) (ms : list (list Z * scalar)),
    entries_stand_for m ms -> map fst m = map fst ms.
Proof.
  intros m ms H. unfold entries_stand_for in H.
  apply (f_equal (map fst)) in H. rewrite !map_map in H. exact H.
Qed.

Lemma TokenizeObject_from_values :
  forall (m : list (list Z * havJSONData)) (ms : list (list Z * scalar))
         (tokens : list havJSONTokenValue),
    entries_stand_for m ms ->
    TokenizeObject_from m false tokens = Ok (tokens ++ written_object_tail m).
Proof.
  induction m as [| [k v] m IH]; intros ms tokens H; [ reflexivity | ].
  destruct ms as [| [k' sc] ms]; [ discriminate H | ].
  apply entries_stand_for_cons in H. destruct H as (_ & Hv & Hm).
  destruct (written_token_spec v sc Hv) as (Htok & _ & _).
  cbn [TokenizeObject_from]. rewrite Htok. cbn [bind].
  rewrite (IH ms _ Hm).
  unfold push_back, name_token. cbn [written_object_tail fst snd].
  rewrite <- !app_assoc. reflexivity.
Qed.

Lemma ConvertJSONToString_loop_name :
  forall (k : list Z) (rest : list havJSONTokenValue) (types : list havJSONDataType)
         (acc : list Z),
    plain_string k = true ->
    ConvertJSONToString_loop (name_token k :: rest) types acc
    = ConvertJSONToString_loop rest types (acc ++ key_text k).
Proof.
  intros k rest types acc Hk. cbn [ConvertJSONToString_loop].
  unfold name_token, token_text.
  cbn [mToken mValue is_right is_value_token havJSONToken_eqb negb andb orb value_ bind].
  rewrite (ConvertToEscapedString_plain k Hk). reflexivity.
Qed.

Lemma ConvertJSONToString_loop_colon :
  forall (rest : list havJSONTokenValue) (types : list havJSONDataType) (acc : list Z),
    ConvertJSONToString_loop (structural Colon :: rest) types acc
    = ConvertJSONToString_loop rest types (acc ++ [ch ":"]).
Proof. reflexivity. Qed.

Lemma ConvertJSONToString_loop_object_tail :
  forall (m : list (list Z * havJSONData)) (ms : list (list Z * scalar))
         (kind : havJSONDataType) (acc : list Z),
    entries_stand_for m ms ->
    Forall valid_entry ms ->
    ConvertJSONToString_loop (written_object_tail m) [kind] acc
    = Ok (acc ++ object_tail ms).
Proof.
  induction m as [| [k v] m IH]; intros ms kind acc H Hms.
  - destruct ms; [ reflexivity | discriminate H ].
  - destruct ms as [| [k' sc] ms]; [ discriminate H | ].
    apply entries_stand_for_cons in H. destruct H as (<- & Hv & Hm).
    inversion Hms as [| ? ? [Hk Hsc] Hms']; subst. cbn [fst snd] in Hk, Hsc.
    cbn [written_object_tail fst snd].
    rewrite ConvertJSONToString_loop_comma.
    rewrite (ConvertJSONToString_loop_name k _ _ _ Hk).
    rewrite ConvertJSONToString_loop_colon.
    rewrite (ConvertJSONToString_loop_scalar v sc _ _ _ Hv Hsc).
    rewrite (IH ms kind _ Hm Hms').
    cbn [object_tail fst snd]. rewrite <- !app_assoc. reflexivity.
Qed.

(** The compact text of a flat object. *)
Lemma ConvertJSONToString_object :
  forall (k : list Z) (v : havJSONData) (m : list (list Z * havJSONData))
         (sc : scalar) (ms : list (list Z * scalar)),
    entries_stand_for ((k, v) :: m) ((k, sc) :: ms) ->
    plain_string k = true ->
    valid_scalar sc ->
    Forall valid_entry ms ->
    ConvertJSONToString (Data DT_Object (V_map ((k, v) :: m)))
    = Ok (Some (object_text k sc ms)).
Proof.
  intros k v m sc ms H Hk Hsc Hms.
  apply entries_stand_for_cons in H. destruct H as (_ & Hv & Hm).
  destruct (written_token_spec v sc Hv) as (Htok & _ & _).
  unfold ConvertJSONToString, Tokenization_value.
  cbn [getType getValue]. unfold TokenizeObject.
  cbn [TokenizeObject_from]. rewrite Htok. cbn [bind].
  rewrite (TokenizeObject_from_values m ms _ Hm). cbn [bind].
  unfold push_back.
  cbn [app structural mToken is_left havJSONToken_eqb orb negb].
  fold (structural LeftCurlyBracket). fold (structural Colon). fold (name_token k).
  rewrite ConvertJSONToString_loop_curly.
  rewrite (ConvertJSONToString_loop_name k _ _ _ Hk).
  rewrite ConvertJSONToString_loop_colon.
  rewrite (ConvertJSONToString_loop_scalar v sc _ _ _ Hv Hsc).
  rewrite (ConvertJSONToString_loop_object_tail m ms _ _ Hm Hms).
  cbn [bind]. unfold object_text. rewrite <- !app_assoc. reflexivity.
Qed.

(** A flat object goes through the text and comes back with its integers
    in the kinds the lexer gives them. *)
Lemma object_round_trip :
  forall (dm : DataModel) (k : list Z) (v : havJSONData)
         (m : list (list Z * havJSONData)) (sc : scalar)
         (ms : list (list Z * scalar)),
    entries_stand_for ((k, v) :: m) ((k, sc) :: ms) ->
    plain_string k = true ->
    valid_scalar sc ->
    Forall valid_entry ms ->
    sorted_keys ((k, v) :: m) ->
    ConvertJSONToString (Data DT_Object (V_map ((k, v) :: m)))
    = Ok (Some (object_text k sc ms))
    /\ ParseContent dm (object_text k sc ms)
       = Ok (true, Data DT_Object (V_map (entries_of dm ((k, sc) :: ms)))).
Proof.
  intros dm k v m sc ms H Hk Hsc Hms Hsorted.
  split; [ apply (ConvertJSONToString_object k v m sc ms); assumption | ].
  assert (Hsorted' : sorted_keys (entries_of dm ((k, sc) :: ms))).
  { unfold sorted_keys in *. rewrite (entries_stand_for_keys _ _ H) in Hsorted.
    unfold entries_of. rewrite map_map. exact Hsorted. }
  unfold ParseContent. rewrite (Tokenization_object dm k sc ms Hk Hsc Hms). cbn [bind].
  unfold object_lexed at 1.
  rewrite (ParseJSONContents_object dm k sc ms Hsc Hms Hsorted'). reflexivity.
Qed.

(** *** Flat values *)

Definition valid_scalarb (sc : scalar) : bool :=
  match sc with
  | Sc_integer x => (- 2 ^ 63 <=? x) && (x <=? 2 ^ 64 - 1)
  | Sc_string s => plain_string s
  | Sc_null | Sc_boolean _ => true
  end.

(** The scalar values of the round trip: null, a boolean, a plain string
    or an integer of any kind from [INT64_MIN] to [UINT64_MAX]. *)
Definition plain_scalar (v : havJSONData) : bool :=
  match scalar_of v with
  | Some sc => valid_scalarb sc
  | None => false
  end.

(** A flat value: an array of scalars that is not empty, or an object
    with plain keys and scalar values. *)
Definition flat (v : havJSONData) : Prop :=
  match getType v, getValue v with
  | DT_Array, V_vector l =>
      l <> [] /\ Forall (fun x => plain_scalar x = true) l
  | DT_Object, V_map m =>
      sorted_keys m
      /\ Forall (fun e => plain_string (fst e) = true
                          /\ plain_scalar (snd e) = true) m
  | _, _ => False
  end.

(** The value with every integer of a flat container in the kind the
    lexer gives its text. *)
Definition narrow_scalar (dm : DataModel) (v : havJSONData) : havJSONData :=
  match scalar_of v with
  | Some sc => node_of dm sc
  | None => v
  end.

Definition narrow (dm : DataModel) (v : havJSONData) : havJSONData :=
  match v with
  | Data t (V_vector l) => Data t (V_vector (map (narrow_scalar dm) l))
  | Data t (V_map m) =>
      Data t (V_map (map (fun e => (fst e, narrow_scalar dm (snd e))) m))
  | _ => v
  end.




Lemma valid_scalarb_valid :
  forall sc : scalar, valid_scalarb sc = true -> valid_scalar sc.
Proof.
  intros [| b | x | s] H; cbn [valid_scalarb valid_scalar] in *; try exact I.
  - apply andb_prop in H. destruct H as [H1 H2].
    apply Z.leb_le in H1. apply Z.leb_le in H2. exact (conj H1 H2).
  - exact H.
Qed.

Lemma plain_scalar_valid :
  forall v : havJSONData,
    plain_scalar v = true ->
    exists sc : scalar, scalar_of v = Some sc /\ valid_scalar sc.
Proof.
  intros v H. unfold plain_scalar in H.
  destruct (scalar_of v) as [sc |]; [ | discriminate H ].
  exists sc. split; [ reflexivity | apply valid_scalarb_valid; exact H ].
Qed.


Lemma plain_scalars_stand :
  forall (dm : DataModel) (vs : list havJSONData),
    Forall (fun x => plain_scalar x = true) vs ->
    exists l : list scalar,
      stand_for vs l /\ Forall valid_scalar l
      /\ map (narrow_scalar dm) vs = map (node_of dm) l.
Proof.
  intros dm vs H. induction H as [| v vs Hv _ (l & Hl & Hvalid & Hn)].
  - exists []. repeat split. constructor.
  - destruct (plain_scalar_valid v Hv) as (sc & Hsc & Hvsc).
    exists (sc :: l). repeat split.
    + unfold stand_for in *. cbn [map]. rewrite Hsc, Hl. reflexivity.
    + constructor; assumption.
    + cbn [map]. rewrite Hn. unfold narrow_scalar. rewrite Hsc. reflexivity.
Qed.

Lemma plain_entries_stand :
  forall (dm : DataModel) (m : list (list Z * havJSONData)),
    Forall (fun e => plain_string (fst e) = true /\ plain_scalar (snd e) = true) m ->
    exists ms : list (list Z * scalar),
      entries_stand_for m ms /\ Forall valid_entry ms
      /\ map (fun e => (fst e, narrow_scalar dm (snd e))) m = entries_of dm ms.
Proof.
  intros dm m H. induction H as [| [k v] m [Hk Hv] _ (ms & Hms & Hvalid & Hn)].
  - exists []. repeat split. constructor.
  - cbn [fst snd] in Hk, Hv.
    destruct (plain_scalar_valid v Hv) as (sc & Hsc & Hvsc).
    exists ((k, sc) :: ms). repeat split.
    + unfold entries_stand_for in *. cbn [map fst snd]. rewrite Hsc, Hms. reflexivity.
    + constructor; [ split; assumption | exact Hvalid ].
    + cbn [map fst snd entries_of]. fold (entries_of dm ms). rewrite Hn.
      unfold narrow_scalar. rewrite Hsc. reflexivity.
Qed.



(** The object [a: 1, b: -2, c: x, d: true, e: null]. *)
Definition flat_sample : havJSONData :=
  Data DT_Object
    (V_map [(str "a", Data DT_UInt (V_uint 1));
            (str "b", Data DT_Int (V_int (- 2)));
            (str "c", Data DT_String (V_string (str "x")));
            (str "d", Data DT_Boolean (V_bool true));
            (str "e", Data DT_Null (V_string (str "null")))]).


(** The object with the signed zero is flat, and comes back as the object
    with the unsigned zero. *)
Example signed_zero_is_narrowed :
  forall dm : DataModel,
    flat signed_zero /\ narrow dm signed_zero = unsigned_zero.
Proof.
  intros dm. split; [ split; repeat constructor | destruct dm; reflexivity ].
Qed.

(** Nested containers go through the text too when no number stands
    right before the bracket that closes a nested container. *)
Example nested_round_trip :
  forall dm : DataModel,
    exists v : havJSONData,
      ParseContent dm
        (str "{" ++ [DQ] ++ str "a" ++ [DQ] ++ str ":[1,[" ++ [DQ] ++ str "x"
           ++ [DQ] ++ str "],{" ++ [DQ] ++ str "b" ++ [DQ] ++ str ":true}],"
           ++ [DQ] ++ str "c" ++ [DQ] ++ str ":2}")
      = Ok (true, v)
      /\ (exists text : list Z,
             ConvertJSONToString v = Ok (Some text)
             /\ ParseContent dm text = Ok (true, v)).
Proof.
  intros dm. eexists. split; [ destruct dm; vm_compute; reflexivity | ].
  eexists. split; [ vm_compute; reflexivity | ].
  destruct dm; vm_compute; reflexivity.
Qed.

(** ** More properties

    *** The array methods *)

Lemma nth_error_insert_at :
  forall (A : Type) (index : Z) (x : A) (v : list A),
    0 <= index <= Z.of_nat (length v) ->
    nth_error (insert_at index x v) (Z.to_nat index) = Some x.
Proof.
  intros A index x v H. unfold insert_at.
  rewrite nth_error_app2; rewrite length_firstn; [ | lia ].
  replace (Z.to_nat index - Nat.min (Z.to_nat index) (length v))%nat with O by lia.
  reflexivity.
Qed.

Lemma erase_insert_at :
  forall (A : Type) (index : Z) (x : A) (v : list A),
    0 <= index <= Z.of_nat (length v) ->
    erase_at index (insert_at index x v) = v.
Proof.
  intros A index x v H. unfold erase_at, insert_at.
  assert (Hlen : length (firstn (Z.to_nat index) v) = Z.to_nat index)
    by (rewrite length_firstn; lia).
  rewrite firstn_app, Hlen, Nat.sub_diag, firstn_O, app_nil_r.
  rewrite firstn_firstn, Nat.min_id.
  rewrite skipn_app, Hlen.
  replace (S (Z.to_nat index) - Z.to_nat index)%nat with 1%nat by lia.
  rewrite (skipn_all2 (firstn _ v)) by lia.
  cbn [app skipn]. apply firstn_skipn.
Qed.

Lemma length_insert_at :
  forall (A : Type) (index : Z) (x : A) (v : list A),
    length (insert_at index x v) = S (length v).
Proof.
  intros A index x v. unfold insert_at. rewrite length_app. cbn [length].
  rewrite <- (firstn_skipn (Z.to_nat index) v) at 3. rewrite length_app. lia.
Qed.

(** X1: on an array of [n] elements, [insert (index, x)] with
    [0 <= index <= n] returns normally; the array then has [n + 1]
    elements, [at (index)] is [x], and [remove (index)] gives the array
    back as it was. *)
Theorem array_insert_at_remove :
  forall (v : list havJSONData) (index : Z) (x : havJSONData),
    0 <= index <= Z.of_nat (length v) ->
    let self := Data DT_Array (V_vector v) in
    let self' := snd (array_insert index x self) in
    fst (array_insert index x self) = Ok tt
    /\ arraySize self' = Ok (Z.of_nat (length v) + 1)
    /\ at_index index self' = Ok x
    /\ array_remove index self' = (Ok tt, self).
Proof.
  intros v index x H self self'. subst self self'.
  unfold array_insert, update_array. cbn [getType getValue].
  assert (Hin : ((0 <=? index) && (index <=? Z.of_nat (length v))) = true).
  { apply andb_true_intro. split; apply Z.leb_le; lia. }
  rewrite Hin. cbn [fst snd].
  repeat split.
  - unfold arraySize, with_array. cbn [getType getValue].
    rewrite length_insert_at. f_equal. lia.
  - unfold at_index, with_array. cbn [getType getValue].
    rewrite length_insert_at, (nth_error_insert_at _ index x v H).
    assert (Hb : ((0 <=? index) && (index <? Z.of_nat (S (length v)))) = true).
    { apply andb_true_intro. split; [ apply Z.leb_le | apply Z.ltb_lt ]; lia. }
    rewrite Hb. reflexivity.
  - unfold array_remove, update_array. cbn [getType getValue].
    rewrite length_insert_at.
    assert (Hb : ((0 <=? index) && (index <? Z.of_nat (S (length v)))) = true).
    { apply andb_true_intro. split; [ apply Z.leb_le | apply Z.ltb_lt ]; lia. }
    rewrite Hb. rewrite (erase_insert_at _ index x v H). reflexivity.
Qed.

Lemma array_insert_at_remove_witness :
  let v := [havJSONData_of_type DT_Null; havJSONData_of_type DT_Boolean] in
  let self := Data DT_Array (V_vector v) in
  let self' := snd (array_insert 1 (havJSONData_of_type DT_Int) self) in
  fst (array_insert 1 (havJSONData_of_type DT_Int) self) = Ok tt
  /\ arraySize self' = Ok (Z.of_nat (length v) + 1)
  /\ at_index 1 self' = Ok (havJSONData_of_type DT_Int)
  /\ array_remove 1 self' = (Ok tt, self).
Proof.
  apply (array_insert_at_remove
           [havJSONData_of_type DT_Null; havJSONData_of_type DT_Boolean] 1
           (havJSONData_of_type DT_Int)).
  cbn. lia.
Defined.

Lemma last_app_one :
  forall (A : Type) (v : list A) (x d : A), last (v ++ [x]) d = x.
Proof.
  intros A v x d. induction v as [| y v IH]; [ reflexivity | ].
  cbn [app last]. destruct (v ++ [x]) eqn:E; [ | exact IH ].
  destruct v; discriminate E.
Qed.

(** X2: the two ends of an array.  After [push_back (x)], [back ()] is
    [x], the elements before it are where they were, and [pop_back ()]
    gives the array back; after [push_front (x)], [front ()] is [x] and
    [pop_front ()] gives the array back. *)
Theorem array_push_pop :
  forall (v : list havJSONData) (x : havJSONData),
    let self := Data DT_Array (V_vector v) in
    let pushed := snd (array_push_back x self) in
    let fronted := snd (array_push_front x self) in
    array_push_back x self = (Ok tt, Data DT_Array (V_vector (v ++ [x])))
    /\ array_back pushed = Ok x
    /\ at_index (Z.of_nat (length v)) pushed = Ok x
    /\ (forall (i : nat) (y : havJSONData),
           nth_error v i = Some y -> at_index (Z.of_nat i) pushed = Ok y)
    /\ array_pop_back pushed = (Ok tt, self)
    /\ array_front fronted = Ok x
    /\ array_pop_front fronted = (Ok tt, self).
Proof.
  intros v x self pushed fronted. subst self pushed fronted.
  unfold array_push_back, array_push_front, update_array.
  cbn [getType getValue fst snd].
  repeat split.
  - unfold array_back, with_array. cbn [getType getValue].
    destruct (v ++ [x]) as [| item rest] eqn:E; [ destruct v; discriminate E | ].
    rewrite <- (last_app_one _ v x item). rewrite E. destruct rest; reflexivity.
  - unfold at_index, with_array. cbn [getType getValue].
    rewrite length_app. cbn [length]. rewrite Nat2Z.id.
    rewrite nth_error_app2 by lia. rewrite Nat.sub_diag. cbn [nth_error].
    assert (Hb : ((0 <=? Z.of_nat (length v))
                  && (Z.of_nat (length v) <? Z.of_nat (length v + 1))) = true).
    { apply andb_true_intro. split; [ apply Z.leb_le | apply Z.ltb_lt ]; lia. }
    rewrite Hb. reflexivity.
  - intros i y Hy. unfold at_index, with_array. cbn [getType getValue].
    assert (Hi : (i < length v)%nat) by (apply nth_error_Some; congruence).
    rewrite length_app. cbn [length]. rewrite Nat2Z.id.
    rewrite nth_error_app1 by exact Hi. rewrite Hy.
    assert (Hb : ((0 <=? Z.of_nat i) && (Z.of_nat i <? Z.of_nat (length v + 1))) = true).
    { apply andb_true_intro. split; [ apply Z.leb_le | apply Z.ltb_lt ]; lia. }
    rewrite Hb. reflexivity.
  - unfold array_pop_back, update_array. cbn [getType getValue].
    destruct (v ++ [x]) as [| item rest] eqn:E; [ destruct v; discriminate E | ].
    rewrite <- E. rewrite removelast_last. reflexivity.
Qed.

(** X3: [at (index)] checks its index and [operator[] (index)] does not.
    On an array of [n] elements [at] returns the element for
    [0 <= index < n] and throws [std::out_of_range] for any other index,
    a negative one included; [operator[]] returns the same element inside
    that range and is undefined outside it.  [front], [back], [pop_back]
    and [pop_front] are undefined on the empty array. *)
Theorem array_bounds :
  forall (v : list havJSONData) (index : Z),
    let self := Data DT_Array (V_vector v) in
    (0 <= index < Z.of_nat (length v) ->
     exists item : havJSONData,
       nth_error v (Z.to_nat index) = Some item
       /\ at_index index self = Ok item
       /\ array_index index self = Ok item)
    /\ (~ 0 <= index < Z.of_nat (length v) ->
        at_index index self = Throw out_of_range
        /\ array_index index self
           = Throw (undefined_behaviour "vector index out of range")
        /\ fst (array_remove index self)
           = Throw (undefined_behaviour "iterator past the end of the vector")
        /\ snd (array_remove index self) = self)
    /\ (v = [] ->
        array_front self = Throw (undefined_behaviour "front() of an empty vector")
        /\ array_back self = Throw (undefined_behaviour "back() of an empty vector")
        /\ fst (array_pop_back self)
           = Throw (undefined_behaviour "pop_back() of an empty vector")
        /\ fst (array_pop_front self)
           = Throw (undefined_behaviour "erase(end()) of a vector")).
Proof.
  intros v index self. subst self.
  unfold at_index, array_index, array_remove, update_array, with_array.
  cbn [getType getValue].
  split; [ | split ].
  - intros H.
    destruct (nth_error v (Z.to_nat index)) as [item |] eqn:E.
    + exists item.
      assert (Hb : ((0 <=? index) && (index <? Z.of_nat (length v))) = true).
      { apply andb_true_intro. split; [ apply Z.leb_le | apply Z.ltb_lt ]; lia. }
      rewrite Hb. destruct (Z.leb_spec 0 index); [ | lia ]. repeat split.
    + apply nth_error_None in E. lia.
  - intros H.
    assert (Hb : ((0 <=? index) && (index <? Z.of_nat (length v))) = false).
    { destruct (Z.leb_spec 0 index); [ | reflexivity ].
      destruct (Z.ltb_spec index (Z.of_nat (length v))); [ lia | reflexivity ]. }
    rewrite Hb. cbn [fst snd]. repeat split.
    destruct (nth_error v (Z.to_nat index)) as [item |] eqn:E; [ | reflexivity ].
    destruct (Z.leb_spec 0 index); [ | reflexivity ].
    assert (Z.to_nat index < length v)%nat by (apply nth_error_Some; congruence).
    lia.
  - intros ->. repeat split.
Qed.

(** *** The object methods *)

Lemma string_compare_Eq_iff :
  forall a b : list Z, string_compare a b = Eq <-> a = b.
Proof.
  intros a b. split; [ apply string_compare_eq | intros ->; apply string_compare_refl ].
Qed.

Lemma map_find_insert_same :
  forall (V : Type) (k : list Z) (x : V) (m : list (list Z * V)),
    map_find k m = None -> map_find k (map_insert k x m) = Some x.
Proof.
  intros V k x m. induction m as [| [k0 v0] m IH]; intros H.
  - cbn [map_insert map_find]. rewrite string_compare_refl. reflexivity.
  - cbn [map_find] in H. cbn [map_insert].
    destruct (string_compare k k0) eqn:E; try discriminate H.
    + cbn [map_find]. rewrite string_compare_refl. reflexivity.
    + cbn [map_find]. rewrite E. apply IH. exact H.
Qed.

Lemma map_find_insert_other :
  forall (V : Type) (k k' : list Z) (x : V) (m : list (list Z * V)),
    k' <> k -> map_find k' (map_insert k x m) = map_find k' m.
Proof.
  intros V k k' x m Hne.
  assert (Hc : string_compare k' k <> Eq)
    by (intros E; apply Hne; apply string_compare_eq; exact E).
  induction m as [| [k0 v0] m IH].
  - cbn [map_insert map_find]. destruct (string_compare k' k); congruence.
  - cbn [map_insert]. destruct (string_compare k k0) eqn:E.
    + reflexivity.
    + cbn [map_find]. destruct (string_compare k' k); congruence.
    + cbn [map_find]. destruct (string_compare k' k0); try reflexivity; exact IH.
Qed.

Lemma map_find_above :
  forall (V : Type) (k : list Z) (m : list (list Z * V)),
    Forall (key_lt k) (map fst m) -> map_find k m = None.
Proof.
  intros V k m. induction m as [| [k0 v0] m IH]; intros H; [ reflexivity | ].
  cbn [map fst] in H. inversion H as [| ? ? Hk Hm]; subst.
  cbn [map_find]. unfold key_lt in Hk. rewrite Hk. apply IH. exact Hm.
Qed.

Lemma sorted_keys_inv :
  forall (V : Type) (k0 : list Z) (v0 : V) (m : list (list Z * V)),
    sorted_keys ((k0, v0) :: m) ->
    sorted_keys m /\ Forall (key_lt k0) (map fst m).
Proof.
  intros V k0 v0 m H. unfold sorted_keys in *. cbn [map fst] in H.
  inversion H; subst. split; assumption.
Qed.

Lemma map_insert_present :
  forall (V : Type) (k : list Z) (x old : V) (m : list (list Z * V)),
    sorted_keys m -> map_find k m = Some old -> map_insert k x m = m.
Proof.
  intros V k x old m. induction m as [| [k0 v0] m IH]; intros Hs H; [ discriminate H | ].
  destruct (sorted_keys_inv _ _ _ _ Hs) as [Hs' Habove].
  cbn [map_find] in H. cbn [map_insert].
  destruct (string_compare k k0) eqn:E; try reflexivity.
  - (* the key is below every key of the map: it is not in it *)
    rewrite map_find_above in H; [ discriminate H | ].
    eapply Forall_impl; [ | exact Habove ].
    intros k' Hk'. unfold key_lt in *. apply (string_compare_trans k k0 k' E Hk').
  - f_equal. apply IH; assumption.
Qed.

Lemma map_insert_length :
  forall (V : Type) (k : list Z) (x : V) (m : list (list Z * V)),
    map_find k m = None -> length (map_insert k x m) = S (length m).
Proof.
  intros V k x m. induction m as [| [k0 v0] m IH]; intros H; [ reflexivity | ].
  cbn [map_find] in H. cbn [map_insert].
  destruct (string_compare k k0) eqn:E; try discriminate H.
  - reflexivity.
  - cbn [length]. f_equal. apply IH. exact H.
Qed.

(** X4: [insert (key, x)] on an object.  When the key is not in the
    object, the entry is added: [operator[] (key)] then returns [x],
    [objectSize ()] grows by one and the other keys keep their values.
    When the key is in the object, the object is left as it was: the
    value of an existing key is not replaced.  In both cases the call
    returns normally. *)
Theorem object_insert_lookup :
  forall (m : list (list Z * havJSONData)) (key : list Z) (x : havJSONData),
    sorted_keys m ->
    let self := Data DT_Object (V_map m) in
    let self' := snd (insert key x self) in
    fst (insert key x self) = Ok tt
    /\ (contains_key key self = Ok false ->
        object_index key self' = Ok x
        /\ objectSize self' = Ok (Z.of_nat (length m) + 1))
    /\ (contains_key key self = Ok true -> self' = self)
    /\ (forall key' : list Z,
           key' <> key -> object_index key' self' = object_index key' self)
    /\ contains_key key self' = Ok true.
Proof.
  intros m key x Hs self self'. subst self self'.
  unfold insert, contains_key, object_index, objectSize.
  cbn [getType getValue fst snd].
  split; [ reflexivity | ].
  split; [ | split; [ | split ] ].
  - intros H. destruct (map_find key m) eqn:E; [ discriminate H | ].
    rewrite (map_find_insert_same _ key x m E), (map_insert_length _ key x m E).
    split; [ reflexivity | f_equal; lia ].
  - intros H. destruct (map_find key m) as [old |] eqn:E; [ | discriminate H ].
    rewrite (map_insert_present _ key x old m Hs E). reflexivity.
  - intros key' Hne. rewrite (map_find_insert_other _ key key' x m Hne). reflexivity.
  - destruct (map_find key m) as [old |] eqn:E.
    + rewrite (map_insert_present _ key x old m Hs E), E. reflexivity.
    + rewrite (map_find_insert_same _ key x m E). reflexivity.
Qed.

Lemma object_insert_lookup_witness :
  let m := [(str "a", havJSONData_of_type DT_Null)] in
  let self := Data DT_Object (V_map m) in
  let self' := snd (insert (str "b") (havJSONData_of_type DT_Int) self) in
  fst (insert (str "b") (havJSONData_of_type DT_Int) self) = Ok tt
  /\ (contains_key (str "b") self = Ok false ->
      object_index (str "b") self' = Ok (havJSONData_of_type DT_Int)
      /\ objectSize self' = Ok (Z.of_nat (length m) + 1))
  /\ (contains_key (str "b") self = Ok true -> self' = self)
  /\ (forall key' : list Z,
         key' <> str "b" -> object_index key' self' = object_index key' self)
  /\ contains_key (str "b") self' = Ok true.
Proof.
  apply (object_insert_lookup [(str "a", havJSONData_of_type DT_Null)] (str "b")
           (havJSONData_of_type DT_Int)).
  repeat constructor.
Defined.

Lemma map_find_erase_same :
  forall (V : Type) (k : list Z) (m : list (list Z * V)),
    sorted_keys m -> map_find k (map_erase k m) = None.
Proof.
  intros V k m. induction m as [| [k0 v0] m IH]; intros Hs; [ reflexivity | ].
  destruct (sorted_keys_inv _ _ _ _ Hs) as [Hs' Habove].
  cbn [map_erase]. destruct (string_compare k k0) eqn:E.
  - apply string_compare_eq in E. subst k0. apply map_find_above. exact Habove.
  - cbn [map_find]. rewrite E. apply IH. exact Hs'.
  - cbn [map_find]. rewrite E. apply IH. exact Hs'.
Qed.

Lemma map_find_erase_other :
  forall (V : Type) (k k' : list Z) (m : list (list Z * V)),
    k' <> k -> map_find k' (map_erase k m) = map_find k' m.
Proof.
  intros V k k' m Hne. induction m as [| [k0 v0] m IH]; [ reflexivity | ].
  cbn [map_erase]. destruct (string_compare k k0) eqn:E.
  - apply string_compare_eq in E. subst k0. cbn [map_find].
    destruct (string_compare k' k) eqn:E'; try reflexivity.
    apply string_compare_eq in E'. contradiction.
  - cbn [map_find]. destruct (string_compare k' k0); try reflexivity; exact IH.
  - cbn [map_find]. destruct (string_compare k' k0); try reflexivity; exact IH.
Qed.

Lemma map_erase_length :
  forall (V : Type) (k : list Z) (old : V) (m : list (list Z * V)),
    map_find k m = Some old -> S (length (map_erase k m)) = length m.
Proof.
  intros V k old m. induction m as [| [k0 v0] m IH]; intros H; [ discriminate H | ].
  cbn [map_find] in H. cbn [map_erase].
  destruct (string_compare k k0); try reflexivity;
    cbn [length]; f_equal; apply IH; exact H.
Qed.

(** X5: [erase (itr)] for the iterator of a key that is in the object.
    The call returns normally; afterwards the key is not in the object
    and [operator[] (key)] throws the runtime error of a missing key, the
    other keys keep their values, and the size has dropped by one. *)
Theorem object_erase_lookup :
  forall (m : list (list Z * havJSONData)) (key : list Z),
    sorted_keys m ->
    let self := Data DT_Object (V_map m) in
    let self' := snd (erase key self) in
    contains_key key self = Ok true ->
    fst (erase key self) = Ok tt
    /\ contains_key key self' = Ok false
    /\ object_index key self' = Throw (runtime_error "Key was not found in object!")
    /\ (forall key' : list Z,
           key' <> key -> object_index key' self' = object_index key' self)
    /\ (exists n : Z, objectSize self' = Ok n /\ objectSize self = Ok (n + 1)).
Proof.
  intros m key Hs self self'. subst self self'.
  unfold erase, contains_key, object_index, objectSize.
  cbn [getType getValue fst snd]. intros H.
  destruct (map_find key m) as [old |] eqn:E; [ | discriminate H ].
  rewrite (map_find_erase_same _ key m Hs).
  repeat split.
  - intros key' Hne. rewrite (map_find_erase_other _ key key' m Hne). reflexivity.
  - eexists. split; [ reflexivity | ].
    rewrite <- (map_erase_length _ key old m E). f_equal. lia.
Qed.

Lemma object_erase_lookup_witness :
  let m := [(str "a", havJSONData_of_type DT_Null);
            (str "b", havJSONData_of_type DT_Int)] in
  let self := Data DT_Object (V_map m) in
  let self' := snd (erase (str "a") self) in
  fst (erase (str "a") self) = Ok tt
  /\ contains_key (str "a") self' = Ok false
  /\ object_index (str "a") self' = Throw (runtime_error "Key was not found in object!")
  /\ (forall key' : list Z,
         key' <> str "a" -> object_index key' self' = object_index key' self)
  /\ (exists n : Z, objectSize self' = Ok n /\ objectSize self = Ok (n + 1)).
Proof.
  apply (object_erase_lookup
           [(str "a", havJSONData_of_type DT_Null);
            (str "b", havJSONData_of_type DT_Int)] (str "a")).
  - repeat constructor.
  - reflexivity.
Defined.

(** *** Conversions *)

Section conversions.

Variable dm : DataModel.
Variable ostream_double : double -> list Z.

(** The text of an integer value, of any of the six kinds, is its
    decimal text. *)
Lemma toString_integer :
  forall (self : havJSONData) (x : Z),
    scalar_of self = Some (Sc_integer x) ->
    toString ostream_double self = Ok (to_string x).
Proof.
  intros [t p] x H. unfold scalar_of in H. cbn [getType getValue] in H.
  destruct t; destruct p; try discriminate H;
    try (inversion H; subst; reflexivity).
  destruct (list_eqb s (str "null")); discriminate H.
Qed.

Lemma sto_signed_to_string_nil :
  forall (bits x : Z),
    - 10 ^ 20 < x < 10 ^ 20 ->
    sto_signed bits (to_string x) = if fits_signed bits x then Ok x else Throw out_of_range.
Proof.
  intros bits x Hx. rewrite <- (app_nil_r (to_string x)).
  apply (sto_signed_to_string bits x [] Hx I).
Qed.

Lemma sto_unsigned_to_string_nil :
  forall (bits x : Z),
    - 10 ^ 20 < x < 10 ^ 20 ->
    sto_unsigned bits (to_string x)
    = if Z.abs x <=? 2 ^ bits - 1 then Ok (x mod 2 ^ bits) else Throw out_of_range.
Proof.
  intros bits x Hx. unfold sto_unsigned.
  rewrite <- (app_nil_r (to_string x)).
  rewrite (strto_subject_to_string x [] Hx I).
  destruct (Z.leb_spec (Z.abs x) (2 ^ bits - 1)) as [Hle | Hgt]; [ | reflexivity ].
  f_equal. destruct (Z.ltb_spec x 0) as [Hneg | Hpos].
  - replace (2 ^ bits - Z.abs x) with (x + 1 * 2 ^ bits) by lia.
    rewrite Z.mod_add; [ reflexivity | lia ].
  - rewrite Z.abs_eq in * by lia. symmetry. apply Z.mod_small. lia.
Qed.

(** X6: the conversions to the signed types go through the text of the
    value and are exact.  For an integer value of any kind, [toInt ()],
    [toLong ()] and [toInt64 ()] return the value when it fits the type
    asked for and throw [std::out_of_range] when it does not.  With
    [explicitCast == true] nothing is converted: [toInt] returns the
    default for an integer value of any kind but Int. *)
Theorem signed_conversions_are_exact :
  forall (self : havJSONData) (x defaultValue : Z),
    scalar_of self = Some (Sc_integer x) ->
    - 2 ^ 63 <= x <= 2 ^ 64 - 1 ->
    toInt ostream_double false defaultValue self
    = (if fits_signed 32 x then Ok x else Throw out_of_range)
    /\ toLong dm ostream_double false defaultValue self
       = (if fits_signed (long_bits dm) x then Ok x else Throw out_of_range)
    /\ toInt64 ostream_double false defaultValue self
       = (if fits_signed 64 x then Ok x else Throw out_of_range)
    /\ (havJSONDataType_eqb (getType self) DT_Int = false ->
        toInt ostream_double true defaultValue self = Ok defaultValue).
Proof.
  intros self x defaultValue Hself Hx.
  assert (Hx' : - 10 ^ 20 < x < 10 ^ 20) by lia.
  unfold toInt, toLong, toInt64, stoi, stol, stoll. cbn [negb].
  rewrite (toString_integer self x Hself). cbn [bind].
  rewrite !sto_signed_to_string_nil by exact Hx'.
  repeat split.
  intros Ht. destruct self as [t p]. unfold scalar_of in Hself.
  cbn [getType getValue] in *.
  destruct t; destruct p; try discriminate Hself; try reflexivity.
  discriminate Ht.
Qed.

(** X7: the conversions to the unsigned types do not reject a negative
    value or, where [unsigned long] has 64 bits, a value above
    [UINT_MAX].  For an integer value [x] of any kind, [toULong ()] and
    [toUInt64 ()] return [x] modulo two to the width of the type, and
    [toUInt ()] returns [x] modulo [2^32], when the magnitude of [x] fits
    [unsigned long] (or [unsigned long long]); they throw
    [std::out_of_range] only when it does not. *)
Theorem unsigned_conversions_wrap :
  forall (self : havJSONData) (x defaultValue : Z),
    scalar_of self = Some (Sc_integer x) ->
    - 2 ^ 63 <= x <= 2 ^ 64 - 1 ->
    toUInt dm ostream_double false defaultValue self
    = (if Z.abs x <=? 2 ^ long_bits dm - 1 then Ok (x mod 2 ^ 32)
       else Throw out_of_range)
    /\ toULong dm ostream_double false defaultValue self
       = (if Z.abs x <=? 2 ^ long_bits dm - 1 then Ok (x mod 2 ^ long_bits dm)
          else Throw out_of_range)
    /\ toUInt64 ostream_double false defaultValue self = Ok (x mod 2 ^ 64).
Proof.
  intros self x defaultValue Hself Hx.
  assert (Hx' : - 10 ^ 20 < x < 10 ^ 20) by lia.
  unfold toUInt, toULong, toUInt64, stoul, stoull. cbn [negb].
  rewrite (toString_integer self x Hself). cbn [bind].
  rewrite !sto_unsigned_to_string_nil by exact Hx'.
  repeat split.
  - destruct (Z.abs x <=? 2 ^ long_bits dm - 1); [ | reflexivity ].
    cbn [bind]. unfold to_unsigned. f_equal.
    destruct dm; cbn [long_bits].
    + change (2 ^ 64) with (2 ^ 32 * 2 ^ 32).
      rewrite Z.rem_mul_r by lia.
      rewrite Z.mul_comm, Z.mod_add by lia. apply Z.mod_mod. lia.
    + apply Z.mod_mod. lia.
  - destruct (Z.leb_spec (Z.abs x) (2 ^ 64 - 1)); [ reflexivity | lia ].
Qed.

End conversions.

Lemma signed_conversions_are_exact_witness :
  toInt (fun _ => []) false 0 (Data DT_UInt (V_uint 4294967295))
  = (if fits_signed 32 4294967295 then Ok 4294967295 else Throw out_of_range)
  /\ toLong LP64 (fun _ => []) false 0 (Data DT_UInt (V_uint 4294967295))
     = (if fits_signed (long_bits LP64) 4294967295 then Ok 4294967295
        else Throw out_of_range)
  /\ toInt64 (fun _ => []) false 0 (Data DT_UInt (V_uint 4294967295))
     = (if fits_signed 64 4294967295 then Ok 4294967295 else Throw out_of_range)
  /\ (havJSONDataType_eqb (getType (Data DT_UInt (V_uint 4294967295))) DT_Int = false ->
      toInt (fun _ => []) true 0 (Data DT_UInt (V_uint 4294967295)) = Ok 0).
Proof.
  apply (signed_conversions_are_exact LP64 (fun _ => [])
           (Data DT_UInt (V_uint 4294967295)) 4294967295 0).
  - reflexivity.
  - lia.
Defined.

Lemma unsigned_conversions_wrap_witness :
  toUInt LP64 (fun _ => []) false 0 (Data DT_Int (V_int (- 1)))
  = (if Z.abs (- 1) <=? 2 ^ long_bits LP64 - 1 then Ok ((- 1) mod 2 ^ 32)
     else Throw out_of_range)
  /\ toULong LP64 (fun _ => []) false 0 (Data DT_Int (V_int (- 1)))
     = (if Z.abs (- 1) <=? 2 ^ long_bits LP64 - 1 then Ok ((- 1) mod 2 ^ long_bits LP64)
        else Throw out_of_range)
  /\ toUInt64 (fun _ => []) false 0 (Data DT_Int (V_int (- 1))) = Ok ((- 1) mod 2 ^ 64).
Proof.
  apply (unsigned_conversions_wrap LP64 (fun _ => [])
           (Data DT_Int (V_int (- 1))) (- 1) 0).
  - reflexivity.
  - lia.
Defined.
(** * Code points, and the roots and the length prefix of the writers *)

(** X8: [CodePointToString] of an [unsigned int] is empty at 0, whose byte
    terminates the character array, and from 0x110000 on, where no branch
    writes a byte; everywhere else it is the UTF-8 encoding of the code
    point, surrogates included. *)
Theorem CodePointToString_edges :
  forall codePoint : Z,
    0 <= codePoint ->
    CodePointToString codePoint
    = if (codePoint =? 0) || (0x110000 <=? codePoint) then []
      else utf8_encode codePoint.
Proof.
  intros cp Hcp.
  destruct (Z.eqb_spec cp 0) as [-> | Hne]; [ reflexivity | ].
  destruct (Z.leb_spec 0x110000 cp) as [Hbig | Hsmall]; cbn [orb].
  - unfold CodePointToString.
    destruct (Z.ltb_spec cp 0x80); [ lia | ].
    destruct (Z.ltb_spec cp 0x800); [ lia | ].
    destruct (Z.ltb_spec cp 0x10000); [ lia | ].
    destruct (Z.ltb_spec cp 0x110000); [ lia | ].
    reflexivity.
  - apply CodePointToString_utf8. lia.
Qed.

Lemma CodePointToString_edges_witness :
  CodePointToString 0xD800 = [0xED; 0xA0; 0x80]
  /\ CodePointToString 0x110000 = [].
Proof.
  split.
  - exact (CodePointToString_edges 0xD800 ltac:(lia)).
  - exact (CodePointToString_edges 0x110000 ltac:(lia)).
Defined.

(** ** The roots the writers take *)

Lemma TokenizeArray_from_first :
  forall (l : list havJSONData) (index : nat) (first : havJSONTokenValue)
         (tokens tokens' : list havJSONTokenValue),
    TokenizeArray_from l index (first :: tokens) = Ok tokens' ->
    exists rest : list havJSONTokenValue, tokens' = first :: rest.
Proof.
  intros l index first tokens tokens' H.
  assert (Hall : Forall no_top_keys l)
    by (apply Forall_forall; intros item _; apply Tokenize_item_keys).
  destruct (TokenizeArray_from_keys l Hall index (first :: tokens) tokens' H)
    as (out & -> & _).
  eexists. reflexivity.
Qed.

(** X10: the binary encoder takes object roots only.  For an array root it
    throws [BSON document must be an object!] as soon as the root is
    tokenized, whatever the array holds, and [WriteBSONFile] writes
    nothing; for a root that is no container both fail with the error of
    the tokenizer. *)
Theorem binary_writer_wants_an_object :
  forall rootArray : list havJSONData,
    let root := Data DT_Array (V_vector rootArray) in
    ConvertJSONToBSON root
    = match Tokenization_value root with
      | Ok _ => Throw (runtime_error "BSON document must be an object!")
      | Throw e => Throw e
      end
    /\ WriteBSONFile root = (ConvertJSONToBSON root)
    /\ forall (type : havJSONDataType) (value : havJSONVariant),
         type <> DT_Array -> type <> DT_Object ->
         WriteBSONFile (Data type value)
         = Throw (runtime_error "Invalid token: Expected array or object as root node!").
Proof.
  intros rootArray root.
  assert (Hconv :
    ConvertJSONToBSON root
    = match Tokenization_value root with
      | Ok _ => Throw (runtime_error "BSON document must be an object!")
      | Throw e => Throw e
      end).
  { unfold ConvertJSONToBSON, root, Tokenization_value, TokenizeArray.
    cbn [getType getValue].
    destruct (TokenizeArray_from rootArray 0 [structural LeftSquareBracket])
      as [tokens | e] eqn:E; cbn [bind]; [ | reflexivity ].
    destruct (TokenizeArray_from_first _ _ _ _ _ E) as (rest & ->).
    reflexivity. }
  split; [ exact Hconv | ]. split.
  - unfold WriteBSONFile. rewrite Hconv.
    destruct (Tokenization_value root); reflexivity.
  - intros type value Harray Hobject.
    unfold WriteBSONFile, ConvertJSONToBSON, Tokenization_value. cbn [getType].
    destruct type; try reflexivity; congruence.
Qed.

(** ** The length prefix of a binary file *)

Lemma little_endian_int32_bytes :
  forall (x : Z) (stream : list Z),
    little_endian 4 (int32_bytes x ++ stream) 0 = Ok (to_unsigned 32 x).
Proof.
  intros x stream. unfold int32_bytes, to_unsigned.
  change (2 ^ 32) with 4294967296.
  set (u := x mod 4294967296).
  assert (Hu : 0 <= u < 4294967296) by (apply Z.mod_pos_bound; lia).
  cbn [little_endian app].
  unfold byte_at, size. cbn [length].
  rewrite !Nat2Z.inj_succ.
  assert (Hlen : 0 <= Z.of_nat (length stream)) by lia.
  repeat match goal with
         | |- context [(0 <=? ?a) && (?a <=? ?b)] =>
             replace ((0 <=? a) && (a <=? b)) with true
               by (symmetry; apply andb_true_iff; split; apply Z.leb_le; lia)
         end.
  cbn [bind]. unfold at_.
  change (Z.to_nat 0) with 0%nat. change (Z.to_nat (0 + 1)) with 1%nat.
  change (Z.to_nat (0 + 1 + 1)) with 2%nat.
  change (Z.to_nat (0 + 1 + 1 + 1)) with 3%nat.
  cbn [nth]. f_equal.
  pose proof (Z.div_mod u 256 ltac:(lia)).
  pose proof (Z.div_mod (u / 256) 256 ltac:(lia)).
  pose proof (Z.div_mod (u / 256 / 256) 256 ltac:(lia)).
  assert (E2 : u / 65536 = u / 256 / 256) by (rewrite Z.div_div by lia; reflexivity).
  assert (E3 : u / 16777216 = u / 256 / 256 / 256)
    by (rewrite !Z.div_div by lia; reflexivity).
  assert (u / 256 / 256 / 256 < 256).
  { rewrite !Z.div_div by lia. apply Z.div_lt_upper_bound; lia. }
  assert (0 <= u / 256 / 256 / 256).
  { rewrite !Z.div_div by lia. apply Z.div_pos; lia. }
  rewrite E2, E3. rewrite (Z.mod_small (u / 256 / 256 / 256)) by lia.
  lia.
Qed.

(** X9: the four bytes [WriteBSONFile] puts in front of a document are the
    length of the whole file: on a file shorter than 2^31 bytes the
    decoder's [GetBSONValueSize] reads the size of the file from them and
    stops behind them. *)
Theorem written_length_prefix :
  forall (valueNode : havJSONData) (file : list Z),
    WriteBSONFile valueNode = Ok (Some file) ->
    size file < 2 ^ 31 ->
    GetBSONValueSize file 0 = Ok (size file, 4).
Proof.
  intros valueNode file Hwrite Hsmall. unfold WriteBSONFile in Hwrite.
  destruct (ConvertJSONToBSON valueNode) as [[stream |] | e]; cbn [bind] in Hwrite;
    try discriminate.
  assert (Hfile : file = int32_bytes (size stream + 4) ++ stream) by congruence.
  clear Hwrite. subst file.
  unfold GetBSONValueSize. rewrite little_endian_int32_bytes. cbn [bind].
  assert (Hsize : size (int32_bytes (size stream + 4) ++ stream) = size stream + 4).
  { unfold size. rewrite length_app. unfold int32_bytes. cbn [length]. lia. }
  rewrite Hsize in *.
  assert (0 <= size stream) by (unfold size; lia).
  unfold to_signed, to_unsigned. rewrite Z.mod_mod by (compute_powers; lia).
  revert Hsmall. compute_powers. intros Hsmall.
  rewrite (Z.mod_small (size stream + 4)) by lia.
  destruct (Z.ltb_spec (size stream + 4) 2147483648); [ | lia ].
  destruct (Z.ltb_spec (size stream + 4) 0); [ lia | ].
  reflexivity.
Qed.

Lemma written_length_prefix_witness :
  exists file : list Z,
    WriteBSONFile hello_world = Ok (Some file)
    /\ GetBSONValueSize file 0 = Ok (size file, 4).
Proof.
  eexists. split.
  - vm_compute. reflexivity.
  - apply (written_length_prefix hello_world).
    + vm_compute. reflexivity.
    + vm_compute. reflexivity.
Defined.
(** * Strings written and read back

    [ConvertJSONToString] writes a string through [ConvertToEscapedString]
    and the lexer reads it through [CheckForString].  [written] is what
    the first makes of a code point, [read_back] what the second makes of
    that. *)

Definition written (cp : Z) : list Z :=
  if cp =? 0x1F then [0x1F] else escape_code_point cp.

Definition read_back (cp : Z) : list Z := if cp =? 0 then [] else utf8_encode cp.

(** The code points of well-formed UTF-8: no surrogates. *)
Definition scalar_value (cp : Z) : Prop :=
  0 <= cp <= 0x10FFFF /\ ~ 0xD800 <= cp <= 0xDFFF.

Definition scalar_valueb (cp : Z) : bool :=
  (0 <=? cp) && (cp <=? 0x10FFFF) && negb ((0xD800 <=? cp) && (cp <=? 0xDFFF)).

Definition not_nul (cp : Z) : bool := negb (cp =? 0).

(** The characters the scanner looks at behind a [\uXXXX]: one character;
    behind a backslash a second one; behind [\u] four digits. *)
Definition followed (next : list Z) : Prop :=
  exists (c : Z) (rest : list Z),
    next = c :: rest
    /\ (c = backslash ->
        exists (d : Z) (rest' : list Z),
          rest = d :: rest'
          /\ (d = ch "u" ->
              exists (h1 h2 h3 h4 : Z) (rest'' : list Z),
                rest' = h1 :: h2 :: h3 :: h4 :: rest''
                /\ forallb isxdigit [h1; h2; h3; h4] = true)).

Lemma scalar_valueb_spec :
  forall cp : Z, scalar_valueb cp = true -> scalar_value cp.
Proof.
  intros cp H. unfold scalar_valueb in H.
  apply andb_prop in H. destruct H as [H Hs].
  apply andb_prop in H. destruct H as [H0 H1].
  apply Z.leb_le in H0. apply Z.leb_le in H1.
  split; [ lia | ]. intros [Ha Hb].
  apply Z.leb_le in Ha. apply Z.leb_le in Hb. rewrite Ha, Hb in Hs. discriminate.
Qed.

(** ** The escaper, with the unit separator *)

Lemma unit_separator_step :
  forall (s : list Z) (i : Z) (acc : list Z) (post : list Z),
    0 <= i ->
    from i s = 0x1F :: post ->
    ConvertToEscapedString_body s i acc = Ok (i, acc ++ [0x1F]).
Proof.
  intros s i acc post Hi H. read_char H A0 S0.
  unfold ConvertToEscapedString_body. rewrite A0.
  norm_chars. cbn -[Z.add Z.sub at_ size]. rewrite A0. reflexivity.
Qed.

Lemma written_one :
  forall (s : list Z) (i : Z) (acc : list Z) (cp : Z) (post : list Z),
    0 <= i -> 0 <= cp <= 0x10FFFF ->
    from i s = utf8_encode cp ++ post ->
    ConvertToEscapedString_body s i acc
    = Ok (i + size (utf8_encode cp) - 1, acc ++ written cp).
Proof.
  intros s i acc cp post Hi Hcp H. unfold written.
  destruct (Z.eqb_spec cp 0x1F) as [-> | Hne].
  - change (utf8_encode 31) with [31] in *. cbn [app] in H.
    rewrite (unit_separator_step s i acc post Hi H).
    f_equal. f_equal. unfold size. cbn [length]. lia.
  - apply (escape_one_code_point s i acc cp post); assumption.
Qed.

Lemma written_loop :
  forall (cps : list Z) (fuel : nat) (s : list Z) (i : Z) (acc : list Z),
    0 <= i ->
    Forall scalar_value cps ->
    from i s = concat (map utf8_encode cps) ->
    (length cps < fuel)%nat ->
    ConvertToEscapedString_loop fuel s i acc
    = Ok (acc ++ concat (map written cps)).
Proof.
  induction cps as [| cp cps IH]; intros fuel s i acc Hi Hall H Hfuel.
  - destruct fuel as [| fuel]; [ inversion Hfuel | ].
    cbn [ConvertToEscapedString_loop]. rewrite (from_nil s i Hi H).
    simpl. rewrite app_nil_r. reflexivity.
  - destruct fuel as [| fuel]; [ inversion Hfuel | ].
    inversion Hall as [| ? ? [Hcp _] Hall']; subst.
    cbn [map concat] in H.
    cbn [ConvertToEscapedString_loop].
    destruct (utf8_encode_nonempty cp) as (c & tail & Hc).
    assert (Hsz : (size s <=? i) = false).
    { rewrite Hc in H. cbn [app] in H.
      destruct (from_cons _ _ _ _ H Hi) as (_ & Hs & _). exact Hs. }
    rewrite Hsz.
    rewrite (written_one s i acc cp _ Hi Hcp H).
    cbn [bind].
    rewrite (IH fuel s (i + size (utf8_encode cp) - 1 + 1) (acc ++ written cp)).
    + cbn [map concat]. rewrite app_assoc. reflexivity.
    + unfold size. lia.
    + exact Hall'.
    + replace (i + size (utf8_encode cp) - 1 + 1) with (i + size (utf8_encode cp)) by lia.
      apply from_app; assumption.
    + simpl in Hfuel. lia.
Qed.

Lemma ConvertToEscapedString_written :
  forall cps : list Z,
    Forall scalar_value cps ->
    ConvertToEscapedString (concat (map utf8_encode cps))
    = Ok (concat (map written cps)).
Proof.
  intros cps Hall. unfold ConvertToEscapedString.
  rewrite (written_loop cps _ _ 0 [] ltac:(lia) Hall (from_0 _)).
  - reflexivity.
  - pose proof (utf8_length cps). lia.
Qed.

(** ** The scanner on what the escaper wrote *)

Lemma hex4_read :
  forall x : Z,
    0 <= x < 65536 ->
    forallb isxdigit (hex4 x) = true /\ strtol16 (hex4 x) = x.
Proof.
  intros x Hx.
  assert (H : forallb isxdigit (hex4 x) && (strtol16 (hex4 x) =? x) = true).
  { apply (forall_below
             (fun x => forallb isxdigit (hex4 x) && (strtol16 (hex4 x) =? x)) 65536);
      [ vm_compute; reflexivity | lia ]. }
  apply andb_prop in H. destruct H as [H1 H2]. apply Z.eqb_eq in H2. auto.
Qed.

Ltac scanner_head A0 S1 A1 :=
  unfold CheckForString_body;
  rewrite A0; change (backslash =? DQ) with false;
  change (backslash =? ch "\") with true; cbv iota;
  rewrite S1, A1.

Ltac escape_u_head :=
  change (ch "u" =? DQ) with false;
  change (ch "u" =? ch "\") with false; change (ch "u" =? ch "/") with false;
  change (ch "u" =? ch "b") with false; change (ch "u" =? ch "f") with false;
  change (ch "u" =? ch "n") with false; change (ch "u" =? ch "r") with false;
  change (ch "u" =? ch "t") with false; change (ch "u" =? ch "u") with true;
  cbv iota; simpl orb; cbv iota.

(** A [\uXXXX] that is no high surrogate is read by itself, whatever
    follows it: the scanner looks ahead and steps back. *)
Lemma escape_u_step :
  forall (s : list Z) (i : Z) (tempValue : list Z) (h1 h2 h3 h4 : Z) (next : list Z),
    0 <= i ->
    from i s = backslash :: ch "u" :: h1 :: h2 :: h3 :: h4 :: next ->
    forallb isxdigit [h1; h2; h3; h4] = true ->
    ~ 0xD800 <= strtol16 [h1; h2; h3; h4] <= 0xDBFF ->
    followed next ->
    CheckForString_body s i tempValue
    = Ok (Next (i + 5) (tempValue ++ CodePointToString (strtol16 [h1; h2; h3; h4]))).
Proof.
  intros s i tempValue h1 h2 h3 h4 next Hi H Hh Hhigh Hnext.
  destruct Hnext as (c & rest & -> & Hc).
  read_char H A0 S0. read_char H A1 S1.
  pose proof (scan_hex_full [h1; h2; h3; h4] s (i + 1) _ false [] ltac:(lia) H Hh
                ltac:(discriminate)) as Hfirst.
  read_char H A2 S2. read_char H A3 S3. read_char H A4 S4. read_char H A5 S5.
  read_char H A6 S6.
  clear A2 S2 A3 S3 A4 S4 A5 S5.
  remember (strtol16 [h1; h2; h3; h4]) as codePoint eqn:Ecp.
  scanner_head A0 S1 A1. escape_u_head.
  change 4%nat with (length [h1; h2; h3; h4]) at 1.
  rewrite Hfirst. unfold bind at 1. cbv iota beta.
  change (size [h1; h2; h3; h4]) with 4.
  change ([] ++ [h1; h2; h3; h4]) with [h1; h2; h3; h4].
  rewrite <- Ecp.
  replace (i + 1 + 4 + 1) with (i + 1 + 1 + 1 + 1 + 1 + 1) by lia.
  rewrite S6, A6.
  destruct (Z.eqb_spec c (ch "\")) as [Eb | Nb].
  - destruct (Hc Eb) as (d & rest' & -> & Hd).
    read_char H A7 S7. rewrite S7, A7.
    destruct (Z.eqb_spec d (ch "u")) as [Eu | Nu].
    + destruct (Hd Eu) as (g1 & g2 & g3 & g4 & rest'' & -> & Hg).
      pose proof (scan_hex_full [g1; g2; g3; g4] s (i + 1 + 1 + 1 + 1 + 1 + 1 + 1) _
                    false [] ltac:(lia) H Hg ltac:(discriminate)) as Hsecond.
      change 4%nat with (length [g1; g2; g3; g4]) at 1.
      rewrite Hsecond. unfold bind at 1. cbv iota beta.
      replace ((0xd800 <=? codePoint) && (codePoint <=? 0xdbff)) with false.
      * change (size [g1; g2; g3; g4]) with 4.
        replace (i + 1 + 1 + 1 + 1 + 1 + 1 + 1 + 4 - 6) with (i + 5) by lia.
        reflexivity.
      * symmetry. apply andb_false_iff.
        destruct (Z.leb_spec 0xd800 codePoint); [ | left; reflexivity ].
        destruct (Z.leb_spec codePoint 0xdbff); [ | right; reflexivity ].
        exfalso. apply Hhigh. lia.
    + replace (i + 1 + 1 + 1 + 1 + 1 + 1 + 1 - 2) with (i + 5) by lia. reflexivity.
  - replace (i + 1 + 1 + 1 + 1 + 1 + 1 - 1) with (i + 5) by lia. reflexivity.
Qed.

(** A high and a low surrogate are read together. *)
Lemma surrogate_pair_step :
  forall (s : list Z) (i : Z) (tempValue : list Z)
         (h1 h2 h3 h4 l1 l2 l3 l4 : Z) (rest : list Z),
    0 <= i ->
    from i s
    = backslash :: ch "u" :: h1 :: h2 :: h3 :: h4
        :: backslash :: ch "u" :: l1 :: l2 :: l3 :: l4 :: rest ->
    forallb isxdigit [h1; h2; h3; h4] = true ->
    forallb isxdigit [l1; l2; l3; l4] = true ->
    0xD800 <= strtol16 [h1; h2; h3; h4] <= 0xDBFF ->
    0xDC00 <= strtol16 [l1; l2; l3; l4] <= 0xDFFF ->
    CheckForString_body s i tempValue
    = Ok (Next (i + 11)
            (tempValue
               ++ CodePointToString
                    (0x10000 + (strtol16 [h1; h2; h3; h4] - 0xD800) * 0x400
                     + (strtol16 [l1; l2; l3; l4] - 0xDC00)))).
Proof.
  intros s i tempValue h1 h2 h3 h4 l1 l2 l3 l4 rest Hi H Hh Hl Hhigh Hlow.
  read_char H A0 S0. read_char H A1 S1.
  pose proof (scan_hex_full [h1; h2; h3; h4] s (i + 1) _ false [] ltac:(lia) H Hh
                ltac:(discriminate)) as Hfirst.
  read_char H A2 S2. read_char H A3 S3. read_char H A4 S4. read_char H A5 S5.
  read_char H A6 S6. read_char H A7 S7.
  pose proof (scan_hex_full [l1; l2; l3; l4] s (i + 1 + 1 + 1 + 1 + 1 + 1 + 1) _
                false [] ltac:(lia) H Hl ltac:(discriminate)) as Hsecond.
  clear H A2 S2 A3 S3 A4 S4 A5 S5.
  remember (strtol16 [h1; h2; h3; h4]) as high eqn:Ehigh.
  remember (strtol16 [l1; l2; l3; l4]) as low eqn:Elow.
  scanner_head A0 S1 A1. escape_u_head.
  change 4%nat with (length [h1; h2; h3; h4]) at 1.
  rewrite Hfirst. unfold bind at 1. cbv iota beta.
  change (size [h1; h2; h3; h4]) with 4.
  replace (i + 1 + 4 + 1) with (i + 1 + 1 + 1 + 1 + 1 + 1) by lia.
  rewrite S6, A6. change (backslash =? ch "\") with true. cbv iota.
  rewrite S7, A7. change (ch "u" =? ch "u") with true. cbv iota.
  change 4%nat with (length [l1; l2; l3; l4]) at 1.
  rewrite Hsecond. unfold bind at 1. cbv iota beta.
  change (size [l1; l2; l3; l4]) with 4.
  change ([] ++ [h1; h2; h3; h4]) with [h1; h2; h3; h4].
  change ([] ++ [l1; l2; l3; l4]) with [l1; l2; l3; l4].
  rewrite <- Ehigh, <- Elow.
  replace ((0xd800 <=? high) && (high <=? 0xdbff)) with true
    by (symmetry; apply andb_true_intro; split; apply Z.leb_le; lia).
  replace ((0xdc00 <=? low) && (low <=? 0xdfff)) with true
    by (symmetry; apply andb_true_intro; split; apply Z.leb_le; lia).
  cbv iota zeta.
  replace (i + 1 + 1 + 1 + 1 + 1 + 1 + 1 + 4) with (i + 11) by lia.
  reflexivity.
Qed.

Lemma read_back_CodePointToString :
  forall cp : Z, 0 <= cp <= 0x10FFFF -> CodePointToString cp = read_back cp.
Proof.
  intros cp Hcp. unfold read_back.
  destruct (Z.eqb_spec cp 0) as [-> | Hne]; [ reflexivity | ].
  apply CodePointToString_utf8. lia.
Qed.

(** The two-character escapes. *)
Lemma short_escape_step :
  forall (s : list Z) (i : Z) (tempValue : list Z) (c v : Z) (next : list Z),
    0 <= i ->
    from i s = backslash :: c :: next ->
    In (c, v) [(DQ, DQ); (backslash, backslash); (ch "b", ch_b); (ch "f", ch_f);
               (ch "n", ch_n); (ch "r", ch_r); (ch "t", ch_t); (ch "v", ch_v)] ->
    CheckForString_body s i tempValue = Ok (Next (i + 1) (tempValue ++ [v])).
Proof.
  intros s i tempValue c v next Hi H Hin.
  read_char H A0 S0. read_char H A1 S1.
  scanner_head A0 S1 A1.
  cbn [In] in Hin.
  repeat (destruct Hin as [Hin | Hin]; [ inversion Hin; subst; reflexivity | ]).
  contradiction.
Qed.

Lemma written_cases :
  forall cp : Z,
    scalar_value cp ->
    (exists c : Z,
        written cp = [backslash; c]
        /\ In (c, cp) [(DQ, DQ); (backslash, backslash); (ch "b", ch_b); (ch "f", ch_f);
                       (ch "n", ch_n); (ch "r", ch_r); (ch "t", ch_t); (ch "v", ch_v)])
    \/ (written cp = [cp] /\ 0x1F <= cp <= 0x7F /\ cp <> DQ /\ cp <> backslash)
    \/ (written cp = [backslash; ch "u"] ++ hex4 cp
        /\ 0 <= cp < 0x10000 /\ ~ 0xD800 <= cp <= 0xDFFF)
    \/ (written cp
        = [backslash; ch "u"] ++ hex4 (0xD800 + (cp - 0x10000) / 0x400)
            ++ [backslash; ch "u"] ++ hex4 (0xDC00 + (cp - 0x10000) mod 0x400)
        /\ 0x10000 <= cp <= 0x10FFFF).
Proof.
  intros cp [Hcp Hs]. unfold written, escape_code_point.
  destruct (Z.eqb_spec cp 0x1F) as [-> | N1F].
  { right. left. repeat split; try lia; discriminate. }
  destruct (Z.eqb_spec cp DQ) as [-> | NDQ].
  { left. eexists. split; [ reflexivity | ]. cbn [In]. auto. }
  destruct (Z.eqb_spec cp backslash) as [-> | Nbs].
  { left. eexists. split; [ reflexivity | ]. cbn [In]. auto. }
  destruct (Z.eqb_spec cp ch_b) as [-> | Nb].
  { left. eexists. split; [ reflexivity | ]. cbn [In]. auto 10. }
  destruct (Z.eqb_spec cp ch_f) as [-> | Nf].
  { left. eexists. split; [ reflexivity | ]. cbn [In]. auto 10. }
  destruct (Z.eqb_spec cp ch_n) as [-> | Nn].
  { left. eexists. split; [ reflexivity | ]. cbn [In]. auto 10. }
  destruct (Z.eqb_spec cp ch_r) as [-> | Nr].
  { left. eexists. split; [ reflexivity | ]. cbn [In]. auto 10. }
  destruct (Z.eqb_spec cp ch_t) as [-> | Nt].
  { left. eexists. split; [ reflexivity | ]. cbn [In]. auto 10. }
  destruct (Z.eqb_spec cp ch_v) as [-> | Nv].
  { left. eexists. split; [ reflexivity | ]. cbn [In]. auto 10. }
  right.
  destruct (Z.leb_spec 0x20 cp) as [H20 | H20];
    destruct (Z.leb_spec cp 0x7F) as [H7F | H7F]; cbn [andb].
  - left. repeat split; try lia; assumption.
  - right. destruct (Z.ltb_spec cp 0x10000).
    + left. repeat split; lia.
    + right. split; [ reflexivity | lia ].
  - right. left. destruct (Z.ltb_spec cp 0x10000); [ | lia ].
    repeat split; lia.
  - lia.
Qed.

Lemma written_nonempty :
  forall cp : Z, scalar_value cp ->
    exists (c : Z) (tail : list Z), written cp = c :: tail.
Proof.
  intros cp Hcp.
  destruct (written_cases cp Hcp) as [(c & -> & _) | [(-> & _) | [(-> & _) | (-> & _)]]];
    eexists; eexists; reflexivity.
Qed.

Lemma hex4_cons :
  forall x : Z, exists h1 h2 h3 h4 : Z, hex4 x = [h1; h2; h3; h4].
Proof. intros x. unfold hex4. do 4 eexists. reflexivity. Qed.

(** What the escaper wrote can follow a [\uXXXX]. *)
Lemma followed_written :
  forall (cp : Z) (rest : list Z), scalar_value cp -> followed (written cp ++ rest).
Proof.
  intros cp rest Hcp. unfold followed.
  destruct (written_cases cp Hcp)
    as [(c & -> & Hin) | [(-> & Hr & HDQ & Hbs) | [(-> & Hr & Hs) | (-> & Hr)]]].
  - exists backslash, (c :: rest). split; [ reflexivity | ]. intros _.
    exists c, rest. split; [ reflexivity | ]. intros ->.
    cbn [In] in Hin.
    repeat (destruct Hin as [Hin | Hin]; [ inversion Hin | ]). contradiction.
  - exists cp, rest. split; [ reflexivity | ]. intros E. contradiction.
  - destruct (hex4_read cp Hr) as [Hx _].
    destruct (hex4_cons cp) as (h1 & h2 & h3 & h4 & E). rewrite E in *.
    exists backslash, (ch "u" :: h1 :: h2 :: h3 :: h4 :: rest).
    split; [ reflexivity | ]. intros _.
    exists (ch "u"), (h1 :: h2 :: h3 :: h4 :: rest). split; [ reflexivity | ]. intros _.
    exists h1, h2, h3, h4, rest. split; [ reflexivity | exact Hx ].
  - assert (Hq : 0 <= (cp - 0x10000) / 0x400 < 0x400).
    { split; [ apply Z.div_pos; lia | apply Z.div_lt_upper_bound; lia ]. }
    destruct (hex4_read (0xD800 + (cp - 0x10000) / 0x400) ltac:(lia)) as [Hx _].
    destruct (hex4_cons (0xD800 + (cp - 0x10000) / 0x400)) as (h1 & h2 & h3 & h4 & E).
    rewrite E in *.
    exists backslash.
    eexists. split; [ reflexivity | ]. intros _.
    exists (ch "u"). eexists. split; [ reflexivity | ]. intros _.
    exists h1, h2, h3, h4. eexists. split; [ reflexivity | exact Hx ].
Qed.

Lemma followed_quote : forall rest : list Z, followed (DQ :: rest).
Proof.
  intros rest. exists DQ, rest. split; [ reflexivity | ]. intros E. discriminate E.
Qed.

Lemma followed_string :
  forall (cps : list Z) (rest : list Z),
    Forall scalar_value cps -> followed (concat (map written cps) ++ DQ :: rest).
Proof.
  intros cps rest Hall. destruct cps as [| cp cps].
  - apply followed_quote.
  - inversion Hall; subst. cbn [map concat]. rewrite <- app_assoc.
    apply followed_written. assumption.
Qed.

(** One iteration of the scanner on what the escaper wrote for one code
    point. *)
Lemma read_one :
  forall (s : list Z) (i : Z) (tempValue : list Z) (cp : Z) (next : list Z),
    0 <= i ->
    scalar_value cp ->
    followed next ->
    from i s = written cp ++ next ->
    CheckForString_body s i tempValue
    = Ok (Next (i + size (written cp) - 1) (tempValue ++ read_back cp)).
Proof.
  intros s i tempValue cp next Hi Hcp Hnext H.
  pose proof Hcp as [Hrange Hsurrogate].
  destruct (written_cases cp Hcp)
    as [(c & E & Hin) | [(E & Hr & HDQ & Hbs) | [(E & Hr & Hs) | (E & Hr)]]];
    rewrite E in *.
  - cbn [app] in H.
    rewrite (short_escape_step s i tempValue c cp next Hi H Hin).
    change (size [backslash; c]) with 2. replace (i + 2 - 1) with (i + 1) by lia.
    replace (read_back cp) with [cp].
    + reflexivity.
    + cbn [In] in Hin.
      repeat (destruct Hin as [Hin | Hin]; [ inversion Hin; subst; reflexivity | ]).
      contradiction.
  - cbn [app] in H. read_char H A0 S0.
    unfold CheckForString_body. rewrite A0.
    destruct (Z.eqb_spec cp DQ); [ contradiction | ].
    destruct (Z.eqb_spec cp (ch "\")); [ contradiction | ].
    unfold read_back, utf8_encode.
    destruct (Z.eqb_spec cp 0); [ lia | ].
    destruct (Z.ltb_spec cp 0x80); [ | lia ].
    change (size [cp]) with 1. replace (i + 1 - 1) with i by lia. reflexivity.
  - destruct (hex4_read cp Hr) as [Hx Hv].
    destruct (hex4_cons cp) as (h1 & h2 & h3 & h4 & E4). rewrite E4 in *.
    cbn [app] in H.
    rewrite (escape_u_step s i tempValue h1 h2 h3 h4 next Hi H Hx
               ltac:(rewrite Hv; lia) Hnext).
    rewrite Hv. rewrite read_back_CodePointToString by lia.
    change (size ([backslash; ch "u"] ++ [h1; h2; h3; h4])) with 6.
    replace (i + 6 - 1) with (i + 5) by lia. reflexivity.
  - assert (Hq : 0 <= (cp - 0x10000) / 0x400 < 0x400).
    { split; [ apply Z.div_pos; lia | apply Z.div_lt_upper_bound; lia ]. }
    assert (Hm : 0 <= (cp - 0x10000) mod 0x400 < 0x400)
      by (apply Z.mod_pos_bound; lia).
    pose proof (Z.div_mod (cp - 0x10000) 0x400 ltac:(lia)) as Hdm.
    destruct (hex4_read (0xD800 + (cp - 0x10000) / 0x400) ltac:(lia)) as [Hx1 Hv1].
    destruct (hex4_read (0xDC00 + (cp - 0x10000) mod 0x400) ltac:(lia)) as [Hx2 Hv2].
    destruct (hex4_cons (0xD800 + (cp - 0x10000) / 0x400)) as (h1 & h2 & h3 & h4 & E1).
    destruct (hex4_cons (0xDC00 + (cp - 0x10000) mod 0x400)) as (l1 & l2 & l3 & l4 & E2).
    rewrite E1, E2 in *. cbn [app] in H.
    rewrite (surrogate_pair_step s i tempValue h1 h2 h3 h4 l1 l2 l3 l4 next Hi H Hx1 Hx2
               ltac:(rewrite Hv1; lia) ltac:(rewrite Hv2; lia)).
    rewrite Hv1, Hv2.
    replace (0x10000 + (0xD800 + (cp - 0x10000) / 0x400 - 0xD800) * 0x400
             + (0xDC00 + (cp - 0x10000) mod 0x400 - 0xDC00)) with cp by lia.
    rewrite read_back_CodePointToString by lia.
    cbn [app]. unfold size. cbn [length].
    replace (i + Z.of_nat 12 - 1) with (i + 11) by lia. reflexivity.
Qed.

Lemma read_loop :
  forall (cps : list Z) (fuel : nat) (s : list Z) (i : Z) (tempValue rest : list Z),
    0 <= i ->
    Forall scalar_value cps ->
    from i s = concat (map written cps) ++ DQ :: rest ->
    (length cps < fuel)%nat ->
    CheckForString_loop fuel s i tempValue
    = Ok (TokenValue Value (Some (tempValue ++ concat (map read_back cps))),
          i + size (concat (map written cps))).
Proof.
  induction cps as [| cp cps IH]; intros fuel s i tempValue rest Hi Hall H Hfuel.
  - destruct fuel as [| fuel]; [ inversion Hfuel | ].
    cbn [map concat app] in *. read_char H A0 S0.
    cbn [CheckForString_loop]. rewrite S0.
    unfold CheckForString_body. rewrite A0. rewrite Z.eqb_refl. cbn [bind].
    rewrite app_nil_r. change (size []) with 0. rewrite Z.add_0_r. reflexivity.
  - destruct fuel as [| fuel]; [ inversion Hfuel | ].
    inversion Hall as [| ? ? Hcp Hall']; subst.
    cbn [map concat] in H. rewrite <- app_assoc in H.
    cbn [CheckForString_loop].
    destruct (written_nonempty cp Hcp) as (c & tail & Hc).
    assert (Hsz : (size s <=? i) = false).
    { rewrite Hc in H. cbn [app] in H.
      destruct (from_cons _ _ _ _ H Hi) as (_ & Hs & _). exact Hs. }
    rewrite Hsz.
    rewrite (read_one s i tempValue cp _ Hi Hcp (followed_string cps rest Hall') H).
    cbn [bind].
    assert (Hpos : 1 <= size (written cp))
      by (rewrite Hc; unfold size; cbn [length]; lia).
    rewrite (IH fuel s (i + size (written cp) - 1 + 1) (tempValue ++ read_back cp) rest).
    + cbn [map concat]. rewrite <- app_assoc. f_equal. f_equal.
      unfold size. rewrite length_app. lia.
    + lia.
    + exact Hall'.
    + replace (i + size (written cp) - 1 + 1) with (i + size (written cp)) by lia.
      apply from_app; assumption.
    + simpl in Hfuel. lia.
Qed.

Lemma read_back_filter :
  forall cps : list Z,
    concat (map read_back cps) = concat (map utf8_encode (filter not_nul cps)).
Proof.
  induction cps as [| cp cps IH]; [ reflexivity | ].
  cbn [map concat filter]. unfold read_back at 1, not_nul at 1.
  destruct (Z.eqb_spec cp 0); cbn [negb]; [ exact IH | ].
  cbn [map concat]. rewrite IH. reflexivity.
Qed.

Lemma written_length :
  forall cps : list Z,
    Forall scalar_value cps -> (length cps <= length (concat (map written cps)))%nat.
Proof.
  induction cps as [| cp cps IH]; intros Hall; [ apply Nat.le_refl | ].
  inversion Hall as [| ? ? Hcp Hall']; subst.
  cbn [map concat length]. rewrite length_app.
  destruct (written_nonempty cp Hcp) as (c & tail & ->). specialize (IH Hall').
  simpl. lia.
Qed.

(** X11: a string that the text writer escapes is read back by the lexer.
    For a string that is the UTF-8 encoding of Unicode scalar values,
    [ConvertToEscapedString] succeeds, and [CheckForString] at the quote
    that opens the escaped text returns the string it was written from
    without its NUL characters ([\u0000] is read as nothing) and stops
    at the closing quote.  A string without NUL round-trips. *)
Theorem string_round_trip :
  forall (cps : list Z) (rest : list Z),
    Forall scalar_value cps ->
    exists escaped : list Z,
      ConvertToEscapedString (concat (map utf8_encode cps)) = Ok escaped
      /\ CheckForString 0 ([DQ] ++ escaped ++ [DQ] ++ rest)
         = Ok (TokenValue Value (Some (concat (map utf8_encode (filter not_nul cps)))),
               size escaped + 1).
Proof.
  intros cps rest Hall.
  exists (concat (map written cps)). split.
  - apply ConvertToEscapedString_written. exact Hall.
  - unfold CheckForString. cbn [app].
    rewrite (read_loop cps _ _ (0 + 1) [] rest ltac:(lia) Hall).
    + cbn [app]. rewrite read_back_filter. f_equal. f_equal. lia.
    + reflexivity.
    + pose proof (written_length cps Hall). cbn [length]. rewrite length_app. lia.
Qed.

Lemma string_round_trip_witness :
  exists escaped : list Z,
    ConvertToEscapedString
      (concat (map utf8_encode [0x41; 0x22; 0x0A; 0x00; 0x1F; 0xE9; 0x20AC; 0x1F600; 0x5C]))
    = Ok escaped
    /\ CheckForString 0 ([DQ] ++ escaped ++ [DQ] ++ str ",1]")
       = Ok (TokenValue Value
               (Some (concat (map utf8_encode
                                (filter not_nul
                                   [0x41; 0x22; 0x0A; 0x00; 0x1F; 0xE9; 0x20AC; 0x1F600;
                                    0x5C])))),
             size escaped + 1).
Proof.
  apply (string_round_trip
           [0x41; 0x22; 0x0A; 0x00; 0x1F; 0xE9; 0x20AC; 0x1F600; 0x5C] (str ",1]")).
  repeat constructor; apply scalar_valueb_spec; reflexivity.
Defined.
(** * The text writer on nested values

    [ConvertJSONToString] flattens the value into tokens and writes them
    with a stack of the open containers.  [render] is the text of a value
    by recursion on the value: [None] where the value cannot be written
    (a tag that does not agree with the payload, a string that is not
    UTF-8). *)

Definition quoted (s : list Z) : option (list Z) :=
  match ConvertToEscapedString s with
  | Ok escaped => Some ([DQ] ++ escaped ++ [DQ])
  | Throw _ => None
  end.

Definition render_scalar (t : havJSONDataType) (v : havJSONVariant) : option (list Z) :=
  match t, v with
  | DT_Null, V_string s => Some s
  | DT_Boolean, V_bool b => Some (str (if b then "true" else "false"))
  | DT_Int, V_int x | DT_UInt, V_uint x | DT_Long, V_long x | DT_ULong, V_ulong x
  | DT_Int64, V_int64 x | DT_UInt64, V_uint64 x => Some (to_string x)
  | DT_Double, V_double d => Some (to_string_double d)
  | DT_String, V_string s => quoted s
  | _, _ => None
  end.

Definition separator (first : bool) : list Z := if first then [] else [ch ","].

Fixpoint render (item : havJSONData) : option (list Z) :=
  match item with
  | Data DT_Array v =>
      match v with
      | V_vector l =>
          match
            (fix items (l : list havJSONData) (first : bool) : option (list Z) :=
               match l with
               | [] => Some []
               | x :: l' =>
                   match render x, items l' false with
                   | Some a, Some b => Some (separator first ++ a ++ b)
                   | _, _ => None
                   end
               end) l true
          with
          | Some body => Some ([ch "["] ++ body ++ [ch "]"])
          | None => None
          end
      | _ => None
      end
  | Data DT_Object v =>
      match v with
      | V_map m =>
          match
            (fix entries (m : list (list Z * havJSONData)) (first : bool)
               : option (list Z) :=
               match m with
               | [] => Some []
               | (key, x) :: m' =>
                   match quoted key, render x, entries m' false with
                   | Some k, Some a, Some b =>
                       Some (separator first ++ k ++ [ch ":"] ++ a ++ b)
                   | _, _, _ => None
                   end
               end) m true
          with
          | Some body => Some ([ch "{"] ++ body ++ [ch "}"])
          | None => None
          end
      | _ => None
      end
  | Data t v => render_scalar t v
  end.

(** The two local recursions of [render]. *)
Fixpoint render_items (l : list havJSONData) (first : bool) : option (list Z) :=
  match l with
  | [] => Some []
  | x :: l' =>
      match render x, render_items l' false with
      | Some a, Some b => Some (separator first ++ a ++ b)
      | _, _ => None
      end
  end.

Fixpoint render_entries (m : list (list Z * havJSONData)) (first : bool)
  : option (list Z) :=
  match m with
  | [] => Some []
  | (key, x) :: m' =>
      match quoted key, render x, render_entries m' false with
      | Some k, Some a, Some b => Some (separator first ++ k ++ [ch ":"] ++ a ++ b)
      | _, _, _ => None
      end
  end.

Definition container (v : havJSONData) : bool :=
  match getType v with
  | DT_Array | DT_Object => true
  | _ => false
  end.

Lemma render_array :
  forall l : list havJSONData,
    render (Data DT_Array (V_vector l))
    = match render_items l true with
      | Some body => Some ([ch "["] ++ body ++ [ch "]"])
      | None => None
      end.
Proof.
  intros l. cbn [render].
  assert (E : forall first : bool,
             (fix items (l : list havJSONData) (first : bool) : option (list Z) :=
                match l with
                | [] => Some []
                | x :: l' =>
                    match render x, items l' false with
                    | Some a, Some b => Some (separator first ++ a ++ b)
                    | _, _ => None
                    end
                end) l first
             = render_items l first).
  { induction l as [| x l IH]; intros first; [ reflexivity | ].
    cbn [render_items]. rewrite IH. reflexivity. }
  rewrite E. reflexivity.
Qed.

Lemma render_object :
  forall m : list (list Z * havJSONData),
    render (Data DT_Object (V_map m))
    = match render_entries m true with
      | Some body => Some ([ch "{"] ++ body ++ [ch "}"])
      | None => None
      end.
Proof.
  intros m. cbn [render].
  assert (E : forall first : bool,
             (fix entries (m : list (list Z * havJSONData)) (first : bool)
                : option (list Z) :=
                match m with
                | [] => Some []
                | (key, x) :: m' =>
                    match quoted key, render x, entries m' false with
                    | Some k, Some a, Some b =>
                        Some (separator first ++ k ++ [ch ":"] ++ a ++ b)
                    | _, _, _ => None
                    end
                end) m first
             = render_entries m first).
  { induction m as [| [k x] m IH]; intros first; [ reflexivity | ].
    cbn [render_entries]. rewrite IH. reflexivity. }
  rewrite E. reflexivity.
Qed.

Lemma render_scalar_case :
  forall (t : havJSONDataType) (v : havJSONVariant),
    match v with
    | V_vector _ | V_map _ => False
    | _ => True
    end ->
    render (Data t v)
    = match scalar_token t v with
      | Ok _ => render_scalar t v
      | Throw _ => None
      end.
Proof.
  intros t v Hv. destruct t; destruct v; try contradiction; reflexivity.
Qed.

(** ** The loop of the writer, token by token *)

Lemma writer_open :
  forall (rest : list havJSONTokenValue) (stack : list havJSONDataType) (acc : list Z),
    ConvertJSONToString_loop (structural LeftSquareBracket :: rest) stack acc
    = ConvertJSONToString_loop rest (push_back stack DT_Array) (acc ++ [ch "["])
    /\ ConvertJSONToString_loop (structural LeftCurlyBracket :: rest) stack acc
       = ConvertJSONToString_loop rest (push_back stack DT_Object) (acc ++ [ch "{"]).
Proof. intros. split; reflexivity. Qed.

Lemma writer_close :
  forall (rest : list havJSONTokenValue) (stack : list havJSONDataType)
         (kind : havJSONDataType) (acc : list Z),
    ConvertJSONToString_loop (structural RightSquareBracket :: rest)
      (push_back stack kind) acc
    = ConvertJSONToString_loop rest stack (acc ++ [ch "]"])
    /\ ConvertJSONToString_loop (structural RightCurlyBracket :: rest)
         (push_back stack kind) acc
       = ConvertJSONToString_loop rest stack (acc ++ [ch "}"]).
Proof.
  intros rest stack kind acc.
  assert (Hpop : pop_back (push_back stack kind) = stack)
    by (unfold pop_back, push_back; apply removelast_last).
  cbn [ConvertJSONToString_loop structural mToken is_right havJSONToken_eqb orb].
  destruct (push_back stack kind) as [| top q] eqn:E.
  { unfold push_back in E. destruct stack; discriminate E. }
  cbn [bind]. rewrite Hpop. split; reflexivity.
Qed.

Lemma writer_key :
  forall (key : list Z) (rest : list havJSONTokenValue) (stack : list havJSONDataType)
         (acc : list Z),
    match quoted key with
    | Some k =>
        ConvertJSONToString_loop (TokenValue String_ (Some key) :: rest) stack acc
        = ConvertJSONToString_loop rest stack (acc ++ k)
    | None =>
        exists e : exn,
          ConvertJSONToString_loop (TokenValue String_ (Some key) :: rest) stack acc
          = Throw e
    end.
Proof.
  intros key rest stack acc. unfold quoted.
  cbn [ConvertJSONToString_loop mToken is_right havJSONToken_eqb orb bind].
  unfold token_text.
  cbn [mToken mValue is_value_token havJSONToken_eqb negb andb orb value_ bind].
  destruct (ConvertToEscapedString key) as [escaped | e]; cbn [bind].
  - reflexivity.
  - exists e. reflexivity.
Qed.

Lemma writer_scalar :
  forall (t : havJSONDataType) (v : havJSONVariant) (token : havJSONTokenValue)
         (rest : list havJSONTokenValue) (stack : list havJSONDataType) (acc : list Z),
    scalar_token t v = Ok token ->
    match render_scalar t v with
    | Some text =>
        ConvertJSONToString_loop (token :: rest) stack acc
        = ConvertJSONToString_loop rest stack (acc ++ text)
    | None =>
        exists e : exn, ConvertJSONToString_loop (token :: rest) stack acc = Throw e
    end.
Proof.
  intros t v token rest stack acc H.
  destruct t; destruct v; try discriminate H; cbn [scalar_token] in H;
    injection H as <-; cbn [render_scalar]; try reflexivity.
  unfold quoted.
  cbn [ConvertJSONToString_loop mToken is_right havJSONToken_eqb orb bind].
  unfold token_text.
  cbn [mToken mValue is_value_token havJSONToken_eqb negb andb orb value_ bind].
  destruct (ConvertToEscapedString s) as [escaped | e]; cbn [bind].
  - reflexivity.
  - exists e. reflexivity.
Qed.

(** ** The tokens of a value and its text *)

Definition written_as (item : havJSONData) : Prop :=
  (forall (tokens : list havJSONTokenValue) (e : exn),
      Tokenize_item item tokens = Throw e -> render item = None)
  /\ forall tokens tokens' : list havJSONTokenValue,
       Tokenize_item item tokens = Ok tokens' ->
       exists out : list havJSONTokenValue,
         tokens' = tokens ++ out
         /\ forall (rest : list havJSONTokenValue) (stack : list havJSONDataType)
                   (acc : list Z),
              match render item with
              | Some text =>
                  ConvertJSONToString_loop (out ++ rest) stack acc
                  = ConvertJSONToString_loop rest stack (acc ++ text)
              | None =>
                  exists e : exn,
                    ConvertJSONToString_loop (out ++ rest) stack acc = Throw e
              end.

Definition is_first (index : nat) : bool :=
  match index with
  | O => true
  | S _ => false
  end.

Lemma items_unwritable :
  forall l : list havJSONData,
    Forall written_as l ->
    forall (index : nat) (tokens : list havJSONTokenValue) (e : exn),
      TokenizeArray_from l index tokens = Throw e ->
      render_items l (is_first index) = None.
Proof.
  induction l as [| x l IH]; intros Hall index tokens e H.
  - discriminate H.
  - inversion Hall as [| ? ? [Hx _] Hl]; subst.
    cbn [TokenizeArray_from] in H. cbn [render_items].
    destruct (Tokenize_item x _) as [q |] eqn:Eq; cbn [bind] in H.
    + pose proof (IH Hl (S index) q e H) as R. cbn [is_first] in R. rewrite R.
      destruct (render x); reflexivity.
    + rewrite (Hx _ _ Eq). reflexivity.
Qed.

Lemma items_written :
  forall l : list havJSONData,
    Forall written_as l ->
    forall (index : nat) (tokens tokens' : list havJSONTokenValue),
      TokenizeArray_from l index tokens = Ok tokens' ->
      exists out : list havJSONTokenValue,
        tokens' = tokens ++ out
        /\ forall (rest : list havJSONTokenValue) (stack : list havJSONDataType)
                  (acc : list Z),
             match render_items l (is_first index) with
             | Some body =>
                 ConvertJSONToString_loop (out ++ rest) (push_back stack DT_Array) acc
                 = ConvertJSONToString_loop rest stack (acc ++ body ++ [ch "]"])
             | None =>
                 exists e : exn,
                   ConvertJSONToString_loop (out ++ rest) (push_back stack DT_Array) acc
                   = Throw e
             end.
Proof.
  induction l as [| x l IH]; intros Hall index tokens tokens' H.
  - cbn [TokenizeArray_from] in H. injection H as <-.
    exists [structural RightSquareBracket]. split; [ reflexivity | ].
    intros rest stack acc. cbn [render_items app].
    apply (writer_close rest stack DT_Array acc).
  - inversion Hall as [| ? ? [_ Hx] Hl]; subst.
    cbn [TokenizeArray_from] in H. inv_bind H as q eqn Eq.
    destruct (Hx _ _ Eq) as (out1 & -> & W1).
    destruct (IH Hl _ _ _ H) as (out2 & -> & W2).
    exists (match index with
            | O => []
            | S _ => [structural Comma]
            end ++ out1 ++ out2).
    split.
    { destruct index; unfold push_back; rewrite <- ?app_assoc; reflexivity. }
    intros rest stack acc. cbn [render_items].
    assert (Hsep :
      ConvertJSONToString_loop
        ((match index with
          | O => []
          | S _ => [structural Comma]
          end ++ out1 ++ out2) ++ rest) (push_back stack DT_Array) acc
      = ConvertJSONToString_loop (out1 ++ out2 ++ rest) (push_back stack DT_Array)
          (acc ++ separator (is_first index))).
    { destruct index; cbn [is_first separator app].
      - rewrite app_nil_r, <- app_assoc. reflexivity.
      - rewrite <- app_assoc. apply ConvertJSONToString_loop_comma. }
    rewrite Hsep.
    specialize (W1 (out2 ++ rest) (push_back stack DT_Array)
                  (acc ++ separator (is_first index))).
    destruct (render x) as [a |].
    + rewrite W1.
      specialize (W2 rest stack ((acc ++ separator (is_first index)) ++ a)).
      cbn [is_first] in W2.
      destruct (render_items l false) as [b |].
      * rewrite W2. rewrite <- !app_assoc. reflexivity.
      * exact W2.
    + exact W1.
Qed.

Lemma entries_unwritable :
  forall m : list (list Z * havJSONData),
    Forall (fun e => written_as (snd e)) m ->
    forall (first : bool) (tokens : list havJSONTokenValue) (e : exn),
      TokenizeObject_from m first tokens = Throw e ->
      render_entries m first = None.
Proof.
  induction m as [| [k x] m IH]; intros Hall first tokens e H.
  - discriminate H.
  - inversion Hall as [| ? ? [Hx _] Hm]; subst. cbn [snd] in Hx.
    cbn [TokenizeObject_from] in H. cbn [render_entries].
    destruct (Tokenize_item x _) as [q |] eqn:Eq; cbn [bind] in H.
    + rewrite (IH Hm false q e H).
      destruct (quoted k); [ destruct (render x) | ]; reflexivity.
    + rewrite (Hx _ _ Eq). destruct (quoted k); reflexivity.
Qed.

Lemma entries_written :
  forall m : list (list Z * havJSONData),
    Forall (fun e => written_as (snd e)) m ->
    forall (first : bool) (tokens tokens' : list havJSONTokenValue),
      TokenizeObject_from m first tokens = Ok tokens' ->
      exists out : list havJSONTokenValue,
        tokens' = tokens ++ out
        /\ forall (rest : list havJSONTokenValue) (stack : list havJSONDataType)
                  (acc : list Z),
             match render_entries m first with
             | Some body =>
                 ConvertJSONToString_loop (out ++ rest) (push_back stack DT_Object) acc
                 = ConvertJSONToString_loop rest stack (acc ++ body ++ [ch "}"])
             | None =>
                 exists e : exn,
                   ConvertJSONToString_loop (out ++ rest) (push_back stack DT_Object) acc
                   = Throw e
             end.
Proof.
  induction m as [| [k x] m IH]; intros Hall first tokens tokens' H.
  - cbn [TokenizeObject_from] in H. injection H as <-.
    exists [structural RightCurlyBracket]. split; [ reflexivity | ].
    intros rest stack acc. cbn [render_entries app].
    apply (writer_close rest stack DT_Object acc).
  - inversion Hall as [| ? ? [_ Hx] Hm]; subst. cbn [snd] in Hx.
    cbn [TokenizeObject_from] in H. inv_bind H as q eqn Eq.
    destruct (Hx _ _ Eq) as (out1 & -> & W1).
    destruct (IH Hm _ _ _ H) as (out2 & -> & W2).
    exists ((if first then [] else [structural Comma])
              ++ TokenValue String_ (Some k) :: structural Colon :: out1 ++ out2).
    split.
    { destruct first; unfold push_back; rewrite <- ?app_assoc; reflexivity. }
    intros rest stack acc. cbn [render_entries].
    assert (Hsep :
      ConvertJSONToString_loop
        (((if first then [] else [structural Comma])
            ++ TokenValue String_ (Some k) :: structural Colon :: out1 ++ out2) ++ rest)
        (push_back stack DT_Object) acc
      = ConvertJSONToString_loop
          (TokenValue String_ (Some k) :: structural Colon :: out1 ++ out2 ++ rest)
          (push_back stack DT_Object) (acc ++ separator first)).
    { destruct first; cbn [separator app].
      - rewrite app_nil_r, <- app_assoc. reflexivity.
      - rewrite <- app_assoc. apply ConvertJSONToString_loop_comma. }
    rewrite Hsep.
    pose proof (writer_key k (structural Colon :: out1 ++ out2 ++ rest)
                  (push_back stack DT_Object) (acc ++ separator first)) as Wk.
    destruct (quoted k) as [name |]; [ | exact Wk ].
    rewrite Wk, ConvertJSONToString_loop_colon.
    specialize (W1 (out2 ++ rest) (push_back stack DT_Object)
                  (((acc ++ separator first) ++ name) ++ [ch ":"])).
    destruct (render x) as [a |].
    + rewrite W1.
      specialize (W2 rest stack ((((acc ++ separator first) ++ name) ++ [ch ":"]) ++ a)).
      destruct (render_entries m false) as [b |].
      * rewrite W2. rewrite <- !app_assoc. reflexivity.
      * exact W2.
    + exact W1.
Qed.

Lemma every_value_written_as : forall item : havJSONData, written_as item.
Proof.
  apply havJSONData_nested_ind.
  - (* a scalar, or a tag that does not agree with the payload *)
    intros t v Hv.
    assert (Hs : forall tokens : list havJSONTokenValue,
               Tokenize_item (Data t v) tokens
               = (token <- scalar_token t v ;; Ok (push_back tokens token))).
    { intros tokens.
      destruct t; try reflexivity; destruct v; try contradiction; reflexivity. }
    unfold written_as. rewrite (render_scalar_case t v Hv).
    split.
    + intros tokens e H. rewrite Hs in H.
      destruct (scalar_token t v); [ discriminate H | reflexivity ].
    + intros tokens tokens' H. rewrite Hs in H. inv_bind H as token eqn Et.
      injection H as <-. exists [token]. split; [ reflexivity | ].
      intros rest stack acc. cbn [app].
      apply (writer_scalar t v token rest stack acc Et).
  - intros t l Hall.
    destruct t;
      try (split; [ reflexivity | intros tokens tokens' H; discriminate H ]).
    unfold written_as. rewrite render_array. split.
    + intros tokens e H. rewrite (Tokenize_item_array DT_Array) in H.
      pose proof (items_unwritable l Hall _ _ _ H) as R. cbn [is_first] in R.
      rewrite R. reflexivity.
    + intros tokens tokens' H. rewrite (Tokenize_item_array DT_Array) in H.
      destruct (items_written l Hall _ _ _ H) as (out & -> & W).
      exists (structural LeftSquareBracket :: out). split.
      { unfold push_back. rewrite <- app_assoc. reflexivity. }
      intros rest stack acc. cbn [app].
      destruct (writer_open (out ++ rest) stack acc) as [-> _].
      specialize (W rest stack (acc ++ [ch "["])). cbn [is_first] in W.
      destruct (render_items l true) as [body |].
      * rewrite W. rewrite <- !app_assoc. reflexivity.
      * exact W.
  - intros t m Hall.
    destruct t;
      try (split; [ reflexivity | intros tokens tokens' H; discriminate H ]).
    unfold written_as. rewrite render_object. split.
    + intros tokens e H. rewrite Tokenize_item_object in H.
      rewrite (entries_unwritable m Hall _ _ _ H). reflexivity.
    + intros tokens tokens' H. rewrite Tokenize_item_object in H.
      destruct (entries_written m Hall _ _ _ H) as (out & -> & W).
      exists (structural LeftCurlyBracket :: out). split.
      { unfold push_back. rewrite <- app_assoc. reflexivity. }
      intros rest stack acc. cbn [app].
      destruct (writer_open (out ++ rest) stack acc) as [_ ->].
      specialize (W rest stack (acc ++ [ch "{"])).
      destruct (render_entries m true) as [body |].
      * rewrite W. rewrite <- !app_assoc. reflexivity.
      * exact W.
Qed.

Lemma Tokenization_value_item :
  forall root : havJSONData,
    container root = true ->
    Tokenization_value root = Tokenize_item root [].
Proof.
  intros [t v] H. unfold container in H. cbn [getType] in H.
  destruct t; try discriminate H; unfold Tokenization_value; cbn [getType getValue].
  - destruct v; reflexivity.
  - destruct v; reflexivity.
Qed.

Lemma render_container_head :
  forall (root : havJSONData) (tokens : list havJSONTokenValue),
    container root = true ->
    Tokenize_item root [] = Ok tokens ->
    exists (first : havJSONTokenValue) (rest : list havJSONTokenValue),
      tokens = first :: rest /\ is_left (mToken first) = true.
Proof.
  intros [t v] tokens Hc H. unfold container in Hc. cbn [getType] in Hc.
  destruct t; try discriminate Hc.
  - destruct v as [| | | | | | | | | | l |]; try discriminate H.
    rewrite (Tokenize_item_array DT_Array) in H.
    destruct (TokenizeArray_from_keys l (all_no_top_keys l) _ _ _ H) as (out & -> & _).
    eexists. eexists. split; reflexivity.
  - destruct v as [| | | | | | | | | | | m]; try discriminate H.
    rewrite Tokenize_item_object in H.
    destruct (TokenizeObject_from_keys m (all_values_no_top_keys m) _ _ _ H)
      as (out & -> & _).
    eexists. eexists. split; reflexivity.
Qed.

(** X12: the text writer without formatting writes a value as the
    recursion on the value describes it, at any depth of nesting: an
    array is its elements between brackets, an object its members
    (escaped key, colon, value) in the order of the keys between braces,
    separated by commas and with no white space; a scalar is its
    literal.  The writer returns true with the text exactly when the root
    is an array or an object that can be rendered, and it never returns
    false. *)
Theorem writer_is_structural :
  forall root : havJSONData,
    (forall text : list Z,
        ConvertJSONToString root = Ok (Some text)
        <-> container root = true /\ render root = Some text)
    /\ ConvertJSONToString root <> Ok None.
Proof.
  intros root.
  destruct (container root) eqn:Hc.
  - pose proof (every_value_written_as root) as [Hthrow Hok].
    unfold ConvertJSONToString. rewrite (Tokenization_value_item root Hc).
    destruct (Tokenize_item root []) as [tokens | e] eqn:Et; cbn [bind].
    + destruct (render_container_head root tokens Hc Et) as (first & rest & -> & Hleft).
      rewrite Hleft. cbn [negb].
      destruct (Hok _ _ Et) as (out & Eout & W). cbn [app] in Eout.
      specialize (W [] [] []). rewrite app_nil_r in W. rewrite <- Eout in W.
      destruct (render root) as [text' |].
      * rewrite W. cbn [ConvertJSONToString_loop bind app]. split.
        -- intros text. split.
           ++ intros H. injection H as <-. split; reflexivity.
           ++ intros [_ H]. injection H as <-. reflexivity.
        -- discriminate.
      * destruct W as (e & ->). cbn [bind]. split.
        -- intros text. split; [ discriminate | intros [_ H]; discriminate H ].
        -- discriminate.
    + rewrite (Hthrow _ _ Et). split.
      * intros text. split; [ discriminate | intros [_ H]; discriminate H ].
      * discriminate.
  - assert (Hroot : Tokenization_value root
                    = Throw (runtime_error
                               "Invalid token: Expected array or object as root node!")).
    { destruct root as [t v]. unfold container in Hc. cbn [getType] in Hc.
      unfold Tokenization_value. cbn [getType].
      destruct t; try discriminate Hc; reflexivity. }
    unfold ConvertJSONToString. rewrite Hroot. cbn [bind]. split.
    + intros text. split; [ discriminate | intros [H _]; discriminate H ].
    + discriminate.
Qed.
(** * The text writer with formatting *)

(** The characters the formatting block appends. *)
Definition blank (c : Z) : Prop := c = ch_n \/ c = ch " ".

(** Texts with a pad in front of each. *)
Fixpoint interleave (pads texts : list (list Z)) : list Z :=
  match pads, texts with
  | pad :: pads', text :: texts' => pad ++ text ++ interleave pads' texts'
  | _, _ => []
  end.

Lemma when_blank :
  forall (c : bool) (text : list Z), Forall blank text -> Forall blank (when c text).
Proof. intros [|] text H; [ exact H | constructor ]. Qed.

Lemma indentation_blank : forall n : Z, Forall blank (indentation n).
Proof.
  intros n. unfold indentation. apply Forall_forall. intros c Hc.
  apply repeat_spec in Hc. right. exact Hc.
Qed.

Lemma line_feed_indentation_blank : forall n : Z, Forall blank (line_feed_indentation n).
Proof.
  intros n. constructor; [ left; reflexivity | apply indentation_blank ].
Qed.

Lemma one_blank : Forall blank [ch_n] /\ Forall blank [ch " "].
Proof. split; constructor; [ left | constructor | right | constructor ]; reflexivity. Qed.

Lemma format_token_blank :
  forall (currentType : havJSONDataType) (previousToken token : havJSONToken) (n : Z),
    Forall blank (format_token currentType previousToken token n).
Proof.
  intros currentType previousToken token n.
  destruct one_blank as [Hn Hs].
  pose proof (indentation_blank n) as Hi.
  pose proof (line_feed_indentation_blank n) as Hl.
  unfold format_token, format_in_array, format_in_object.
  repeat (apply Forall_app; split); apply when_blank;
    repeat (apply Forall_app; split); try apply when_blank; assumption.
Qed.

(** ** Without formatting, the loop is the one of the compact writer *)

Lemma steps_compact :
  forall (tokens : list havJSONTokenValue) (stack : list havJSONDataType) (n : Z)
         (previousToken : havJSONToken) (currentType : havJSONDataType) (acc : list Z),
    ConvertJSONToString_loop tokens stack acc
    = (st <- ConvertJSONToString_steps false tokens
               (mkWriterState stack n previousToken currentType acc) ;;
       Ok (w_jsonContentsAsString st)).
Proof.
  induction tokens as [| itr rest IH]; intros stack n previousToken currentType acc.
  - reflexivity.
  - cbn [ConvertJSONToString_loop ConvertJSONToString_steps].
    unfold ConvertJSONToString_step.
    cbn [w_tokenTypes w_tokenTypesSize w_previousToken w_currentType
         w_jsonContentsAsString].
    destruct (is_right (mToken itr)).
    + destruct stack as [| top q]; cbn [back bind]; [ reflexivity | ].
      cbn [w_tokenTypes w_tokenTypesSize w_previousToken w_currentType
           w_jsonContentsAsString].
      destruct (token_text itr) as [value | e]; cbn [bind]; [ | reflexivity ].
      destruct (mToken itr); cbn [bind]; apply IH.
    + cbn [bind].
      cbn [w_tokenTypes w_tokenTypesSize w_previousToken w_currentType
           w_jsonContentsAsString].
      destruct (token_text itr) as [value | e]; cbn [bind]; [ | reflexivity ].
      destruct (mToken itr); cbn [bind]; apply IH.
Qed.

(** ** With formatting, blanks come before the same texts *)

Lemma step_formatted :
  forall (itr : havJSONTokenValue) (st st' : WriterState),
    w_tokenTypes st = w_tokenTypes st' ->
    match ConvertJSONToString_step false itr st with
    | Ok next =>
        exists (value pad : list Z) (next' : WriterState),
          token_text itr = Ok value
          /\ Forall blank pad
          /\ ConvertJSONToString_step true itr st' = Ok next'
          /\ w_tokenTypes next = w_tokenTypes next'
          /\ w_jsonContentsAsString next = w_jsonContentsAsString st ++ value
          /\ w_jsonContentsAsString next'
             = w_jsonContentsAsString st' ++ pad ++ value
    | Throw e => ConvertJSONToString_step true itr st' = Throw e
    end.
Proof.
  intros itr [stack n previousToken currentType acc]
         [stack' n' previousToken' currentType' acc'] H.
  cbn [w_tokenTypes] in H. subst stack'.
  unfold ConvertJSONToString_step.
  cbn [w_tokenTypes w_tokenTypesSize w_previousToken w_currentType
       w_jsonContentsAsString].
  destruct (is_right (mToken itr)).
  - destruct stack as [| top q]; cbn [back bind]; [ reflexivity | ].
    cbn [w_tokenTypes w_tokenTypesSize w_previousToken w_currentType
         w_jsonContentsAsString].
    destruct (token_text itr) as [value | e]; cbn [bind]; [ | reflexivity ].
    destruct (mToken itr); cbv beta iota zeta;
      exists value; eexists; eexists;
      (split; [ reflexivity | ]);
      (split; [ apply format_token_blank | ]);
      cbn [w_tokenTypes w_jsonContentsAsString];
      (split; [ reflexivity | ]); (split; [ reflexivity | ]);
      (split; [ reflexivity | ]); rewrite <- app_assoc; reflexivity.
  - cbn [bind].
    cbn [w_tokenTypes w_tokenTypesSize w_previousToken w_currentType
         w_jsonContentsAsString].
    destruct (token_text itr) as [value | e]; cbn [bind]; [ | reflexivity ].
    destruct (mToken itr); cbv beta iota zeta;
      exists value; eexists; eexists;
      (split; [ reflexivity | ]);
      (split; [ apply format_token_blank | ]);
      cbn [w_tokenTypes w_jsonContentsAsString];
      (split; [ reflexivity | ]); (split; [ reflexivity | ]);
      (split; [ reflexivity | ]); rewrite <- app_assoc; reflexivity.
Qed.

Lemma steps_formatted :
  forall (tokens : list havJSONTokenValue) (st st' : WriterState),
    w_tokenTypes st = w_tokenTypes st' ->
    match ConvertJSONToString_steps false tokens st with
    | Ok last =>
        exists (texts pads : list (list Z)) (last' : WriterState),
          Forall2 (fun token x => token_text token = Ok x) tokens texts
          /\ w_jsonContentsAsString last = w_jsonContentsAsString st ++ concat texts
          /\ length pads = length texts
          /\ Forall (Forall blank) pads
          /\ ConvertJSONToString_steps true tokens st' = Ok last'
          /\ w_jsonContentsAsString last'
             = w_jsonContentsAsString st' ++ interleave pads texts
    | Throw e => ConvertJSONToString_steps true tokens st' = Throw e
    end.
Proof.
  induction tokens as [| itr rest IH]; intros st st' H.
  - cbn [ConvertJSONToString_steps]. exists [], [], st'.
    repeat split; try constructor; cbn [concat interleave]; rewrite app_nil_r;
      reflexivity.
  - cbn [ConvertJSONToString_steps].
    pose proof (step_formatted itr st st' H) as Hstep.
    destruct (ConvertJSONToString_step false itr st) as [next | e]; cbn [bind].
    + destruct Hstep as (value & pad & next' & Hv & Hpad & -> & Hs & Ht & Ht').
      cbn [bind]. specialize (IH next next' Hs).
      destruct (ConvertJSONToString_steps false rest next) as [last | e].
      * destruct IH as (texts & pads & last' & H1 & H2 & H3 & H4 & H5 & H6).
        exists (value :: texts), (pad :: pads), last'.
        repeat split.
        -- constructor; assumption.
        -- rewrite H2, Ht. cbn [concat]. rewrite <- app_assoc. reflexivity.
        -- cbn [length]. rewrite H3. reflexivity.
        -- constructor; assumption.
        -- exact H5.
        -- rewrite H6, Ht'. cbn [interleave]. rewrite <- !app_assoc. reflexivity.
      * exact IH.
    + rewrite Hstep. reflexivity.
Qed.

Lemma root_test :
  forall t : havJSONToken,
    negb (tok_eqb t LeftCurlyBracket) && negb (tok_eqb t LeftSquareBracket)
    = negb (is_left t).
Proof. intros t. destruct t; reflexivity. Qed.

(** X13: formatting changes nothing but white space between the tokens.
    With [formatted == false] the writer is the compact writer.  With
    [formatted == true] it fails where the compact writer fails, and
    where the compact writer returns the texts of the tokens one after
    the other, it returns the same texts in the same order, each with a
    run of line feeds and spaces (possibly empty) in front of it. *)
Theorem formatting_adds_blanks_only :
  forall valueNode : havJSONData,
    ConvertJSONToString_formatted valueNode false = ConvertJSONToString valueNode
    /\ match ConvertJSONToString valueNode with
       | Ok (Some text) =>
           exists (tokens : list havJSONTokenValue) (texts pads : list (list Z)),
             Tokenization_value valueNode = Ok tokens
             /\ Forall2 (fun token x => token_text token = Ok x) tokens texts
             /\ text = concat texts
             /\ length pads = length texts
             /\ Forall (Forall blank) pads
             /\ ConvertJSONToString_formatted valueNode true
                = Ok (Some (interleave pads texts))
       | Ok None => ConvertJSONToString_formatted valueNode true = Ok None
       | Throw e => ConvertJSONToString_formatted valueNode true = Throw e
       end.
Proof.
  intros valueNode. unfold ConvertJSONToString_formatted, ConvertJSONToString.
  destruct (Tokenization_value valueNode) as [tokens | e]; cbn [bind];
    [ | split; reflexivity ].
  destruct tokens as [| first rest]; [ split; reflexivity | ].
  rewrite root_test.
  destruct (is_left (mToken first)) eqn:Hleft; cbn [negb]; [ | split; reflexivity ].
  set (currentType :=
         if tok_eqb (mToken first) LeftSquareBracket then DT_Array
         else if tok_eqb (mToken first) LeftCurlyBracket then DT_Object else DT_Null).
  rewrite (steps_compact (first :: rest) [] 0 None_ currentType []).
  pose proof (steps_formatted (first :: rest)
                (mkWriterState [] 0 None_ currentType [])
                (mkWriterState [] 0 None_ currentType []) eq_refl) as H.
  destruct (ConvertJSONToString_steps false (first :: rest)
              (mkWriterState [] 0 None_ currentType [])) as [last | e]; cbn [bind].
  - split; [ reflexivity | ].
    destruct H as (texts & pads & last' & H1 & H2 & H3 & H4 & H5 & H6).
    exists (first :: rest), texts, pads.
    split; [ reflexivity | ]. split; [ exact H1 | ].
    split; [ exact H2 | ]. split; [ exact H3 | ]. split; [ exact H4 | ].
    rewrite H5. cbn [bind]. rewrite H6. reflexivity.
  - split; [ reflexivity | ]. rewrite H. reflexivity.
Qed.
(** * Objects in a text: the order and the repetition of keys *)

(** The map the builder fills from the entries of the text, in the order
    of the text. *)
Definition inserted (dm : DataModel) (acc : list (list Z * havJSONData))
    (m : list (list Z * scalar)) : list (list Z * havJSONData) :=
  fold_left (fun acc e => map_insert (fst e) (node_of dm (snd e)) acc) m acc.

(** The first entry of the text with the key. *)
Fixpoint first_with (key : list Z) (m : list (list Z * scalar)) : option scalar :=
  match m with
  | [] => None
  | (k, sc) :: m' => if list_eqb k key then Some sc else first_with key m'
  end.

Lemma inserted_sorted :
  forall (dm : DataModel) (m : list (list Z * scalar))
         (acc : list (list Z * havJSONData)),
    sorted_keys acc -> sorted_keys (inserted dm acc m).
Proof.
  intros dm. induction m as [| [k sc] m IH]; intros acc H; [ exact H | ].
  cbn [inserted fold_left fst snd]. apply IH. apply map_insert_sorted. exact H.
Qed.

Lemma list_eqb_false :
  forall a b : list Z, a <> b -> list_eqb a b = false.
Proof.
  intros a b H. destruct (list_eqb a b) eqn:E; [ | reflexivity ].
  exfalso. apply H. apply list_eqb_eq. exact E.
Qed.

Lemma find_inserted :
  forall (dm : DataModel) (key : list Z) (m : list (list Z * scalar))
         (acc : list (list Z * havJSONData)),
    sorted_keys acc ->
    map_find key (inserted dm acc m)
    = match map_find key acc with
      | Some v => Some v
      | None => option_map (node_of dm) (first_with key m)
      end.
Proof.
  intros dm key. induction m as [| [k sc] m IH]; intros acc Hacc.
  - cbn [inserted fold_left first_with option_map]. destruct (map_find key acc); reflexivity.
  - cbn [inserted fold_left fst snd first_with].
    change (fold_left (fun acc e => map_insert (fst e) (node_of dm (snd e)) acc) m
              (map_insert k (node_of dm sc) acc))
      with (inserted dm (map_insert k (node_of dm sc) acc) m).
    rewrite (IH _ (map_insert_sorted _ k (node_of dm sc) acc Hacc)).
    destruct (list_eq_dec Z.eq_dec k key) as [-> | Hne].
    + rewrite list_eqb_refl. cbn [option_map].
      destruct (map_find key acc) as [old |] eqn:Ef.
      * rewrite (map_insert_present _ key (node_of dm sc) old acc Hacc Ef), Ef.
        reflexivity.
      * rewrite (map_find_insert_same _ key (node_of dm sc) acc Ef). reflexivity.
    + rewrite (list_eqb_false k key Hne).
      rewrite (map_find_insert_other _ k key (node_of dm sc) acc
                 (fun E => Hne (eq_sym E))).
      reflexivity.
Qed.

Lemma ParseJSONContents_loop_entries :
  forall (dm : DataModel) (m : list (list Z * scalar)) (prev : scalar) (fuel : nat)
         (acc : list (list Z * havJSONData)),
    Forall valid_entry m ->
    (2 * length m + 1 < fuel)%nat ->
    exists st : BuilderState,
      ParseJSONContents_loop dm fuel
        (mkBuilderState (lexed_object_tail dm prev m) [[]]
           (Some (Data DT_Object (V_map acc))))
      = Ok (Some st)
      /\ rootNode st = Some (Data DT_Object (V_map (inserted dm acc m))).
Proof.
  intros dm. induction m as [| [k sc] m IH]; intros prev fuel acc Hm Hfuel.
  - cbn [lexed_object_tail inserted fold_left].
    destruct fuel as [| [| fuel]]; try (cbn in Hfuel; lia).
    destruct (is_integer prev).
    + eexists. split; reflexivity.
    + eexists. split; reflexivity.
  - inversion Hm as [| ? ? [Hk Hsc] Hm']; subst. cbn [fst snd] in Hk, Hsc.
    destruct fuel as [| [| fuel]]; try (cbn in Hfuel; lia).
    cbn [lexed_object_tail fst snd].
    cbn [ParseJSONContents_loop b_mTokens].
    rewrite ParseJSONContents_body_comma. cbn [bind b_mTokens].
    unfold name_token at 1.
    rewrite (ParseJSONContents_body_object_pair dm k (token_of dm sc) (node_of dm sc)
               _ acc (token_of_value dm sc) (make_value_scalar dm sc Hsc)).
    cbn [bind].
    destruct (IH sc fuel (map_insert k (node_of dm sc) acc) Hm') as (st & Hloop & Hroot).
    { cbn [length] in Hfuel. lia. }
    exists st. split; [ exact Hloop | ].
    rewrite Hroot. reflexivity.
Qed.

Lemma ParseJSONContents_entries :
  forall (dm : DataModel) (k : list Z) (sc : scalar) (m : list (list Z * scalar)),
    valid_scalar sc ->
    Forall valid_entry m ->
    ParseJSONContents dm (object_lexed dm k sc m)
    = Ok (Some (Data DT_Object (V_map (inserted dm [] ((k, sc) :: m))))).
Proof.
  intros dm k sc m Hsc Hm. unfold ParseJSONContents, object_lexed.
  cbn [mToken structural is_left havJSONToken_eqb orb negb].
  cbn [ParseJSONContents_loop b_mTokens].
  rewrite (ParseJSONContents_body_object_open dm k (token_of dm sc) (node_of dm sc) _
             (token_of_value dm sc) (make_value_scalar dm sc Hsc)).
  cbn [bind].
  destruct (ParseJSONContents_loop_entries dm m sc
              (length (structural LeftCurlyBracket :: name_token k
                         :: structural Colon :: token_of dm sc
                         :: lexed_object_tail dm sc m))
              [(k, node_of dm sc)] Hm)
    as (st & Hloop & Hroot).
  - cbn [length]. pose proof (lexed_object_tail_length dm sc m). lia.
  - rewrite Hloop. cbn [bind]. rewrite Hroot. reflexivity.
Qed.

(** X14: an object in a text may list its keys in any order and repeat
    them.  For a flat object with plain keys and scalar values, read from
    its compact text, the parse succeeds; the object has its keys in
    increasing order, and under each key the value of the first entry of
    the text with that key: a repeated key does not replace the value. *)
Theorem object_text_first_key_wins :
  forall (dm : DataModel) (k : list Z) (sc : scalar) (m : list (list Z * scalar)),
    plain_string k = true ->
    valid_scalar sc ->
    Forall valid_entry m ->
    exists object : list (list Z * havJSONData),
      ParseContent dm (object_text k sc m) = Ok (true, Data DT_Object (V_map object))
      /\ sorted_keys object
      /\ forall key : list Z,
           map_find key object
           = option_map (node_of dm) (first_with key ((k, sc) :: m)).
Proof.
  intros dm k sc m Hk Hsc Hm.
  exists (inserted dm [] ((k, sc) :: m)). split; [ | split ].
  - unfold ParseContent. rewrite (Tokenization_object dm k sc m Hk Hsc Hm).
    cbn [bind]. unfold object_lexed at 1.
    change (match
              structural LeftCurlyBracket :: name_token k :: structural Colon
                :: token_of dm sc :: lexed_object_tail dm sc m
            with
            | [] => Ok None
            | _ :: _ => ParseJSONContents dm (object_lexed dm k sc m)
            end)
      with (ParseJSONContents dm (object_lexed dm k sc m)).
    rewrite (ParseJSONContents_entries dm k sc m Hsc Hm). reflexivity.
  - apply inserted_sorted. constructor.
  - intros key. rewrite find_inserted; [ reflexivity | constructor ].
Qed.

Lemma object_text_first_key_wins_witness :
  exists object : list (list Z * havJSONData),
    ParseContent LP64
      (object_text (str "b") (Sc_integer 1)
         [(str "a", Sc_string (str "x")); (str "b", Sc_integer 2)])
    = Ok (true, Data DT_Object (V_map object))
    /\ sorted_keys object
    /\ forall key : list Z,
         map_find key object
         = option_map (node_of LP64)
             (first_with key
                [(str "b", Sc_integer 1); (str "a", Sc_string (str "x"));
                 (str "b", Sc_integer 2)]).
Proof.
  apply (object_text_first_key_wins LP64 (str "b") (Sc_integer 1)
           [(str "a", Sc_string (str "x")); (str "b", Sc_integer 2)]).
  - reflexivity.
  - cbn [valid_scalar]. lia.
  - repeat constructor; cbn [snd valid_scalar]; lia.
Defined.
(** * Blank texts and the start of a JSON file *)

Lemma at_nth_error :
  forall (s : list Z) (i : Z),
    0 <= i < size s -> nth_error s (Z.to_nat i) = Some (at_ s i).
Proof.
  intros s i Hi. unfold at_, size in *.
  apply nth_error_nth'. lia.
Qed.

Lemma Tokenization_loop_blank :
  forall (dm : DataModel) (s : list Z),
    Forall (fun c => SkipWhitespaces c false = true) s ->
    forall (fuel : nat) (index : Z) (st : LexerState),
      0 <= index ->
      (Z.to_nat (size s - index) < fuel)%nat ->
      Tokenization_loop dm fuel s index st = Ok st.
Proof.
  intros dm s Hs.
  induction fuel as [| fuel IH]; intros index st Hi Hfuel; [ lia | ].
  cbn [Tokenization_loop].
  destruct (Z.leb_spec (size s) index) as [Hend | Hin]; [ reflexivity | ].
  assert (Hc : SkipWhitespaces (at_ s index) false = true).
  { rewrite Forall_forall in Hs. apply Hs.
    apply (nth_error_In s (Z.to_nat index)). apply at_nth_error. lia. }
  unfold Tokenization_body. rewrite Hc. cbn [bind].
  apply IH; lia.
Qed.

(** X15: a text in which every character is one that [SkipWhitespaces]
    skips, the empty text included, has no token, and [ParseContent]
    returns false for it and leaves a null value. *)
Theorem blank_text_is_not_parsed :
  forall (dm : DataModel) (fileContents : list Z),
    Forall (fun c => SkipWhitespaces c false = true) fileContents ->
    Tokenization dm fileContents = Ok []
    /\ ParseContent dm fileContents = Ok (false, havJSONData_of_type DT_Null).
Proof.
  intros dm s Hs.
  assert (Ht : Tokenization dm s = Ok []).
  { unfold Tokenization.
    rewrite (Tokenization_loop_blank dm s Hs); [ reflexivity | lia | ].
    unfold size. lia. }
  split; [ exact Ht | ].
  unfold ParseContent. rewrite Ht. reflexivity.
Qed.

Lemma blank_text_is_not_parsed_witness :
  Tokenization LP64 [ch " "; ch_n; ch_t; ch " "; ch_r; ch_n] = Ok []
  /\ ParseContent LP64 [ch " "; ch_n; ch_t; ch " "; ch_r; ch_n]
     = Ok (false, havJSONData_of_type DT_Null).
Proof.
  apply (blank_text_is_not_parsed LP64 [ch " "; ch_n; ch_t; ch " "; ch_r; ch_n]).
  repeat constructor.
Defined.

(** ** The first bytes of a file *)

Lemma read_units_all :
  forall (width : Z) (units : list Z) (skippedBytes : Z) (contents : list Z),
    read_units width units 0 skippedBytes contents = contents ++ units.
Proof.
  intros width. induction units as [| c units IH]; intros skippedBytes contents.
  - cbn [read_units]. rewrite app_nil_r. reflexivity.
  - cbn [read_units]. change (0 <? 0) with false. cbn [andb].
    rewrite IH, <- app_assoc. reflexivity.
Qed.

Lemma find_bom_ascii :
  forall b0 b1 b2 b3 : Z,
    0 < b0 < 0x80 -> 0 < b1 < 0x80 ->
    find_bom b0 b1 b2 b3 = (BOM_None, 0) /\ guess_encoding b0 b1 b2 b3 = BOM_None.
Proof.
  intros b0 b1 b2 b3 H0 H1. unfold find_bom, guess_encoding.
  destruct (Z.eqb_spec b0 0xff); [ lia | ].
  destruct (Z.eqb_spec b0 0x00); [ lia | ].
  destruct (Z.eqb_spec b0 0xfe); [ lia | ].
  destruct (Z.eqb_spec b0 0xef); [ lia | ].
  destruct (Z.eqb_spec b1 0x00); [ lia | ].
  cbn [andb negb]. split; reflexivity.
Qed.

(** X16: what [ParseFile] reads of a JSON file.  An empty file is
    refused.  A file of at least four bytes that starts with the UTF-8
    byte-order mark is parsed without the mark; a file of fewer than four
    bytes is not inspected, and a file that starts with two ASCII
    characters has no mark and no zero bytes in the places of the other
    encodings: both are parsed as they are. *)
Theorem ParseFile_skips_the_UTF8_mark :
  forall (dm : DataModel) (to_bytes_u16 to_bytes_u32 : list Z -> result (list Z))
         (text : list Z),
    ParseFile_JSON dm to_bytes_u16 to_bytes_u32 []
    = Ok (false, havJSONData_of_type DT_Null)
    /\ (text <> [] ->
        ParseFile_JSON dm to_bytes_u16 to_bytes_u32 (0xef :: 0xbb :: 0xbf :: text)
        = ParseContent dm text)
    /\ (text <> [] -> size text < 4 ->
        ParseFile_JSON dm to_bytes_u16 to_bytes_u32 text = ParseContent dm text)
    /\ (forall (b0 b1 : Z) (rest : list Z),
           text = b0 :: b1 :: rest -> 0 < b0 < 0x80 -> 0 < b1 < 0x80 ->
           ParseFile_JSON dm to_bytes_u16 to_bytes_u32 text = ParseContent dm text).
Proof.
  intros dm u16 u32 text. split; [ reflexivity | ]. split; [ | split ].
  - intros Hne. destruct text as [| c text]; [ contradiction | ].
    unfold ParseFile_JSON.
    assert (Hsz : size (0xef :: 0xbb :: 0xbf :: c :: text) = 4 + size text)
      by (unfold size; cbn [length]; lia).
    assert (0 <= size text) by (unfold size; lia).
    rewrite Hsz.
    destruct (Z.eqb_spec (4 + size text) 0); [ lia | ].
    destruct (Z.leb_spec 4 (4 + size text)); [ | lia ].
    change (at_ (0xef :: 0xbb :: 0xbf :: c :: text) 0) with 0xef.
    change (at_ (0xef :: 0xbb :: 0xbf :: c :: text) 1) with 0xbb.
    change (at_ (0xef :: 0xbb :: 0xbf :: c :: text) 2) with 0xbf.
    cbv zeta.
    change (find_bom 0xef 0xbb 0xbf (at_ (0xef :: 0xbb :: 0xbf :: c :: text) 3))
      with (BOM_UTF8, 3).
    cbv beta iota.
    cbn [read_units]. change (0 <? 3) with true. change (0 + 1 <? 3) with true.
    change (0 + 1 + 1 <? 3) with true. change (0 + 1 + 1 + 1 <? 3) with false.
    cbn [andb app]. 
    assert (Hrest :
      forall (units contents : list Z),
        read_units 1 units 3 (0 + 1 + 1 + 1) contents = contents ++ units).
    { induction units as [| u units IH]; intros contents.
      - cbn [read_units]. rewrite app_nil_r. reflexivity.
      - cbn [read_units]. change (0 + 1 + 1 + 1 <? 3) with false. cbn [andb].
        rewrite IH, <- app_assoc. reflexivity. }
    rewrite Hrest. cbn [bind app]. reflexivity.
  - intros Hne Hsmall. unfold ParseFile_JSON.
    assert (0 < size text) by (destruct text; [ contradiction | unfold size; cbn [length]; lia ]).
    destruct (Z.eqb_spec (size text) 0); [ lia | ].
    destruct (Z.leb_spec 4 (size text)); [ lia | ].
    cbv beta iota. rewrite read_units_all. cbn [bind app]. reflexivity.
  - intros b0 b1 rest -> H0 H1. unfold ParseFile_JSON.
    assert (Hsz : 2 <= size (b0 :: b1 :: rest)) by (unfold size; cbn [length]; lia).
    destruct (Z.eqb_spec (size (b0 :: b1 :: rest)) 0); [ lia | ].
    destruct (Z.leb_spec 4 (size (b0 :: b1 :: rest))).
    + change (at_ (b0 :: b1 :: rest) 0) with b0.
      change (at_ (b0 :: b1 :: rest) 1) with b1.
      cbv zeta.
      destruct (find_bom_ascii b0 b1 (at_ (b0 :: b1 :: rest) 2)
                  (at_ (b0 :: b1 :: rest) 3) H0 H1) as [-> ->].
      cbv beta iota. rewrite read_units_all. cbn [bind app]. reflexivity.
    + cbv beta iota. rewrite read_units_all. cbn [bind app]. reflexivity.
Qed.
(** * What the lexer and the binary decoder refuse *)

(** ** Strings that do not end *)

Lemma CheckForString_loop_prefix :
  forall (p : list Z) (fuel : nat) (s : list Z) (index : Z) (tempValue tail : list Z),
    plain_string p = true ->
    0 <= index ->
    from index s = p ++ tail ->
    CheckForString_loop (length p + fuel) s index tempValue
    = CheckForString_loop fuel s (index + size p) (tempValue ++ p).
Proof.
  induction p as [| c p IH]; intros fuel s index tempValue tail Hp Hi Hfrom.
  - cbn [length Nat.add]. change (size []) with 0.
    rewrite Z.add_0_r, app_nil_r. reflexivity.
  - cbn [plain_string forallb] in Hp. apply andb_prop in Hp. destruct Hp as [Hc Hp].
    cbn [app] in Hfrom. cbn [length Nat.add CheckForString_loop].
    read_char Hfrom Hat Hsz. rewrite Hsz.
    unfold CheckForString_body. rewrite Hat.
    destruct (plain_char_spec c Hc) as (_ & Hq & Hb).
    destruct (Z.eqb_spec c DQ) as [E | _]; [ exfalso; apply Hq; exact E | ].
    destruct (Z.eqb_spec c (ch "\")) as [E | _]; [ exfalso; apply Hb; exact E | ].
    cbn [bind].
    rewrite (IH fuel s (index + 1) (tempValue ++ [c]) tail Hp ltac:(lia) Hfrom).
    rewrite <- app_assoc. cbn [app].
    replace (index + 1 + size p) with (index + size (c :: p))
      by (unfold size; cbn [length]; lia).
    reflexivity.
Qed.

(** The characters that may follow a backslash. *)
Definition escape_character (c : Z) : bool :=
  (c =? DQ) || (c =? ch "\") || (c =? ch "/") || (c =? ch "b") || (c =? ch "f")
  || (c =? ch "n") || (c =? ch "r") || (c =? ch "t") || (c =? ch "u") || (c =? ch "v").

(** X17: strings the lexer refuses.  After an opening quote and any
    plain characters, the end of the text is [Invalid string value!], a
    backslash at the end of the text is [Read beyond end of file!], and
    a backslash before a character that is none of the ten escape
    characters is [Invalid escape character!]. *)
Theorem unfinished_strings_are_refused :
  forall (p : list Z) (c : Z) (rest : list Z),
    plain_string p = true ->
    CheckForString 0 (DQ :: p) = Throw (runtime_error "Invalid string value!")
    /\ CheckForString 0 (DQ :: p ++ [ch "\"])
       = Throw (runtime_error "Read beyond end of file!")
    /\ (escape_character c = false ->
        CheckForString 0 (DQ :: p ++ ch "\" :: c :: rest)
        = Throw (runtime_error "Invalid escape character!")).
Proof.
  intros p c rest Hp.
  assert (Hstart :
    forall tail : list Z,
      CheckForString 0 (DQ :: p ++ tail)
      = CheckForString_loop (S (S (length tail))) (DQ :: p ++ tail) (1 + size p) p).
  { intros tail. unfold CheckForString.
    replace (S (length (DQ :: p ++ tail)))
      with (length p + S (S (length tail)))%nat
      by (cbn [length]; rewrite length_app; lia).
    rewrite (CheckForString_loop_prefix p _ (DQ :: p ++ tail) (0 + 1) [] tail Hp);
      [ reflexivity | lia | reflexivity ]. }
  assert (Hfrom :
    forall tail : list Z, from (1 + size p) (DQ :: p ++ tail) = tail).
  { intros tail.
    replace (1 + size p) with (0 + size (DQ :: p))
      by (unfold size; cbn [length]; lia).
    apply (from_app (DQ :: p) (DQ :: p ++ tail) 0 tail); [ lia | reflexivity ]. }
  assert (Hpos : 0 <= size p) by (unfold size; lia).
  split; [ | split ].
  - pose proof (Hstart []) as H. rewrite app_nil_r in H. rewrite H.
    cbn [CheckForString_loop].
    pose proof (Hfrom []) as F. rewrite app_nil_r in F.
    assert (Hi : 0 <= 1 + size p) by lia.
    rewrite (from_nil _ _ Hi F). reflexivity.
  - rewrite Hstart. pose proof (Hfrom [ch "\"]) as F.
    cbn [CheckForString_loop]. read_char F A0 S0. rewrite S0.
    unfold CheckForString_body. rewrite A0.
    change (ch "\" =? DQ) with false. change (ch "\" =? ch "\") with true.
    cbv iota.
    assert (Hi : 0 <= 1 + size p + 1) by lia.
    rewrite (from_nil _ _ Hi F). reflexivity.
  - intros Hc. rewrite Hstart. pose proof (Hfrom (ch "\" :: c :: rest)) as F.
    cbn [CheckForString_loop]. read_char F A0 S0. rewrite S0.
    read_char F A1 S1.
    unfold CheckForString_body. rewrite A0.
    change (ch "\" =? DQ) with false. change (ch "\" =? ch "\") with true.
    cbv iota. rewrite S1, A1.
    unfold escape_character in Hc.
    repeat (apply orb_false_elim in Hc; destruct Hc as [Hc ?]).
    repeat match goal with
           | E : (c =? _) = false |- _ => rewrite E; clear E
           end.
    reflexivity.
Qed.

Lemma unfinished_strings_are_refused_witness :
  CheckForString 0 (DQ :: str "abc") = Throw (runtime_error "Invalid string value!")
  /\ CheckForString 0 (DQ :: str "abc" ++ [ch "\"])
     = Throw (runtime_error "Read beyond end of file!")
  /\ CheckForString 0 (DQ :: str "abc" ++ ch "\" :: ch "x" :: str "yz")
     = Throw (runtime_error "Invalid escape character!").
Proof.
  destruct (unfinished_strings_are_refused (str "abc") (ch "x") (str "yz") eq_refl)
    as (H1 & H2 & H3).
  split; [ exact H1 | split; [ exact H2 | exact (H3 eq_refl) ] ].
Defined.

(** ** Documents the binary decoder refuses *)

(** The type bytes with a [case] in the [switch] of the decoder. *)
Definition supported_type (t : Z) : bool :=
  (t =? BSON_NullValue) || (t =? BSON_Boolean) || (t =? BSON_Int)
  || (t =? BSON_Timestamp) || (t =? BSON_UTCDateTime) || (t =? BSON_Int64)
  || (t =? BSON_Double) || (t =? BSON_JSCode) || (t =? BSON_String)
  || (t =? BSON_Array) || (t =? BSON_BinaryData).

Lemma little_endian_four :
  forall (b0 b1 b2 b3 : Z) (rest : list Z),
    little_endian 4 (b0 :: b1 :: b2 :: b3 :: rest) 0
    = Ok (b0 + 256 * (b1 + 256 * (b2 + 256 * (b3 + 256 * 0)))).
Proof.
  intros b0 b1 b2 b3 rest. cbn [little_endian].
  unfold byte_at, size. cbn [length]. rewrite !Nat2Z.inj_succ.
  assert (Hlen : 0 <= Z.of_nat (length rest)) by lia.
  repeat match goal with
         | |- context [(0 <=? ?a) && (?a <=? ?b)] =>
             replace ((0 <=? a) && (a <=? b)) with true
               by (symmetry; apply andb_true_iff; split; apply Z.leb_le; lia)
         end.
  reflexivity.
Qed.

(** X18: documents [ParseFile] refuses to decode.  A document whose
    length field has its top bit set is refused with [Value size can't be
    negative!]; a document of more than five bytes whose first element
    has a type byte without a [case] in the decoder (an embedded document
    [0x03], an ObjectId [0x07], ...) is refused with [Unsupported
    type!]. *)
Theorem decoder_refuses :
  forall (dm : DataModel) (b0 b1 b2 b3 t : Z) (rest : list Z),
    0 <= b0 < 256 -> 0 <= b1 < 256 -> 0 <= b2 < 256 -> 0 <= b3 < 256 ->
    let document := b0 :: b1 :: b2 :: b3 :: t :: rest in
    let totalDocumentSize := b0 + 256 * b1 + 65536 * b2 + 16777216 * b3 in
    (128 <= b3 ->
     ParseFile_BSON dm document = Throw (runtime_error "Value size can't be negative!"))
    /\ (b3 < 128 -> 5 < totalDocumentSize -> supported_type t = false ->
        ParseFile_BSON dm document = Throw (runtime_error "Unsupported type!")).
Proof.
  intros dm b0 b1 b2 b3 t rest H0 H1 H2 H3 document totalDocumentSize.
  assert (Hsize : GetBSONValueSize document 0
                  = if 128 <=? b3
                    then Throw (runtime_error "Value size can't be negative!")
                    else Ok (totalDocumentSize, 4)).
  { unfold GetBSONValueSize, document. rewrite little_endian_four. cbn [bind].
    replace (b0 + 256 * (b1 + 256 * (b2 + 256 * (b3 + 256 * 0))))
      with totalDocumentSize by (unfold totalDocumentSize; lia).
    unfold to_signed. compute_powers.
    assert (Hrange : 0 <= totalDocumentSize < 4294967296)
      by (unfold totalDocumentSize; lia).
    rewrite (Z.mod_small _ _ Hrange).
    destruct (Z.leb_spec 128 b3) as [Hneg | Hpos].
    - destruct (Z.ltb_spec totalDocumentSize 2147483648);
        [ unfold totalDocumentSize in *; lia | ].
      destruct (Z.ltb_spec (totalDocumentSize - 4294967296) 0); [ reflexivity | lia ].
    - destruct (Z.ltb_spec totalDocumentSize 2147483648);
        [ | unfold totalDocumentSize in *; lia ].
      destruct (Z.ltb_spec totalDocumentSize 0); [ lia | reflexivity ]. }
  split.
  - intros Hneg. unfold ParseFile_BSON, document. fold document.
    unfold ConvertBSONToJSON. rewrite Hsize.
    destruct (Z.leb_spec 128 b3); [ reflexivity | lia ].
  - intros Hpos Hlong Ht. unfold ParseFile_BSON, document. fold document.
    unfold ConvertBSONToJSON. rewrite Hsize.
    destruct (Z.leb_spec 128 b3); [ lia | ]. cbn [bind].
    destruct (Z.to_nat totalDocumentSize) as [| fuel] eqn:Efuel; [ lia | ].
    cbn [ConvertBSONToJSON_loop d_index typeMemory jsonContent].
    destruct (Z.leb_spec totalDocumentSize 4); [ lia | ].
    destruct (Z.eqb_spec (4 + 1) totalDocumentSize); [ lia | ].
    cbn [back bind].
    assert (Hbyte : byte_at document 4 = Ok t).
    { unfold byte_at, document, size. cbn [length].
      replace ((0 <=? 4) && (4 <=? Z.of_nat (S (S (S (S (S (length rest))))))))
        with true by (symmetry; apply andb_true_iff; split; apply Z.leb_le; lia).
      reflexivity. }
    rewrite Hbyte. cbn [bind].
    unfold supported_type in Ht.
    repeat (apply orb_false_elim in Ht; destruct Ht as [Ht ?]).
    unfold decode_element.
    repeat match goal with
           | E : (t =? _) = false |- _ => rewrite E; clear E
           end.
    reflexivity.
Qed.

Lemma decoder_refuses_witness :
  ParseFile_BSON LP64 [0x10; 0; 0; 0x80; 0x03; ch "a"; 0; 5; 0; 0; 0; 0; 0; 0; 0; 0]
  = Throw (runtime_error "Value size can't be negative!")
  /\ ParseFile_BSON LP64 [0x10; 0; 0; 0; 0x03; ch "a"; 0; 5; 0; 0; 0; 0; 0; 0; 0; 0]
     = Throw (runtime_error "Unsupported type!").
Proof.
  split.
  - apply (decoder_refuses LP64 0x10 0 0 0x80 0x03
             [ch "a"; 0; 5; 0; 0; 0; 0; 0; 0; 0; 0]); lia.
  - apply (decoder_refuses LP64 0x10 0 0 0 0x03
             [ch "a"; 0; 5; 0; 0; 0; 0; 0; 0; 0; 0]); try lia. reflexivity.
Defined.
(** * Formatted texts of flat values, written and read back *)

(** ** The lexer across white space *)

(** A character the lexer skips between tokens. *)
Definition skipped (c : Z) : Prop := SkipWhitespaces c false = true.

(** What stops the number scanner: a comma, a skipped character or the
    end of the text. *)
Definition stops (rest : list Z) : Prop :=
  match rest with
  | c :: _ => ((c =? ch ",") || SkipWhitespaces c false) = true
  | [] => True
  end.

Lemma CheckForNumber_integer_stop :
  forall (dm : DataModel) (x index : Z) (s : list Z) (c0 : Z) (tl rest : list Z),
    - 2 ^ 63 <= x <= 2 ^ 64 - 1 ->
    to_string x = c0 :: tl ->
    0 <= index ->
    from index s = tl ++ rest ->
    stops rest ->
    CheckForNumber dm index s c0
    = Ok (TokenValue (number_kind dm x) (Some (to_string x)), index + size tl - 1).
Proof.
  intros dm x index s c0 tl rest Hx Hs Hi Hfrom Hstop.
  assert (Hx' : - 10 ^ 20 < x < 10 ^ 20) by lia.
  pose proof (to_string_chars x) as Hchars. rewrite Hs in Hchars.
  inversion Hchars as [| ? ? Hc0 Htl]; subst.
  destruct (to_string_head x Hx') as (c0' & tl' & Hs' & Hminus & _).
  rewrite Hs in Hs'. inversion Hs'; subst c0' tl'. clear Hs'.
  unfold CheckForNumber. rewrite Hfrom.
  rewrite CheckForNumber_loop_app
    by (eapply Forall_impl; [ apply decimal_number_char | exact Htl ]).
  assert (Hloop : CheckForNumber_loop rest (index + size tl) ([c0] ++ tl)
                  = (index + size tl, [c0] ++ tl)).
  { destruct rest as [| c rest]; [ reflexivity | ].
    cbn [stops] in Hstop. cbn [CheckForNumber_loop]. rewrite Hstop. reflexivity. }
  rewrite Hloop.
  replace ([c0] ++ tl) with (to_string x) by (rewrite Hs; reflexivity).
  assert (Hat : at_ (to_string x) 0 = c0) by (rewrite Hs; reflexivity).
  rewrite Hat, Hminus.
  assert (Hfloat : forall c, isdigit c = false -> c <> ch "-" ->
                             contains c (to_string x) = false).
  { intros d Hd Hm.
    apply contains_decimal; [ rewrite Hs; exact Hchars | exact Hd | exact Hm ]. }
  rewrite (Hfloat (ch ".")), (Hfloat (ch "e")), (Hfloat (ch "E"));
    try reflexivity; try discriminate.
  cbn [orb].
  unfold stoi, stol, stoll, stoul, stoull.
  rewrite <- (app_nil_r (to_string x)).
  rewrite !(sto_signed_to_string _ x [] Hx' I).
  unfold number_kind, UINT_MAX.
  destruct (Z.ltb_spec x 0) as [Hneg | Hpos].
  - destruct dm; cbn [long_bits]; compute_powers; decide_comparisons;
      rewrite ?app_nil_r; reflexivity.
  - rewrite !(sto_unsigned_to_string _ x [] ltac:(lia) I).
    destruct dm; cbn [long_bits]; compute_powers; decide_comparisons;
      rewrite ?app_nil_r; reflexivity.
Qed.

Lemma CheckValueToken_scalar_stop :
  forall (dm : DataModel) (sc : scalar) (s : list Z) (index c : Z) (tl rest : list Z),
    valid_scalar sc ->
    text_of sc = c :: tl ->
    0 <= index ->
    from index s = text_of sc ++ rest ->
    stops rest ->
    CheckValueToken dm c index s = Ok (token_of dm sc, index + size (text_of sc) - 1).
Proof.
  intros dm sc s index c tl rest Hv Hs Hi Hfrom Hstop.
  destruct (is_integer sc) eqn:Hint.
  - destruct sc as [| b | x | p]; try discriminate Hint.
    cbn [text_of valid_scalar token_of] in *.
    pose proof (to_string_chars x) as Hc. rewrite Hs in Hc.
    inversion Hc as [| ? ? Hc0 _]; subst.
    destruct (decimal_not_letter c Hc0) as (Hq & Ht & Hf & Hn).
    assert (Hsn : starts_number c = true).
    { unfold starts_number. destruct Hc0 as [H | ->]; [ rewrite H | reflexivity ].
      rewrite !orb_true_r. reflexivity. }
    unfold CheckValueToken. rewrite Hq, Ht, Hf, Hn. cbn [bind]. rewrite Hsn.
    rewrite Hs in Hfrom. cbn [app] in Hfrom. read_char Hfrom Hat Hsz.
    rewrite (CheckForNumber_integer_stop dm x (index + 1) s c tl rest Hv Hs
               ltac:(lia) Hfrom Hstop).
    rewrite Hs. unfold size. cbn [length]. do 2 f_equal. lia.
  - rewrite (CheckValueToken_scalar dm sc s index c tl rest Hv Hs Hi Hfrom).
    + unfold taken. rewrite Hint. change (size []) with 0. do 2 f_equal. lia.
    + intros E. rewrite Hint in E. discriminate E.
Qed.

Lemma CheckTypeToken_array_gap :
  forall (dm : DataModel) (ws rest : list Z) (index : Z) (s : list Z)
         (mTokens : list havJSONTokenValue),
    Forall skipped ws ->
    CheckTypeToken_array dm (ws ++ rest) index s mTokens
    = CheckTypeToken_array dm rest (index + size ws) s mTokens.
Proof.
  intros dm. induction ws as [| c ws IH]; intros rest index s mTokens H.
  - change (size []) with 0. rewrite Z.add_0_r. reflexivity.
  - inversion H as [| ? ? Hc Hws]; subst. cbn [app CheckTypeToken_array].
    unfold skipped in Hc. rewrite Hc. rewrite (IH rest _ s mTokens Hws).
    f_equal. unfold size. cbn [length]. lia.
Qed.

Lemma CheckTypeToken_object_gap :
  forall (ws rest : list Z) (index : Z) (s : list Z)
         (mTokens : list havJSONTokenValue),
    Forall skipped ws ->
    CheckTypeToken_object (ws ++ rest) index s mTokens
    = CheckTypeToken_object rest (index + size ws) s mTokens.
Proof.
  induction ws as [| c ws IH]; intros rest index s mTokens H.
  - change (size []) with 0. rewrite Z.add_0_r. reflexivity.
  - inversion H as [| ? ? Hc Hws]; subst. cbn [app CheckTypeToken_object].
    unfold skipped in Hc. rewrite Hc. rewrite (IH rest _ s mTokens Hws).
    f_equal. unfold size. cbn [length]. lia.
Qed.

Lemma CheckTypeToken_other_gap :
  forall (dm : DataModel) (kind : havJSONToken) (ws rest : list Z) (index : Z)
         (s : list Z) (mTokens : list havJSONTokenValue),
    Forall skipped ws ->
    CheckTypeToken_other dm kind (ws ++ rest) index s mTokens
    = CheckTypeToken_other dm kind rest (index + size ws) s mTokens.
Proof.
  intros dm kind. induction ws as [| c ws IH]; intros rest index s mTokens H.
  - change (size []) with 0. rewrite Z.add_0_r. reflexivity.
  - inversion H as [| ? ? Hc Hws]; subst. cbn [app CheckTypeToken_other].
    unfold skipped in Hc. rewrite Hc. rewrite (IH rest _ s mTokens Hws).
    f_equal. unfold size. cbn [length]. lia.
Qed.

(** [CheckTypeToken] called in front of white space goes on behind it. *)
Lemma CheckTypeToken_gap :
  forall (dm : DataModel) (kind : havJSONToken) (ws rest : list Z) (index : Z)
         (s : list Z) (mTokens : list havJSONTokenValue),
    Forall skipped ws ->
    0 <= index ->
    from index s = ws ++ rest ->
    CheckTypeToken dm kind index s mTokens
    = CheckTypeToken dm kind (index + size ws) s mTokens.
Proof.
  intros dm kind ws rest index s mTokens Hws Hi Hfrom.
  pose proof (from_app ws s index rest Hi Hfrom) as Hnext.
  unfold CheckTypeToken. rewrite Hfrom, Hnext.
  destruct kind;
    first [ apply CheckTypeToken_array_gap | apply CheckTypeToken_object_gap
          | apply CheckTypeToken_other_gap ]; exact Hws.
Qed.

(** The array branch and the last branch of [CheckTypeToken], in front
    of white space and a scalar. *)
Lemma CheckTypeToken_scalar_gap :
  forall (dm : DataModel) (kind : havJSONToken) (sc : scalar) (ws : list Z)
         (s : list Z) (index : Z) (rest : list Z) (mTokens : list havJSONTokenValue),
    kind = LeftSquareBracket \/ kind = Colon ->
    valid_scalar sc ->
    Forall skipped ws ->
    0 <= index ->
    from index s = ws ++ text_of sc ++ rest ->
    stops rest ->
    CheckTypeToken dm kind index s mTokens
    = Ok (token_of dm sc, index + size ws + size (text_of sc) - 1, mTokens).
Proof.
  intros dm kind sc ws s index rest mTokens Hkind Hv Hgap Hi Hfrom Hstop.
  rewrite (CheckTypeToken_gap dm kind ws _ index s mTokens Hgap Hi Hfrom).
  pose proof (from_app ws s index _ Hi Hfrom) as Hnext.
  assert (Hi' : 0 <= index + size ws) by (unfold size; lia).
  destruct (text_of_head sc Hv) as (c & tl & Hs & Hws & Htok & Hsv).
  unfold CheckTypeToken. pose proof Hnext as Hnext'. rewrite Hs in Hnext'.
  cbn [app] in Hnext'. rewrite Hnext'.
  destruct Hkind as [-> | ->].
  - cbn [CheckTypeToken_array]. rewrite Hws, Hsv.
    rewrite (CheckValueToken_scalar_stop dm sc s (index + size ws) c tl rest Hv Hs Hi'
               Hnext Hstop).
    reflexivity.
  - cbn [CheckTypeToken_other]. rewrite Hws, Htok, Hsv. cbn [havJSONToken_eqb].
    rewrite (CheckValueToken_scalar_stop dm sc s (index + size ws) c tl rest Hv Hs Hi'
               Hnext Hstop).
    reflexivity.
Qed.

(** The object branch, in front of white space and a key. *)
Lemma CheckTypeToken_key_gap :
  forall (dm : DataModel) (k ws : list Z) (s : list Z) (index : Z) (rest : list Z)
         (mTokens : list havJSONTokenValue),
    plain_string k = true ->
    Forall skipped ws ->
    0 <= index ->
    from index s = ws ++ key_text k ++ rest ->
    CheckTypeToken dm LeftCurlyBracket index s mTokens
    = Ok (name_token k, index + size ws + size (key_text k) - 1, mTokens).
Proof.
  intros dm k ws s index rest mTokens Hk Hgap Hi Hfrom.
  rewrite (CheckTypeToken_gap dm LeftCurlyBracket ws _ index s mTokens Hgap Hi Hfrom).
  pose proof (from_app ws s index _ Hi Hfrom) as Hnext.
  apply (CheckTypeToken_object_key dm k s (index + size ws) rest mTokens Hk);
    [ unfold size; lia | exact Hnext ].
Qed.

(** *** The iterations of the lexer *)

Lemma Tokenization_body_skip :
  forall (dm : DataModel) (s : list Z) (index : Z) (c : Z) (rest : list Z)
         (st : LexerState),
    skipped c ->
    0 <= index ->
    from index s = c :: rest ->
    Tokenization_body dm s index st = Ok (st, index).
Proof.
  intros dm s index c rest st Hc Hi Hfrom. read_char Hfrom Hat Hsz.
  unfold Tokenization_body. rewrite Hat. unfold skipped in Hc. rewrite Hc. reflexivity.
Qed.

Lemma Tokenization_body_array_open_gap :
  forall (dm : DataModel) (sc : scalar) (ws : list Z) (s : list Z) (index : Z)
         (rest : list Z),
    valid_scalar sc ->
    Forall skipped ws ->
    0 <= index ->
    from index s = ch "[" :: ws ++ text_of sc ++ rest ->
    stops rest ->
    Tokenization_body dm s index (mkLexerState [] None_ [] [] 0)
    = Ok (in_root LeftSquareBracket [structural LeftSquareBracket; token_of dm sc],
          index + size ws + size (text_of sc)).
Proof.
  intros dm sc ws s index rest Hv Hgap Hi Hfrom Hstop.
  read_char Hfrom Hat Hsz.
  unfold Tokenization_body. rewrite Hat.
  cbn -[Z.add Z.sub from at_ size CheckTypeToken text_of token_of].
  rewrite (CheckTypeToken_scalar_gap dm LeftSquareBracket sc ws s (index + 1) rest _
             (or_introl eq_refl) Hv Hgap ltac:(lia) Hfrom Hstop).
  cbn [bind]. value_token_facts dm sc. rewrite Hnone, Hleft. cbn [negb].
  unfold in_root. do 2 f_equal. lia.
Qed.

Lemma Tokenization_body_array_comma_gap :
  forall (dm : DataModel) (sc : scalar) (ws : list Z) (s : list Z) (index : Z)
         (rest : list Z) (mTokens : list havJSONTokenValue),
    valid_scalar sc ->
    Forall skipped ws ->
    0 <= index ->
    from index s = ch "," :: ws ++ text_of sc ++ rest ->
    stops rest ->
    Tokenization_body dm s index (in_root LeftSquareBracket mTokens)
    = Ok (in_root LeftSquareBracket (mTokens ++ [structural Comma; token_of dm sc]),
          index + size ws + size (text_of sc)).
Proof.
  intros dm sc ws s index rest mTokens Hv Hgap Hi Hfrom Hstop.
  read_char Hfrom Hat Hsz.
  unfold Tokenization_body. rewrite Hat.
  cbn -[Z.add Z.sub from at_ size CheckTypeToken text_of token_of].
  rewrite (CheckTypeToken_scalar_gap dm LeftSquareBracket sc ws s (index + 1) rest _
             (or_introl eq_refl) Hv Hgap ltac:(lia) Hfrom Hstop).
  cbn [bind]. value_token_facts dm sc. rewrite Hnone, Hleft. cbn [negb].
  unfold in_root, push_back. rewrite <- app_assoc. cbn [app].
  do 2 f_equal. lia.
Qed.

Lemma Tokenization_body_object_open_gap :
  forall (dm : DataModel) (k ws : list Z) (s : list Z) (index : Z) (rest : list Z),
    plain_string k = true ->
    Forall skipped ws ->
    0 <= index ->
    from index s = ch "{" :: ws ++ key_text k ++ rest ->
    Tokenization_body dm s index (mkLexerState [] None_ [] [] 0)
    = Ok (in_root LeftCurlyBracket [structural LeftCurlyBracket; name_token k],
          index + size ws + size (key_text k)).
Proof.
  intros dm k ws s index rest Hk Hgap Hi Hfrom.
  read_char Hfrom Hat Hsz.
  unfold Tokenization_body. rewrite Hat.
  cbn -[Z.add Z.sub from at_ size CheckTypeToken key_text name_token].
  rewrite (CheckTypeToken_key_gap dm k ws s (index + 1) rest _ Hk Hgap ltac:(lia)
             Hfrom).
  cbn [bind name_token mToken havJSONToken_eqb negb is_left orb].
  unfold in_root. do 2 f_equal. lia.
Qed.

Lemma Tokenization_body_object_comma_gap :
  forall (dm : DataModel) (k ws : list Z) (s : list Z) (index : Z) (rest : list Z)
         (mTokens : list havJSONTokenValue),
    plain_string k = true ->
    Forall skipped ws ->
    0 <= index ->
    from index s = ch "," :: ws ++ key_text k ++ rest ->
    Tokenization_body dm s index (in_root LeftCurlyBracket mTokens)
    = Ok (in_root LeftCurlyBracket (mTokens ++ [structural Comma; name_token k]),
          index + size ws + size (key_text k)).
Proof.
  intros dm k ws s index rest mTokens Hk Hgap Hi Hfrom.
  read_char Hfrom Hat Hsz.
  unfold Tokenization_body. rewrite Hat.
  cbn -[Z.add Z.sub from at_ size CheckTypeToken key_text name_token].
  rewrite (CheckTypeToken_key_gap dm k ws s (index + 1) rest _ Hk Hgap ltac:(lia)
             Hfrom).
  cbn [bind name_token mToken havJSONToken_eqb negb is_left orb].
  unfold in_root, push_back. rewrite <- app_assoc. cbn [app].
  do 2 f_equal. lia.
Qed.

Lemma Tokenization_body_object_colon_gap :
  forall (dm : DataModel) (sc : scalar) (ws : list Z) (s : list Z) (index : Z)
         (rest : list Z) (mTokens : list havJSONTokenValue),
    valid_scalar sc ->
    Forall skipped ws ->
    0 <= index ->
    from index s = ch ":" :: ws ++ text_of sc ++ rest ->
    stops rest ->
    Tokenization_body dm s index (in_root LeftCurlyBracket mTokens)
    = Ok (in_root LeftCurlyBracket (mTokens ++ [structural Colon; token_of dm sc]),
          index + size ws + size (text_of sc)).
Proof.
  intros dm sc ws s index rest mTokens Hv Hgap Hi Hfrom Hstop.
  read_char Hfrom Hat Hsz.
  unfold Tokenization_body. rewrite Hat.
  cbn -[Z.add Z.sub from at_ size CheckTypeToken text_of token_of].
  rewrite (CheckTypeToken_scalar_gap dm Colon sc ws s (index + 1) rest _
             (or_intror eq_refl) Hv Hgap ltac:(lia) Hfrom Hstop).
  cbn [bind]. value_token_facts dm sc. rewrite Hnone, Hleft. cbn [negb].
  unfold in_root, push_back. rewrite <- app_assoc. cbn [app].
  do 2 f_equal. lia.
Qed.

(** ** The formatted text of a flat array and of a flat object *)

(** A line feed and the indentation of depth one. *)
Definition line : list Z := line_feed_indentation 1.

Lemma line_skipped : Forall skipped line.
Proof. repeat constructor. Qed.

Lemma space_skipped : Forall skipped [ch " "].
Proof. repeat constructor. Qed.

Fixpoint pretty_array_tail (l : list scalar) : list Z :=
  match l with
  | [] => [ch_n; ch "]"]
  | sc :: l' => ch "," :: line ++ text_of sc ++ pretty_array_tail l'
  end.

Definition pretty_array_text (sc : scalar) (l : list scalar) : list Z :=
  ch "[" :: line ++ text_of sc ++ pretty_array_tail l.

Fixpoint pretty_object_tail (m : list (list Z * scalar)) : list Z :=
  match m with
  | [] => [ch_n; ch "}"]
  | e :: m' =>
      ch "," :: line ++ key_text (fst e) ++ ch ":" :: ch " " :: text_of (snd e)
        ++ pretty_object_tail m'
  end.

Definition pretty_object_text (k : list Z) (sc : scalar) (m : list (list Z * scalar))
  : list Z :=
  ch "{" :: line ++ key_text k ++ ch ":" :: ch " " :: text_of sc
    ++ pretty_object_tail m.

(** The tokens the lexer makes of the tails: the closing bracket is a
    token of its own. *)
Fixpoint closed_tail (dm : DataModel) (l : list scalar) : list havJSONTokenValue :=
  match l with
  | [] => [structural RightSquareBracket]
  | sc :: l' => structural Comma :: token_of dm sc :: closed_tail dm l'
  end.

Fixpoint closed_object_tail (dm : DataModel) (m : list (list Z * scalar))
  : list havJSONTokenValue :=
  match m with
  | [] => [structural RightCurlyBracket]
  | e :: m' =>
      structural Comma :: name_token (fst e) :: structural Colon
        :: token_of dm (snd e) :: closed_object_tail dm m'
  end.

Lemma pretty_array_tail_stops : forall l : list scalar, stops (pretty_array_tail l).
Proof. intros [| sc l]; reflexivity. Qed.

Lemma pretty_object_tail_stops :
  forall m : list (list Z * scalar), stops (pretty_object_tail m).
Proof. intros [| e m]; reflexivity. Qed.

Section pretty_lexer.

Variable dm : DataModel.
Variable s : list Z.

(** The end of a formatted text: a line feed and the closing bracket. *)
Lemma Tokenization_loop_end :
  forall (kind : havJSONToken) (c : Z) (fuel : nat) (index : Z)
         (mTokens : list havJSONTokenValue),
    (kind = LeftSquareBracket /\ c = ch "]") \/ (kind = LeftCurlyBracket /\ c = ch "}") ->
    0 <= index ->
    from index s = [ch_n; c] ->
    (2 < fuel)%nat ->
    exists st : LexerState,
      Tokenization_loop dm fuel s index (in_root kind mTokens) = Ok st
      /\ lx_mTokens st = mTokens ++ [structural (CheckToken c)].
Proof.
  intros kind c fuel index mTokens Hc Hi Hfrom Hfuel.
  destruct fuel as [| [| [| fuel]]]; try lia.
  cbn [Tokenization_loop].
  rewrite (Tokenization_body_skip dm s index ch_n [c] _ eq_refl Hi Hfrom).
  read_char Hfrom Hat Hsz. rewrite Hsz. cbn [bind].
  destruct (Tokenization_body_close dm kind c s (index + 1) [] mTokens Hc
              ltac:(lia) Hfrom) as (st & Hbody & Htok).
  read_char Hfrom Hat' Hsz'. rewrite Hsz', Hbody. cbn [bind].
  rewrite (from_nil s (index + 1 + 1) ltac:(lia) Hfrom).
  exists st. split; [ reflexivity | exact Htok ].
Qed.

Lemma Tokenization_loop_pretty_array :
  forall (l : list scalar) (fuel : nat) (index : Z) (mTokens : list havJSONTokenValue),
    Forall valid_scalar l ->
    0 <= index ->
    from index s = pretty_array_tail l ->
    (length (pretty_array_tail l) < fuel)%nat ->
    exists st : LexerState,
      Tokenization_loop dm fuel s index (in_root LeftSquareBracket mTokens) = Ok st
      /\ lx_mTokens st = mTokens ++ closed_tail dm l.
Proof.
  induction l as [| sc l IH]; intros fuel index mTokens Hl Hi Hfrom Hfuel.
  - cbn [pretty_array_tail closed_tail length] in *.
    apply (Tokenization_loop_end LeftSquareBracket (ch "]") fuel index mTokens
             (or_introl (conj eq_refl eq_refl)) Hi Hfrom).
    lia.
  - inversion Hl as [| ? ? Hsc Hl']; subst.
    cbn [pretty_array_tail] in Hfrom, Hfuel.
    destruct fuel as [| fuel]; [ cbn in Hfuel; lia | ].
    cbn [Tokenization_loop].
    rewrite (Tokenization_body_array_comma_gap dm sc line s index
               (pretty_array_tail l) mTokens Hsc line_skipped Hi Hfrom
               (pretty_array_tail_stops l)).
    read_char Hfrom Hat Hsz. rewrite Hsz. cbn [bind].
    pose proof (from_app line s (index + 1) _ ltac:(lia) Hfrom) as Hnext.
    pose proof (from_app (text_of sc) s (index + 1 + size line) _
                  ltac:(unfold size; lia) Hnext) as Hnext'.
    destruct (IH fuel (index + size line + size (text_of sc) + 1)
                (mTokens ++ [structural Comma; token_of dm sc]) Hl')
      as (st & Hloop & Htok).
    + unfold size. lia.
    + rewrite <- Hnext'. f_equal. lia.
    + cbn [length] in Hfuel. rewrite !length_app in Hfuel. lia.
    + exists st. split; [ exact Hloop | ].
      rewrite Htok. cbn [closed_tail]. rewrite <- app_assoc. reflexivity.
Qed.

Lemma Tokenization_loop_pretty_object :
  forall (m : list (list Z * scalar)) (fuel : nat) (index : Z)
         (mTokens : list havJSONTokenValue),
    Forall valid_entry m ->
    0 <= index ->
    from index s = pretty_object_tail m ->
    (length (pretty_object_tail m) < fuel)%nat ->
    exists st : LexerState,
      Tokenization_loop dm fuel s index (in_root LeftCurlyBracket mTokens) = Ok st
      /\ lx_mTokens st = mTokens ++ closed_object_tail dm m.
Proof.
  induction m as [| [k sc] m IH]; intros fuel index mTokens Hm Hi Hfrom Hfuel.
  - cbn [pretty_object_tail closed_object_tail length] in *.
    apply (Tokenization_loop_end LeftCurlyBracket (ch "}") fuel index mTokens
             (or_intror (conj eq_refl eq_refl)) Hi Hfrom).
    lia.
  - inversion Hm as [| ? ? [Hk Hsc] Hm']; subst. cbn [fst snd] in Hk, Hsc.
    cbn [pretty_object_tail fst snd] in Hfrom, Hfuel.
    destruct fuel as [| [| fuel]];
      try (cbn [length] in Hfuel; rewrite !length_app in Hfuel; cbn [length] in Hfuel;
           lia).
    cbn [Tokenization_loop].
    rewrite (Tokenization_body_object_comma_gap dm k line s index _ mTokens Hk
               line_skipped Hi Hfrom).
    read_char Hfrom Hat Hsz. rewrite Hsz. cbn [bind].
    pose proof (from_app line s (index + 1) _ ltac:(lia) Hfrom) as Hkey.
    pose proof (from_app (key_text k) s (index + 1 + size line) _
                  ltac:(unfold size; lia) Hkey) as Hcolon.
    assert (Hi' : 0 <= index + size line + size (key_text k) + 1)
      by (unfold size; lia).
    replace (index + 1 + size line + size (key_text k))
      with (index + size line + size (key_text k) + 1) in Hcolon by lia.
    rewrite (Tokenization_body_object_colon_gap dm sc [ch " "] s _
               (pretty_object_tail m) _ Hsc space_skipped Hi' Hcolon
               (pretty_object_tail_stops m)).
    read_char Hcolon Hat' Hsz'. rewrite Hsz'. cbn [bind].
    read_char Hcolon Hat'' Hsz''.
    assert (Hi'' : 0 <= index + size line + size (key_text k) + 1 + 1 + 1)
      by (unfold size; lia).
    pose proof (from_app (text_of sc) s _ _ Hi'' Hcolon) as Hnext.
    destruct (IH fuel
                (index + size line + size (key_text k) + 1 + size [ch " "]
                 + size (text_of sc) + 1)
                ((mTokens ++ [structural Comma; name_token k])
                   ++ [structural Colon; token_of dm sc]) Hm')
      as (st & Hloop & Htok).
    + unfold size. lia.
    + rewrite <- Hnext. f_equal. change (size [ch " "]) with 1. lia.
    + cbn [length] in Hfuel. rewrite !length_app in Hfuel. cbn [length] in Hfuel.
      rewrite !length_app in Hfuel. lia.
    + exists st. split; [ exact Hloop | ].
      rewrite Htok. cbn [closed_object_tail fst snd]. rewrite <- !app_assoc.
      reflexivity.
Qed.

End pretty_lexer.

Lemma Tokenization_pretty_array :
  forall (dm : DataModel) (sc : scalar) (l : list scalar),
    valid_scalar sc ->
    Forall valid_scalar l ->
    Tokenization dm (pretty_array_text sc l)
    = Ok (structural LeftSquareBracket :: token_of dm sc :: closed_tail dm l).
Proof.
  intros dm sc l Hsc Hl. unfold Tokenization.
  set (s := pretty_array_text sc l).
  assert (Hfrom : from 0 s = ch "[" :: line ++ text_of sc ++ pretty_array_tail l)
    by reflexivity.
  cbn [Tokenization_loop].
  rewrite (Tokenization_body_array_open_gap dm sc line s 0 (pretty_array_tail l) Hsc
             line_skipped ltac:(lia) Hfrom (pretty_array_tail_stops l)).
  read_char Hfrom Hat Hsz. rewrite Hsz. cbn [bind].
  pose proof (from_app line s (0 + 1) _ ltac:(lia) Hfrom) as Hnext.
  pose proof (from_app (text_of sc) s (0 + 1 + size line) _
                ltac:(unfold size; lia) Hnext) as Hnext'.
  destruct (Tokenization_loop_pretty_array dm s l (length s)
              (0 + size line + size (text_of sc) + 1)
              [structural LeftSquareBracket; token_of dm sc] Hl)
    as (st & Hloop & Htok).
  - unfold size. lia.
  - rewrite <- Hnext'. f_equal. lia.
  - unfold s, pretty_array_text. cbn [length]. rewrite !length_app. lia.
  - rewrite Hloop. cbn [bind]. rewrite Htok. reflexivity.
Qed.

Lemma Tokenization_pretty_object :
  forall (dm : DataModel) (k : list Z) (sc : scalar) (m : list (list Z * scalar)),
    plain_string k = true ->
    valid_scalar sc ->
    Forall valid_entry m ->
    Tokenization dm (pretty_object_text k sc m)
    = Ok (structural LeftCurlyBracket :: name_token k :: structural Colon
            :: token_of dm sc :: closed_object_tail dm m).
Proof.
  intros dm k sc m Hk Hsc Hm. unfold Tokenization.
  set (s := pretty_object_text k sc m).
  assert (Hfrom : from 0 s
                  = ch "{" :: line ++ key_text k ++ ch ":" :: ch " " :: text_of sc
                      ++ pretty_object_tail m) by reflexivity.
  assert (Hlen : (length (key_text k ++ ch ":" :: ch " " :: text_of sc
                            ++ pretty_object_tail m) < length s)%nat).
  { unfold s, pretty_object_text. cbn [length]. rewrite !length_app. lia. }
  destruct (length s) as [| fuel] eqn:Efuel; [ lia | ].
  cbn [Tokenization_loop].
  rewrite (Tokenization_body_object_open_gap dm k line s 0 _ Hk line_skipped
             ltac:(lia) Hfrom).
  read_char Hfrom Hat Hsz. rewrite Hsz. cbn [bind].
  pose proof (from_app line s (0 + 1) _ ltac:(lia) Hfrom) as Hkey.
  pose proof (from_app (key_text k) s (0 + 1 + size line) _
                ltac:(unfold size; lia) Hkey) as Hcolon.
  assert (Hi' : 0 <= 0 + size line + size (key_text k) + 1) by (unfold size; lia).
  replace (0 + 1 + size line + size (key_text k))
    with (0 + size line + size (key_text k) + 1) in Hcolon by lia.
  rewrite (Tokenization_body_object_colon_gap dm sc [ch " "] s _
             (pretty_object_tail m) _ Hsc space_skipped Hi' Hcolon
             (pretty_object_tail_stops m)).
  read_char Hcolon Hat' Hsz'. rewrite Hsz'. cbn [bind].
  read_char Hcolon Hat'' Hsz''.
  assert (Hi'' : 0 <= 0 + size line + size (key_text k) + 1 + 1 + 1)
    by (unfold size; lia).
  pose proof (from_app (text_of sc) s _ _ Hi'' Hcolon) as Hnext.
  destruct (Tokenization_loop_pretty_object dm s m fuel
              (0 + size line + size (key_text k) + 1 + size [ch " "]
               + size (text_of sc) + 1)
              ([structural LeftCurlyBracket; name_token k]
                 ++ [structural Colon; token_of dm sc]) Hm)
    as (st & Hloop & Htok).
  - unfold size. lia.
  - rewrite <- Hnext. f_equal. change (size [ch " "]) with 1. lia.
  - rewrite !length_app in Hlen. cbn [length] in Hlen. rewrite !length_app in Hlen.
    lia.
  - rewrite Hloop. cbn [bind]. rewrite Htok. reflexivity.
Qed.

(** ** The builder on tokens that end in the closing bracket *)

Section closed_builder.

Variable dm : DataModel.

Lemma ParseJSONContents_loop_closed :
  forall (l : list scalar) (fuel : nat) (acc : list havJSONData),
    Forall valid_scalar l ->
    (2 * length l + 1 < fuel)%nat ->
    exists st : BuilderState,
      ParseJSONContents_loop dm fuel
        (mkBuilderState (closed_tail dm l) [[]] (Some (Data DT_Array (V_vector acc))))
      = Ok (Some st)
      /\ rootNode st = Some (Data DT_Array (V_vector (acc ++ map (node_of dm) l))).
Proof.
  induction l as [| sc l IH]; intros fuel acc Hl Hfuel.
  - cbn [closed_tail map]. rewrite app_nil_r.
    destruct fuel as [| [| fuel]]; try (cbn in Hfuel; lia).
    eexists. split; reflexivity.
  - inversion Hl as [| ? ? Hsc Hl']; subst.
    destruct fuel as [| [| fuel]]; try (cbn in Hfuel; lia).
    cbn [closed_tail].
    cbn [ParseJSONContents_loop b_mTokens].
    rewrite ParseJSONContents_body_comma. cbn [bind b_mTokens].
    rewrite (ParseJSONContents_body_array_value dm (token_of dm sc) (node_of dm sc)
               _ acc (token_of_value dm sc) (make_value_scalar dm sc Hsc)).
    cbn [bind].
    destruct (IH fuel (acc ++ [node_of dm sc]) Hl') as (st & Hloop & Hroot).
    { cbn [length] in Hfuel. lia. }
    exists st. split; [ exact Hloop | ].
    rewrite Hroot. cbn [map]. rewrite <- app_assoc. reflexivity.
Qed.

Lemma closed_tail_length :
  forall l : list scalar, (2 * length l < length (closed_tail dm l))%nat.
Proof. induction l as [| sc l IH]; cbn [closed_tail length]; lia. Qed.

Lemma ParseJSONContents_closed_array :
  forall (sc : scalar) (l : list scalar),
    valid_scalar sc ->
    Forall valid_scalar l ->
    ParseJSONContents dm
      (structural LeftSquareBracket :: token_of dm sc :: closed_tail dm l)
    = Ok (Some (Data DT_Array (V_vector (map (node_of dm) (sc :: l))))).
Proof.
  intros sc l Hsc Hl. unfold ParseJSONContents.
  cbn [mToken structural is_left havJSONToken_eqb orb negb].
  cbn [ParseJSONContents_loop b_mTokens].
  rewrite (ParseJSONContents_body_array_open dm (token_of dm sc) (node_of dm sc) _
             (token_of_value dm sc) (make_value_scalar dm sc Hsc)).
  cbn [bind].
  destruct (ParseJSONContents_loop_closed l
              (length (structural LeftSquareBracket :: token_of dm sc
                         :: closed_tail dm l))
              [node_of dm sc] Hl)
    as (st & Hloop & Hroot).
  - cbn [length]. pose proof (closed_tail_length l). lia.
  - rewrite Hloop. cbn [bind]. rewrite Hroot. reflexivity.
Qed.

Lemma ParseJSONContents_loop_closed_object :
  forall (m : list (list Z * scalar)) (fuel : nat)
         (acc : list (list Z * havJSONData)),
    Forall valid_entry m ->
    (2 * length m + 1 < fuel)%nat ->
    exists st : BuilderState,
      ParseJSONContents_loop dm fuel
        (mkBuilderState (closed_object_tail dm m) [[]]
           (Some (Data DT_Object (V_map acc))))
      = Ok (Some st)
      /\ rootNode st = Some (Data DT_Object (V_map (inserted dm acc m))).
Proof.
  induction m as [| [k sc] m IH]; intros fuel acc Hm Hfuel.
  - cbn [closed_object_tail inserted fold_left].
    destruct fuel as [| [| fuel]]; try (cbn in Hfuel; lia).
    eexists. split; reflexivity.
  - inversion Hm as [| ? ? [Hk Hsc] Hm']; subst. cbn [fst snd] in Hk, Hsc.
    destruct fuel as [| [| fuel]]; try (cbn in Hfuel; lia).
    cbn [closed_object_tail fst snd].
    cbn [ParseJSONContents_loop b_mTokens].
    rewrite ParseJSONContents_body_comma. cbn [bind b_mTokens].
    unfold name_token at 1.
    rewrite (ParseJSONContents_body_object_pair dm k (token_of dm sc) (node_of dm sc)
               _ acc (token_of_value dm sc) (make_value_scalar dm sc Hsc)).
    cbn [bind].
    destruct (IH fuel (map_insert k (node_of dm sc) acc) Hm') as (st & Hloop & Hroot).
    { cbn [length] in Hfuel. lia. }
    exists st. split; [ exact Hloop | ].
    rewrite Hroot. reflexivity.
Qed.

Lemma closed_object_tail_length :
  forall m : list (list Z * scalar), (2 * length m < length (closed_object_tail dm m))%nat.
Proof. induction m as [| e m IH]; cbn [closed_object_tail length]; lia. Qed.

Lemma ParseJSONContents_closed_object :
  forall (k : list Z) (sc : scalar) (m : list (list Z * scalar)),
    valid_scalar sc ->
    Forall valid_entry m ->
    ParseJSONContents dm
      (structural LeftCurlyBracket :: name_token k :: structural Colon
         :: token_of dm sc :: closed_object_tail dm m)
    = Ok (Some (Data DT_Object (V_map (inserted dm [] ((k, sc) :: m))))).
Proof.
  intros k sc m Hsc Hm. unfold ParseJSONContents.
  cbn [mToken structural is_left havJSONToken_eqb orb negb].
  cbn [ParseJSONContents_loop b_mTokens].
  rewrite (ParseJSONContents_body_object_open dm k (token_of dm sc) (node_of dm sc) _
             (token_of_value dm sc) (make_value_scalar dm sc Hsc)).
  cbn [bind].
  destruct (ParseJSONContents_loop_closed_object m
              (length (structural LeftCurlyBracket :: name_token k
                         :: structural Colon :: token_of dm sc
                         :: closed_object_tail dm m))
              [(k, node_of dm sc)] Hm)
    as (st & Hloop & Hroot).
  - cbn [length]. pose proof (closed_object_tail_length m). lia.
  - rewrite Hloop. cbn [bind]. rewrite Hroot. reflexivity.
Qed.

End closed_builder.

(** In the order of the keys, inserting is appending. *)
Lemma inserted_sorted_entries :
  forall (dm : DataModel) (m : list (list Z * scalar))
         (acc : list (list Z * havJSONData)),
    sorted_keys (acc ++ entries_of dm m) ->
    inserted dm acc m = acc ++ entries_of dm m.
Proof.
  intros dm. induction m as [| [k sc] m IH]; intros acc Hsorted.
  - cbn [inserted fold_left entries_of map]. rewrite app_nil_r. reflexivity.
  - cbn [inserted fold_left fst snd].
    change (fold_left (fun acc e => map_insert (fst e) (node_of dm (snd e)) acc) m
              (map_insert k (node_of dm sc) acc))
      with (inserted dm (map_insert k (node_of dm sc) acc) m).
    assert (Hlast : map_insert k (node_of dm sc) acc = acc ++ [(k, node_of dm sc)]).
    { apply map_insert_last. unfold sorted_keys in Hsorted.
      cbn [entries_of map fst snd] in Hsorted. rewrite map_app in Hsorted.
      cbn [map fst] in Hsorted. apply sorted_before in Hsorted.
      apply Forall_map in Hsorted. exact Hsorted. }
    rewrite Hlast. rewrite IH.
    + cbn [entries_of map fst snd]. rewrite <- app_assoc. reflexivity.
    + rewrite <- app_assoc. exact Hsorted.
Qed.

(** ** The writer with formatting on a flat value *)

(** The state of the writer inside the root container. *)
Definition inside (kind : havJSONDataType) (previousToken : havJSONToken)
    (text : list Z) : WriterState :=
  mkWriterState [kind] 1 previousToken kind text.

Lemma format_value_in_array :
  forall t : havJSONToken,
    is_value_token t = true ->
    format_token DT_Array LeftSquareBracket t 1 = line
    /\ format_token DT_Array Comma t 1 = line
    /\ format_token DT_Array t Comma 1 = []
    /\ format_token DT_Array t RightSquareBracket 0 = [ch_n].
Proof. intros t H. destruct t; try discriminate H; repeat split. Qed.

Lemma format_value_in_object :
  forall t : havJSONToken,
    is_value_token t = true ->
    format_token DT_Object Colon t 1 = [ch " "]
    /\ format_token DT_Object t Comma 1 = []
    /\ format_token DT_Object t RightCurlyBracket 0 = [ch_n].
Proof. intros t H. destruct t; try discriminate H; repeat split. Qed.

Lemma step_between :
  forall (token : havJSONTokenValue) (stack : list havJSONDataType) (n : Z)
         (previousToken : havJSONToken) (currentType : havJSONDataType) (text : list Z),
    is_right (mToken token) = false ->
    is_left (mToken token) = false ->
    ConvertJSONToString_step true token
      (mkWriterState stack n previousToken currentType text)
    = (value <- token_text token ;;
       Ok (mkWriterState stack n (mToken token) currentType
             ((text ++ format_token currentType previousToken (mToken token) n)
                ++ value))).
Proof.
  intros token stack n previousToken currentType text Hright Hleft.
  unfold ConvertJSONToString_step. rewrite Hright. cbn [bind].
  cbn [w_tokenTypes w_tokenTypesSize w_previousToken w_currentType
       w_jsonContentsAsString].
  destruct (token_text token) as [value | e]; cbn [bind]; [ | reflexivity ].
  destruct (mToken token); try discriminate Hleft; reflexivity.
Qed.

Lemma step_close :
  forall (close : havJSONToken) (kind : havJSONDataType)
         (previousToken : havJSONToken) (text : list Z),
    close = RightSquareBracket \/ close = RightCurlyBracket ->
    ConvertJSONToString_step true (structural close) (inside kind previousToken text)
    = Ok (mkWriterState [] 0 close kind
            ((text ++ format_token kind previousToken close 0)
               ++ [GetTokenAsCharacter close])).
Proof.
  intros close kind previousToken text [-> | ->]; reflexivity.
Qed.

Lemma step_value :
  forall (v : havJSONData) (sc : scalar) (kind : havJSONDataType)
         (previousToken : havJSONToken) (text : list Z),
    scalar_of v = Some sc ->
    valid_scalar sc ->
    ConvertJSONToString_step true (written_token v) (inside kind previousToken text)
    = Ok (inside kind (mToken (written_token v))
            ((text ++ format_token kind previousToken (mToken (written_token v)) 1)
               ++ text_of sc)).
Proof.
  intros v sc kind previousToken text Hv Hsc.
  destruct (written_token_spec v sc Hv) as (_ & Hval & Htext).
  pose proof (value_token_plain _ Hval) as (_ & Hleft & Hright & _).
  unfold inside. rewrite (step_between _ _ _ _ _ _ Hright Hleft).
  rewrite (Htext Hsc). reflexivity.
Qed.

Lemma steps_pretty_array_tail :
  forall (vs : list havJSONData) (l : list scalar) (previousToken : havJSONToken)
         (text : list Z),
    stand_for vs l ->
    Forall valid_scalar l ->
    is_value_token previousToken = true ->
    exists st : WriterState,
      ConvertJSONToString_steps true (written_tail RightSquareBracket vs)
        (inside DT_Array previousToken text) = Ok st
      /\ w_jsonContentsAsString st = text ++ pretty_array_tail l.
Proof.
  induction vs as [| v vs IH]; intros l previousToken text H Hl Hprev.
  - destruct l; [ | discriminate H ].
    cbn [written_tail ConvertJSONToString_steps].
    rewrite (step_close RightSquareBracket DT_Array previousToken text
               (or_introl eq_refl)).
    cbn [bind]. eexists. split; [ reflexivity | ].
    cbn [w_jsonContentsAsString].
    destruct (format_value_in_array previousToken Hprev) as (_ & _ & _ & ->).
    rewrite <- app_assoc. reflexivity.
  - destruct l as [| sc l]; [ discriminate H | ].
    apply stand_for_cons in H. destruct H as [Hv Hvs].
    inversion Hl as [| ? ? Hsc Hl']; subst.
    destruct (written_token_spec v sc Hv) as (_ & Hval & _).
    cbn [written_tail ConvertJSONToString_steps].
    unfold inside at 1.
    rewrite (step_between (structural Comma) _ _ _ _ _ eq_refl eq_refl).
    cbn [token_text structural mToken bind].
    change (token_text (structural Comma)) with (Ok [ch ","] : result (list Z)).
    cbn [bind].
    fold (inside DT_Array Comma
            ((text ++ format_token DT_Array previousToken Comma 1) ++ [ch ","])).
    rewrite (step_value v sc DT_Array Comma _ Hv Hsc). cbn [bind].
    destruct (IH l (mToken (written_token v))
                ((((text ++ format_token DT_Array previousToken Comma 1) ++ [ch ","])
                    ++ format_token DT_Array Comma (mToken (written_token v)) 1)
                   ++ text_of sc) Hvs Hl' Hval) as (st & Hsteps & Htext).
    exists st. split; [ exact Hsteps | ].
    rewrite Htext.
    destruct (format_value_in_array previousToken Hprev) as (_ & _ & -> & _).
    destruct (format_value_in_array _ Hval) as (_ & -> & _ & _).
    cbn [pretty_array_tail]. rewrite app_nil_r, <- !app_assoc. reflexivity.
Qed.

Lemma ConvertJSONToString_pretty_array :
  forall (v : havJSONData) (vs : list havJSONData) (sc : scalar) (l : list scalar),
    stand_for (v :: vs) (sc :: l) ->
    valid_scalar sc ->
    Forall valid_scalar l ->
    ConvertJSONToString_formatted (Data DT_Array (V_vector (v :: vs))) true
    = Ok (Some (pretty_array_text sc l)).
Proof.
  intros v vs sc l H Hsc Hl.
  apply stand_for_cons in H. destruct H as [Hv Hvs].
  destruct (written_token_spec v sc Hv) as (Htok & Hval & _).
  unfold ConvertJSONToString_formatted, Tokenization_value.
  cbn [getType getValue]. unfold TokenizeArray.
  cbn [TokenizeArray_from]. rewrite Htok. cbn [bind].
  rewrite (TokenizeArray_from_values vs l _ _ Hvs). cbn [bind]. unfold push_back.
  cbn [app structural mToken tok_eqb havJSONToken_eqb negb andb].
  cbn [ConvertJSONToString_steps].
  change (ConvertJSONToString_step true (structural LeftSquareBracket)
            (mkWriterState [] 0 None_ DT_Array []))
    with (Ok (inside DT_Array LeftSquareBracket [ch "["]) : result WriterState).
  cbn [bind].
  rewrite (step_value v sc DT_Array LeftSquareBracket _ Hv Hsc). cbn [bind].
  destruct (steps_pretty_array_tail vs l (mToken (written_token v))
              (([ch "["] ++ format_token DT_Array LeftSquareBracket
                                (mToken (written_token v)) 1) ++ text_of sc)
              Hvs Hl Hval) as (st & Hsteps & Htext).
  rewrite Hsteps. cbn [bind]. rewrite Htext.
  destruct (format_value_in_array _ Hval) as (-> & _ & _ & _).
  unfold pretty_array_text. rewrite <- !app_assoc. reflexivity.
Qed.

Lemma token_text_name :
  forall k : list Z,
    plain_string k = true -> token_text (name_token k) = Ok (key_text k).
Proof.
  intros k Hk. unfold name_token, token_text.
  cbn [mToken mValue is_value_token havJSONToken_eqb negb andb orb value_ bind].
  rewrite (ConvertToEscapedString_plain k Hk). reflexivity.
Qed.

(** A key, its colon and its value behind an opening bracket or a comma. *)
Lemma steps_pretty_entry :
  forall (k : list Z) (v : havJSONData) (sc : scalar)
         (rest : list havJSONTokenValue) (previousToken : havJSONToken)
         (text : list Z),
    previousToken = LeftCurlyBracket \/ previousToken = Comma ->
    plain_string k = true ->
    scalar_of v = Some sc ->
    valid_scalar sc ->
    ConvertJSONToString_steps true
      (name_token k :: structural Colon :: written_token v :: rest)
      (inside DT_Object previousToken text)
    = ConvertJSONToString_steps true rest
        (inside DT_Object (mToken (written_token v))
           (text ++ line ++ key_text k ++ ch ":" :: ch " " :: text_of sc)).
Proof.
  intros k v sc rest previousToken text Hprev Hk Hv Hsc.
  destruct (written_token_spec v sc Hv) as (_ & Hval & _).
  cbn [ConvertJSONToString_steps]. unfold inside at 1.
  rewrite (step_between (name_token k) _ _ _ _ _ eq_refl eq_refl).
  rewrite (token_text_name k Hk). cbn [bind name_token mToken].
  rewrite (step_between (structural Colon) _ _ _ _ _ eq_refl eq_refl).
  change (token_text (structural Colon)) with (Ok [ch ":"] : result (list Z)).
  cbn [bind structural mToken].
  fold (inside DT_Object Colon
          ((((text ++ format_token DT_Object previousToken String_ 1) ++ key_text k)
              ++ format_token DT_Object String_ Colon 1) ++ [ch ":"])).
  rewrite (step_value v sc DT_Object Colon _ Hv Hsc). cbn [bind].
  destruct (format_value_in_object _ Hval) as (-> & _ & _).
  assert (Hline : format_token DT_Object previousToken String_ 1 = line)
    by (destruct Hprev as [-> | ->]; reflexivity).
  rewrite Hline.
  change (format_token DT_Object String_ Colon 1) with (@nil Z).
  do 2 f_equal. rewrite app_nil_r, <- !app_assoc. reflexivity.
Qed.

Lemma steps_pretty_object_tail :
  forall (m : list (list Z * havJSONData)) (ms : list (list Z * scalar))
         (previousToken : havJSONToken) (text : list Z),
    entries_stand_for m ms ->
    Forall valid_entry ms ->
    is_value_token previousToken = true ->
    exists st : WriterState,
      ConvertJSONToString_steps true (written_object_tail m)
        (inside DT_Object previousToken text) = Ok st
      /\ w_jsonContentsAsString st = text ++ pretty_object_tail ms.
Proof.
  induction m as [| [k v] m IH]; intros ms previousToken text H Hms Hprev.
  - destruct ms; [ | discriminate H ].
    cbn [written_object_tail ConvertJSONToString_steps].
    rewrite (step_close RightCurlyBracket DT_Object previousToken text
               (or_intror eq_refl)).
    cbn [bind]. eexists. split; [ reflexivity | ].
    cbn [w_jsonContentsAsString].
    destruct (format_value_in_object previousToken Hprev) as (_ & _ & ->).
    rewrite <- app_assoc. reflexivity.
  - destruct ms as [| [k' sc] ms]; [ discriminate H | ].
    apply entries_stand_for_cons in H. destruct H as (<- & Hv & Hm).
    inversion Hms as [| ? ? [Hk Hsc] Hms']; subst. cbn [fst snd] in Hk, Hsc.
    destruct (written_token_spec v sc Hv) as (_ & Hval & _).
    cbn [written_object_tail fst snd].
    change (ConvertJSONToString_steps true
              (structural Comma :: name_token k :: structural Colon
                 :: written_token v :: written_object_tail m)
              (inside DT_Object previousToken text))
      with (st <- ConvertJSONToString_step true (structural Comma)
                    (inside DT_Object previousToken text) ;;
            ConvertJSONToString_steps true
              (name_token k :: structural Colon :: written_token v
                 :: written_object_tail m) st).
    unfold inside at 1.
    rewrite (step_between (structural Comma) _ _ _ _ _ eq_refl eq_refl).
    change (token_text (structural Comma)) with (Ok [ch ","] : result (list Z)).
    cbn [bind structural mToken].
    fold (inside DT_Object Comma
            ((text ++ format_token DT_Object previousToken Comma 1) ++ [ch ","])).
    rewrite (steps_pretty_entry k v sc _ Comma _ (or_intror eq_refl) Hk Hv Hsc).
    destruct (IH ms (mToken (written_token v))
                (((text ++ format_token DT_Object previousToken Comma 1) ++ [ch ","])
                   ++ line ++ key_text k ++ ch ":" :: ch " " :: text_of sc)
                Hm Hms' Hval) as (st & Hsteps & Htext).
    exists st. split; [ exact Hsteps | ].
    rewrite Htext.
    destruct (format_value_in_object previousToken Hprev) as (_ & -> & _).
    cbn [pretty_object_tail fst snd]. rewrite app_nil_r, <- !app_assoc.
    cbn [app]. rewrite <- ?app_assoc. reflexivity.
Qed.

Lemma ConvertJSONToString_pretty_object :
  forall (k : list Z) (v : havJSONData) (m : list (list Z * havJSONData))
         (sc : scalar) (ms : list (list Z * scalar)),
    entries_stand_for ((k, v) :: m) ((k, sc) :: ms) ->
    plain_string k = true ->
    valid_scalar sc ->
    Forall valid_entry ms ->
    ConvertJSONToString_formatted (Data DT_Object (V_map ((k, v) :: m))) true
    = Ok (Some (pretty_object_text k sc ms)).
Proof.
  intros k v m sc ms H Hk Hsc Hms.
  apply entries_stand_for_cons in H. destruct H as (_ & Hv & Hm).
  destruct (written_token_spec v sc Hv) as (Htok & Hval & _).
  unfold ConvertJSONToString_formatted, Tokenization_value.
  cbn [getType getValue]. unfold TokenizeObject.
  cbn [TokenizeObject_from]. rewrite Htok. cbn [bind].
  rewrite (TokenizeObject_from_values m ms _ Hm). cbn [bind]. unfold push_back.
  cbn [app structural mToken tok_eqb havJSONToken_eqb negb andb].
  fold (structural LeftCurlyBracket). fold (structural Colon). fold (name_token k).
  change (ConvertJSONToString_steps true
            (structural LeftCurlyBracket :: name_token k :: structural Colon
               :: written_token v :: written_object_tail m)
            (mkWriterState [] 0 None_ DT_Object []))
    with (ConvertJSONToString_steps true
            (name_token k :: structural Colon :: written_token v
               :: written_object_tail m)
            (inside DT_Object LeftCurlyBracket [ch "{"])).
  rewrite (steps_pretty_entry k v sc _ LeftCurlyBracket _ (or_introl eq_refl) Hk Hv Hsc).
  destruct (steps_pretty_object_tail m ms (mToken (written_token v))
              ([ch "{"] ++ line ++ key_text k ++ ch ":" :: ch " " :: text_of sc)
              Hm Hms Hval) as (st & Hsteps & Htext).
  rewrite Hsteps. cbn [bind]. rewrite Htext.
  unfold pretty_object_text. rewrite <- ?app_assoc. cbn [app].
  rewrite <- ?app_assoc. reflexivity.
Qed.

(** ** Flat values through the formatted text *)

Lemma pretty_array_round_trip :
  forall (dm : DataModel) (sc : scalar) (l : list scalar),
    valid_scalar sc ->
    Forall valid_scalar l ->
    ParseContent dm (pretty_array_text sc l)
    = Ok (true, Data DT_Array (V_vector (map (node_of dm) (sc :: l)))).
Proof.
  intros dm sc l Hsc Hl. unfold ParseContent.
  rewrite (Tokenization_pretty_array dm sc l Hsc Hl). cbn [bind].
  rewrite (ParseJSONContents_closed_array dm sc l Hsc Hl). reflexivity.
Qed.

Lemma pretty_object_round_trip :
  forall (dm : DataModel) (k : list Z) (sc : scalar) (ms : list (list Z * scalar)),
    plain_string k = true ->
    valid_scalar sc ->
    Forall valid_entry ms ->
    sorted_keys (entries_of dm ((k, sc) :: ms)) ->
    ParseContent dm (pretty_object_text k sc ms)
    = Ok (true, Data DT_Object (V_map (entries_of dm ((k, sc) :: ms)))).
Proof.
  intros dm k sc ms Hk Hsc Hms Hsorted. unfold ParseContent.
  rewrite (Tokenization_pretty_object dm k sc ms Hk Hsc Hms). cbn [bind].
  rewrite (ParseJSONContents_closed_object dm k sc ms Hsc Hms).
  rewrite (inserted_sorted_entries dm ((k, sc) :: ms) [] Hsorted). reflexivity.
Qed.

(** X19: formatting keeps what a flat value means.  A flat value has a
    compact text and a formatted text, and [ParseContent] gives the same
    value for both: the value itself with every integer in the kind the
    lexer gives its text. *)
Theorem formatted_flat_value_round_trip :
  forall (dm : DataModel) (v : havJSONData),
    flat v ->
    exists compact pretty : list Z,
      ConvertJSONToString v = Ok (Some compact)
      /\ ConvertJSONToString_formatted v true = Ok (Some pretty)
      /\ ParseContent dm pretty = Ok (true, narrow dm v)
      /\ ParseContent dm compact = ParseContent dm pretty.
Proof.
  intros dm [t p] H. unfold flat in H. cbn [getType getValue] in H.
  destruct t; try contradiction; destruct p as [| | | | | | | | | | l | m];
    try contradiction.
  - (* an array *)
    destruct H as [Hne Hall].
    destruct (plain_scalars_stand dm l Hall) as (scs & Hl & Hvalid & Hn).
    destruct l as [| x vs]; [ contradiction Hne; reflexivity | ].
    destruct scs as [| sc scs]; [ discriminate Hl | ].
    inversion Hvalid as [| ? ? Hsc Hvalid']; subst.
    destruct (array_round_trip dm x vs sc scs Hl Hsc Hvalid') as [Hcompact Hback].
    exists (array_text sc scs), (pretty_array_text sc scs). cbn [narrow]. rewrite Hn.
    split; [ exact Hcompact | ].
    split; [ apply ConvertJSONToString_pretty_array; assumption | ].
    rewrite Hback, (pretty_array_round_trip dm sc scs Hsc Hvalid').
    split; reflexivity.
  - (* an object *)
    destruct H as [Hsorted Hall].
    destruct (plain_entries_stand dm m Hall) as (ms & Hms & Hvalid & Hn).
    destruct m as [| [k x] m].
    + exists [ch "{"; ch "}"], [ch "{"; ch_n; ch "}"].
      split; [ reflexivity | ]. split; [ reflexivity | ].
      destruct dm; split; vm_compute; reflexivity.
    + destruct ms as [| [k' sc] ms]; [ discriminate Hms | ].
      destruct (entries_stand_for_cons _ _ _ _ _ _ Hms) as (<- & _ & _).
      inversion Hvalid as [| ? ? [Hk Hsc] Hvalid']; subst. cbn [fst snd] in Hk, Hsc.
      destruct (object_round_trip dm k x m sc ms Hms Hk Hsc Hvalid' Hsorted)
        as [Hcompact Hback].
      assert (Hsorted' : sorted_keys (entries_of dm ((k, sc) :: ms))).
      { unfold sorted_keys in *. rewrite (entries_stand_for_keys _ _ Hms) in Hsorted.
        unfold entries_of. rewrite map_map. exact Hsorted. }
      exists (object_text k sc ms), (pretty_object_text k sc ms).
      cbn [narrow]. rewrite Hn.
      split; [ exact Hcompact | ].
      split; [ apply ConvertJSONToString_pretty_object; assumption | ].
      rewrite Hback, (pretty_object_round_trip dm k sc ms Hk Hsc Hvalid' Hsorted').
      split; reflexivity.
Qed.

Lemma formatted_flat_value_round_trip_witness :
  exists compact pretty : list Z,
    ConvertJSONToString flat_sample = Ok (Some compact)
    /\ ConvertJSONToString_formatted flat_sample true = Ok (Some pretty)
    /\ ParseContent LP64 pretty = Ok (true, narrow LP64 flat_sample)
    /\ ParseContent LP64 compact = ParseContent LP64 pretty.
Proof.
  apply (formatted_flat_value_round_trip LP64 flat_sample).
  split; repeat constructor.
Defined.
(** * Flat objects through the binary form *)

(** ** Integers in base 16 and in bytes *)

(** The [n] low bytes of [u], the lowest first. *)
Fixpoint le_bytes (n : nat) (u : Z) : list Z :=
  match n with
  | O => []
  | S n' => u mod 256 :: le_bytes n' (u / 256)
  end.

(** The [w] low digits of [u] in base 16, the highest first. *)
Fixpoint hex_digits (w : nat) (u : Z) : list Z :=
  match w with
  | O => []
  | S w' => hex_digits w' (u / 16) ++ [hex_char (u mod 16)]
  end.

Lemma hex_aux_acc :
  forall (n : nat) (x : Z) (acc : list Z), hex_aux n x acc = hex_aux n x [] ++ acc.
Proof.
  induction n as [| n IH]; intros x acc; [ reflexivity | ].
  cbn [hex_aux]. destruct (x =? 0); [ reflexivity | ].
  rewrite (IH _ (_ :: acc)), (IH _ [_]), <- app_assoc. reflexivity.
Qed.

Lemma hex_digits_zero : forall w : nat, hex_digits w 0 = repeat (ch "0") w.
Proof.
  induction w as [| w IH]; [ reflexivity | ].
  cbn [hex_digits]. change (0 / 16) with 0. rewrite IH.
  change [hex_char (0 mod 16)] with (repeat (ch "0") 1).
  rewrite <- repeat_app. f_equal. lia.
Qed.

Lemma hex_aux_digits :
  forall (n w : nat) (x : Z),
    0 <= x < 16 ^ Z.of_nat n ->
    x < 16 ^ Z.of_nat w ->
    (length (hex_aux n x []) <= w)%nat
    /\ repeat (ch "0") (w - length (hex_aux n x [])) ++ hex_aux n x []
       = hex_digits w x.
Proof.
  induction n as [| n IH]; intros w x Hn Hw.
  - change (16 ^ Z.of_nat 0) with 1 in Hn. assert (x = 0) by lia. subst x.
    cbn [hex_aux length]. split; [ lia | ].
    rewrite Nat.sub_0_r, app_nil_r, hex_digits_zero. reflexivity.
  - cbn [hex_aux]. destruct (Z.eqb_spec x 0) as [-> | Hx].
    + cbn [length]. split; [ lia | ].
      rewrite Nat.sub_0_r, app_nil_r, hex_digits_zero. reflexivity.
    + destruct w as [| w].
      { change (16 ^ Z.of_nat 0) with 1 in Hw. lia. }
      rewrite Nat2Z.inj_succ, Z.pow_succ_r in Hn, Hw by lia.
      destruct (IH w (x / 16)) as [Hlen Heq].
      { split; [ apply Z.div_pos; lia | apply Z.div_lt_upper_bound; lia ]. }
      { apply Z.div_lt_upper_bound; lia. }
      rewrite hex_aux_acc, length_app. cbn [length hex_digits].
      split; [ lia | ].
      replace (S w - (length (hex_aux n (x / 16) []) + 1))%nat
        with (w - length (hex_aux n (x / 16) []))%nat by lia.
      rewrite app_assoc, Heq. reflexivity.
Qed.

(** [std::setw (w) << std::setfill ('0') << std::hex << x] writes the
    [w] digits of a number that has no more. *)
Lemma setw_fill_to_hex :
  forall (w : nat) (x : Z),
    (1 <= w <= 16)%nat ->
    0 <= x < 16 ^ Z.of_nat w ->
    setw_fill w (ch "0") (to_hex x) = hex_digits w x.
Proof.
  intros w x Hw Hx. unfold setw_fill, to_hex.
  destruct (Z.eqb_spec x 0) as [-> | Hnz].
  - rewrite hex_digits_zero. cbn [length].
    change [ch "0"] with (repeat (ch "0") 1). rewrite <- repeat_app.
    f_equal. lia.
  - apply (hex_aux_digits 16 w x); [ | lia ].
    split; [ lia | ].
    apply Z.lt_le_trans with (16 ^ Z.of_nat w); [ lia | ].
    apply Z.pow_le_mono_r; lia.
Qed.

Lemma hex_value_hex_char :
  forall d : Z, 0 <= d < 16 -> hex_value (hex_char d) = d.
Proof.
  intros d Hd.
  apply Z.eqb_eq.
  apply (forall_below (fun d => hex_value (hex_char d) =? d) 16);
    [ vm_compute; reflexivity | exact Hd ].
Qed.

Lemma hex_bytes_digits :
  forall (n : nat) (u : Z), hex_bytes (hex_digits (2 * n) u) = le_bytes n u.
Proof.
  unfold hex_bytes. induction n as [| n IH]; intros u; [ reflexivity | ].
  replace (2 * S n)%nat with (S (S (2 * n))) by lia.
  cbn [hex_digits le_bytes]. rewrite !rev_app_distr. cbn [rev app hex_pairs].
  rewrite Z.div_div by lia. change (16 * 16) with 256. rewrite IH. f_equal.
  unfold strtol16, to_char. cbn [fold_left].
  assert (H0 : 0 <= u mod 16 < 16) by (apply Z.mod_pos_bound; lia).
  assert (H1 : 0 <= (u / 16) mod 16 < 16) by (apply Z.mod_pos_bound; lia).
  rewrite !hex_value_hex_char by assumption.
  Z.div_mod_to_equations. lia.
Qed.

Lemma little_endian_le_bytes :
  forall (n : nat) (u : Z) (s : list Z) (index : Z) (rest : list Z),
    0 <= index ->
    0 <= u < 256 ^ Z.of_nat n ->
    from index s = le_bytes n u ++ rest ->
    little_endian n s index = Ok u.
Proof.
  induction n as [| n IH]; intros u s index rest Hi Hu Hfrom.
  - change (256 ^ Z.of_nat 0) with 1 in Hu. cbn [little_endian]. f_equal. lia.
  - rewrite Nat2Z.inj_succ, Z.pow_succ_r in Hu by lia.
    cbn [le_bytes app] in Hfrom. read_char Hfrom Hat Hsz.
    cbn [little_endian]. unfold byte_at.
    replace ((0 <=? index) && (index <=? size s)) with true
      by (symmetry; apply andb_true_iff; split; apply Z.leb_le;
          [ lia | apply Z.leb_gt in Hsz; lia ]).
    cbn [bind]. rewrite Hat.
    rewrite (IH (u / 256) s (index + 1) rest); [ | lia | | exact Hfrom ].
    + cbn [bind]. f_equal. Z.div_mod_to_equations. lia.
    + split; [ apply Z.div_pos; lia | apply Z.div_lt_upper_bound; lia ].
Qed.

(** ** The bytes of a flat object *)

(** The values that go through the binary form: a boolean, an integer
    that fits the type the encoder writes it in, a plain string of fewer
    than 65535 characters. *)
Definition binary_scalar (v : havJSONData) : bool :=
  match getType v, getValue v with
  | DT_Boolean, V_bool _ => true
  | DT_Int, V_int x => (- 2 ^ 31 <=? x) && (x <=? 2 ^ 31 - 1)
  | DT_UInt, V_uint x => (0 <=? x) && (x <=? 2 ^ 31 - 1)
  | DT_Long, V_long x | DT_Int64, V_int64 x =>
      (- 2 ^ 63 <=? x) && (x <=? 2 ^ 63 - 1)
  | DT_ULong, V_ulong x | DT_UInt64, V_uint64 x => (0 <=? x) && (x <=? 2 ^ 64 - 1)
  | DT_String, V_string s => plain_string s && (size s + 1 <? 0x10000)
  | _, _ => false
  end.

Definition binary_entry (e : list Z * havJSONData) : Prop :=
  plain_string (fst e) = true /\ binary_scalar (snd e) = true.

(** The values the encoder writes: those and null. *)
Definition null_value : havJSONData := havJSONData_of_type DT_Null.

Definition is_null (v : havJSONData) : bool :=
  match getType v, getValue v with
  | DT_Null, V_string s => list_eqb s (str "null")
  | _, _ => false
  end.

Definition writable_scalar (v : havJSONData) : bool := binary_scalar v || is_null v.

Definition writable_entry (e : list Z * havJSONData) : Prop :=
  plain_string (fst e) = true /\ writable_scalar (snd e) = true.

Lemma binary_entry_writable :
  forall e : list Z * havJSONData, binary_entry e -> writable_entry e.
Proof.
  intros e [Hk Hv]. split; [ exact Hk | ]. unfold writable_scalar. rewrite Hv.
  reflexivity.
Qed.

(** The type byte of a value. *)
Definition type_of_value (v : havJSONData) : Z :=
  match getType v with
  | DT_Null => BSON_NullValue
  | DT_Boolean => BSON_Boolean
  | DT_Int | DT_UInt => BSON_Int
  | DT_Long | DT_Int64 => BSON_Int64
  | DT_ULong | DT_UInt64 => BSON_Timestamp
  | _ => BSON_String
  end.

(** The bytes of a value. *)
Definition value_bytes (v : havJSONData) : list Z :=
  match getType v with
  | DT_Null => []
  | _ =>
      match getValue v with
      | V_bool b => [if b then 0x01 else 0x00]
      | V_int x | V_uint x => le_bytes 4 (to_unsigned 32 x)
      | V_long x | V_int64 x => le_bytes 8 (to_unsigned 64 x)
      | V_ulong x | V_uint64 x => le_bytes 8 x
      | V_string s => padded 4 (CodePointToString (size s + 1)) ++ s ++ [0x00]
      | _ => []
      end
  end.

(** An element: the type byte, the key with its terminator, the value. *)
Definition element (e : list Z * havJSONData) : list Z :=
  type_of_value (snd e) :: fst e ++ 0x00 :: value_bytes (snd e).

Definition document (m : list (list Z * havJSONData)) : list Z :=
  concat (map element m) ++ [0x00].

(** The token of a value once the encoder has changed the kinds it does
    not write. *)
Definition binary_token (v : havJSONData) : havJSONTokenValue :=
  match narrow_tokens [written_token v] with
  | token :: _ => token
  | [] => written_token v
  end.

Fixpoint binary_tokens (m : list (list Z * havJSONData)) : list havJSONTokenValue :=
  match m with
  | [] => [structural RightCurlyBracket]
  | e :: m' => name_token (fst e) :: binary_token (snd e) :: binary_tokens m'
  end.

Lemma binary_scalar_of :
  forall v : havJSONData,
    binary_scalar v = true ->
    exists sc : scalar, scalar_of v = Some sc /\ valid_scalar sc.
Proof.
  intros [t p] H. unfold binary_scalar in H. cbn [getType getValue] in H.
  destruct t; destruct p; try discriminate H;
    try (eexists; split; [ reflexivity | ]; cbn [valid_scalar];
         try exact I; apply andb_prop in H; destruct H as [H1 H2];
         first [ exact H1 | apply Z.leb_le in H1; apply Z.leb_le in H2; lia ]).
Qed.

Lemma writable_scalar_cases :
  forall v : havJSONData,
    writable_scalar v = true -> binary_scalar v = true \/ v = null_value.
Proof.
  intros v H. unfold writable_scalar in H. apply orb_prop in H.
  destruct H as [H | H]; [ left; exact H | right ].
  destruct v as [t p]. unfold is_null in H. cbn [getType getValue] in H.
  destruct t; destruct p; try discriminate H.
  apply list_eqb_eq in H. subst. reflexivity.
Qed.

Lemma writable_scalar_of :
  forall v : havJSONData,
    writable_scalar v = true ->
    exists sc : scalar, scalar_of v = Some sc /\ valid_scalar sc.
Proof.
  intros v H. destruct (writable_scalar_cases v H) as [Hv | ->].
  - apply binary_scalar_of. exact Hv.
  - exists Sc_null. split; [ reflexivity | exact I ].
Qed.

Lemma narrow_tokens_value :
  forall (v : havJSONData) (rest : list havJSONTokenValue),
    writable_scalar v = true ->
    narrow_tokens (written_token v :: rest) = binary_token v :: narrow_tokens rest.
Proof.
  intros v rest H. destruct (writable_scalar_cases v H) as [Hv | ->];
    [ | reflexivity ].
  destruct v as [t p]. unfold binary_scalar in Hv. cbn [getType getValue] in Hv.
  destruct t; destruct p; try discriminate Hv; reflexivity.
Qed.

Lemma narrow_written_object_tail :
  forall m : list (list Z * havJSONData),
    Forall writable_entry m ->
    narrow_tokens (written_object_tail m) = binary_tokens m.
Proof.
  intros m H. induction H as [| [k v] m [_ Hv] _ IH]; [ reflexivity | ].
  cbn [fst snd] in Hv. cbn [written_object_tail binary_tokens fst snd].
  change (narrow_tokens (structural Comma :: name_token k :: structural Colon
                           :: written_token v :: written_object_tail m))
    with (name_token k :: narrow_tokens (written_token v :: written_object_tail m)).
  rewrite (narrow_tokens_value v _ Hv), IH. reflexivity.
Qed.

(** *** The encoder *)

Definition root_type : havJSONBSONDataType := BSONDataType DT_Object 0 0 0.

(** The branch of the loop for a key or a value of the root object. *)
Lemma ConvertJSONToBSON_loop_step :
  forall (itr next : havJSONTokenValue) (rest : list havJSONTokenValue)
         (fi : Z) (stream : list Z),
    is_value_token (mToken itr) = true \/ mToken itr = String_ ->
    encodable (mToken itr) = true ->
    ConvertJSONToBSON_loop (itr :: next :: rest) (mkEncoderState [root_type] fi stream)
    = (tag <- type_byte (mToken next) ;;
       '(bytes, n) <- payload itr ;;
       ConvertJSONToBSON_loop (next :: rest)
         (mkEncoderState [root_type]
            ((if negb (is_right (mToken next)) then fi + 1 else fi) + n)
            ((stream ++ tag) ++ bytes))).
Proof.
  intros itr next rest fi stream Hkind Henc.
  cbn [ConvertJSONToBSON_loop tokenTypes back last bind fileIndex
       jsonContentsAsBinaryStream].
  rewrite Henc.
  change (in_array root_type) with false. cbv iota. cbn [bind].
  destruct (type_byte (mToken next)) as [tag | e] eqn:Etag; cbn [bind].
  - destruct (is_right (mToken next)); cbn [negb];
      unfold count_bytes; change (in_array root_type) with false; cbv iota;
      destruct (payload itr) as [[bytes n] | e]; cbn [bind];
      destruct Hkind as [Hkind | Hkind];
      first [ rewrite Hkind; reflexivity
            | destruct (mToken itr); try discriminate Hkind; reflexivity ].
  - destruct Hkind as [Hkind | Hkind];
      first [ rewrite Hkind; reflexivity
            | destruct (mToken itr); try discriminate Hkind; reflexivity ].
Qed.

Lemma stoi_to_string :
  forall x : Z, - 2 ^ 31 <= x <= 2 ^ 31 - 1 -> stoi (to_string x) = Ok x.
Proof.
  intros x Hx. unfold stoi. rewrite <- (app_nil_r (to_string x)).
  rewrite (sto_signed_to_string 32 x [] ltac:(lia) I).
  change (32 - 1) with 31.
  destruct (Z.leb_spec (- 2 ^ 31) x); [ | lia ].
  destruct (Z.leb_spec x (2 ^ 31 - 1)); [ reflexivity | lia ].
Qed.

Lemma stoll_to_string :
  forall x : Z, - 2 ^ 63 <= x <= 2 ^ 63 - 1 -> stoll (to_string x) = Ok x.
Proof.
  intros x Hx. unfold stoll. rewrite <- (app_nil_r (to_string x)).
  rewrite (sto_signed_to_string 64 x [] ltac:(lia) I).
  change (64 - 1) with 63.
  destruct (Z.leb_spec (- 2 ^ 63) x); [ | lia ].
  destruct (Z.leb_spec x (2 ^ 63 - 1)); [ reflexivity | lia ].
Qed.

Lemma stoull_to_string :
  forall x : Z, 0 <= x <= 2 ^ 64 - 1 -> stoull (to_string x) = Ok x.
Proof.
  intros x Hx. unfold stoull. rewrite <- (app_nil_r (to_string x)).
  rewrite (sto_unsigned_to_string 64 x [] ltac:(lia) I).
  destruct (Z.leb_spec x (2 ^ 64 - 1)); [ reflexivity | lia ].
Qed.

Lemma hex_bytes_32 :
  forall x : Z,
    hex_bytes (setw_fill 8 (ch "0") (to_hex (to_unsigned 32 x)))
    = le_bytes 4 (to_unsigned 32 x).
Proof.
  intros x. rewrite setw_fill_to_hex; [ apply (hex_bytes_digits 4) | lia | ].
  unfold to_unsigned. change (16 ^ Z.of_nat 8) with (2 ^ 32).
  apply Z.mod_pos_bound. lia.
Qed.

Lemma hex_bytes_64 :
  forall u : Z,
    0 <= u < 2 ^ 64 ->
    hex_bytes (setw_fill 16 (ch "0") (to_hex u)) = le_bytes 8 u.
Proof.
  intros u Hu. rewrite setw_fill_to_hex; [ apply (hex_bytes_digits 8) | lia | ].
  change (16 ^ Z.of_nat 16) with (2 ^ 64). exact Hu.
Qed.

(** What the two [switch] statements of the encoder write for a value. *)
Lemma payload_value :
  forall v : havJSONData,
    writable_scalar v = true ->
    is_value_token (mToken (binary_token v)) = true
    /\ encodable (mToken (binary_token v)) = true
    /\ type_byte (mToken (binary_token v)) = Ok [type_of_value v]
    /\ exists n : Z, payload (binary_token v) = Ok (value_bytes v, n).
Proof.
  intros v Hw. destruct (writable_scalar_cases v Hw) as [H | ->];
    [ | repeat split; eexists; reflexivity ].
  clear Hw. destruct v as [t p].
  unfold binary_scalar in H. cbn [getType getValue] in H.
  destruct t; destruct p; try discriminate H;
    (split; [ reflexivity | ]); (split; [ reflexivity | ]);
    (split; [ reflexivity | ]);
    try (apply andb_prop in H; destruct H as [H1 H2]);
    unfold binary_token, written_token, payload, value_bytes;
    cbn [getType getValue scalar_token narrow_tokens mToken mValue value_ bind].
  - (* a boolean *)
    eexists. destruct b; reflexivity.
  - (* int *)
    apply Z.leb_le in H1. apply Z.leb_le in H2.
    rewrite (stoi_to_string x) by lia. cbn [bind].
    rewrite hex_bytes_32. eexists. reflexivity.
  - (* unsigned int *)
    apply Z.leb_le in H1. apply Z.leb_le in H2.
    rewrite (stoi_to_string x) by lia. cbn [bind].
    rewrite hex_bytes_32. eexists. reflexivity.
  - (* long *)
    apply Z.leb_le in H1. apply Z.leb_le in H2.
    rewrite (stoll_to_string x) by lia. cbn [bind].
    rewrite hex_bytes_64 by (unfold to_unsigned; apply Z.mod_pos_bound; lia).
    eexists. reflexivity.
  - (* unsigned long *)
    apply Z.leb_le in H1. apply Z.leb_le in H2.
    rewrite (stoull_to_string x) by lia. cbn [bind].
    rewrite hex_bytes_64 by lia. eexists. reflexivity.
  - (* std::int64_t *)
    apply Z.leb_le in H1. apply Z.leb_le in H2.
    rewrite (stoll_to_string x) by lia. cbn [bind].
    rewrite hex_bytes_64 by (unfold to_unsigned; apply Z.mod_pos_bound; lia).
    eexists. reflexivity.
  - (* std::uint64_t *)
    apply Z.leb_le in H1. apply Z.leb_le in H2.
    rewrite (stoull_to_string x) by lia. cbn [bind].
    rewrite hex_bytes_64 by lia. eexists. reflexivity.
  - (* a string *)
    apply Z.ltb_lt in H2.
    rewrite (ConvertToEscapedString_plain s H1). cbn [bind].
    assert (Hs : 0 <= size s) by (unfold size; lia).
    unfold to_unsigned. rewrite (Z.mod_small (size s + 1)) by lia.
    eexists. reflexivity.
Qed.

Lemma payload_name :
  forall k : list Z,
    plain_string k = true ->
    payload (name_token k) = Ok (k ++ [0x00], size k + 1).
Proof.
  intros k Hk. unfold payload, name_token. cbn [mToken mValue value_ bind].
  rewrite (ConvertToEscapedString_plain k Hk). reflexivity.
Qed.

Lemma binary_tokens_head :
  forall m : list (list Z * havJSONData),
    exists (next : havJSONTokenValue) (rest : list havJSONTokenValue),
      binary_tokens m = next :: rest /\ type_byte (mToken next) = Ok [].
Proof.
  intros [| [k v] m]; eexists; eexists; split; reflexivity.
Qed.

Lemma ConvertJSONToBSON_loop_entries :
  forall (m : list (list Z * havJSONData)) (fi : Z) (stream : list Z),
    Forall writable_entry m ->
    exists st : EncoderState,
      ConvertJSONToBSON_loop (binary_tokens m) (mkEncoderState [root_type] fi stream)
      = Ok st
      /\ jsonContentsAsBinaryStream st = stream ++ document m.
Proof.
  induction m as [| [k v] m IH]; intros fi stream H.
  - eexists. split; reflexivity.
  - inversion H as [| ? ? [Hk Hv] Hm]; subst. cbn [fst snd] in Hk, Hv.
    destruct (payload_value v Hv) as (Hval & Henc & Htag & n & Hpay).
    destruct (binary_tokens_head m) as (next & rest & Hnext & Hnone).
    cbn [binary_tokens fst snd].
    rewrite (ConvertJSONToBSON_loop_step (name_token k) (binary_token v) _ fi stream
               (or_intror eq_refl) eq_refl).
    rewrite Htag, (payload_name k Hk). cbn [bind].
    rewrite Hnext.
    rewrite (ConvertJSONToBSON_loop_step (binary_token v) next rest _ _
               (or_introl Hval) Henc).
    rewrite Hnone, Hpay. cbn [bind]. rewrite <- Hnext.
    match goal with
    | |- context [ConvertJSONToBSON_loop _ (mkEncoderState _ ?fi' ?stream')] =>
        destruct (IH fi' stream' Hm) as (st & Hloop & Hstream)
    end.
    exists st. split; [ exact Hloop | ].
    rewrite Hstream. unfold document, element. cbn [map concat fst snd].
    rewrite app_nil_r, <- !app_assoc. cbn [app]. rewrite <- !app_assoc. reflexivity.
Qed.

(** The encoder writes a flat object as the bytes of its elements and
    the byte that ends the document. *)
Lemma ConvertJSONToBSON_flat :
  forall m : list (list Z * havJSONData),
    Forall writable_entry m ->
    ConvertJSONToBSON (Data DT_Object (V_map m)) = Ok (Some (document m)).
Proof.
  intros [| [k v] m] H; [ reflexivity | ].
  inversion H as [| ? ? [Hk Hv] Hm]; subst. cbn [fst snd] in Hk, Hv.
  destruct (writable_scalar_of v Hv) as (sc & Hsc & _).
  destruct (written_token_spec v sc Hsc) as (Htok & _ & _).
  assert (Hstand : exists ms, entries_stand_for m ms).
  { clear - Hm. induction Hm as [| [k v] m [_ Hv] _ (ms & IH)].
    - exists []. reflexivity.
    - cbn [snd] in Hv. destruct (writable_scalar_of v Hv) as (sc & Hsc & _).
      exists ((k, sc) :: ms). unfold entries_stand_for in *.
      cbn [map fst snd]. rewrite Hsc, IH. reflexivity. }
  destruct Hstand as (ms & Hms).
  unfold ConvertJSONToBSON, Tokenization_value.
  cbn [getType getValue]. unfold TokenizeObject.
  cbn [TokenizeObject_from]. rewrite Htok. cbn [bind].
  rewrite (TokenizeObject_from_values m ms _ Hms). cbn [bind]. unfold push_back.
  cbn [app structural mToken havJSONToken_eqb negb].
  fold (structural LeftCurlyBracket). fold (structural Colon). fold (name_token k).
  change (narrow_tokens (structural LeftCurlyBracket :: name_token k
                           :: structural Colon :: written_token v
                           :: written_object_tail m))
    with (structural LeftCurlyBracket :: name_token k
            :: narrow_tokens (written_token v :: written_object_tail m)).
  rewrite (narrow_tokens_value v _ Hv), (narrow_written_object_tail m Hm).
  change (name_token k :: binary_token v :: binary_tokens m)
    with (binary_tokens ((k, v) :: m)).
  destruct (ConvertJSONToBSON_loop_entries ((k, v) :: m) 0 [] H)
    as (st & Hloop & Hstream).
  fold root_type. rewrite Hloop. cbn [bind]. rewrite Hstream. reflexivity.
Qed.

(** ** The decoder on the bytes of a flat object *)

Fixpoint le_value (bytes : list Z) : Z :=
  match bytes with
  | [] => 0
  | b :: rest => b + 256 * le_value rest
  end.

Lemma byte_at_from :
  forall (s : list Z) (index c : Z) (rest : list Z),
    0 <= index -> from index s = c :: rest -> byte_at s index = Ok c.
Proof.
  intros s index c rest Hi Hfrom. read_char Hfrom Hat Hsz. unfold byte_at.
  replace ((0 <=? index) && (index <=? size s)) with true
    by (symmetry; apply andb_true_iff; split; apply Z.leb_le;
        [ lia | apply Z.leb_gt in Hsz; lia ]).
  rewrite Hat. reflexivity.
Qed.

Lemma little_endian_at :
  forall (bytes : list Z) (s : list Z) (index : Z) (rest : list Z),
    0 <= index ->
    from index s = bytes ++ rest ->
    little_endian (length bytes) s index = Ok (le_value bytes).
Proof.
  induction bytes as [| b bytes IH]; intros s index rest Hi Hfrom; [ reflexivity | ].
  cbn [length little_endian le_value]. cbn [app] in Hfrom.
  rewrite (byte_at_from s index b _ Hi Hfrom). cbn [bind].
  read_char Hfrom Hat Hsz.
  rewrite (IH s (index + 1) rest ltac:(lia) Hfrom). reflexivity.
Qed.

Lemma GetBSONKey_loop_plain :
  forall (k rest : list Z) (index : Z) (stringValue : list Z),
    plain_string k = true ->
    GetBSONKey_loop (k ++ 0 :: rest) index stringValue
    = (index + size k, stringValue ++ k).
Proof.
  induction k as [| c k IH]; intros rest index stringValue Hk.
  - cbn [app GetBSONKey_loop]. change (0 =? 0) with true. cbv iota.
    change (size []) with 0. rewrite Z.add_0_r, app_nil_r. reflexivity.
  - cbn [plain_string forallb] in Hk. apply andb_prop in Hk. destruct Hk as [Hc Hk].
    destruct (plain_char_spec c Hc) as (Hrange & _).
    cbn [app GetBSONKey_loop].
    destruct (Z.eqb_spec c 0) as [-> | _]; [ lia | ].
    rewrite (IH rest _ _ Hk), <- app_assoc.
    f_equal. unfold size. cbn [length]. lia.
Qed.

Lemma GetBSONKey_plain :
  forall (s : list Z) (index : Z) (k : list Z) (t : Z) (rest : list Z),
    plain_string k = true ->
    0 <= index ->
    from index s = t :: k ++ 0 :: rest ->
    GetBSONKey s index = Ok (key_text k ++ str ": ", index + size k + 2).
Proof.
  intros s index k t rest Hk Hi Hfrom. read_char Hfrom Hat Hsz.
  unfold GetBSONKey.
  destruct (Z.ltb_spec (size s) (index + 1)) as [Hlt | _];
    [ apply Z.leb_gt in Hsz; lia | ].
  rewrite Hfrom, (GetBSONKey_loop_plain k rest _ _ Hk).
  cbv beta iota zeta. cbn [app].
  rewrite (ConvertToEscapedString_plain k Hk). cbn [bind app].
  unfold key_text. cbn [app]. rewrite <- app_assoc. cbn [app].
  do 2 f_equal. lia.
Qed.

Lemma decode_key_plain :
  forall (s : list Z) (index : Z) (k : list Z) (t : Z) (rest content : list Z),
    plain_string k = true ->
    0 <= index ->
    from index s = t :: k ++ 0 :: rest ->
    decode_key s (mkDecoderState index [] content)
    = Ok (mkDecoderState (index + size k + 2) [] (content ++ key_text k ++ str ": "))
    /\ from (index + size k + 2) s = rest.
Proof.
  intros s index k t rest content Hk Hi Hfrom. split.
  - unfold decode_key. cbn [typeMemory d_index jsonContent].
    rewrite (GetBSONKey_plain s index k t rest Hk Hi Hfrom). reflexivity.
  - pose proof (from_app (t :: k ++ [0]) s index rest Hi) as H.
    cbn [app] in H. rewrite <- app_assoc in H. specialize (H Hfrom).
    rewrite <- H. f_equal. unfold size. cbn [length]. rewrite length_app.
    cbn [length]. lia.
Qed.

Lemma decode_string_loop_plain :
  forall (p rest : list Z) (index valueSize : Z) (stringValue : list Z),
    plain_string p = true ->
    size stringValue + size p <= valueSize ->
    decode_string_loop (p ++ 0 :: rest) index valueSize stringValue
    = (index + size p, stringValue ++ p).
Proof.
  induction p as [| c p IH]; intros rest index valueSize stringValue Hp Hsize.
  - cbn [app decode_string_loop]. change (0 =? 0) with true. cbn [negb andb].
    change (size []) with 0. rewrite Z.add_0_r, app_nil_r. reflexivity.
  - cbn [plain_string forallb] in Hp. apply andb_prop in Hp. destruct Hp as [Hc Hp].
    destruct (plain_char_spec c Hc) as (Hrange & _).
    cbn [app decode_string_loop].
    destruct (Z.eqb_spec c 0) as [-> | _]; [ lia | ]. cbn [negb andb].
    assert (Hlen : size (c :: p) = size p + 1) by (unfold size; cbn [length]; lia).
    assert (Hp0 : 0 <= size p) by (unfold size; lia).
    destruct (Z.ltb_spec (size stringValue) valueSize) as [_ | Hge]; [ | lia ].
    rewrite (IH rest _ valueSize _ Hp), <- app_assoc.
    + f_equal. lia.
    + unfold size in *. rewrite length_app. cbn [length]. lia.
Qed.

(** The four bytes the encoder writes in front of a string, read as the
    length: never less than the length of the string. *)
Lemma string_length_field :
  forall n : Z,
    0 < n < 0x10000 ->
    exists field : list Z,
      padded 4 (CodePointToString n) = field
      /\ length field = 4%nat
      /\ n - 1 <= le_value field < 2 ^ 31.
Proof.
  intros n Hn. rewrite CodePointToString_utf8 by lia. unfold utf8_encode.
  change (2 ^ 31) with 2147483648.
  assert (H64 : 0 <= n mod 64 < 64) by (apply Z.mod_pos_bound; lia).
  assert (H64' : 0 <= (n / 64) mod 64 < 64) by (apply Z.mod_pos_bound; lia).
  destruct (Z.ltb_spec n 0x80).
  { exists [n; 0; 0; 0]. split; [ reflexivity | ]. split; [ reflexivity | ].
    cbn [le_value]. lia. }
  destruct (Z.ltb_spec n 0x800).
  { exists [0xC0 + n / 64; 0x80 + n mod 64; 0; 0].
    split; [ reflexivity | ]. split; [ reflexivity | ].
    cbn [le_value].
    assert (0 <= n / 64 < 32)
      by (split; [ apply Z.div_pos; lia | apply Z.div_lt_upper_bound; lia ]).
    lia. }
  destruct (Z.ltb_spec n 0x10000); [ | lia ].
  exists [0xE0 + n / 4096; 0x80 + (n / 64) mod 64; 0x80 + n mod 64; 0].
  split; [ reflexivity | ]. split; [ reflexivity | ].
  cbn [le_value].
  assert (0 <= n / 4096 < 16)
    by (split; [ apply Z.div_pos; lia | apply Z.div_lt_upper_bound; lia ]).
  lia.
Qed.

Lemma to_signed_unsigned :
  forall (bits x : Z), to_signed bits (to_unsigned bits x) = to_signed bits x.
Proof.
  intros bits x. unfold to_signed, to_unsigned.
  destruct (Z.eq_dec (2 ^ bits) 0) as [E | E].
  - rewrite E, !Z.mod_0_r. reflexivity.
  - rewrite Z.mod_mod by exact E. reflexivity.
Qed.

Lemma to_signed_64_small :
  forall x : Z, - 2 ^ 63 <= x <= 2 ^ 63 - 1 -> to_signed 64 x = x.
Proof.
  intros x. unfold to_signed. change (64 - 1) with 63. compute_powers. intros Hx.
  destruct (Z.ltb_spec (x mod 18446744073709551616) 9223372036854775808);
    Z.div_mod_to_equations; lia.
Qed.

(** The text the decoder writes for an entry. *)
Definition entry_text (e : list Z * scalar) : list Z :=
  key_text (fst e) ++ str ": " ++ text_of (snd e).

Lemma length_le_bytes : forall (n : nat) (u : Z), length (le_bytes n u) = n.
Proof. induction n as [| n IH]; intros u; [ reflexivity | ]. cbn. rewrite IH. reflexivity. Qed.

Lemma le_value_le_bytes :
  forall (n : nat) (u : Z), 0 <= u < 256 ^ Z.of_nat n -> le_value (le_bytes n u) = u.
Proof.
  induction n as [| n IH]; intros u Hu.
  - change (256 ^ Z.of_nat 0) with 1 in Hu. cbn [le_bytes le_value]. lia.
  - rewrite Nat2Z.inj_succ, Z.pow_succ_r in Hu by lia.
    cbn [le_bytes le_value]. rewrite IH.
    + Z.div_mod_to_equations. lia.
    + split; [ apply Z.div_pos; lia | apply Z.div_lt_upper_bound; lia ].
Qed.

Lemma size_le_bytes : forall (n : nat) (u : Z), size (le_bytes n u) = Z.of_nat n.
Proof. intros n u. unfold size. rewrite length_le_bytes. reflexivity. Qed.

Lemma size_app : forall a b : list Z, size (a ++ b) = size a + size b.
Proof. intros a b. unfold size. rewrite length_app. lia. Qed.

Lemma size_cons : forall (c : Z) (a : list Z), size (c :: a) = size a + 1.
Proof. intros c a. unfold size. cbn [length]. lia. Qed.

(** The [case] of the decoder for the element of an entry: the key and
    the value are written, and [index] is left on the last byte of the
    element. *)
Lemma decode_element_entry :
  forall (s : list Z) (k : list Z) (v : havJSONData) (sc : scalar) (index : Z)
         (rest content : list Z),
    plain_string k = true ->
    binary_scalar v = true ->
    scalar_of v = Some sc ->
    0 <= index ->
    from index s = element (k, v) ++ rest ->
    decode_element s (type_of_value v) (mkDecoderState index [] content)
    = Ok (mkDecoderState (index + size (element (k, v)) - 1) []
            (content ++ entry_text (k, sc))).
Proof.
  intros s k v sc index rest content Hk Hv Hsc Hi Hfrom.
  unfold element in Hfrom. cbn [fst snd app] in Hfrom.
  rewrite <- app_assoc in Hfrom. cbn [app] in Hfrom.
  destruct (decode_key_plain s index k _ _ content Hk Hi Hfrom) as [Hkey Hvalue].
  assert (Hi' : 0 <= index + size k + 2) by (unfold size; lia).
  assert (Hsize : size (element (k, v)) = size k + 2 + size (value_bytes v)).
  { unfold element. cbn [fst snd]. rewrite size_cons, size_app, size_cons. lia. }
  rewrite Hsize. unfold entry_text. cbn [fst snd].
  destruct v as [t p]. unfold binary_scalar in Hv. unfold scalar_of in Hsc.
  cbn [getType getValue] in Hv, Hsc.
  destruct t; destruct p; try discriminate Hv;
    cbn [type_of_value getType value_bytes getValue] in *;
    inversion Hsc; subst sc; clear Hsc;
    try (apply andb_prop in Hv; destruct Hv as [H1 H2]).
  - (* a boolean *)
    change (decode_element s BSON_Boolean (mkDecoderState index [] content))
      with (st <- decode_key s (mkDecoderState index [] content) ;;
            value <- byte_at s (d_index st) ;;
            Ok (decode_count 1
                  (append_content st (d_index st)
                     (str (if negb (value =? 0) then "true" else "false"))))).
    rewrite Hkey. cbn [bind d_index].
    rewrite (byte_at_from s _ _ _ Hi' Hvalue). cbn [bind].
    unfold decode_count, append_content. cbn [typeMemory jsonContent d_index].
    rewrite <- ?app_assoc.
    destruct b; cbn [text_of]; do 2 f_equal; try reflexivity;
      change (size [_]) with 1; lia.
  - (* int *)
    apply Z.leb_le in H1. apply Z.leb_le in H2.
    change (decode_element s BSON_Int (mkDecoderState index [] content))
      with (st <- decode_key s (mkDecoderState index [] content) ;;
            v <- little_endian 4 s (d_index st) ;;
            Ok (decode_count 4
                  (append_content st (d_index st + 3) (to_string (to_signed 32 v))))).
    rewrite Hkey. cbn [bind d_index].
    rewrite (little_endian_le_bytes 4 (to_unsigned 32 x) s _ rest Hi'
               ltac:(unfold to_unsigned; apply Z.mod_pos_bound; lia) Hvalue).
    cbn [bind]. rewrite to_signed_unsigned, to_signed_small by lia.
    unfold decode_count, append_content. cbn [typeMemory jsonContent d_index text_of].
    rewrite <- ?app_assoc. do 2 f_equal; try reflexivity.
    rewrite size_le_bytes. lia.
  - (* unsigned int *)
    apply Z.leb_le in H1. apply Z.leb_le in H2.
    change (decode_element s BSON_Int (mkDecoderState index [] content))
      with (st <- decode_key s (mkDecoderState index [] content) ;;
            v <- little_endian 4 s (d_index st) ;;
            Ok (decode_count 4
                  (append_content st (d_index st + 3) (to_string (to_signed 32 v))))).
    rewrite Hkey. cbn [bind d_index].
    rewrite (little_endian_le_bytes 4 (to_unsigned 32 x) s _ rest Hi'
               ltac:(unfold to_unsigned; apply Z.mod_pos_bound; lia) Hvalue).
    cbn [bind]. rewrite to_signed_unsigned, to_signed_small by lia.
    unfold decode_count, append_content. cbn [typeMemory jsonContent d_index text_of].
    rewrite <- ?app_assoc. do 2 f_equal; try reflexivity.
    rewrite size_le_bytes. lia.
  - (* long *)
    apply Z.leb_le in H1. apply Z.leb_le in H2.
    change (decode_element s BSON_Int64 (mkDecoderState index [] content))
      with (st <- decode_key s (mkDecoderState index [] content) ;;
            v <- little_endian 8 s (d_index st) ;;
            Ok (decode_count 8
                  (append_content st (d_index st + 7) (to_string (to_signed 64 v))))).
    rewrite Hkey. cbn [bind d_index].
    rewrite (little_endian_le_bytes 8 (to_unsigned 64 x) s _ rest Hi'
               ltac:(unfold to_unsigned; apply Z.mod_pos_bound; lia) Hvalue).
    cbn [bind]. rewrite to_signed_unsigned, to_signed_64_small by lia.
    unfold decode_count, append_content. cbn [typeMemory jsonContent d_index text_of].
    rewrite <- ?app_assoc. do 2 f_equal; try reflexivity.
    rewrite size_le_bytes. lia.
  - (* unsigned long *)
    apply Z.leb_le in H1. apply Z.leb_le in H2.
    change (decode_element s BSON_Timestamp (mkDecoderState index [] content))
      with (st <- decode_key s (mkDecoderState index [] content) ;;
            v <- little_endian 8 s (d_index st) ;;
            Ok (decode_count 8 (append_content st (d_index st + 7) (to_string v)))).
    rewrite Hkey. cbn [bind d_index].
    rewrite (little_endian_le_bytes 8 x s _ rest Hi'
               ltac:(change (256 ^ Z.of_nat 8) with (2 ^ 64); lia) Hvalue).
    cbn [bind].
    unfold decode_count, append_content. cbn [typeMemory jsonContent d_index text_of].
    rewrite <- ?app_assoc. do 2 f_equal; try reflexivity.
    rewrite size_le_bytes. lia.
  - (* std::int64_t *)
    apply Z.leb_le in H1. apply Z.leb_le in H2.
    change (decode_element s BSON_Int64 (mkDecoderState index [] content))
      with (st <- decode_key s (mkDecoderState index [] content) ;;
            v <- little_endian 8 s (d_index st) ;;
            Ok (decode_count 8
                  (append_content st (d_index st + 7) (to_string (to_signed 64 v))))).
    rewrite Hkey. cbn [bind d_index].
    rewrite (little_endian_le_bytes 8 (to_unsigned 64 x) s _ rest Hi'
               ltac:(unfold to_unsigned; apply Z.mod_pos_bound; lia) Hvalue).
    cbn [bind]. rewrite to_signed_unsigned, to_signed_64_small by lia.
    unfold decode_count, append_content. cbn [typeMemory jsonContent d_index text_of].
    rewrite <- ?app_assoc. do 2 f_equal; try reflexivity.
    rewrite size_le_bytes. lia.
  - (* std::uint64_t *)
    apply Z.leb_le in H1. apply Z.leb_le in H2.
    change (decode_element s BSON_Timestamp (mkDecoderState index [] content))
      with (st <- decode_key s (mkDecoderState index [] content) ;;
            v <- little_endian 8 s (d_index st) ;;
            Ok (decode_count 8 (append_content st (d_index st + 7) (to_string v)))).
    rewrite Hkey. cbn [bind d_index].
    rewrite (little_endian_le_bytes 8 x s _ rest Hi'
               ltac:(change (256 ^ Z.of_nat 8) with (2 ^ 64); lia) Hvalue).
    cbn [bind].
    unfold decode_count, append_content. cbn [typeMemory jsonContent d_index text_of].
    rewrite <- ?app_assoc. do 2 f_equal; try reflexivity.
    rewrite size_le_bytes. lia.
  - (* a string *)
    apply Z.ltb_lt in H2.
    assert (Hs0 : 0 <= size s0) by (unfold size; lia).
    destruct (string_length_field (size s0 + 1) ltac:(lia))
      as (field & Hfield & Hlen & Hvalue_size).
    rewrite Hfield in *. rewrite <- !app_assoc in Hvalue. cbn [app] in Hvalue.
    change (decode_element s BSON_String (mkDecoderState index [] content))
      with (st <- decode_key s (mkDecoderState index [] content) ;;
            '(valueSize, index) <- GetBSONValueSize s (d_index st) ;;
            if size s <? index then
              Throw (undefined_behaviour "read past the end of the string")
            else
              let '(index, stringValue) :=
                decode_string_loop (from index s) index valueSize [] in
              stringValue <- ConvertToEscapedString stringValue ;;
              Ok (decode_count (4 + (size stringValue + 1))
                    (append_content st index ([DQ] ++ stringValue ++ [DQ])))).
    rewrite Hkey. cbn [bind d_index].
    unfold GetBSONValueSize.
    pose proof (little_endian_at field s _ _ Hi' Hvalue) as Hle.
    rewrite Hlen in Hle. rewrite Hle. cbn [bind].
    assert (Hpos : to_signed 32 (le_value field) = le_value field).
    { apply to_signed_small. change (2 ^ 31) with 2147483648 in *. lia. }
    rewrite Hpos.
    destruct (Z.ltb_spec (le_value field) 0) as [Hneg | _]; [ lia | ].
    pose proof (from_app field s _ _ Hi' Hvalue) as Hstring.
    assert (Hfour : size field = 4) by (unfold size; rewrite Hlen; reflexivity).
    rewrite Hfour in Hstring.
    assert (Hin : (size s <? index + size k + 2 + 4) = false).
    { apply Z.ltb_ge.
      destruct s0 as [| c tl]; cbn [app] in Hstring;
        destruct (from_cons _ _ _ _ Hstring ltac:(lia)) as (_ & Hsz & _);
        apply Z.leb_gt in Hsz; lia. }
    cbn [bind]. rewrite Hin, Hstring.
    rewrite (decode_string_loop_plain s0 rest _ _ [] H1)
      by (change (size []) with 0; lia).
    cbv beta iota zeta. cbn [app].
    rewrite (ConvertToEscapedString_plain s0 H1). cbn [bind].
    unfold decode_count, append_content. cbn [typeMemory jsonContent d_index text_of].
    rewrite <- ?app_assoc. do 2 f_equal; try reflexivity.
    rewrite !size_app, Hfour. change (size [0]) with 1. lia.
Qed.

Definition entries_text (ms : list (list Z * scalar)) : list Z :=
  concat (map (fun e => entry_text e ++ str ", ") ms).

Lemma document_cons :
  forall (e : list Z * havJSONData) (m : list (list Z * havJSONData)),
    document (e :: m) = element e ++ document m.
Proof. intros e m. unfold document. cbn [map concat]. apply eq_sym, app_assoc. Qed.

Lemma size_element :
  forall e : list Z * havJSONData, 2 <= size (element e).
Proof.
  intros e. unfold element. rewrite size_cons, size_app, size_cons.
  unfold size. lia.
Qed.

Lemma size_document :
  forall m : list (list Z * havJSONData), Z.of_nat (length m) < size (document m).
Proof.
  induction m as [| e m IH]; [ reflexivity | ].
  rewrite document_cons, size_app. pose proof (size_element e).
  cbn [length]. lia.
Qed.

(** The loop of the decoder over elements that other bytes follow. *)
Lemma ConvertBSONToJSON_loop_elements :
  forall (m : list (list Z * havJSONData)) (ms : list (list Z * scalar))
         (fuel : nat) (s : list Z) (index total : Z) (content rest : list Z),
    Forall binary_entry m ->
    entries_stand_for m ms ->
    0 <= index ->
    from index s = concat (map element m) ++ rest ->
    index + size (concat (map element m)) < total ->
    ConvertBSONToJSON_loop (length m + fuel) s total (mkDecoderState index [] content)
    = ConvertBSONToJSON_loop fuel s total
        (mkDecoderState (index + size (concat (map element m))) []
           (content ++ entries_text ms)).
Proof.
  induction m as [| [k v] m IH];
    intros ms fuel s index total content rest Hm Hms Hi Hfrom Htotal.
  - destruct ms; [ | discriminate Hms ].
    cbn [length map concat Nat.add]. change (size []) with 0.
    unfold entries_text. cbn [map concat]. rewrite Z.add_0_r, app_nil_r. reflexivity.
  - destruct ms as [| [k' sc] ms]; [ discriminate Hms | ].
    apply entries_stand_for_cons in Hms. destruct Hms as (<- & Hsc & Hms).
    inversion Hm as [| ? ? [Hk Hv] Hm']; subst. cbn [fst snd] in Hk, Hv.
    cbn [map concat] in *. rewrite <- app_assoc in Hfrom. rewrite size_app in *.
    pose proof (size_element (k, v)) as Hsize.
    assert (Hrest : 0 <= size (concat (map element m))) by (unfold size; lia).
    cbn [length Nat.add].
    cbn [ConvertBSONToJSON_loop d_index typeMemory jsonContent back bind].
    destruct (Z.leb_spec total index); [ lia | ].
    destruct (Z.eqb_spec (index + 1) total); [ lia | ].
    assert (Htype : byte_at s index = Ok (type_of_value v)).
    { apply (byte_at_from s index _
               (k ++ 0 :: value_bytes v ++ concat (map element m) ++ rest) Hi).
      rewrite Hfrom. unfold element. cbn [fst snd app].
      rewrite <- app_assoc. reflexivity. }
    rewrite Htype. cbn [bind].
    rewrite (decode_element_entry s k v sc index _ content Hk Hv Hsc Hi Hfrom).
    cbn [bind]. unfold decode_close, append_content.
    cbn [typeMemory d_index jsonContent bind].
    pose proof (from_app (element (k, v)) s index _ Hi Hfrom) as Hnext.
    replace (index + size (element (k, v)) - 1 + 1)
      with (index + size (element (k, v))) by lia.
    rewrite (IH ms fuel s (index + size (element (k, v))) total
               ((content ++ entry_text (k, sc)) ++ str ", ") rest Hm' Hms
               ltac:(lia) Hnext ltac:(lia)).
    unfold entries_text. cbn [map concat]. rewrite <- !app_assoc.
    do 2 f_equal. lia.
Qed.

(** The loop of the decoder over the elements of a flat object. *)
Lemma ConvertBSONToJSON_loop_entries :
  forall (m : list (list Z * havJSONData)) (ms : list (list Z * scalar))
         (fuel : nat) (s : list Z) (index total : Z) (content : list Z),
    Forall binary_entry m ->
    entries_stand_for m ms ->
    0 <= index ->
    from index s = document m ->
    total = index + size (document m) ->
    (length m < fuel)%nat ->
    ConvertBSONToJSON_loop fuel s total (mkDecoderState index [] content)
    = Ok (mkDecoderState total [] (content ++ entries_text ms)).
Proof.
  intros m ms fuel s index total content Hm Hms Hi Hfrom Htotal Hfuel.
  unfold document in *. rewrite size_app in Htotal. change (size [0]) with 1 in Htotal.
  replace fuel with (length m + S (fuel - length m - 1))%nat by lia.
  rewrite (ConvertBSONToJSON_loop_elements m ms _ s index total content [0] Hm Hms Hi
             Hfrom ltac:(lia)).
  cbn [ConvertBSONToJSON_loop d_index typeMemory jsonContent].
  assert (Hrest : 0 <= size (concat (map element m))) by (unfold size; lia).
  destruct (Z.leb_spec total (index + size (concat (map element m)))); [ lia | ].
  destruct (Z.eqb_spec (index + size (concat (map element m)) + 1) total); [ | lia ].
  do 2 f_equal. lia.
Qed.

(** *** The text the decoder makes *)

Fixpoint spaced_tail (m : list (list Z * scalar)) : list Z :=
  match m with
  | [] => [ch "}"]
  | e :: m' => ch "," :: ch " " :: entry_text e ++ spaced_tail m'
  end.

Definition spaced_text (k : list Z) (sc : scalar) (m : list (list Z * scalar))
  : list Z :=
  ch "{" :: entry_text (k, sc) ++ spaced_tail m.

Lemma entries_text_split :
  forall (ms : list (list Z * scalar)) (e : list Z * scalar) (pre : list Z),
    exists body : list Z,
      pre ++ entries_text (e :: ms) = body ++ str ", "
      /\ body ++ [ch "}"] = pre ++ entry_text e ++ spaced_tail ms.
Proof.
  induction ms as [| e' ms IH]; intros e pre.
  - exists (pre ++ entry_text e). unfold entries_text. cbn [map concat spaced_tail].
    rewrite app_nil_r, <- !app_assoc. split; reflexivity.
  - destruct (IH e' ((pre ++ entry_text e) ++ str ", ")) as (body & Hbody & Hclose).
    exists body. split.
    + rewrite <- Hbody. unfold entries_text. cbn [map concat].
      rewrite <- !app_assoc. reflexivity.
    + rewrite Hclose. cbn [spaced_tail]. rewrite <- !app_assoc. reflexivity.
Qed.

Lemma from_size_app :
  forall a b : list Z, from (size a) (a ++ b) = b.
Proof.
  intros a b. unfold from, size. rewrite Nat2Z.id.
  rewrite skipn_app, skipn_all, Nat.sub_diag. reflexivity.
Qed.

(** The separator after the last entry is taken away again. *)
Lemma strip_separator :
  forall body : list Z,
    (if ends_with_separator (body ++ str ", ")
     then firstn (length (body ++ str ", ") - 2) (body ++ str ", ")
     else body ++ str ", ") = body.
Proof.
  intros body. unfold ends_with_separator.
  rewrite size_app. change (size (str ", ")) with 2.
  replace (size body + 2 - 2) with (size body) by lia.
  rewrite from_size_app.
  assert (Hs : 0 <= size body) by (unfold size; lia).
  destruct (Z.leb_spec 2 (size body + 2)); [ | lia ].
  cbn [andb]. change (list_eqb (str ", ") (str ", ")) with true. cbv iota.
  rewrite length_app. change (length (str ", ")) with 2%nat.
  replace (length body + 2 - 2)%nat with (length body + 0)%nat by lia.
  rewrite firstn_app_2. cbn [firstn]. apply app_nil_r.
Qed.

Lemma GetBSONValueSize_prefix :
  forall stream : list Z,
    size stream + 4 < 2 ^ 31 ->
    GetBSONValueSize (int32_bytes (size stream + 4) ++ stream) 0
    = Ok (size stream + 4, 4).
Proof.
  intros stream Hsmall. unfold GetBSONValueSize.
  rewrite little_endian_int32_bytes. cbn [bind].
  assert (0 <= size stream) by (unfold size; lia).
  rewrite to_signed_unsigned, to_signed_small
    by (change (2 ^ 31) with 2147483648 in *; lia).
  destruct (Z.ltb_spec (size stream + 4) 0); [ lia | reflexivity ].
Qed.

(** The decoder makes of the bytes of a flat object the text of its
    entries, a space after every colon and every comma. *)
Lemma ConvertBSONToJSON_flat :
  forall (k : list Z) (v : havJSONData) (m : list (list Z * havJSONData))
         (sc : scalar) (ms : list (list Z * scalar)),
    Forall binary_entry ((k, v) :: m) ->
    entries_stand_for ((k, v) :: m) ((k, sc) :: ms) ->
    size (document ((k, v) :: m)) + 4 < 2 ^ 31 ->
    ConvertBSONToJSON
      (int32_bytes (size (document ((k, v) :: m)) + 4) ++ document ((k, v) :: m))
    = Ok (spaced_text k sc ms).
Proof.
  intros k v m sc ms Hm Hms Hsmall.
  set (stream := document ((k, v) :: m)) in *.
  set (file := int32_bytes (size stream + 4) ++ stream).
  assert (Hsize : size file = size stream + 4)
    by (unfold file; rewrite size_app; change (size (int32_bytes _)) with 4; lia).
  assert (Hfrom : from 4 file = stream) by (apply (from_size_app (int32_bytes _))).
  pose proof (size_document ((k, v) :: m)) as Hlen. fold stream in Hlen.
  unfold ConvertBSONToJSON. fold file.
  unfold file at 1. rewrite (GetBSONValueSize_prefix stream Hsmall). cbn [bind].
  assert (Hfuel : (length ((k, v) :: m) < S (Z.to_nat (size stream + 4)))%nat) by lia.
  assert (Htotal : size stream + 4 = 4 + size (document ((k, v) :: m)))
    by (unfold stream; lia).
  rewrite (ConvertBSONToJSON_loop_entries ((k, v) :: m) ((k, sc) :: ms) _ file 4
             (size stream + 4) (str "{") Hm Hms ltac:(lia) Hfrom Htotal Hfuel).
  cbn [bind d_index jsonContent].
  assert (Heoo : byte_at file (size stream + 4) = Ok 0).
  { unfold byte_at. rewrite Hsize.
    assert (0 <= size stream) by (unfold size; lia).
    destruct (Z.leb_spec 0 (size stream + 4)); [ | lia ].
    rewrite Z.leb_refl. cbn [andb]. f_equal.
    rewrite <- Hsize. unfold at_, size. rewrite Nat2Z.id. apply nth_overflow. lia. }
  rewrite Heoo. cbn [bind]. change (negb (0 =? 0)) with false. cbv iota.
  destruct (entries_text_split ms (k, sc) (str "{")) as (body & Hbody & Hclose).
  rewrite Hbody, strip_separator. f_equal.
  change (str "}") with [ch "}"]. rewrite Hclose. reflexivity.
Qed.

(** ** The lexer on the text the decoder makes *)

(** The iteration at the colon after a key, followed by white space and
    a scalar that may stand right before the closing bracket. *)
Lemma Tokenization_body_object_colon_space :
  forall (dm : DataModel) (sc : scalar) (ws : list Z) (s : list Z) (index : Z)
         (rest : list Z) (mTokens : list havJSONTokenValue),
    valid_scalar sc ->
    Forall skipped ws ->
    0 <= index ->
    from index s = ch ":" :: ws ++ text_of sc ++ rest ->
    (is_integer sc = true -> number_end rest) ->
    Tokenization_body dm s index (in_root LeftCurlyBracket mTokens)
    = Ok (in_root LeftCurlyBracket (mTokens ++ [structural Colon; token_of dm sc]),
          index + size ws + size (text_of sc) + size (taken sc rest)).
Proof.
  intros dm sc ws s index rest mTokens Hv Hgap Hi Hfrom Hend.
  read_char Hfrom Hat Hsz.
  unfold Tokenization_body. rewrite Hat.
  cbn -[Z.add Z.sub from at_ size CheckTypeToken text_of token_of taken].
  assert (Hi1 : 0 <= index + 1) by lia.
  rewrite (CheckTypeToken_gap dm Colon ws _ (index + 1) s _ Hgap Hi1 Hfrom).
  pose proof (from_app ws s (index + 1) _ Hi1 Hfrom) as Hnext.
  assert (Hi2 : 0 <= index + 1 + size ws) by (unfold size; lia).
  rewrite (CheckTypeToken_colon_scalar dm sc s (index + 1 + size ws) rest _ Hv Hi2
             Hnext Hend).
  cbn [bind]. value_token_facts dm sc. rewrite Hnone, Hleft. cbn [negb].
  unfold in_root, push_back. rewrite <- app_assoc. cbn [app].
  do 2 f_equal. lia.
Qed.

Lemma spaced_tail_end : forall m : list (list Z * scalar), number_end (spaced_tail m).
Proof. intros [| e m]; constructor. Qed.

Lemma after_spaced_tail :
  forall (prev : scalar) (m : list (list Z * scalar)) (s : list Z) (index : Z),
    0 <= index ->
    from index s = spaced_tail m ->
    from (index + size (taken prev (spaced_tail m))) s
    = after [ch "}"] prev (spaced_tail m).
Proof.
  intros prev m s index Hi Hfrom. unfold taken, after.
  destruct (is_integer prev).
  - destruct m as [| e m].
    + cbn. apply (from_app [ch "}"] s index [] Hi Hfrom).
    + cbn [spaced_tail swallowed]. change (ch "," =? ch ",") with true. cbv iota.
      cbn [list_eqb]. change (ch "," =? ch "}") with false. cbn [andb].
      unfold size. cbn [length]. rewrite Z.add_0_r. exact Hfrom.
  - unfold size. cbn [length]. rewrite Z.add_0_r. exact Hfrom.
Qed.

Section spaced_lexer.

Variable dm : DataModel.
Variable s : list Z.

(** The iterations that read a colon, a space, a scalar and what the
    scalar takes with it. *)
Lemma Tokenization_loop_spaced_value :
  forall (sc : scalar) (m : list (list Z * scalar)) (fuel : nat) (index : Z)
         (mTokens : list havJSONTokenValue),
    valid_scalar sc ->
    0 <= index ->
    from index s = ch ":" :: ch " " :: text_of sc ++ spaced_tail m ->
    Tokenization_loop dm (S fuel) s index (in_root LeftCurlyBracket mTokens)
    = Tokenization_loop dm fuel s
        (index + 1 + size (text_of sc) + size (taken sc (spaced_tail m)) + 1)
        (in_root LeftCurlyBracket (mTokens ++ [structural Colon; token_of dm sc]))
    /\ from (index + 1 + size (text_of sc) + size (taken sc (spaced_tail m)) + 1) s
       = after [ch "}"] sc (spaced_tail m).
Proof.
  intros sc m fuel index mTokens Hsc Hi Hfrom.
  cbn [Tokenization_loop].
  rewrite (Tokenization_body_object_colon_space dm sc [ch " "] s index
             (spaced_tail m) mTokens Hsc space_skipped Hi Hfrom
             (fun _ => spaced_tail_end m)).
  change (size [ch " "]) with 1.
  pose proof Hfrom as Hfrom'. read_char Hfrom' Hat Hsz. rewrite Hsz. cbn [bind].
  split; [ reflexivity | ].
  pose proof (from_app (ch ":" :: ch " " :: text_of sc) s index (spaced_tail m) Hi
                Hfrom) as Hnext.
  rewrite !size_cons in Hnext.
  pose proof (after_spaced_tail sc m s (index + (size (text_of sc) + 1 + 1))
                ltac:(unfold size; lia) Hnext) as Hnext'.
  rewrite <- Hnext'. f_equal. lia.
Qed.

(** The loop of the lexer, from the end of a value of the root object to
    the end of the text. *)
Lemma Tokenization_loop_spaced_object :
  forall (m : list (list Z * scalar)) (prev : scalar) (fuel : nat) (index : Z)
         (mTokens : list havJSONTokenValue),
    Forall valid_entry m ->
    0 <= index ->
    from index s = after [ch "}"] prev (spaced_tail m) ->
    (length (spaced_tail m) < fuel)%nat ->
    exists st : LexerState,
      Tokenization_loop dm fuel s index (in_root LeftCurlyBracket mTokens) = Ok st
      /\ lx_mTokens st = mTokens ++ lexed_object_tail dm prev m.
Proof.
  induction m as [| [k sc] m IH]; intros prev fuel index mTokens Hm Hi Hfrom Hfuel.
  - cbn [spaced_tail] in *. unfold after in Hfrom. cbn [lexed_object_tail].
    destruct fuel as [| fuel]; [ cbn in Hfuel; lia | ].
    destruct (is_integer prev).
    + cbn [list_eqb] in Hfrom. rewrite Z.eqb_refl in Hfrom. cbn [andb] in Hfrom.
      cbn [Tokenization_loop]. rewrite (from_nil _ _ Hi Hfrom).
      eexists. split; [ reflexivity | ]. cbn [lx_mTokens in_root].
      symmetry. apply app_nil_r.
    + destruct fuel as [| fuel]; [ cbn in Hfuel; lia | ].
      cbn [Tokenization_loop].
      destruct (Tokenization_body_close dm LeftCurlyBracket (ch "}") s index []
                  mTokens (or_intror (conj eq_refl eq_refl)) Hi Hfrom)
        as (st & Hbody & Htok).
      read_char Hfrom Hat Hsz. rewrite Hsz, Hbody. cbn [bind].
      rewrite (from_nil s (index + 1) ltac:(lia) Hfrom).
      exists st. split; [ reflexivity | exact Htok ].
  - inversion Hm as [| ? ? [Hk Hsc] Hm']; subst. cbn [fst snd] in Hk, Hsc.
    assert (Hafter : after [ch "}"] prev (spaced_tail ((k, sc) :: m))
                     = ch "," :: [ch " "] ++ key_text k
                         ++ ch ":" :: ch " " :: text_of sc ++ spaced_tail m).
    { unfold after. cbn [spaced_tail list_eqb]. unfold entry_text. cbn [fst snd].
      change (ch "," =? ch "}") with false. cbn [andb].
      change (str ": ") with [ch ":"; ch " "]. rewrite <- !app_assoc. cbn [app].
      destruct (is_integer prev); reflexivity. }
    rewrite Hafter in Hfrom.
    assert (Hlen : (length (key_text k) + length (text_of sc)
                    + length (spaced_tail m) + 4
                    <= length (spaced_tail ((k, sc) :: m)))%nat).
    { cbn [spaced_tail length]. unfold entry_text. cbn [fst snd].
      rewrite !length_app. change (length (str ": ")) with 2%nat. lia. }
    destruct fuel as [| [| fuel]]; try lia.
    cbn [Tokenization_loop].
    rewrite (Tokenization_body_object_comma_gap dm k [ch " "] s index _ mTokens Hk
               space_skipped Hi Hfrom).
    change (size [ch " "]) with 1.
    pose proof Hfrom as Hfrom'. read_char Hfrom' Hat Hsz. rewrite Hsz. cbn [bind].
    pose proof (from_app ([ch " "] ++ key_text k) s (index + 1)
                  (ch ":" :: ch " " :: text_of sc ++ spaced_tail m) ltac:(lia))
      as Hcolon.
    rewrite <- app_assoc in Hcolon. specialize (Hcolon Hfrom').
    rewrite size_app in Hcolon. change (size [ch " "]) with 1 in Hcolon.
    replace (index + 1 + (1 + size (key_text k)))
      with (index + 1 + size (key_text k) + 1) in Hcolon by lia.
    assert (Hi' : 0 <= index + 1 + size (key_text k) + 1) by (unfold size; lia).
    pose proof (from_cons _ _ _ _ Hcolon Hi') as (_ & Hsz' & _).
    rewrite Hsz'.
    destruct (Tokenization_loop_spaced_value sc m fuel
                (index + 1 + size (key_text k) + 1)
                (mTokens ++ [structural Comma; name_token k]) Hsc Hi' Hcolon)
      as [Hstep Hnext].
    cbn [Tokenization_loop] in Hstep. rewrite Hsz' in Hstep. rewrite Hstep.
    destruct (IH sc fuel
                (index + 1 + size (key_text k) + 1 + 1 + size (text_of sc)
                 + size (taken sc (spaced_tail m)) + 1)
                (((mTokens ++ [structural Comma; name_token k])
                    ++ [structural Colon; token_of dm sc])) Hm')
      as (st & Hloop & Htok); [ unfold size; lia | exact Hnext | lia | ].
    exists st. split; [ exact Hloop | ].
    rewrite Htok. cbn [lexed_object_tail fst snd]. rewrite <- !app_assoc. reflexivity.
Qed.

End spaced_lexer.

Lemma Tokenization_spaced_object :
  forall (dm : DataModel) (k : list Z) (sc : scalar) (m : list (list Z * scalar)),
    plain_string k = true ->
    valid_scalar sc ->
    Forall valid_entry m ->
    Tokenization dm (spaced_text k sc m) = Ok (object_lexed dm k sc m).
Proof.
  intros dm k sc m Hk Hsc Hm. unfold Tokenization.
  set (s := spaced_text k sc m).
  assert (Hfrom : from 0 s
                  = ch "{" :: key_text k
                      ++ ch ":" :: ch " " :: text_of sc ++ spaced_tail m).
  { unfold s, spaced_text, entry_text. cbn [fst snd].
    change (str ": ") with [ch ":"; ch " "]. rewrite <- !app_assoc. reflexivity. }
  assert (Hlen : length s
                 = S (length (key_text k)
                      + S (S (length (text_of sc) + length (spaced_tail m))))).
  { change s with (from 0 s). rewrite Hfrom. cbn [length]. rewrite length_app.
    cbn [length]. rewrite length_app. reflexivity. }
  destruct (length s) as [| fuel] eqn:Efuel; [ discriminate | ].
  cbn [Tokenization_loop].
  rewrite (Tokenization_body_object_open dm k s 0 _ Hk ltac:(lia) Hfrom).
  pose proof Hfrom as Hfrom'. read_char Hfrom' Hat Hsz. rewrite Hsz. cbn [bind].
  pose proof (from_app (key_text k) s (0 + 1) _ ltac:(lia) Hfrom') as Hcolon.
  replace (0 + 1 + size (key_text k)) with (0 + size (key_text k) + 1)
    in Hcolon by lia.
  assert (Hi' : 0 <= 0 + size (key_text k) + 1) by (unfold size; lia).
  pose proof (from_cons _ _ _ _ Hcolon Hi') as (_ & Hsz' & _).
  rewrite Hsz'.
  destruct (Tokenization_loop_spaced_value dm s sc m fuel (0 + size (key_text k) + 1)
              [structural LeftCurlyBracket; name_token k] Hsc Hi' Hcolon)
    as [Hstep Hnext].
  cbn [Tokenization_loop] in Hstep. rewrite Hsz' in Hstep. rewrite Hstep.
  destruct (Tokenization_loop_spaced_object dm s m sc fuel
              (0 + size (key_text k) + 1 + 1 + size (text_of sc)
               + size (taken sc (spaced_tail m)) + 1)
              ([structural LeftCurlyBracket; name_token k]
                 ++ [structural Colon; token_of dm sc]) Hm)
    as (st & Hloop & Htok); [ unfold size; lia | exact Hnext | lia | ].
  rewrite Hloop. cbn [bind]. rewrite Htok. reflexivity.
Qed.

(** ** Flat objects written to the binary form and read back *)

Lemma binary_scalar_plain :
  forall v : havJSONData, binary_scalar v = true -> plain_scalar v = true.
Proof.
  intros [t p] H. unfold binary_scalar in H. unfold plain_scalar, scalar_of.
  cbn [getType getValue] in *.
  destruct t; destruct p; try discriminate H; try reflexivity;
    apply andb_prop in H; destruct H as [H1 H2]; cbn [valid_scalarb];
    try exact H1;
    apply Z.leb_le in H1; apply Z.leb_le in H2;
    apply andb_true_iff; split; apply Z.leb_le;
    change (2 ^ 31) with 2147483648 in *;
    change (2 ^ 63) with 9223372036854775808 in *;
    change (2 ^ 64) with 18446744073709551616 in *; lia.
Qed.

(** [ParseFile] on a binary file parses the text the decoder makes of
    it. *)
Lemma ParseFile_BSON_text :
  forall (dm : DataModel) (file text : list Z),
    file <> [] ->
    ConvertBSONToJSON file = Ok text ->
    text <> [] ->
    ParseFile_BSON dm file = ParseContent dm text.
Proof.
  intros dm file text Hfile Htext Hne. unfold ParseFile_BSON.
  destruct file; [ contradiction Hfile; reflexivity | ].
  rewrite Htext. cbn [bind].
  destruct text; [ contradiction Hne; reflexivity | reflexivity ].
Qed.

(** The object [a: 1, b: -2, c: x, d: true] with a [long] and an
    [unsigned long] besides. *)
Definition binary_sample : list (list Z * havJSONData) :=
  [(str "a", Data DT_UInt (V_uint 1));
   (str "b", Data DT_Int (V_int (- 2)));
   (str "c", Data DT_String (V_string (str "x")));
   (str "d", Data DT_Boolean (V_bool true));
   (str "e", Data DT_Long (V_long (- 1099511627776)));
   (str "f", Data DT_ULong (V_ulong 18446744073709551615))].

(** X20: a flat object goes through the binary form.  For an object with
    plain keys whose values are booleans, integers that fit the type the
    encoder writes them in ([int] for [int] and [unsigned int], 64 bits
    for the others) and plain strings of fewer than 65535 characters,
    [WriteBSONFile] writes a file, and [ParseFile] on a file shorter than
    2^31 bytes gives the object back, every integer in the kind the lexer
    gives its text. *)
Theorem binary_flat_object_round_trip :
  forall (dm : DataModel) (m : list (list Z * havJSONData)),
    sorted_keys m ->
    Forall binary_entry m ->
    exists file : list Z,
      WriteBSONFile (Data DT_Object (V_map m)) = Ok (Some file)
      /\ (size file < 2 ^ 31 ->
          ParseFile_BSON dm file = Ok (true, narrow dm (Data DT_Object (V_map m)))).
Proof.
  intros dm m Hsorted Hm.
  exists (int32_bytes (size (document m) + 4) ++ document m). split.
  { unfold WriteBSONFile.
    rewrite (ConvertJSONToBSON_flat m (Forall_impl _ binary_entry_writable Hm)).
    reflexivity. }
  intros Hsmall.
  assert (Hsize : size (document m) + 4 < 2 ^ 31).
  { rewrite size_app in Hsmall. change (size (int32_bytes _)) with 4 in Hsmall. lia. }
  assert (Hplain : Forall (fun e => plain_string (fst e) = true
                                    /\ plain_scalar (snd e) = true) m).
  { eapply Forall_impl; [ | exact Hm ].
    intros e [Hk Hv]. split; [ exact Hk | apply binary_scalar_plain; exact Hv ]. }
  destruct (plain_entries_stand dm m Hplain) as (ms & Hms & Hvalid & Hn).
  destruct m as [| [k x] m].
  { destruct dm; vm_compute; reflexivity. }
  destruct ms as [| [k' sc] ms]; [ discriminate Hms | ].
  destruct (entries_stand_for_cons _ _ _ _ _ _ Hms) as (<- & _ & _).
  inversion Hvalid as [| ? ? [Hk Hsc] Hvalid']; subst. cbn [fst snd] in Hk, Hsc.
  assert (Hsorted' : sorted_keys (entries_of dm ((k, sc) :: ms))).
  { unfold sorted_keys in *. rewrite (entries_stand_for_keys _ _ Hms) in Hsorted.
    unfold entries_of. rewrite map_map. exact Hsorted. }
  rewrite (ParseFile_BSON_text dm _ (spaced_text k sc ms));
    [ | discriminate | apply (ConvertBSONToJSON_flat k x m sc ms Hm Hms Hsize)
      | discriminate ].
  unfold ParseContent. rewrite (Tokenization_spaced_object dm k sc ms Hk Hsc Hvalid').
  cbn [bind]. unfold object_lexed at 1.
  rewrite (ParseJSONContents_object dm k sc ms Hsc Hvalid' Hsorted').
  cbn [narrow]. rewrite Hn. reflexivity.
Qed.

Lemma binary_flat_object_round_trip_witness :
  exists file : list Z,
    WriteBSONFile (Data DT_Object (V_map binary_sample)) = Ok (Some file)
    /\ ParseFile_BSON LP64 file
       = Ok (true, narrow LP64 (Data DT_Object (V_map binary_sample))).
Proof.
  destruct (binary_flat_object_round_trip LP64 binary_sample)
    as (file & Hwrite & Hread).
  - repeat constructor.
  - repeat constructor.
  - exists file. split; [ exact Hwrite | ].
    apply Hread. vm_compute in Hwrite. injection Hwrite as <-. reflexivity.
Defined.

(** ** A null value in the binary form *)

Lemma decode_element_unsupported :
  forall (s : list Z) (t : Z) (st : DecoderState),
    supported_type t = false ->
    decode_element s t st = Throw (runtime_error "Unsupported type!").
Proof.
  intros s t st Ht. unfold supported_type in Ht.
  repeat (apply orb_false_elim in Ht; destruct Ht as [Ht ?]).
  unfold decode_element.
  repeat match goal with
         | E : (t =? _) = false |- _ => rewrite E; clear E
         end.
  reflexivity.
Qed.

(** No character of a key, and not the byte that ends it, is a type the
    decoder knows. *)
Lemma key_head_unsupported :
  forall (k rest : list Z) (c : Z) (tl : list Z),
    plain_string k = true ->
    k ++ 0 :: rest = c :: tl ->
    supported_type c = false.
Proof.
  intros [| c' k] rest c tl Hk H; cbn [app] in H; inversion H; subst;
    [ reflexivity | ].
  cbn [plain_string forallb] in Hk. apply andb_prop in Hk. destruct Hk as [Hc _].
  destruct (plain_char_spec c Hc) as (Hrange & _).
  unfold supported_type, BSON_NullValue, BSON_Boolean, BSON_Int, BSON_Timestamp,
    BSON_UTCDateTime, BSON_Int64, BSON_Double, BSON_JSCode, BSON_String, BSON_Array,
    BSON_BinaryData.
  repeat match goal with
         | |- context [c =? ?n] => destruct (Z.eqb_spec c n); [ lia | ]
         end.
  reflexivity.
Qed.

Lemma ParseFile_BSON_throw :
  forall (dm : DataModel) (file : list Z) (e : exn),
    file <> [] ->
    ConvertBSONToJSON file = Throw e ->
    ParseFile_BSON dm file = Throw e.
Proof.
  intros dm file e Hfile Hthrow. unfold ParseFile_BSON.
  destruct file; [ contradiction Hfile; reflexivity | ].
  rewrite Hthrow. reflexivity.
Qed.

Lemma entries_stand :
  forall m : list (list Z * havJSONData),
    Forall writable_entry m ->
    exists ms : list (list Z * scalar), entries_stand_for m ms.
Proof.
  intros m Hm. induction Hm as [| [k v] m [_ Hv] _ (ms & IH)].
  - exists []. reflexivity.
  - cbn [snd] in Hv. destruct (writable_scalar_of v Hv) as (sc & Hsc & _).
    exists ((k, sc) :: ms). unfold entries_stand_for in *.
    cbn [map fst snd]. rewrite Hsc, IH. reflexivity.
Qed.

Lemma document_app :
  forall a b : list (list Z * havJSONData),
    document (a ++ b) = concat (map element a) ++ document b.
Proof.
  intros a b. unfold document. rewrite map_app, concat_app, app_assoc. reflexivity.
Qed.

(** X21: a null value that is not the last entry of an object does not
    come back from the binary form.  The encoder writes the file; the
    decoder, which reads no byte for the null, steps over the type byte
    of the next element, takes the first byte of its key for a type and
    throws [Unsupported type!]. *)
Theorem null_before_an_entry :
  forall (dm : DataModel) (pre post : list (list Z * havJSONData))
         (k k' : list Z) (v' : havJSONData),
    Forall binary_entry pre ->
    plain_string k = true ->
    Forall writable_entry ((k', v') :: post) ->
    exists file : list Z,
      WriteBSONFile
        (Data DT_Object (V_map (pre ++ (k, null_value) :: (k', v') :: post)))
      = Ok (Some file)
      /\ (size file < 2 ^ 31 ->
          ParseFile_BSON dm file = Throw (runtime_error "Unsupported type!")).
Proof.
  intros dm pre post k k' v' Hpre Hk Hpost.
  set (m := pre ++ (k, null_value) :: (k', v') :: post).
  assert (Hm : Forall writable_entry m).
  { apply Forall_app. split.
    - eapply Forall_impl; [ apply binary_entry_writable | exact Hpre ].
    - constructor; [ split; [ exact Hk | reflexivity ] | exact Hpost ]. }
  exists (int32_bytes (size (document m) + 4) ++ document m). split.
  { unfold WriteBSONFile. rewrite (ConvertJSONToBSON_flat m Hm). reflexivity. }
  intros Hsmall.
  assert (Hsize : size (document m) + 4 < 2 ^ 31).
  { rewrite size_app in Hsmall. change (size (int32_bytes _)) with 4 in Hsmall. lia. }
  apply ParseFile_BSON_throw; [ discriminate | ].
  set (stream := document m) in *.
  set (file := int32_bytes (size stream + 4) ++ stream).
  assert (Hfrom : from 4 file = stream) by (apply (from_size_app (int32_bytes _))).
  destruct (entries_stand pre (Forall_impl _ binary_entry_writable Hpre))
    as (pms & Hpms).
  set (tail := k' ++ 0 :: value_bytes v' ++ document post).
  assert (Hstream : stream
                    = concat (map element pre)
                        ++ BSON_NullValue :: k ++ 0 :: type_of_value v' :: tail).
  { unfold stream, m, tail. rewrite document_app, document_cons, document_cons.
    unfold element. cbn [fst snd app]. rewrite <- !app_assoc. reflexivity. }
  assert (Hlen : Z.of_nat (length pre) <= size (concat (map element pre))).
  { pose proof (size_document pre) as H. unfold document in H.
    rewrite size_app in H. change (size [0]) with 1 in H. lia. }
  assert (Htotal : size stream
                   = size (concat (map element pre)) + size k + 3 + size tail).
  { rewrite Hstream, size_app, size_cons, size_app, !size_cons. lia. }
  assert (Htail : 2 <= size tail).
  { unfold tail. rewrite size_app, size_cons, size_app.
    pose proof (size_document post). unfold size in *. lia. }
  assert (Hk0 : 0 <= size k) by (unfold size; lia).
  unfold ConvertBSONToJSON.
  unfold file at 1. rewrite (GetBSONValueSize_prefix stream Hsize). cbn [bind].
  replace (S (Z.to_nat (size stream + 4)))
    with (length pre + S (S (Z.to_nat (size stream + 4) - length pre - 1)))%nat
    by lia.
  rewrite Hstream in Hfrom.
  rewrite (ConvertBSONToJSON_loop_elements pre pms _ file 4 (size stream + 4)
             (str "{") _ Hpre Hpms ltac:(lia) Hfrom ltac:(lia)).
  set (index := 4 + size (concat (map element pre))).
  assert (Hi : 0 <= index) by (unfold index; lia).
  pose proof (from_app (concat (map element pre)) file 4 _ ltac:(lia) Hfrom) as Hnull.
  fold index in Hnull.
  destruct (decode_key_plain file index k _ _ (str "{" ++ entries_text pms) Hk Hi
              Hnull) as [Hkey Hnext].
  (* the null *)
  cbn [ConvertBSONToJSON_loop d_index typeMemory jsonContent back bind].
  destruct (Z.leb_spec (size stream + 4) index); [ unfold index in *; lia | ].
  destruct (Z.eqb_spec (index + 1) (size stream + 4)); [ unfold index in *; lia | ].
  rewrite (byte_at_from file index _ _ Hi Hnull). cbn [bind].
  change (decode_element file BSON_NullValue
            (mkDecoderState index [] (str "{" ++ entries_text pms)))
    with (st <- decode_key file
                  (mkDecoderState index [] (str "{" ++ entries_text pms)) ;;
          Ok (decode_count 0 (append_content st (d_index st) (str "null")))).
  rewrite Hkey. cbn [bind]. unfold decode_count, decode_close, append_content.
  cbn [typeMemory d_index jsonContent bind].
  (* the byte after the type of the next element *)
  destruct (Z.leb_spec (size stream + 4) (index + size k + 2 + 1));
    [ unfold index in *; lia | ].
  destruct (Z.eqb_spec (index + size k + 2 + 1 + 1) (size stream + 4));
    [ unfold index in *; lia | ].
  destruct (from_cons _ _ _ _ Hnext ltac:(lia)) as (_ & _ & Hbyte).
  destruct tail as [| c tl] eqn:Etail; [ change (size []) with 0 in Htail; lia | ].
  rewrite (byte_at_from file (index + size k + 2 + 1) c tl ltac:(lia) Hbyte).
  cbn [bind].
  rewrite decode_element_unsupported; [ reflexivity | ].
  inversion Hpost as [| ? ? [Hk' _] _]; subst. cbn [fst] in Hk'.
  apply (key_head_unsupported k' (value_bytes v' ++ document post) c tl Hk').
  exact Etail.
Qed.

Lemma null_before_an_entry_witness :
  exists file : list Z,
    WriteBSONFile
      (Data DT_Object
         (V_map [(str "a", Data DT_UInt (V_uint 1)); (str "b", null_value);
                 (str "c", Data DT_Boolean (V_bool true))]))
    = Ok (Some file)
    /\ ParseFile_BSON LP64 file = Throw (runtime_error "Unsupported type!").
Proof.
  destruct (null_before_an_entry LP64 [(str "a", Data DT_UInt (V_uint 1))] []
              (str "b") (str "c") (Data DT_Boolean (V_bool true)))
    as (file & Hwrite & Hread).
  - repeat constructor.
  - reflexivity.
  - repeat constructor.
  - exists file. split; [ exact Hwrite | ].
    apply Hread. vm_compute in Hwrite. injection Hwrite as <-. reflexivity.
Defined.
(** * What the parser lets pass *)

(** ** A scalar at the top of a text *)

(** The last branch of [CheckTypeToken] with no container open, at a
    scalar. *)
Lemma CheckTypeToken_root_scalar :
  forall (dm : DataModel) (sc : scalar) (s : list Z) (index : Z) (rest : list Z)
         (mTokens : list havJSONTokenValue),
    valid_scalar sc ->
    0 <= index ->
    from index s = text_of sc ++ rest ->
    stops rest ->
    CheckTypeToken dm None_ index s mTokens
    = Ok (token_of dm sc, index + size (text_of sc) - 1, mTokens).
Proof.
  intros dm sc s index rest mTokens Hv Hi Hfrom Hstop.
  destruct (text_of_head sc Hv) as (c & tl & Hs & Hws & Htok & Hsv).
  unfold CheckTypeToken. pose proof Hfrom as Hfrom'. rewrite Hs in Hfrom'.
  cbn [app] in Hfrom'. rewrite Hfrom'.
  cbn [CheckTypeToken_other]. rewrite Hws, Htok, Hsv. cbn [havJSONToken_eqb].
  rewrite (CheckValueToken_scalar_stop dm sc s index c tl rest Hv Hs Hi Hfrom Hstop).
  reflexivity.
Qed.

Lemma Tokenization_body_root_scalar :
  forall (dm : DataModel) (sc : scalar) (s : list Z) (index : Z) (rest : list Z),
    valid_scalar sc ->
    0 <= index ->
    from index s = text_of sc ++ rest ->
    stops rest ->
    Tokenization_body dm s index (mkLexerState [] None_ [] [] 0)
    = Ok (mkLexerState [token_of dm sc] None_ [] [] 0,
          index + size (text_of sc) - 1).
Proof.
  intros dm sc s index rest Hv Hi Hfrom Hstop.
  destruct (text_of_head sc Hv) as (c & tl & Hs & Hws & Htok & Hsv).
  pose proof Hfrom as Hfrom'. rewrite Hs in Hfrom'. cbn [app] in Hfrom'.
  read_char Hfrom' Hat Hsz.
  unfold Tokenization_body. rewrite Hat, Hws, Htok.
  cbn -[Z.add Z.sub from at_ size CheckTypeToken text_of token_of].
  replace (index - 1 + 1) with index by lia.
  rewrite (CheckTypeToken_root_scalar dm sc s index rest [] Hv Hi Hfrom Hstop).
  cbn [bind]. value_token_facts dm sc. rewrite Hnone, Hleft. cbn [negb].
  reflexivity.
Qed.

(** X22: a scalar alone is no document.  Of the text of a null, a
    boolean, an integer or a plain string the lexer makes one token, and
    [ParseContent] returns false without an exception and leaves a null
    value. *)
Theorem top_level_scalar_is_not_parsed :
  forall (dm : DataModel) (sc : scalar),
    valid_scalar sc ->
    Tokenization dm (text_of sc) = Ok [token_of dm sc]
    /\ ParseContent dm (text_of sc) = Ok (false, havJSONData_of_type DT_Null).
Proof.
  intros dm sc Hv.
  assert (Hlex : Tokenization dm (text_of sc) = Ok [token_of dm sc]).
  { unfold Tokenization. set (s := text_of sc).
    assert (Hfrom : from 0 s = text_of sc ++ []) by (rewrite app_nil_r; reflexivity).
    destruct (text_of_head sc Hv) as (c & tl & Hs & _).
    assert (Hsize : size s = size tl + 1)
      by (unfold s; rewrite Hs; apply size_cons).
    assert (Htl : 0 <= size tl) by (unfold size; lia).
    assert (Hlen : length s = S (length tl)) by (unfold s; rewrite Hs; reflexivity).
    rewrite Hlen. cbn [Tokenization_loop].
    destruct (Z.leb_spec (size s) 0); [ lia | ].
    rewrite (Tokenization_body_root_scalar dm sc s 0 [] Hv ltac:(lia) Hfrom I).
    cbn [bind]. fold s.
    destruct (Z.leb_spec (size s) (0 + size s - 1 + 1)); [ | lia ].
    destruct (length tl); reflexivity. }
  split; [ exact Hlex | ].
  unfold ParseContent. rewrite Hlex. cbn [bind]. unfold ParseJSONContents.
  value_token_facts dm sc. rewrite Hleft. reflexivity.
Qed.

Lemma top_level_scalar_is_not_parsed_witness :
  Tokenization LP64 (text_of (Sc_integer 123)) = Ok [token_of LP64 (Sc_integer 123)]
  /\ ParseContent LP64 (text_of (Sc_integer 123))
     = Ok (false, havJSONData_of_type DT_Null).
Proof.
  apply (top_level_scalar_is_not_parsed LP64 (Sc_integer 123)).
  cbn [valid_scalar]. lia.
Defined.

(** ** A container that is not closed *)

(** The compact text of a flat array and of a flat object without the
    closing bracket, and the tokens the lexer makes of them. *)
Fixpoint open_array_tail (l : list scalar) : list Z :=
  match l with
  | [] => []
  | sc :: l' => ch "," :: text_of sc ++ open_array_tail l'
  end.

Definition open_array_text (sc : scalar) (l : list scalar) : list Z :=
  ch "[" :: text_of sc ++ open_array_tail l.

Fixpoint open_object_tail (m : list (list Z * scalar)) : list Z :=
  match m with
  | [] => []
  | e :: m' =>
      ch "," :: key_text (fst e) ++ ch ":" :: text_of (snd e) ++ open_object_tail m'
  end.

Definition open_object_text (k : list Z) (sc : scalar) (m : list (list Z * scalar))
  : list Z :=
  ch "{" :: key_text k ++ ch ":" :: text_of sc ++ open_object_tail m.

Fixpoint open_tail (dm : DataModel) (l : list scalar) : list havJSONTokenValue :=
  match l with
  | [] => []
  | sc :: l' => structural Comma :: token_of dm sc :: open_tail dm l'
  end.

Fixpoint open_entries (dm : DataModel) (m : list (list Z * scalar))
  : list havJSONTokenValue :=
  match m with
  | [] => []
  | e :: m' =>
      structural Comma :: name_token (fst e) :: structural Colon
        :: token_of dm (snd e) :: open_entries dm m'
  end.

Lemma removelast_array_tail :
  forall l : list scalar, removelast (array_tail l) = open_array_tail l.
Proof.
  induction l as [| sc l IH]; [ reflexivity | ].
  cbn [array_tail open_array_tail].
  change (ch "," :: text_of sc ++ array_tail l)
    with ((ch "," :: text_of sc) ++ array_tail l).
  rewrite removelast_app by (destruct l; discriminate).
  rewrite IH. reflexivity.
Qed.

Lemma removelast_array_text :
  forall (sc : scalar) (l : list scalar),
    removelast (array_text sc l) = open_array_text sc l.
Proof.
  intros sc l. unfold array_text, open_array_text.
  change (ch "[" :: text_of sc ++ array_tail l)
    with ((ch "[" :: text_of sc) ++ array_tail l).
  rewrite removelast_app by (destruct l; discriminate).
  rewrite removelast_array_tail. reflexivity.
Qed.

Lemma removelast_object_tail :
  forall m : list (list Z * scalar), removelast (object_tail m) = open_object_tail m.
Proof.
  induction m as [| [k sc] m IH]; [ reflexivity | ].
  cbn [object_tail open_object_tail fst snd].
  replace (ch "," :: key_text k ++ ch ":" :: text_of sc ++ object_tail m)
    with ((ch "," :: key_text k ++ ch ":" :: text_of sc) ++ object_tail m)
    by (cbn [app]; rewrite <- app_assoc; reflexivity).
  rewrite removelast_app by (destruct m; discriminate).
  rewrite IH. cbn [app]. rewrite <- app_assoc. reflexivity.
Qed.

Lemma removelast_object_text :
  forall (k : list Z) (sc : scalar) (m : list (list Z * scalar)),
    removelast (object_text k sc m) = open_object_text k sc m.
Proof.
  intros k sc m. unfold object_text, open_object_text.
  replace (ch "{" :: key_text k ++ ch ":" :: text_of sc ++ object_tail m)
    with ((ch "{" :: key_text k ++ ch ":" :: text_of sc) ++ object_tail m)
    by (cbn [app]; rewrite <- app_assoc; reflexivity).
  rewrite removelast_app by (destruct m; discriminate).
  rewrite removelast_object_tail. cbn [app]. rewrite <- app_assoc. reflexivity.
Qed.

Lemma open_array_tail_stops : forall l : list scalar, stops (open_array_tail l).
Proof. intros [| sc l]; [ exact I | reflexivity ]. Qed.

Lemma open_object_tail_stops :
  forall m : list (list Z * scalar), stops (open_object_tail m).
Proof. intros [| e m]; [ exact I | reflexivity ]. Qed.

Section open_lexer.

Variable dm : DataModel.
Variable s : list Z.

Lemma Tokenization_loop_open_array :
  forall (l : list scalar) (fuel : nat) (index : Z) (mTokens : list havJSONTokenValue),
    Forall valid_scalar l ->
    0 <= index ->
    from index s = open_array_tail l ->
    (length (open_array_tail l) < fuel)%nat ->
    exists st : LexerState,
      Tokenization_loop dm fuel s index (in_root LeftSquareBracket mTokens) = Ok st
      /\ lx_mTokens st = mTokens ++ open_tail dm l.
Proof.
  induction l as [| sc l IH]; intros fuel index mTokens Hl Hi Hfrom Hfuel.
  - cbn [open_array_tail open_tail length] in *.
    destruct fuel as [| fuel]; [ lia | ].
    cbn [Tokenization_loop]. rewrite (from_nil s index Hi Hfrom).
    eexists. split; [ reflexivity | ]. cbn [lx_mTokens in_root].
    symmetry. apply app_nil_r.
  - inversion Hl as [| ? ? Hsc Hl']; subst.
    cbn [open_array_tail] in Hfrom, Hfuel.
    destruct fuel as [| fuel]; [ cbn in Hfuel; lia | ].
    cbn [Tokenization_loop].
    rewrite (Tokenization_body_array_comma_gap dm sc [] s index
               (open_array_tail l) mTokens Hsc (Forall_nil _) Hi Hfrom
               (open_array_tail_stops l)).
    change (size []) with 0.
    read_char Hfrom Hat Hsz. rewrite Hsz. cbn [bind].
    pose proof (from_app (text_of sc) s (index + 1) _ ltac:(lia) Hfrom) as Hnext.
    destruct (IH fuel (index + 0 + size (text_of sc) + 1)
                (mTokens ++ [structural Comma; token_of dm sc]) Hl')
      as (st & Hloop & Htok).
    + unfold size. lia.
    + rewrite <- Hnext. f_equal. lia.
    + cbn [length] in Hfuel. rewrite !length_app in Hfuel. lia.
    + exists st. split; [ exact Hloop | ].
      rewrite Htok. cbn [open_tail]. rewrite <- app_assoc. reflexivity.
Qed.

Lemma Tokenization_loop_open_object :
  forall (m : list (list Z * scalar)) (fuel : nat) (index : Z)
         (mTokens : list havJSONTokenValue),
    Forall valid_entry m ->
    0 <= index ->
    from index s = open_object_tail m ->
    (length (open_object_tail m) < fuel)%nat ->
    exists st : LexerState,
      Tokenization_loop dm fuel s index (in_root LeftCurlyBracket mTokens) = Ok st
      /\ lx_mTokens st = mTokens ++ open_entries dm m.
Proof.
  induction m as [| [k sc] m IH]; intros fuel index mTokens Hm Hi Hfrom Hfuel.
  - cbn [open_object_tail open_entries length] in *.
    destruct fuel as [| fuel]; [ lia | ].
    cbn [Tokenization_loop]. rewrite (from_nil s index Hi Hfrom).
    eexists. split; [ reflexivity | ]. cbn [lx_mTokens in_root].
    symmetry. apply app_nil_r.
  - inversion Hm as [| ? ? [Hk Hsc] Hm']; subst. cbn [fst snd] in Hk, Hsc.
    cbn [open_object_tail fst snd] in Hfrom, Hfuel.
    destruct fuel as [| [| fuel]];
      try (cbn [length] in Hfuel; rewrite !length_app in Hfuel; cbn [length] in Hfuel;
           lia).
    cbn [Tokenization_loop].
    rewrite (Tokenization_body_object_comma dm k s index _ mTokens Hk Hi Hfrom).
    read_char Hfrom Hat Hsz. rewrite Hsz. cbn [bind].
    pose proof (from_app (key_text k) s (index + 1) _ ltac:(lia) Hfrom) as Hcolon.
    assert (Hi' : 0 <= index + size (key_text k) + 1) by (unfold size; lia).
    replace (index + 1 + size (key_text k))
      with (index + size (key_text k) + 1) in Hcolon by lia.
    rewrite (Tokenization_body_object_colon_gap dm sc [] s _
               (open_object_tail m) _ Hsc (Forall_nil _) Hi' Hcolon
               (open_object_tail_stops m)).
    change (size []) with 0.
    read_char Hcolon Hat' Hsz'. rewrite Hsz'. cbn [bind].
    assert (Hi'' : 0 <= index + size (key_text k) + 1 + 1) by (unfold size; lia).
    pose proof (from_app (text_of sc) s _ _ Hi'' Hcolon) as Hnext.
    destruct (IH fuel
                (index + size (key_text k) + 1 + 0 + size (text_of sc) + 1)
                ((mTokens ++ [structural Comma; name_token k])
                   ++ [structural Colon; token_of dm sc]) Hm')
      as (st & Hloop & Htok).
    + unfold size. lia.
    + rewrite <- Hnext. f_equal. lia.
    + cbn [length] in Hfuel. rewrite !length_app in Hfuel. cbn [length] in Hfuel.
      rewrite !length_app in Hfuel. lia.
    + exists st. split; [ exact Hloop | ].
      rewrite Htok. cbn [open_entries fst snd]. rewrite <- !app_assoc.
      reflexivity.
Qed.

End open_lexer.

Lemma Tokenization_open_array :
  forall (dm : DataModel) (sc : scalar) (l : list scalar),
    valid_scalar sc ->
    Forall valid_scalar l ->
    Tokenization dm (open_array_text sc l)
    = Ok (structural LeftSquareBracket :: token_of dm sc :: open_tail dm l).
Proof.
  intros dm sc l Hsc Hl. unfold Tokenization.
  set (s := open_array_text sc l).
  assert (Hfrom : from 0 s = ch "[" :: [] ++ text_of sc ++ open_array_tail l)
    by reflexivity.
  cbn [Tokenization_loop].
  rewrite (Tokenization_body_array_open_gap dm sc [] s 0 (open_array_tail l) Hsc
             (Forall_nil _) ltac:(lia) Hfrom (open_array_tail_stops l)).
  change (size []) with 0. cbn [app] in Hfrom.
  read_char Hfrom Hat Hsz. rewrite Hsz. cbn [bind].
  pose proof (from_app (text_of sc) s (0 + 1) _ ltac:(lia) Hfrom) as Hnext.
  destruct (Tokenization_loop_open_array dm s l (length s)
              (0 + 0 + size (text_of sc) + 1)
              [structural LeftSquareBracket; token_of dm sc] Hl)
    as (st & Hloop & Htok).
  - unfold size. lia.
  - rewrite <- Hnext. f_equal. lia.
  - unfold s, open_array_text. cbn [length]. rewrite !length_app. lia.
  - rewrite Hloop. cbn [bind]. rewrite Htok. reflexivity.
Qed.

Lemma Tokenization_open_object :
  forall (dm : DataModel) (k : list Z) (sc : scalar) (m : list (list Z * scalar)),
    plain_string k = true ->
    valid_scalar sc ->
    Forall valid_entry m ->
    Tokenization dm (open_object_text k sc m)
    = Ok (structural LeftCurlyBracket :: name_token k :: structural Colon
            :: token_of dm sc :: open_entries dm m).
Proof.
  intros dm k sc m Hk Hsc Hm. unfold Tokenization.
  set (s := open_object_text k sc m).
  assert (Hfrom : from 0 s
                  = ch "{" :: key_text k ++ ch ":" :: [] ++ text_of sc
                      ++ open_object_tail m) by reflexivity.
  assert (Hlen : (length (key_text k ++ ch ":" :: text_of sc
                            ++ open_object_tail m) < length s)%nat).
  { unfold s, open_object_text. cbn [length]. lia. }
  destruct (length s) as [| fuel] eqn:Efuel; [ lia | ].
  cbn [Tokenization_loop].
  rewrite (Tokenization_body_object_open dm k s 0 _ Hk ltac:(lia) Hfrom).
  read_char Hfrom Hat Hsz. rewrite Hsz. cbn [bind].
  pose proof (from_app (key_text k) s (0 + 1) _ ltac:(lia) Hfrom) as Hcolon.
  assert (Hi' : 0 <= 0 + size (key_text k) + 1) by (unfold size; lia).
  replace (0 + 1 + size (key_text k))
    with (0 + size (key_text k) + 1) in Hcolon by lia.
  rewrite (Tokenization_body_object_colon_gap dm sc [] s _
             (open_object_tail m) _ Hsc (Forall_nil _) Hi' Hcolon
             (open_object_tail_stops m)).
  change (size []) with 0. cbn [app] in Hcolon.
  read_char Hcolon Hat' Hsz'. rewrite Hsz'. cbn [bind].
  assert (Hi'' : 0 <= 0 + size (key_text k) + 1 + 1) by (unfold size; lia).
  pose proof (from_app (text_of sc) s _ _ Hi'' Hcolon) as Hnext.
  destruct (Tokenization_loop_open_object dm s m fuel
              (0 + size (key_text k) + 1 + 0 + size (text_of sc) + 1)
              ([structural LeftCurlyBracket; name_token k]
                 ++ [structural Colon; token_of dm sc]) Hm)
    as (st & Hloop & Htok).
  - unfold size. lia.
  - rewrite <- Hnext. f_equal. lia.
  - rewrite !length_app in Hlen. cbn [length] in Hlen. rewrite !length_app in Hlen.
    lia.
  - rewrite Hloop. cbn [bind]. rewrite Htok. reflexivity.
Qed.

Section open_builder.

Variable dm : DataModel.

Lemma ParseJSONContents_loop_open :
  forall (l : list scalar) (fuel : nat) (acc : list havJSONData),
    Forall valid_scalar l ->
    (2 * length l < fuel)%nat ->
    exists st : BuilderState,
      ParseJSONContents_loop dm fuel
        (mkBuilderState (open_tail dm l) [[]] (Some (Data DT_Array (V_vector acc))))
      = Ok (Some st)
      /\ rootNode st = Some (Data DT_Array (V_vector (acc ++ map (node_of dm) l))).
Proof.
  induction l as [| sc l IH]; intros fuel acc Hl Hfuel.
  - cbn [open_tail map]. rewrite app_nil_r.
    destruct fuel as [| fuel]; [ lia | ].
    eexists. split; reflexivity.
  - inversion Hl as [| ? ? Hsc Hl']; subst.
    destruct fuel as [| [| fuel]]; try (cbn in Hfuel; lia).
    cbn [open_tail].
    cbn [ParseJSONContents_loop b_mTokens].
    rewrite ParseJSONContents_body_comma. cbn [bind b_mTokens].
    rewrite (ParseJSONContents_body_array_value dm (token_of dm sc) (node_of dm sc)
               _ acc (token_of_value dm sc) (make_value_scalar dm sc Hsc)).
    cbn [bind].
    destruct (IH fuel (acc ++ [node_of dm sc]) Hl') as (st & Hloop & Hroot).
    { cbn [length] in Hfuel. lia. }
    exists st. split; [ exact Hloop | ].
    rewrite Hroot. cbn [map]. rewrite <- app_assoc. reflexivity.
Qed.

Lemma open_tail_length :
  forall l : list scalar, length (open_tail dm l) = (2 * length l)%nat.
Proof. induction l as [| sc l IH]; cbn [open_tail length]; lia. Qed.

Lemma ParseJSONContents_open_array :
  forall (sc : scalar) (l : list scalar),
    valid_scalar sc ->
    Forall valid_scalar l ->
    ParseJSONContents dm
      (structural LeftSquareBracket :: token_of dm sc :: open_tail dm l)
    = Ok (Some (Data DT_Array (V_vector (map (node_of dm) (sc :: l))))).
Proof.
  intros sc l Hsc Hl. unfold ParseJSONContents.
  cbn [mToken structural is_left havJSONToken_eqb orb negb].
  cbn [ParseJSONContents_loop b_mTokens].
  rewrite (ParseJSONContents_body_array_open dm (token_of dm sc) (node_of dm sc) _
             (token_of_value dm sc) (make_value_scalar dm sc Hsc)).
  cbn [bind].
  destruct (ParseJSONContents_loop_open l
              (length (structural LeftSquareBracket :: token_of dm sc
                         :: open_tail dm l))
              [node_of dm sc] Hl)
    as (st & Hloop & Hroot).
  - cbn [length]. rewrite open_tail_length. lia.
  - rewrite Hloop. cbn [bind]. rewrite Hroot. reflexivity.
Qed.

Lemma ParseJSONContents_loop_open_object :
  forall (m : list (list Z * scalar)) (fuel : nat)
         (acc : list (list Z * havJSONData)),
    Forall valid_entry m ->
    (2 * length m < fuel)%nat ->
    exists st : BuilderState,
      ParseJSONContents_loop dm fuel
        (mkBuilderState (open_entries dm m) [[]]
           (Some (Data DT_Object (V_map acc))))
      = Ok (Some st)
      /\ rootNode st = Some (Data DT_Object (V_map (inserted dm acc m))).
Proof.
  induction m as [| [k sc] m IH]; intros fuel acc Hm Hfuel.
  - cbn [open_entries inserted fold_left].
    destruct fuel as [| fuel]; [ lia | ].
    eexists. split; reflexivity.
  - inversion Hm as [| ? ? [Hk Hsc] Hm']; subst. cbn [fst snd] in Hk, Hsc.
    destruct fuel as [| [| fuel]]; try (cbn in Hfuel; lia).
    cbn [open_entries fst snd].
    cbn [ParseJSONContents_loop b_mTokens].
    rewrite ParseJSONContents_body_comma. cbn [bind b_mTokens].
    unfold name_token at 1.
    rewrite (ParseJSONContents_body_object_pair dm k (token_of dm sc) (node_of dm sc)
               _ acc (token_of_value dm sc) (make_value_scalar dm sc Hsc)).
    cbn [bind].
    destruct (IH fuel (map_insert k (node_of dm sc) acc) Hm') as (st & Hloop & Hroot).
    { cbn [length] in Hfuel. lia. }
    exists st. split; [ exact Hloop | ].
    rewrite Hroot. reflexivity.
Qed.

Lemma open_entries_length :
  forall m : list (list Z * scalar), (2 * length m <= length (open_entries dm m))%nat.
Proof. induction m as [| e m IH]; cbn [open_entries length]; lia. Qed.

Lemma ParseJSONContents_open_object :
  forall (k : list Z) (sc : scalar) (m : list (list Z * scalar)),
    valid_scalar sc ->
    Forall valid_entry m ->
    ParseJSONContents dm
      (structural LeftCurlyBracket :: name_token k :: structural Colon
         :: token_of dm sc :: open_entries dm m)
    = Ok (Some (Data DT_Object (V_map (inserted dm [] ((k, sc) :: m))))).
Proof.
  intros k sc m Hsc Hm. unfold ParseJSONContents.
  cbn [mToken structural is_left havJSONToken_eqb orb negb].
  cbn [ParseJSONContents_loop b_mTokens].
  rewrite (ParseJSONContents_body_object_open dm k (token_of dm sc) (node_of dm sc) _
             (token_of_value dm sc) (make_value_scalar dm sc Hsc)).
  cbn [bind].
  destruct (ParseJSONContents_loop_open_object m
              (length (structural LeftCurlyBracket :: name_token k
                         :: structural Colon :: token_of dm sc
                         :: open_entries dm m))
              [(k, node_of dm sc)] Hm)
    as (st & Hloop & Hroot).
  - cbn [length]. pose proof (open_entries_length m). lia.
  - rewrite Hloop. cbn [bind]. rewrite Hroot. reflexivity.
Qed.

End open_builder.

(** X23: the bracket that closes the root is not asked for.  The compact
    text of a flat value that has an element, with its last character
    (the closing bracket) taken away, is parsed without an exception to
    the value the whole text gives. *)
Theorem closing_bracket_is_not_required :
  forall (dm : DataModel) (v : havJSONData),
    flat v ->
    getValue v <> V_map [] ->
    exists text : list Z,
      ConvertJSONToString v = Ok (Some text)
      /\ ParseContent dm text = Ok (true, narrow dm v)
      /\ ParseContent dm (removelast text) = Ok (true, narrow dm v).
Proof.
  intros dm [t p] H Hne. unfold flat in H. cbn [getType getValue] in H, Hne.
  destruct t; try contradiction; destruct p as [| | | | | | | | | | l | m];
    try contradiction.
  - (* an array *)
    destruct H as [Hnil Hall].
    destruct (plain_scalars_stand dm l Hall) as (scs & Hl & Hvalid & Hn).
    destruct l as [| x vs]; [ contradiction Hnil; reflexivity | ].
    destruct scs as [| sc scs]; [ discriminate Hl | ].
    inversion Hvalid as [| ? ? Hsc Hvalid']; subst.
    destruct (array_round_trip dm x vs sc scs Hl Hsc Hvalid') as [Hcompact Hback].
    exists (array_text sc scs). cbn [narrow]. rewrite Hn.
    split; [ exact Hcompact | ]. split; [ exact Hback | ].
    rewrite removelast_array_text. unfold ParseContent.
    rewrite (Tokenization_open_array dm sc scs Hsc Hvalid'). cbn [bind].
    rewrite (ParseJSONContents_open_array dm sc scs Hsc Hvalid'). reflexivity.
  - (* an object *)
    destruct H as [Hsorted Hall].
    destruct (plain_entries_stand dm m Hall) as (ms & Hms & Hvalid & Hn).
    destruct m as [| [k x] m]; [ contradiction Hne; reflexivity | ].
    destruct ms as [| [k' sc] ms]; [ discriminate Hms | ].
    destruct (entries_stand_for_cons _ _ _ _ _ _ Hms) as (<- & _ & _).
    inversion Hvalid as [| ? ? [Hk Hsc] Hvalid']; subst. cbn [fst snd] in Hk, Hsc.
    destruct (object_round_trip dm k x m sc ms Hms Hk Hsc Hvalid' Hsorted)
      as [Hcompact Hback].
    assert (Hsorted' : sorted_keys (entries_of dm ((k, sc) :: ms))).
    { unfold sorted_keys in *. rewrite (entries_stand_for_keys _ _ Hms) in Hsorted.
      unfold entries_of. rewrite map_map. exact Hsorted. }
    exists (object_text k sc ms). cbn [narrow]. rewrite Hn.
    split; [ exact Hcompact | ]. split; [ exact Hback | ].
    rewrite removelast_object_text. unfold ParseContent.
    rewrite (Tokenization_open_object dm k sc ms Hk Hsc Hvalid'). cbn [bind].
    rewrite (ParseJSONContents_open_object dm k sc ms Hsc Hvalid').
    rewrite (inserted_sorted_entries dm ((k, sc) :: ms) [] Hsorted'). reflexivity.
Qed.

Lemma closing_bracket_is_not_required_witness :
  exists text : list Z,
    ConvertJSONToString flat_sample = Ok (Some text)
    /\ ParseContent LP64 text = Ok (true, narrow LP64 flat_sample)
    /\ ParseContent LP64 (removelast text) = Ok (true, narrow LP64 flat_sample).
Proof.
  apply (closing_bracket_is_not_required LP64 flat_sample).
  - split; repeat constructor.
  - discriminate.
Defined.
